(** * Contexts (c-frame.c) and the splice engine (f-modify.c) of Ren-C

    A shallow embedding of the context routines of [src/core/c-frame.c] and
    of the two splice routines of [src/core/f-modify.c], followed by the
    properties proved about them.

    Series live in a store indexed by address, so that two contexts holding
    the same keylist really hold one object; `fail (...)` is an outcome that
    carries the state it leaves behind; a failed `assert` or an access
    outside an array is the outcome [Panic]. *)

From Stdlib Require Import ZArith Bool Lia.
From stdpp Require Import base option list gmap.

Local Open Scope Z_scope.
Set Warnings "-register-all".

(** ** Outcomes

    What a call comes to: a result with the new state, a `fail` with the
    state it leaves behind, or a crash (failed assertion, access outside a
    series). *)

Inductive outcome (St Err A : Type) : Type :=
  | Done (a : A) (s : St)
  | Failed (e : Err) (s : St)
  | Panic.
Arguments Done {St Err A} a s.
Arguments Failed {St Err A} e s.
Arguments Panic {St Err A}.

Definition Mon (St Err A : Type) : Type := St -> outcome St Err A.

#[export] Instance Mon_ret {St Err} : MRet (Mon St Err) :=
  fun A a s => Done a s.
#[export] Instance Mon_bind {St Err} : MBind (Mon St Err) :=
  fun A B f m s =>
    match m s with
    | Done a s' => f a s'
    | Failed e s' => Failed e s'
    | Panic => Panic
    end.

Definition fail {St Err A} (e : Err) : Mon St Err A := fun s => Failed e s.
Definition panic {St Err A} : Mon St Err A := fun _ => Panic.
Definition assert {St Err} (b : bool) : Mon St Err unit :=
  if b then mret tt else panic.

(** [for (n = start; n < start + count; n++) body(n)] *)
Fixpoint for_ {St Err} (start : nat) (count : nat)
    (body : nat -> Mon St Err unit) : Mon St Err unit :=
  match count with
  | O => mret tt
  | S count' => body start;; for_ (S start) count' body
  end.

(** The same with a value carried from one round to the next. *)
Fixpoint for_fold {St Err A} (start : nat) (count : nat)
    (body : nat -> A -> Mon St Err A) (a : A) : Mon St Err A :=
  match count with
  | O => mret a
  | S count' => a' ← body start a; for_fold (S start) count' body a'
  end.

(** A walk over cells [xs], running [body] on each in turn. *)
Definition for_each {St Err A} (body : A -> Mon St Err unit)
  : list A -> Mon St Err unit :=
  fix walk (xs : list A) : Mon St Err unit :=
    match xs with
    | [] => mret tt
    | x :: xs' => body x;; walk xs'
    end.

(** ** Part I: contexts (c-frame.c) *)

Module Frame.

(** Symbols are numbered; [SYM_0] is the reserved "no symbol". *)
Definition REBSYM : Type := nat.
Definition SYM_0 : REBSYM := 0%nat.

(** Addresses of series nodes ([REBSER*], [REBARR*], [REBCTX*]). *)
Definition ptr : Type := positive.

Inductive word_kind : Type :=
  | REB_WORD | REB_SET_WORD | REB_GET_WORD | REB_LIT_WORD
  | REB_REFINEMENT | REB_ISSUE.

Inductive array_kind : Type :=
  | REB_BLOCK | REB_GROUP | REB_PATH | REB_SET_PATH | REB_GET_PATH
  | REB_LIT_PATH.

Inductive context_kind : Type :=
  | REB_OBJECT | REB_MODULE | REB_ERROR | REB_PORT | REB_FRAME.

(** The 64-bit type-membership bitsets the file uses. *)
Definition ALL_64 : Z := 2 ^ 64 - 1.
Definition FLAGIT_KIND_REB_0 : Z := 1.
Definition NOT_FLAGIT_KIND_REB_0 : Z := Z.lxor ALL_64 FLAGIT_KIND_REB_0.

(** A key: what [Val_Init_Typeset] writes, plus the three key flags. *)
Record typeset : Type := mkTypeset {
  ts_sym : REBSYM;
  ts_bits : Z;
  TYPESET_FLAG_HIDDEN : bool;
  TYPESET_FLAG_LOCKED : bool;
  TYPESET_FLAG_LOOKBACK : bool
}.

(** Cells.  An array nested in a value is carried by value (the cells from
    [VAL_ARRAY_AT] on); a context value carries the address of its varlist.
    [AnyContext None _ _] is a rootvar whose header has not been reset yet
    (Alloc_Context leaves it so). *)
Inductive RELVAL : Type :=
  | Trash
  | Void
  | Blank
  | Integer (i : Z)
  | Typeset (t : typeset)
  | AnyWord (k : word_kind) (sym : REBSYM) (binding : option (ptr * Z))
  | AnyArray (k : array_kind) (at_ : list RELVAL)
  | AnyContext (k : option context_kind) (varlist : ptr)
               (exit_from : option ptr).

Definition REBVAL : Type := RELVAL.

Definition Val_Init_Typeset (bits : Z) (sym : REBSYM) : RELVAL :=
  Typeset (mkTypeset sym bits false false false).

Definition IS_VOID (v : RELVAL) : bool :=
  match v with Void => true | _ => false end.
Definition IS_TYPESET (v : RELVAL) : bool :=
  match v with Typeset _ => true | _ => false end.
Definition ANY_WORD (v : RELVAL) : bool :=
  match v with AnyWord _ _ _ => true | _ => false end.
Definition IS_WORD (v : RELVAL) : bool :=
  match v with AnyWord REB_WORD _ _ => true | _ => false end.
Definition IS_SET_WORD (v : RELVAL) : bool :=
  match v with AnyWord REB_SET_WORD _ _ => true | _ => false end.
Definition IS_INTEGER (v : RELVAL) : bool :=
  match v with Integer _ => true | _ => false end.
Definition IS_BLOCK (v : RELVAL) : bool :=
  match v with AnyArray REB_BLOCK _ => true | _ => false end.
Definition ANY_EVAL_BLOCK (v : RELVAL) : bool :=
  match v with
  | AnyArray REB_BLOCK _ | AnyArray REB_GROUP _ => true
  | _ => false
  end.

(** A series node: the cells below [ARR_LEN], the spare capacity, the flags
    the file tests, and the two uses of the link/misc slots (a varlist links
    its keylist; a keylist carries the meta context). *)
Record REBSER : Type := mkSer {
  ser_cells : list RELVAL;
  ser_rest : nat;
  SERIES_FLAG_MANAGED : bool;
  SERIES_FLAG_LOCKED : bool;
  ARRAY_FLAG_CONTEXT_VARLIST : bool;
  KEYLIST_FLAG_SHARED : bool;
  link_keylist : option ptr;
  misc_meta : option ptr
}.

Definition set_cells (c : list RELVAL) (a : REBSER) : REBSER :=
  mkSer c (ser_rest a) (SERIES_FLAG_MANAGED a) (SERIES_FLAG_LOCKED a)
        (ARRAY_FLAG_CONTEXT_VARLIST a) (KEYLIST_FLAG_SHARED a)
        (link_keylist a) (misc_meta a).
Definition set_rest (n : nat) (a : REBSER) : REBSER :=
  mkSer (ser_cells a) n (SERIES_FLAG_MANAGED a) (SERIES_FLAG_LOCKED a)
        (ARRAY_FLAG_CONTEXT_VARLIST a) (KEYLIST_FLAG_SHARED a)
        (link_keylist a) (misc_meta a).
Definition set_managed (a : REBSER) : REBSER :=
  mkSer (ser_cells a) (ser_rest a) true (SERIES_FLAG_LOCKED a)
        (ARRAY_FLAG_CONTEXT_VARLIST a) (KEYLIST_FLAG_SHARED a)
        (link_keylist a) (misc_meta a).
Definition set_varlist_flag (a : REBSER) : REBSER :=
  mkSer (ser_cells a) (ser_rest a) (SERIES_FLAG_MANAGED a)
        (SERIES_FLAG_LOCKED a) true (KEYLIST_FLAG_SHARED a)
        (link_keylist a) (misc_meta a).
Definition set_shared (a : REBSER) : REBSER :=
  mkSer (ser_cells a) (ser_rest a) (SERIES_FLAG_MANAGED a)
        (SERIES_FLAG_LOCKED a) (ARRAY_FLAG_CONTEXT_VARLIST a) true
        (link_keylist a) (misc_meta a).
Definition set_keylist (k : ptr) (a : REBSER) : REBSER :=
  mkSer (ser_cells a) (ser_rest a) (SERIES_FLAG_MANAGED a)
        (SERIES_FLAG_LOCKED a) (ARRAY_FLAG_CONTEXT_VARLIST a)
        (KEYLIST_FLAG_SHARED a) (Some k) (misc_meta a).
Definition set_meta (m : option ptr) (a : REBSER) : REBSER :=
  mkSer (ser_cells a) (ser_rest a) (SERIES_FLAG_MANAGED a)
        (SERIES_FLAG_LOCKED a) (ARRAY_FLAG_CONTEXT_VARLIST a)
        (KEYLIST_FLAG_SHARED a) (link_keylist a) m.

(** The machine state: the series store with its next free address, the
    process-wide [Bind_Table] (indexed by canon symbol) and the cells of
    [BUF_COLLECT] below its length. *)
Record State : Type := mkState {
  heap : gmap positive REBSER;
  next : ptr;
  Bind_Table : gmap nat Z;
  BUF_COLLECT : list RELVAL
}.

Definition with_heap (h : gmap positive REBSER) (s : State) : State :=
  mkState h (next s) (Bind_Table s) (BUF_COLLECT s).
Definition with_binds (b : gmap nat Z) (s : State) : State :=
  mkState (heap s) (next s) b (BUF_COLLECT s).
Definition with_buf (c : list RELVAL) (s : State) : State :=
  mkState (heap s) (next s) (Bind_Table s) c.

Inductive error : Type :=
  | RE_DUP_VARS (v : RELVAL)
  | RE_LOCKED.

Abbreviation M := (Mon State error).

Definition get : M State := fun s => Done s s.
Definition put (s : State) : M unit := fun _ => Done tt s.

Definition SER (p : ptr) : M REBSER := fun s =>
  match heap s !! p with Some a => Done a s | None => Panic end.
Definition store (p : ptr) (a : REBSER) : M unit := fun s =>
  Done tt (with_heap (<[p := a]> (heap s)) s).
Definition modify (p : ptr) (f : REBSER -> REBSER) : M unit :=
  a ← SER p; store p (f a).
Definition alloc (a : REBSER) : M ptr := fun s =>
  Done (next s)
       (mkState (<[next s := a]> (heap s)) (Pos.succ (next s))
                (Bind_Table s) (BUF_COLLECT s)).

(** [binds[c]]: an entry never written reads 0. *)
Definition bind_at (b : gmap nat Z) (c : REBSYM) : Z := default 0 (b !! c).
Definition binds_get (c : REBSYM) : M Z := fun s =>
  Done (bind_at (Bind_Table s) c) s.
Definition binds_set (c : REBSYM) (v : Z) : M unit := fun s =>
  Done tt (with_binds (<[c := v]> (Bind_Table s)) s).

Definition ASSERT_BIND_TABLE_EMPTY : M unit := fun s =>
  if bool_decide (map_Forall (fun _ v => v = 0) (Bind_Table s))
  then Done tt s else Panic.

Definition get_buf : M (list RELVAL) := fun s => Done (BUF_COLLECT s) s.
Definition set_buf (c : list RELVAL) : M unit := fun s =>
  Done tt (with_buf c s).

(** *** Series primitives

    Modelled from the spec: the series layer (allocate-with-capacity,
    append-one-slot, expand-by-N, shallow-copy-with-extra-capacity) is an
    external collaborator of c-frame.c; these follow the spec's section 6.
    A fresh node has no flag set and empty link/misc slots. *)

Definition Make_Array (capacity : nat) : M ptr :=
  alloc (mkSer [] capacity false false false false None None).

Definition Copy_Array_Extra_Shallow (a : ptr) (extra : nat) : M ptr :=
  v ← SER a;
  alloc (mkSer (ser_cells v) extra false false false false None None).

Definition Copy_Array_Shallow (a : ptr) : M ptr :=
  Copy_Array_Extra_Shallow a 0.

(** Grows the length by [n] cells that the caller is yet to write. *)
Definition EXPAND_SERIES_TAIL (a : ptr) (n : nat) : M unit :=
  modify a (fun v =>
    set_rest (ser_rest v - n) (set_cells (ser_cells v ++ replicate n Trash) v)).

(** Makes room for [delta] more cells at the tail; the length stays. *)
Definition Extend_Series (a : ptr) (delta : nat) : M unit :=
  modify a (fun v => set_rest (Nat.max (ser_rest v) delta) v).

Definition MANAGE_ARRAY (a : ptr) : M unit := modify a set_managed.

Definition ARR_LEN (a : ptr) : M nat :=
  v ← SER a; mret (length (ser_cells v)).

(** [*ARR_AT(a, i)], read and written; outside the array it is a crash. *)
Definition ARR_AT (a : ptr) (i : nat) : M RELVAL :=
  v ← SER a;
  match ser_cells v !! i with Some c => mret c | None => panic end.

Definition ARR_PUT (a : ptr) (i : nat) (c : RELVAL) : M unit :=
  v ← SER a;
  if bool_decide (i < length (ser_cells v))%nat
  then store a (set_cells (<[i := c]> (ser_cells v)) v)
  else panic.

(** Returns the index of the new tail cell. *)
Definition Alloc_Tail_Array (a : ptr) : M nat :=
  EXPAND_SERIES_TAIL a 1;; n ← ARR_LEN a; mret (n - 1)%nat.

(** *** Context accessors

    Modelled from the spec: the macros of sys-context.h (absent from the
    sources): a context is its varlist; the varlist links the keylist; the
    keylist holds SHARED (set by INIT_CTX_KEYLIST_SHARED; UNIQUE is its
    absence) and the meta; slot 0 of either array is the root. *)

Definition CTX_KEYLIST (c : ptr) : M ptr :=
  v ← SER c;
  match link_keylist v with Some k => mret k | None => panic end.

Definition CTX_LEN (c : ptr) : M nat :=
  k ← CTX_KEYLIST c; n ← ARR_LEN k; mret (n - 1)%nat.

Definition CTX_VALUE (c : ptr) : M RELVAL := ARR_AT c 0.

Definition CTX_TYPE (c : ptr) : M context_kind :=
  v ← CTX_VALUE c;
  match v with AnyContext (Some k) _ _ => mret k | _ => panic end.

(** [CTX_VAR(c, n)] and [CTX_KEY(c, n)] check [n] in the debug build. *)
Definition CTX_VAR (c : ptr) (n : nat) : M RELVAL :=
  assert (negb (Nat.eqb n 0));; ARR_AT c n.

Definition CTX_VAR_PUT (c : ptr) (n : nat) (v : RELVAL) : M unit :=
  assert (negb (Nat.eqb n 0));; ARR_PUT c n v.

Definition KEY_AT (k : ptr) (n : nat) : M typeset :=
  v ← ARR_AT k n;
  match v with Typeset t => mret t | _ => panic end.

Definition CTX_KEY (c : ptr) (n : nat) : M typeset :=
  assert (negb (Nat.eqb n 0));; k ← CTX_KEYLIST c; KEY_AT k n.

Definition CTX_META (c : ptr) : M (option ptr) :=
  k ← CTX_KEYLIST c; v ← SER k; mret (misc_meta v).

Definition INIT_CONTEXT_META (c : ptr) (m : option ptr) : M unit :=
  k ← CTX_KEYLIST c; modify k (set_meta m).

Definition INIT_CTX_KEYLIST_SHARED (c k : ptr) : M unit :=
  modify k set_shared;; modify c (set_keylist k).

Definition INIT_CTX_KEYLIST_UNIQUE (c k : ptr) : M unit :=
  v ← SER k; assert (negb (KEYLIST_FLAG_SHARED v));;
  modify c (set_keylist k).

(** [cell->payload.any_context.varlist = p], on a rootvar. *)
Definition set_payload_varlist (p : ptr) (c : RELVAL) : M RELVAL :=
  match c with
  | AnyContext k _ e => mret (AnyContext k p e)
  | Trash => mret (AnyContext None p None)
  | _ => panic
  end.

(** *** c-frame.c *)

Definition Alloc_Context (len : nat) : M ptr :=
  varlist ← Make_Array (len + 1);
  modify varlist set_varlist_flag;;
  rootvar ← Alloc_Tail_Array varlist;
  ARR_PUT varlist rootvar (AnyContext None varlist None);;
  keylist ← Make_Array (len + 1);
  rootkey ← Alloc_Tail_Array keylist;
  ARR_PUT keylist rootkey (Val_Init_Typeset ALL_64 SYM_0);;
  modify keylist (set_meta None);;
  INIT_CTX_KEYLIST_UNIQUE varlist keylist;;
  MANAGE_ARRAY keylist;;
  mret varlist.

Definition Expand_Context_Keylist_Core (context : ptr) (delta : nat)
  : M bool :=
  if Nat.eqb delta 0 then mret false else
  keylist ← CTX_KEYLIST context;
  kv ← SER keylist;
  if KEYLIST_FLAG_SHARED kv then
    let meta := misc_meta kv in
    keylist ← Copy_Array_Extra_Shallow keylist delta;
    modify keylist (set_meta meta);;
    MANAGE_ARRAY keylist;;
    INIT_CTX_KEYLIST_UNIQUE context keylist;;
    mret true
  else
    Extend_Series keylist delta;;
    mret false.

Definition Ensure_Keylist_Unique_Invalidated (context : ptr) : M bool :=
  Expand_Context_Keylist_Core context 0.

Definition Expand_Context (context : ptr) (delta : nat) : M unit :=
  Extend_Series context delta;;
  Expand_Context_Keylist_Core context delta;;
  mret tt.

Definition VAL_WORD_SYM (w : RELVAL) : M REBSYM :=
  match w with AnyWord _ sym _ => mret sym | _ => panic end.

(** Returns the word as rebound (when one was given) and the index of the
    new variable in the varlist. *)
Definition Append_Context_Core (context : ptr) (word : option RELVAL)
    (sym : REBSYM) (lookahead : bool) : M (option RELVAL * nat) :=
  keylist ← CTX_KEYLIST context;
  EXPAND_SERIES_TAIL keylist 1;;
  klen ← ARR_LEN keylist;
  ksym ← match word with Some w => VAL_WORD_SYM w | None => mret sym end;
  ARR_PUT keylist (klen - 1)
    (Typeset (mkTypeset ksym ALL_64 false false lookahead));;
  EXPAND_SERIES_TAIL context 1;;
  vlen ← ARR_LEN context;
  ARR_PUT context (vlen - 1) Void;;
  match word with
  | Some w =>
      len ← CTX_LEN context;
      assert (Nat.eqb sym SYM_0);;
      match w with
      | AnyWord k wsym _ =>
          mret (Some (AnyWord k wsym (Some (context, Z.of_nat len))),
                (vlen - 1)%nat)
      | _ => panic
      end
  | None =>
      assert (negb (Nat.eqb sym SYM_0));;
      mret (None, (vlen - 1)%nat)
  end.

Definition Append_Context (context : ptr) (word : option RELVAL)
    (sym : REBSYM) : M (option RELVAL * nat) :=
  Append_Context_Core context word sym false.

Definition Copy_Context_Shallow_Extra (src : ptr) (extra : nat) : M ptr :=
  sv ← SER src;
  assert (ARRAY_FLAG_CONTEXT_VARLIST sv);;
  skeys ← CTX_KEYLIST src;
  kv ← SER skeys;
  assert (SERIES_FLAG_MANAGED kv);;
  meta ← CTX_META src;
  dest ← (if Nat.eqb extra 0 then
            dest ← Copy_Array_Shallow src;
            skeys ← CTX_KEYLIST src;
            INIT_CTX_KEYLIST_SHARED dest skeys;;
            mret dest
          else
            keylist ← Copy_Array_Extra_Shallow skeys extra;
            dest ← Copy_Array_Extra_Shallow src extra;
            INIT_CTX_KEYLIST_UNIQUE dest keylist;;
            dkeys ← CTX_KEYLIST dest;
            MANAGE_ARRAY dkeys;;
            mret dest);
  modify dest set_varlist_flag;;
  root ← CTX_VALUE dest;
  root' ← set_payload_varlist dest root;
  ARR_PUT dest 0 root';;
  INIT_CONTEXT_META dest meta;;
  mret dest.

Definition Copy_Context_Shallow (src : ptr) : M ptr :=
  Copy_Context_Shallow_Extra src 0.

#[export] Instance context_kind_eq_dec : EqDecision context_kind.
Proof. solve_decision. Defined.

(** Modelled from the spec: the collection flags of sys-core.h (absent from
    the sources), one bit each; [COLLECT_ONLY_SET_WORDS] is no bit. *)
Definition COLLECT_ONLY_SET_WORDS : Z := 0.
Definition COLLECT_ANY_WORD : Z := Z.shiftl 1 1.
Definition COLLECT_DEEP : Z := Z.shiftl 1 2.
Definition COLLECT_NO_DUP : Z := Z.shiftl 1 3.
Definition COLLECT_ENSURE_SELF : Z := Z.shiftl 1 4.

(** [flags & bit] as a C condition. *)
Definition flag_set (flags bit : Z) : bool := negb (Z.eqb (Z.land flags bit) 0).

Section Collect.

(** The symbol table is not part of these sources: the map from a symbol to
    its canon and the number of the symbol `self` are taken as given. *)
Variable SYMBOL_TO_CANON : REBSYM -> REBSYM.
Variable SYM_SELF : REBSYM.

Definition VAL_TYPESET_CANON (key : RELVAL) : M REBSYM :=
  match key with
  | Typeset t => mret (SYMBOL_TO_CANON (ts_sym t))
  | _ => panic
  end.

Definition VAL_WORD_CANON (w : RELVAL) : M REBSYM :=
  match w with
  | AnyWord _ sym _ => mret (SYMBOL_TO_CANON sym)
  | _ => panic
  end.

Definition Collect_Keys_Start (flags : Z) : M unit :=
  ASSERT_BIND_TABLE_EMPTY;;
  buf ← get_buf;
  assert (Nat.eqb (length buf) 0);;
  set_buf [Val_Init_Typeset ALL_64 SYM_0].

Definition Grab_Collected_Keylist_Managed (prior : option ptr) : M ptr :=
  buf ← get_buf;
  assert (Nat.leb 1 (length buf));;
  match prior with
  | Some p =>
      k ← CTX_KEYLIST p; kv ← SER k; assert (SERIES_FLAG_MANAGED kv)
  | None => mret tt
  end;;
  reuse ← match prior with
          | Some p => len ← CTX_LEN p; mret (Nat.eqb (length buf) (len + 1))
          | None => mret false
          end;
  keylist ← (if reuse : bool then
               match prior with
               | Some p => CTX_KEYLIST p
               | None => panic
               end
             else
               keylist ← alloc (mkSer buf 0 false false false false None None);
               MANAGE_ARRAY keylist;;
               mret keylist);
  modify keylist (set_meta None);;
  mret keylist.

Definition Collect_Keys_End : M unit :=
  buf ← get_buf;
  assert (Nat.leb 1 (length buf));;
  for_each (fun key =>
      assert (IS_TYPESET key);;
      canon ← VAL_TYPESET_CANON key;
      binds_set canon 0) buf;;
  set_buf [];;
  ASSERT_BIND_TABLE_EMPTY.

(** The [check_dups] loop of Collect_Context_Keys: [collected] is what has
    been written from [collect] on, [bind_index] the next index to give. *)
Fixpoint Collect_Context_Keys_dups (keys : list RELVAL)
    (collected : list RELVAL) (bind_index : Z) : M (list RELVAL) :=
  match keys with
  | [] => mret collected
  | key :: keys' =>
      canon ← VAL_TYPESET_CANON key;
      b ← binds_get canon;
      if negb (Z.eqb b 0) then
        Collect_Context_Keys_dups keys' collected bind_index
      else
        binds_set canon bind_index;;
        Collect_Context_Keys_dups keys' (collected ++ [key]) (bind_index + 1)
  end.

Fixpoint Collect_Context_Keys_nodups (keys : list RELVAL) (bind_index : Z)
  : M unit :=
  match keys with
  | [] => mret tt
  | key :: keys' =>
      canon ← VAL_TYPESET_CANON key;
      binds_set canon bind_index;;
      Collect_Context_Keys_nodups keys' (bind_index + 1)
  end.

Definition Collect_Context_Keys (context : ptr) (check_dups : bool)
  : M unit :=
  keylist ← CTX_KEYLIST context;
  kv ← SER keylist;
  let keys := drop 1 (ser_cells kv) in
  buf ← get_buf;
  let bind_index := Z.of_nat (length buf) in
  assert (Z.leb 1 bind_index);;
  len ← CTX_LEN context;
  if check_dups then
    collected ← Collect_Context_Keys_dups keys [] bind_index;
    set_buf (buf ++ collected)
  else
    set_buf (buf ++ take len keys);;
    Collect_Context_Keys_nodups keys bind_index.

(** BUF_COLLECT is not terminated while keys are being added (see the end
    of Collect_Context_Keys), and the walk that resets the table on a
    duplicate runs to the first END cell: it visits the cells below the
    length and then [stale], the cells that happen to follow them in the
    buffer at that moment. *)
Fixpoint Collect_Context_Inner_Loop_value (flags : Z) (stale : list RELVAL)
    (value : RELVAL) : M unit :=
  match value with
  | AnyWord _ sym _ =>
      let canon := SYMBOL_TO_CANON sym in
      b ← binds_get canon;
      if Z.eqb b 0 then
        if IS_SET_WORD value || flag_set flags COLLECT_ANY_WORD then
          buf ← get_buf;
          binds_set canon (Z.of_nat (length buf));;
          set_buf (buf ++ [Val_Init_Typeset NOT_FLAGIT_KIND_REB_0 sym])
        else mret tt
      else
        if flag_set flags COLLECT_NO_DUP then
          buf ← get_buf;
          for_each (fun key =>
              c ← VAL_TYPESET_CANON key; binds_set c 0) (buf ++ stale);;
          set_buf [];;
          fail (RE_DUP_VARS value)
        else mret tt
  | AnyArray _ at_ =>
      if ANY_EVAL_BLOCK value && flag_set flags COLLECT_DEEP then
        for_each (Collect_Context_Inner_Loop_value flags stale) at_
      else mret tt
  | _ => mret tt
  end.

Definition Collect_Context_Inner_Loop (flags : Z) (stale : list RELVAL)
    (head : list RELVAL) : M unit :=
  for_each (Collect_Context_Inner_Loop_value flags stale) head.

(** The scan of Find_Word_In_Context from key [n] on, [count] keys left. *)
Fixpoint Find_Word_In_Context_from (keylist : ptr) (sym : REBSYM)
    (always : bool) (n count : nat) : M nat :=
  match count with
  | O => mret 0%nat
  | S count' =>
      key ← KEY_AT keylist n;
      if Nat.eqb sym (ts_sym key)
         || Nat.eqb (SYMBOL_TO_CANON sym) (SYMBOL_TO_CANON (ts_sym key))
      then mret (if negb always && TYPESET_FLAG_HIDDEN key then 0%nat else n)
      else Find_Word_In_Context_from keylist sym always (S n) count'
  end.

Definition Find_Word_In_Context (context : ptr) (sym : REBSYM)
    (always : bool) : M nat :=
  keylist ← CTX_KEYLIST context;
  len ← CTX_LEN context;
  Find_Word_In_Context_from keylist sym always 1 len.

(** Returns the keylist and what was written to [*self_index_out]. *)
Definition Collect_Keylist_Managed (stale head : list RELVAL)
    (prior : option ptr) (flags : Z) : M (ptr * option nat) :=
  Collect_Keys_Start flags;;
  self_index ←
    (if flag_set flags COLLECT_ENSURE_SELF then
       found ← match prior with
               | None => mret 0%nat
               | Some p => Find_Word_In_Context p SYM_SELF true
               end;
       if Nat.eqb found 0 then
         buf ← get_buf;
         set_buf (take 1 buf ++
                  [Typeset (mkTypeset SYM_SELF ALL_64 true false false)]);;
         binds_set (SYMBOL_TO_CANON SYM_SELF) 1;;
         mret (Some 1%nat)
       else mret (Some found)
     else mret None);
  match prior with
  | Some p => Collect_Context_Keys p false
  | None => mret tt
  end;;
  Collect_Context_Inner_Loop flags stale head;;
  keylist ← Grab_Collected_Keylist_Managed prior;
  Collect_Keys_End;;
  mret (keylist, self_index).

(** The scan of Collect_Words over one value: a word whose canon the table
    does not hold is marked there and written to the buffer as a plain,
    unbound WORD!. *)
Fixpoint Collect_Words_Inner_Loop_value (flags : Z) (value : RELVAL)
  : M unit :=
  match value with
  | AnyWord _ sym _ =>
      b ← binds_get (SYMBOL_TO_CANON sym);
      if Z.eqb b 0
         && (IS_SET_WORD value || flag_set flags COLLECT_ANY_WORD)
      then
        binds_set (SYMBOL_TO_CANON sym) 1;;
        buf ← get_buf;
        set_buf (buf ++ [AnyWord REB_WORD sym None])
      else mret tt
  | AnyArray _ at_ =>
      if ANY_EVAL_BLOCK value && flag_set flags COLLECT_DEEP then
        for_each (Collect_Words_Inner_Loop_value flags) at_
      else mret tt
  | _ => mret tt
  end.

Definition Collect_Words_Inner_Loop (head : list RELVAL) (flags : Z)
  : M unit :=
  for_each (Collect_Words_Inner_Loop_value flags) head.

(** Modelled from the spec: Copy_Array_At_Max_Shallow (not in these
    sources) is the series layer's shallow copy of at most [max] cells from
    [index] on, into a fresh node; the buffer is given by its cells. *)
Definition Copy_Array_At_Max_Shallow (cells : list RELVAL)
    (index max : nat) : M ptr :=
  alloc (mkSer (take max (drop index cells)) 0 false false false false
               None None).

Definition Collect_Words (head : list RELVAL)
    (opt_prior_head : option (list RELVAL)) (flags : Z) : M ptr :=
  ASSERT_BIND_TABLE_EMPTY;;
  buf ← get_buf;
  assert (Nat.eqb (length buf) 0);;
  match opt_prior_head with
  | Some prior_head => Collect_Words_Inner_Loop prior_head COLLECT_ANY_WORD
  | None => mret tt
  end;;
  buf ← get_buf;
  let start := length buf in
  Collect_Words_Inner_Loop head flags;;
  buf ← get_buf;
  for_each (fun word => c ← VAL_WORD_CANON word; binds_set c 0) buf;;
  array ← Copy_Array_At_Max_Shallow buf start (length buf - start);
  set_buf [];;
  ASSERT_BIND_TABLE_EMPTY;;
  mret array.

(** Modelled from the spec: Rebind_Values_Deep (not in these sources): a
    deep walk that points the words bound to [src] at [dst] instead and,
    when a table is given, takes their index from it. *)
Fixpoint Rebind_Value (src dst : ptr) (opt_binds : option (gmap nat Z))
    (v : RELVAL) : RELVAL :=
  match v with
  | AnyWord k sym (Some (c, i)) =>
      if Pos.eqb c src then
        AnyWord k sym
          (Some (dst, match opt_binds with
                      | Some b => bind_at b (SYMBOL_TO_CANON sym)
                      | None => i
                      end))
      else v
  | AnyArray k at_ => AnyArray k (map (Rebind_Value src dst opt_binds) at_)
  | _ => v
  end.

Definition Rebind_Context_Deep (src dst : ptr)
    (opt_binds : option (gmap nat Z)) : M unit :=
  modify dst (fun v =>
    set_cells (take 1 (ser_cells v)
               ++ map (Rebind_Value src dst opt_binds) (drop 1 (ser_cells v)))
              v).

(** Modelled from the spec: Clonify_Values_Len_Managed (not in these
    sources) gives the block and string cells fresh copies of their series.
    Nested arrays are carried by value here, so a cell and its clone are the
    same value. *)
Definition Clonify_Values_Len_Managed (c : ptr) (len : nat) : M unit :=
  mret tt.

Definition ANY_CONTEXT (v : RELVAL) : bool :=
  match v with AnyContext (Some _) _ _ => true | _ => false end.

(** Assert_Context_Core, the check behind ASSERT_CONTEXT; Panic_Context is
    a crash.  The cells of this model hold no function and its contexts are
    never stack contexts, so the tests on CONTEXT_FLAG_STACK and on a
    FUNCTION! rootkey read false. *)
Definition Assert_Context_Core (context : ptr) : M unit :=
  v ← SER context;
  assert (ARRAY_FLAG_CONTEXT_VARLIST v);;
  root ← CTX_VALUE context;
  assert (ANY_CONTEXT root);;
  keylist ← CTX_KEYLIST context;
  vars_len ← ARR_LEN context;
  keys_len ← ARR_LEN keylist;
  assert (Nat.leb 1 keys_len);;
  assert (Nat.eqb keys_len vars_len);;
  rootkey ← ARR_AT keylist 0;
  assert (match rootkey with
          | Typeset t => Nat.eqb (ts_sym t) SYM_0
          | _ => false
          end);;
  var ← CTX_VALUE context;
  assert (ANY_CONTEXT var);;
  assert (match var with
          | AnyContext _ varlist _ => Pos.eqb varlist context
          | _ => false
          end);;
  for_ 1 (keys_len - 1) (fun n =>
    key ← ARR_AT keylist n;
    _ ← ARR_AT context n;
    assert (IS_TYPESET key)).

(** The varlist is made with room for [len] cells; the rootvar is written
    into that room and the length set to [len] afterwards, the variables
    being filled with blanks.  The parent's variables are then copied over
    the first of them. *)
Definition Make_Selfish_Context_Detect (kind : context_kind)
    (spec exit_from : option ptr) (stale head : list RELVAL)
    (opt_parent : option ptr) : M ptr :=
  '(keylist, self_index) ←
    Collect_Keylist_Managed stale head opt_parent
      (Z.lor COLLECT_ONLY_SET_WORDS COLLECT_ENSURE_SELF);
  len ← ARR_LEN keylist;
  varlist ← Make_Array len;
  modify varlist set_varlist_flag;;
  INIT_CTX_KEYLIST_SHARED varlist keylist;;
  modify varlist (fun v =>
    set_rest (ser_rest v - len)
      (set_cells (AnyContext None varlist None :: replicate (len - 1) Blank)
                 v));;
  match opt_parent with
  | Some parent =>
      plen ← CTX_LEN parent;
      pv ← SER parent;
      let vars := take plen (drop 1 (ser_cells pv)) in
      assert (Nat.eqb (length vars) plen);;
      modify varlist (fun v =>
        set_cells (take len (take 1 (ser_cells v) ++ vars
                             ++ drop (1 + plen) (ser_cells v))) v);;
      clen ← CTX_LEN varlist;
      Clonify_Values_Len_Managed varlist clen
  | None => mret tt
  end;;
  root ← CTX_VALUE varlist;
  match root with
  | AnyContext _ vl e => ARR_PUT varlist 0 (AnyContext (Some kind) vl e)
  | _ => panic
  end;;
  type ← CTX_TYPE varlist;
  assert (bool_decide (type = kind));;
  INIT_CONTEXT_META varlist spec;;
  root ← CTX_VALUE varlist;
  match root with
  | AnyContext k vl _ => ARR_PUT varlist 0 (AnyContext k vl exit_from)
  | _ => panic
  end;;
  self_index ← match self_index with
               | Some i => mret i
               | None => panic
               end;
  self_key ← CTX_KEY varlist self_index;
  assert (Nat.eqb (SYMBOL_TO_CANON (ts_sym self_key)) SYM_SELF);;
  root ← CTX_VALUE varlist;
  CTX_VAR_PUT varlist self_index root;;
  match opt_parent with
  | Some parent => Rebind_Context_Deep parent varlist None
  | None => mret tt
  end;;
  Assert_Context_Core varlist;;
  mret varlist.

Definition Merge_Contexts_Selfish (parent1 parent2 : ptr) : M ptr :=
  type1 ← CTX_TYPE parent1;
  type2 ← CTX_TYPE parent2;
  assert (bool_decide (type1 = type2));;
  Collect_Keys_Start (Z.lor COLLECT_ANY_WORD COLLECT_ENSURE_SELF);;
  Collect_Context_Keys parent1 false;;
  Collect_Context_Keys parent2 true;;
  buf ← get_buf;
  keylist ← alloc (mkSer buf 0 false false false false None None);
  MANAGE_ARRAY keylist;;
  modify keylist (set_meta None);;
  klen ← ARR_LEN keylist;
  child ← Make_Array klen;
  modify child set_varlist_flag;;
  value ← Alloc_Tail_Array child;
  INIT_CTX_KEYLIST_UNIQUE child keylist;;
  ARR_PUT child value (AnyContext (Some type1) child None);;
  (* memcpy of parent1's variables, then SET_ARRAY_LEN to the keylist's *)
  len1 ← CTX_LEN parent1;
  p1 ← SER parent1;
  let vars1 := take len1 (drop 1 (ser_cells p1)) in
  assert (Nat.eqb (length vars1) len1);;
  modify child (fun v =>
    set_rest 0
      (set_cells (take klen (take 1 (ser_cells v) ++ vars1
                             ++ replicate (klen - 1 - len1) Trash)) v));;
  (* parent2's values go to the slots the table gives *)
  keys2 ← CTX_KEYLIST parent2;
  klen2 ← ARR_LEN keys2;
  for_ 1 (klen2 - 1) (fun j =>
    key ← KEY_AT keys2 j;
    value ← ARR_AT parent2 j;
    n ← binds_get (SYMBOL_TO_CANON (ts_sym key));
    CTX_VAR_PUT child (Z.to_nat n) value);;
  clen ← CTX_LEN child;
  Clonify_Values_Len_Managed child clen;;
  Rebind_Context_Deep parent1 child None;;
  st ← get;
  let binds := Bind_Table st in
  Rebind_Context_Deep parent2 child (Some binds);;
  Collect_Keys_End;;
  self_index ← Find_Word_In_Context child SYM_SELF true;
  assert (negb (Nat.eqb self_index 0));;
  self_key ← CTX_KEY child self_index;
  assert (Nat.eqb (SYMBOL_TO_CANON (ts_sym self_key)) SYM_SELF);;
  root ← CTX_VALUE child;
  CTX_VAR_PUT child self_index root;;
  mret child.

(** The words of a block given as [only_words]: each WORD! or SET-WORD! is
    tagged with -1 in the table; the count of them is added to [n]. *)
Fixpoint Resolve_tag_words (words : list RELVAL) (n : Z) : M Z :=
  match words with
  | [] => mret n
  | word :: words' =>
      if IS_WORD word || IS_SET_WORD word then
        canon ← VAL_WORD_CANON word;
        binds_set canon (-1);;
        Resolve_tag_words words' (n + 1)
      else Resolve_tag_words words' n
  end.

Fixpoint Resolve_untag_words (words : list RELVAL) : M unit :=
  match words with
  | [] => mret tt
  | word :: words' =>
      if IS_WORD word || IS_SET_WORD word then
        canon ← VAL_WORD_CANON word;
        binds_set canon 0;;
        Resolve_untag_words words'
      else Resolve_untag_words words'
  end.

Definition set_lookback (b : bool) (key : typeset) : typeset :=
  mkTypeset (ts_sym key) (ts_bits key) (TYPESET_FLAG_HIDDEN key)
            (TYPESET_FLAG_LOCKED key) b.

(** One round of the loop "foreach word in target, copy the correct value
    from source", at slot [j] of the target. *)
Definition Resolve_Context_copy (target source tkeys : ptr) (all : bool)
    (j : nat) : M unit :=
  key ← KEY_AT tkeys j;
  let canon := SYMBOL_TO_CANON (ts_sym key) in
  m ← binds_get canon;
  if negb (Z.eqb m 0) then
    binds_set canon 0;;
    ok ← (if TYPESET_FLAG_LOCKED key then mret false
          else if all then mret true
          else var ← ARR_AT target j; mret (IS_VOID var));
    if ok : bool then
      if Z.ltb m 0 then ARR_PUT target j Void
      else
        v ← CTX_VAR source (Z.to_nat m);
        ARR_PUT target j v;;
        skey ← CTX_KEY source (Z.to_nat m);
        ARR_PUT tkeys j
          (Typeset (set_lookback (TYPESET_FLAG_LOOKBACK skey) key))
    else mret tt
  else mret tt.

Definition Resolve_Context (target source : ptr) (only_words : REBVAL)
    (all expand : bool) : M unit :=
  ASSERT_BIND_TABLE_EMPTY;;
  tv ← SER target;
  (if SERIES_FLAG_LOCKED tv then fail RE_LOCKED else mret tt);;
  tlen ← CTX_LEN target;
  let i := match only_words with
           | Integer v =>
               let i := Z.to_nat (v mod 2 ^ 32) in
               if Nat.eqb i 0 then 1%nat else i
           | _ => 0%nat
           end in
  if IS_INTEGER only_words && Nat.ltb tlen i then mret tt else
  Collect_Keys_Start COLLECT_ONLY_SET_WORDS;;
  n ← (if negb (Nat.eqb i 0) then
         tkeys ← CTX_KEYLIST target;
         klen ← ARR_LEN tkeys;
         for_ i (klen - i) (fun j =>
           key ← KEY_AT tkeys j;
           binds_set (SYMBOL_TO_CANON (ts_sym key)) (-1));;
         len ← CTX_LEN target;
         mret (Z.of_nat len)
       else
         match only_words with
         | AnyArray REB_BLOCK words => Resolve_tag_words words 0
         | _ => mret 0
         end);
  expand ← (if expand && Z.ltb 0 n then
              tkeys ← CTX_KEYLIST target;
              klen ← ARR_LEN tkeys;
              n ← for_fold 1 (klen - 1) (fun j n =>
                    key ← KEY_AT tkeys j;
                    b ← binds_get (SYMBOL_TO_CANON (ts_sym key));
                    mret (if negb (Z.eqb b 0) then n - 1 else n)) n;
              if Z.ltb 0 n then Expand_Context target (Z.to_nat n);; mret true
              else mret false
            else mret expand);
  skeys ← CTX_KEYLIST source;
  slen ← ARR_LEN skeys;
  for_ 1 (slen - 1) (fun n =>
    key ← KEY_AT skeys n;
    let canon := SYMBOL_TO_CANON (ts_sym key) in
    b ← binds_get canon;
    if IS_VOID only_words || negb (Z.eqb b 0)
    then binds_set canon (Z.of_nat n) else mret tt);;
  tkeys ← CTX_KEYLIST target;
  klen ← ARR_LEN tkeys;
  (let start := if negb (Nat.eqb i 0) then i else 1%nat in
   for_ start (klen - start) (Resolve_Context_copy target source tkeys all));;
  (if expand : bool then
     skeys ← CTX_KEYLIST source;
     slen ← ARR_LEN skeys;
     for_ 1 (slen - 1) (fun n =>
       key ← KEY_AT skeys n;
       let canon := SYMBOL_TO_CANON (ts_sym key) in
       b ← binds_get canon;
       if negb (Z.eqb b 0) then
         binds_set canon 0;;
         '(_, var) ← Append_Context_Core target None canon
                       (TYPESET_FLAG_LOOKBACK key);
         v ← CTX_VAR source n;
         ARR_PUT target var v
       else mret tt)
   else
     if negb (Nat.eqb i 0) then
       tkeys ← CTX_KEYLIST target;
       klen ← ARR_LEN tkeys;
       for_ i (klen - i) (fun j =>
         key ← KEY_AT tkeys j;
         binds_set (SYMBOL_TO_CANON (ts_sym key)) 0)
     else
       match only_words with
       | AnyArray REB_BLOCK words => Resolve_untag_words words
       | _ =>
           skeys ← CTX_KEYLIST source;
           slen ← ARR_LEN skeys;
           for_ 1 (slen - 1) (fun n =>
             key ← KEY_AT skeys n;
             binds_set (SYMBOL_TO_CANON (ts_sym key)) 0)
       end);;
  ASSERT_BIND_TABLE_EMPTY;;
  set_buf [].

(** NOT_FOUND comes from a header that is not part of these sources: the
    count it stands for is taken as given. *)
Variable NOT_FOUND : nat.

(** The scan of Find_Word_In_Array from [index] on, [count] cells left. *)
Fixpoint Find_Word_In_Array_from (array : ptr) (sym : REBSYM)
    (index count : nat) : M nat :=
  match count with
  | O => mret NOT_FOUND
  | S count' =>
      value ← ARR_AT array index;
      found ← (if ANY_WORD value then
                 c ← VAL_WORD_CANON value; mret (Nat.eqb sym c)
               else mret false);
      if found : bool then mret index
      else Find_Word_In_Array_from array sym (S index) count'
  end.

Definition Find_Word_In_Array (array : ptr) (index : nat) (sym : REBSYM)
  : M nat :=
  len ← ARR_LEN array;
  Find_Word_In_Array_from array sym index (len - index).

End Collect.

End Frame.

(** ** Part II: the splice engine (f-modify.c) *)

Module Modify.

Definition ptr : Type := positive.

(** [STR_SYMBOL(verb)], which the routines assert to be one of three. *)
Inductive verb : Type := SYM_INSERT | SYM_APPEND | SYM_CHANGE.

Definition is_append (sym : verb) : bool :=
  match sym with SYM_APPEND => true | _ => false end.
Definition is_change (sym : verb) : bool :=
  match sym with SYM_CHANGE => true | _ => false end.
Definition is_insert (sym : verb) : bool :=
  match sym with SYM_INSERT => true | _ => false end.

(** Modelled from the spec: the flag bits of sys-core.h (absent from the
    sources), one bit each. *)
Definition AM_PART : Z := Z.shiftl 1 0.
Definition AM_SPLICE : Z := Z.shiftl 1 1.
Definition AM_LINE : Z := Z.shiftl 1 2.

Definition flag_set (flags bit : Z) : bool := negb (Z.eqb (Z.land flags bit) 0).

(** 32-bit conversions: [REBCNT] is unsigned, [REBINT] signed. *)
Definition u32 (x : Z) : Z := x mod 2 ^ 32.
Definition s32 (x : Z) : Z := (x + 2 ^ 31) mod 2 ^ 32 - 2 ^ 31.

Inductive array_kind : Type :=
  | REB_BLOCK | REB_GROUP | REB_PATH | REB_SET_PATH | REB_GET_PATH.

Inductive string_kind : Type :=
  | REB_TEXT | REB_FILE | REB_EMAIL | REB_URL | REB_TAG.

(** Values.  A series value carries the address of its node and its index;
    a character carries its UTF-8 encoding; [Other] stands for the kinds
    the routines only ever mold. *)
Inductive REBVAL : Type :=
  | Trash
  | Nulled
  | Integer (i : Z)
  | Char (encoded : list Z)
  | Binary (ser : ptr) (index : Z)
  | AnyString (k : string_kind) (ser : ptr) (index : Z)
  | AnyArray (k : array_kind) (arr : ptr) (index : Z)
  | Quoted (v : REBVAL)
  | Other (kind : nat).

Record cell : Type := mkCell {
  cell_value : REBVAL;
  NEWLINE_BEFORE : bool
}.

Definition Trash_cell : cell := mkCell Trash false.

Fixpoint VAL_UNESCAPED (v : REBVAL) : REBVAL :=
  match v with Quoted v' => VAL_UNESCAPED v' | _ => v end.

Definition IS_NULLED (v : REBVAL) : bool :=
  match v with Nulled => true | _ => false end.
Definition IS_BINARY (v : REBVAL) : bool :=
  match v with Binary _ _ => true | _ => false end.

Record REBARR : Type := mkArr {
  arr_cells : list cell;
  NEWLINE_AT_TAIL : bool
}.

(** A byte series: the bytes in use, whether it is (aliased as) a string,
    and for strings the length in codepoints and the bookmark, an
    index/offset pair. *)
Record REBSER : Type := mkBin {
  ser_bytes : list Z;
  IS_SER_STRING : bool;
  misc_length : Z;
  bookmarks : option (Z * Z);
  read_only : bool
}.

Record State : Type := mkState {
  arrays : gmap positive REBARR;
  series : gmap positive REBSER;
  next : ptr
}.

Inductive error : Type :=
  | Error_Series_Read_Only
  | Error_Index_Codepoint_Modify
  | Error_Index_Codepoint_Insert
  | Error_UTF8_Check_Not_Implemented
  | Error_Out_Of_Range.

Abbreviation M := (Mon State error).

Definition ARR (a : ptr) : M REBARR := fun s =>
  match arrays s !! a with Some v => Done v s | None => Panic end.
Definition ARR_store (a : ptr) (v : REBARR) : M unit := fun s =>
  Done tt (mkState (<[a := v]> (arrays s)) (series s) (next s)).
Definition ARR_alloc (v : REBARR) : M ptr := fun s =>
  Done (next s)
       (mkState (<[next s := v]> (arrays s)) (series s) (Pos.succ (next s))).
Definition BIN (p : ptr) : M REBSER := fun s =>
  match series s !! p with Some v => Done v s | None => Panic end.
Definition BIN_store (p : ptr) (v : REBSER) : M unit := fun s =>
  Done tt (mkState (arrays s) (<[p := v]> (series s)) (next s)).

Definition ARR_LEN (a : ptr) : M Z :=
  v ← ARR a; mret (Z.of_nat (length (arr_cells v))).

(** The cell at [a[i]], with [None] for the END that closes the array. *)
Definition ARR_AT (a : ptr) (i : Z) : M (option cell) :=
  v ← ARR a;
  if Z.ltb i 0 then panic
  else match arr_cells v !! Z.to_nat i with
       | Some c => mret (Some c)
       | None => if Z.eqb i (Z.of_nat (length (arr_cells v)))
                 then mret None else panic
       end.

Definition ARR_PUT (a : ptr) (i : Z) (c : cell) : M unit :=
  v ← ARR a;
  if Z.leb 0 i && Z.ltb i (Z.of_nat (length (arr_cells v)))
  then ARR_store a (mkArr (<[Z.to_nat i := c]> (arr_cells v))
                          (NEWLINE_AT_TAIL v))
  else panic.

(** [SET_CELL_FLAG(ARR_AT(a, i), NEWLINE_BEFORE)].  At the tail the cell is
    the END that closes the array, which holds no value: nothing to see. *)
Definition SET_NEWLINE_BEFORE (a : ptr) (i : Z) : M unit :=
  c ← ARR_AT a i;
  match c with
  | Some c => ARR_PUT a i (mkCell (cell_value c) true)
  | None => mret tt
  end.

Definition SET_NEWLINE_AT_TAIL (a : ptr) (b : bool) : M unit :=
  v ← ARR a; ARR_store a (mkArr (arr_cells v) b).

(** *** Series primitives

    Modelled from the spec: expand-by-N, remove-N-at and shallow copy are
    external to f-modify.c (spec, section 6).  [Expand_Series] opens a gap
    of [delta] units at [index]; a negative [delta] would be a huge unsigned
    request, which no allocation meets. *)

Definition expand {A} (fill : A) (index delta : Z) (l : list A) : list A :=
  take (Z.to_nat index) l ++ replicate (Z.to_nat delta) fill
    ++ drop (Z.to_nat index) l.

Definition remove {A} (index quantity : Z) (l : list A) : list A :=
  take (Z.to_nat index) l ++ drop (Z.to_nat index + Z.to_nat quantity) l.

Definition Expand_Array (a : ptr) (index delta : Z) : M unit :=
  v ← ARR a;
  if Z.ltb delta 0 || Z.ltb index 0
     || Z.ltb (Z.of_nat (length (arr_cells v))) index
  then panic
  else ARR_store a (mkArr (expand Trash_cell index delta (arr_cells v))
                          (NEWLINE_AT_TAIL v)).

Definition Remove_Array_Units (a : ptr) (index quantity : Z) : M unit :=
  v ← ARR a;
  if Z.ltb quantity 0 || Z.ltb index 0 then panic
  else ARR_store a (mkArr (remove index quantity (arr_cells v))
                          (NEWLINE_AT_TAIL v)).

Definition Copy_Array_At_Extra_Shallow (a : ptr) (index : Z) : M ptr :=
  v ← ARR a;
  if Z.ltb index 0 then panic
  else ARR_alloc (mkArr (drop (Z.to_nat index) (arr_cells v)) false).

(** Where [src_rel] points: into an array, or at the caller's one cell. *)
Inductive src_pointer : Type :=
  | SrcAt (arr : ptr) (index : Z)
  | SrcVal (c : cell).

(** Modelled from the spec: [Derelativize] (absent from the sources) moves
    a cell as it is, newline marker included, to its destination. *)
Definition src_read (src_rel : src_pointer) (index : Z) : M cell :=
  match src_rel with
  | SrcAt arr off =>
      c ← ARR_AT arr (off + index);
      match c with Some c => mret c | None => panic end
  | SrcVal c => if Z.eqb index 0 then mret c else panic
  end.

Definition Derelativize (dst_arr : ptr) (dst_idx : Z) (src_rel : src_pointer)
    (index : Z) : M unit :=
  c ← src_read src_rel index;
  ARR_PUT dst_arr dst_idx c.

Section Splice.

(** The two global values the routines substitute for a null source of a
    CHANGE; the molding of values, the joining of a block into bytes and
    the size of a cell are not part of these sources. *)
Variable EMPTY_BLOCK : cell.
Variable EMPTY_TEXT : REBVAL.
Variable Mold_Or_Form_Value : State -> REBVAL -> list Z.
Variable Form_Value : State -> cell -> list Z.
Variable Join_Binary_In_Byte_Buf : State -> REBVAL -> list Z.
Variable sizeof_REBVAL : Z.

(** Where [src_ptr] points: at bytes the call has of its own (the encoding
    in the payload of a character, [src_byte], the mold buffer, the byte
    buffer) or into a series, at an offset.  A pointer into a series is
    followed when the copy is made: it reads the series as it is by then,
    at the same offset (the series is taken to stay where it is when it
    grows). *)
Inductive byte_pointer : Type :=
  | PtrOwn (bytes : list Z)
  | PtrSeries (ser : ptr) (offset : Z).

(** What memory holds where these sources do not say.  [memory_past st p k]
    is the byte at [p + k] when that lies past the bytes [p] points at: a
    /PART that asks for more bytes than the source has reads there.
    [memory_gap st ser index k] is the byte that lies at [index + k] in the
    series [ser] once Expand_Series has opened its gap at [index]: it is
    read when the source is the very series that is written to. *)
Variable memory_past : State -> byte_pointer -> nat -> Z.
Variable memory_gap : State -> ptr -> Z -> nat -> Z.

(** The inner loop of Modify_Array for one duplicate; returns [dst_idx]. *)
Definition Modify_Array_dup (dst_arr : ptr) (src_rel : src_pointer)
    (ilen : Z) (head_newline tail_newline : bool) (dup_index : nat)
    (dst_idx : Z) : M Z :=
  for_fold 0 (Z.to_nat ilen) (fun index dst_idx =>
    Derelativize dst_arr dst_idx src_rel (Z.of_nat index);;
    (if Nat.eqb dup_index 0 && Nat.eqb index 0 && head_newline then
       SET_NEWLINE_BEFORE dst_arr dst_idx;;
       SET_NEWLINE_AT_TAIL dst_arr false
     else if Nat.ltb 0 dup_index && Nat.eqb index 0 && tail_newline then
       SET_NEWLINE_BEFORE dst_arr dst_idx
     else mret tt);;
    mret (dst_idx + 1)) dst_idx.

(** The block under [if (flags & AM_SPLICE)]: the cells one duplicate takes
    ([ilen]), whether a newline follows each duplicate, and where the cells
    are read from, which is a copy when the source is the destination. *)
Definition Modify_Array_source (sym : verb) (dst_arr : ptr) (src_val : cell)
    (flags : Z) (dst_len : Z) : M (Z * bool * src_pointer) :=
  let tail_newline := flag_set flags AM_LINE in
  if flag_set flags AM_SPLICE then
    match VAL_UNESCAPED (cell_value src_val) with
    | AnyArray _ arr index =>
        a ← ARR arr;
        let len := Z.of_nat (length (arr_cells a)) in
        let ilen :=
          if negb (is_change sym) && flag_set flags AM_PART then dst_len
          else if Z.leb len index then 0 else len - index in
        tail_newline ←
          (if tail_newline then mret true
           else
             tail_cell ← ARR_AT arr (index + ilen);
             match tail_cell with
             | None => mret (NEWLINE_AT_TAIL a)
             | Some c =>
                 mret (if Z.eqb ilen 0 then false else NEWLINE_BEFORE c)
             end);
        src_rel ←
          (if Pos.eqb dst_arr arr then
             copy ← Copy_Array_At_Extra_Shallow arr index;
             mret (SrcAt copy 0)
           else mret (SrcAt arr index));
        mret (ilen, tail_newline, src_rel)
    | _ => panic
    end
  else mret (1, tail_newline, SrcVal src_val).

(** The room made, or taken away, at [dst_idx] before the cells are
    written; [tail] is the length on entry. *)
Definition Modify_Array_resize (sym : verb) (dst_arr : ptr) (dst_idx : Z)
    (flags : Z) (dst_len : Z) (size : Z) (tail : Z) : M unit :=
  if negb (is_change sym) then Expand_Array dst_arr dst_idx size
  else if Z.ltb dst_len size then
    Expand_Array dst_arr dst_idx (size - dst_len)
  else if Z.ltb size dst_len && flag_set flags AM_PART then
    Remove_Array_Units dst_arr dst_idx (dst_len - size)
  else if Z.ltb tail (u32 (size + dst_idx)) then
    len ← ARR_LEN dst_arr;
    Expand_Array dst_arr len (u32 (size - (tail - dst_idx)))
  else mret tt.

Definition Modify_Array (sym : verb) (dst_arr : ptr) (dst_idx : Z)
    (src_val : cell) (flags : Z) (dst_len : Z) (dups : Z) : M Z :=
  tail ← ARR_LEN dst_arr;
  let '(flags, src_val) :=
    if IS_NULLED (cell_value src_val) && is_change sym
    then (Z.lor flags AM_SPLICE, EMPTY_BLOCK)
    else (flags, src_val) in
  if IS_NULLED (cell_value src_val) || Z.leb dups 0 then
    mret (if is_append sym then 0 else dst_idx)
  else
  let dst_idx := if is_append sym || Z.ltb tail dst_idx then tail
                 else dst_idx in
  '(ilen, tail_newline, src_rel) ←
    Modify_Array_source sym dst_arr src_val flags dst_len;
  let size := s32 (dups * ilen) in
  len ← ARR_LEN dst_arr;
  d ← ARR dst_arr;
  let head_newline := Z.eqb dst_idx len && NEWLINE_AT_TAIL d in
  Modify_Array_resize sym dst_arr dst_idx flags dst_len size tail;;
  let tail := if is_append sym then 0 else u32 (size + dst_idx) in
  dst_idx ← for_fold 0 (Z.to_nat dups)
              (Modify_Array_dup dst_arr src_rel ilen head_newline
                                tail_newline) dst_idx;
  (if tail_newline : bool then
     len ← ARR_LEN dst_arr;
     if Z.eqb dst_idx len then SET_NEWLINE_AT_TAIL dst_arr true
     else SET_NEWLINE_BEFORE dst_arr dst_idx
   else mret tt);;
  (if flag_set flags AM_LINE then SET_NEWLINE_BEFORE dst_arr 0
   else mret tt);;
  mret tail.

(** *** UTF-8 walks

    Modelled from the spec: the string accessors of sys-string.h (absent
    from the sources) step over a codepoint by the size its leading byte
    announces. *)

Definition utf8_size (b : Z) : nat :=
  if Z.ltb b 192 then 1%nat
  else if Z.ltb b 224 then 2%nat
  else if Z.ltb b 240 then 3%nat
  else 4%nat.

(** Bytes taken by the first [n] codepoints of [bytes], if it has them. *)
Fixpoint skip_codepoints (n : nat) (bytes : list Z) : option Z :=
  match n with
  | O => Some 0
  | S n' =>
      match bytes with
      | [] => None
      | b :: _ =>
          let k := utf8_size b in
          if Nat.leb k (length bytes) then
            sz ← skip_codepoints n' (drop k bytes);
            Some (Z.of_nat k + sz)
          else None
      end
  end.

Definition is_leading (b : Z) : bool := Z.ltb b 128 || Z.leb 192 b.

(** Codepoints begun in [bytes]. *)
Definition utf8_length (bytes : list Z) : Z :=
  Z.of_nat (length (filter (fun b => is_leading b = true) bytes)).

Definition STR_INDEX_AT (bytes : list Z) (offset : Z) : Z :=
  utf8_length (take (Z.to_nat offset) bytes).

(** [*BIN_AT(s, i)]; the byte at the tail is the terminator. *)
Definition BIN_AT_byte (v : REBSER) (i : Z) : M Z :=
  if Z.ltb i 0 then panic
  else match ser_bytes v !! Z.to_nat i with
       | Some b => mret b
       | None => if Z.eqb i (Z.of_nat (length (ser_bytes v)))
                 then mret 0 else panic
       end.

Definition VAL_OFFSET_FOR_INDEX (v : REBSER) (index : Z) : M Z :=
  if Z.ltb index 0 then panic
  else match skip_codepoints (Z.to_nat index) (ser_bytes v) with
       | Some off => mret off
       | None => panic
       end.

Definition STR_LEN_AT (v : REBSER) (index : Z) : Z :=
  if Z.leb (misc_length v) index then 0 else misc_length v - index.

(** Returns the size in bytes and the length in codepoints of what lies at
    [index], at most [limit] codepoints of it when [limit] is not -1. *)
Definition VAL_SIZE_LIMIT_AT (v : REBSER) (index : Z) (limit : Z)
  : M (Z * Z) :=
  at_ ← VAL_OFFSET_FOR_INDEX v index;
  if Z.eqb limit (-1) then
    mret (Z.of_nat (length (ser_bytes v)) - at_, STR_LEN_AT v index)
  else if Z.ltb limit 0 then panic
  else
    match skip_codepoints (Z.to_nat limit)
            (drop (Z.to_nat at_) (ser_bytes v)) with
    | Some sz => mret (sz, limit)
    | None => panic
    end.

Definition ANY_STRING (v : REBVAL) : bool :=
  match v with AnyString _ _ _ => true | _ => false end.
Definition IS_TAG (v : REBVAL) : bool :=
  match v with AnyString REB_TAG _ _ => true | _ => false end.

Definition VAL_SERIES (v : REBVAL) : M ptr :=
  match v with
  | Binary p _ | AnyString _ p _ => mret p
  | _ => panic
  end.
Definition VAL_INDEX (v : REBVAL) : M Z :=
  match v with
  | Binary _ i | AnyString _ _ i | AnyArray _ _ i => mret i
  | _ => panic
  end.

(** The mold buffer as a source: where its bytes start, their count, and
    the length the destination counts in. *)
Definition use_mold_buffer (dst_is_string : bool) (molded : list Z)
  : M (byte_pointer * Z * Z) :=
  mret (PtrOwn molded, Z.of_nat (length molded),
        if dst_is_string then utf8_length molded
        else Z.of_nat (length molded)).

(** The source: [src_ptr], [src_size_raw] and [src_len_raw]. *)
Definition Modify_source (dst src : REBVAL) (dst_ser : REBSER) (limit : Z)
  : M (byte_pointer * Z * Z) :=
  st ← (fun s => Done s s);
  let form := use_mold_buffer (IS_SER_STRING dst_ser)
                (Mold_Or_Form_Value st src) in
  match src with
  | Char encoded =>
      let size := Z.of_nat (length encoded) in
      mret (PtrOwn encoded, size, if IS_SER_STRING dst_ser then 1 else size)
  | Integer i =>
      if negb (IS_BINARY dst) then form
      else if Z.leb 0 i && Z.leb i 255 then mret (PtrOwn [i], 1, 1)
      else fail Error_Out_Of_Range
  | Binary bin offset =>
      b ← BIN bin;
      let size := Z.of_nat (length (ser_bytes b)) - offset in
      if negb (IS_SER_STRING dst_ser)
      then mret (PtrSeries bin offset, size, size)
      else if IS_SER_STRING b then
        first ← BIN_AT_byte b offset;
        if Z.ltb 128 first then fail Error_Index_Codepoint_Insert
        else mret (PtrSeries bin offset, size,
                   misc_length b - STR_INDEX_AT (ser_bytes b) offset)
      else fail Error_UTF8_Check_Not_Implemented
  | AnyArray REB_BLOCK arr index =>
      if IS_BINARY dst then
        let joined := Join_Binary_In_Byte_Buf st src in
        mret (PtrOwn joined, Z.of_nat (length joined),
              Z.of_nat (length joined))
      else
        a ← ARR arr;
        use_mold_buffer (IS_SER_STRING dst_ser)
          (concat (map (Form_Value st)
                       (drop (Z.to_nat index) (arr_cells a))))
  | AnyString k ser index =>
      if IS_TAG src then form
      else
        dser ← VAL_SERIES dst;
        if Pos.eqb dser ser then form
        else
          sv ← BIN ser;
          at_ ← VAL_OFFSET_FOR_INDEX sv index;
          '(size, len) ← VAL_SIZE_LIMIT_AT sv index limit;
          mret (PtrSeries ser at_, size,
                if IS_SER_STRING dst_ser then len else size)
  | _ => form
  end.

(** The [n] bytes a copy reads at [src_ptr]: those the pointer points at,
    as they are now, and past them what memory holds there. *)
Definition src_bytes (src_ptr : byte_pointer) (n : Z) : M (list Z) :=
  st ← (fun s => Done s s);
  held ← match src_ptr with
         | PtrOwn bytes => mret bytes
         | PtrSeries ser offset =>
             v ← BIN ser;
             if Z.ltb offset 0 then panic
             else mret (drop (Z.to_nat offset) (ser_bytes v))
         end;
  mret (take (Z.to_nat n) held
        ++ map (memory_past st src_ptr)
               (seq (length held) (Z.to_nat n - length held))).

(** The write of [memcpy(dst_ptr, src_ptr, n)], [src_mem] being the bytes
    read at [src_ptr], and of the byte written after it; a write outside
    the bytes the series has in use is a crash. *)
Definition overwrite (off : Z) (data bytes : list Z) : list Z :=
  take (Z.to_nat off) bytes ++ data
    ++ drop (Z.to_nat off + length data) bytes.

Definition memcpy (p : ptr) (off : Z) (src_mem : list Z) (n : Z) : M unit :=
  v ← BIN p;
  if Z.ltb n 0 || Z.ltb off 0
     || Z.ltb (Z.of_nat (length (ser_bytes v))) (off + n)
  then panic
  else BIN_store p
         (mkBin (overwrite off (take (Z.to_nat n) src_mem) (ser_bytes v))
                (IS_SER_STRING v) (misc_length v) (bookmarks v)
                (read_only v)).

Definition set_bytes (b : list Z) (v : REBSER) : REBSER :=
  mkBin b (IS_SER_STRING v) (misc_length v) (bookmarks v) (read_only v).
Definition set_length (n : Z) (v : REBSER) : REBSER :=
  mkBin (ser_bytes v) (IS_SER_STRING v) n (bookmarks v) (read_only v).
Definition set_bookmarks (b : option (Z * Z)) (v : REBSER) : REBSER :=
  mkBin (ser_bytes v) (IS_SER_STRING v) (misc_length v) b (read_only v).

Definition BIN_modify (p : ptr) (f : REBSER -> REBSER) : M unit :=
  v ← BIN p; BIN_store p (f v).

(** [l] with the run [gap] let in at [index]. *)
Definition open_gap {A} (gap : list A) (index : Z) (l : list A) : list A :=
  take (Z.to_nat index) l ++ gap ++ drop (Z.to_nat index) l.

(** Modelled from the spec: Expand_Series (absent from the sources) opens a
    gap of [delta] bytes at [index]; what the gap holds until it is written
    is [memory_gap]. *)
Definition Expand_Series (p : ptr) (index delta : Z) : M unit :=
  st ← (fun s => Done s s);
  v ← BIN p;
  if Z.ltb delta 0 || Z.ltb index 0
     || Z.ltb (Z.of_nat (length (ser_bytes v))) index
  then panic
  else BIN_store p
         (set_bytes (open_gap (map (memory_gap st p index)
                                   (seq 0 (Z.to_nat delta)))
                              index (ser_bytes v)) v).

Definition Remove_Series_Units (p : ptr) (index quantity : Z) : M unit :=
  v ← BIN p;
  if Z.ltb quantity 0 || Z.ltb index 0 then panic
  else BIN_store p (set_bytes (remove index quantity (ser_bytes v)) v).

(** [SET_SERIES_USED]: the bytes in use become the first [n]. *)
Definition SET_SERIES_USED (p : ptr) (n : Z) : M unit :=
  v ← BIN p;
  if Z.ltb n 0 then panic
  else BIN_store p
         (set_bytes (take (Z.to_nat n)
                       (ser_bytes v
                        ++ replicate (Z.to_nat n - length (ser_bytes v)) 0))
                    v).

Definition Modify_String_Or_Binary (dst : REBVAL) (sym : verb)
    (src : REBVAL) (flags : Z) (part : Z) (dups : Z) : M Z :=
  dst_ser ← VAL_SERIES dst;
  ds ← BIN dst_ser;
  (if read_only ds then fail Error_Series_Read_Only else mret tt);;
  dst_idx ← VAL_INDEX dst;
  let dst_used := Z.of_nat (length (ser_bytes ds)) in
  '(tail, dst_off) ←
    (if IS_BINARY dst then
       (if IS_SER_STRING ds then
          b ← BIN_AT_byte ds dst_idx;
          if Z.leb 128 b then fail Error_Index_Codepoint_Modify
          else mret tt
        else mret tt);;
       mret (dst_used, dst_idx)
     else
       assert (ANY_STRING dst);;
       assert (IS_SER_STRING ds);;
       dst_off ← VAL_OFFSET_FOR_INDEX ds dst_idx;
       mret (misc_length ds, dst_off));
  if IS_NULLED src && is_append sym then mret 0
  else if IS_NULLED src && is_insert sym then mret dst_idx
  else
  let '(flags, src) :=
    if IS_NULLED src then (Z.lor flags AM_SPLICE, EMPTY_TEXT)
    else (flags, src) in
  limit ← (if negb (is_change sym) && flag_set flags AM_PART then
             assert (Z.leb 0 part);; mret part
           else mret (-1));
  if Z.eqb limit 0 || Z.leb dups 0 then
    mret (if is_append sym then 0 else dst_idx)
  else
  let '(dst_off, dst_idx) :=
    if is_append sym || Z.ltb tail dst_idx then (dst_used, tail)
    else (dst_off, dst_idx) in
  '(src_ptr, src_size_raw, src_len_raw) ← Modify_source dst src ds limit;
  let '(src_len_raw, src_size_raw) :=
    if Z.leb 0 limit then (limit, limit) else (src_len_raw, src_size_raw) in
  let '(src_size_total, src_len_total) :=
    if flag_set flags AM_LINE
    then ((src_size_raw + 1) * dups, (src_len_raw + 1) * dups)
    else (src_size_raw * dups, src_len_raw * dups) in
  let bookmark := if IS_SER_STRING ds then bookmarks ds else None in
  (if is_append sym || is_insert sym then
     Expand_Series dst_ser dst_off src_size_total;;
     SET_SERIES_USED dst_ser (dst_used + src_size_total);;
     if IS_SER_STRING ds then
       match bookmark with
       | Some (bmk_index, bmk_offset) =>
           if Z.leb dst_idx bmk_index then
             BIN_modify dst_ser
               (set_bookmarks (Some (bmk_index, bmk_offset + src_size_total)))
           else mret tt
       | None => mret tt
       end;;
       BIN_modify dst_ser (set_length (tail + src_len_total))
     else mret tt
   else
     let part := if negb (flag_set flags AM_PART) then src_len_total
                 else part in
     '(dst_size_at, dst_len_at) ←
       (if IS_SER_STRING ds then
          idx ← VAL_INDEX dst; VAL_SIZE_LIMIT_AT ds idx (-1)
        else
          idx ← VAL_INDEX dst;
          let n := if Z.leb dst_used idx then 0 else dst_used - idx in
          mret (n, n));
     '(part, part_size) ←
       (if Z.ltb dst_len_at (u32 part) then mret (dst_len_at, dst_size_at)
        else if IS_SER_STRING ds then
          idx ← VAL_INDEX dst;
          '(part_size, check) ← VAL_SIZE_LIMIT_AT ds idx part;
          assert (Z.eqb check (u32 part));;
          mret (part, part_size)
        else mret (part, part));
     (if Z.ltb part_size src_size_total then
        Expand_Series dst_ser dst_off (src_size_total - part_size);;
        SET_SERIES_USED dst_ser (dst_used + src_size_total - part_size)
      else if Z.ltb src_size_total part_size then
        Remove_Series_Units dst_ser dst_off (part_size - src_size_total);;
        SET_SERIES_USED dst_ser (dst_used + src_size_total - part_size)
      else mret tt);;
     if IS_SER_STRING ds then
       match bookmark with
       | Some (bmk_index, bmk_offset) =>
           if Z.ltb dst_idx bmk_index then
             BIN_modify dst_ser (set_bookmarks (Some (dst_idx, dst_off)))
           else mret tt
       | None => mret tt
       end;;
       BIN_modify dst_ser (set_length (tail + src_len_total - part))
     else mret tt);;
  for_fold 0 (Z.to_nat dups) (fun d dst_ptr =>
    src_mem ← src_bytes src_ptr src_size_raw;
    memcpy dst_ser dst_ptr src_mem src_size_raw;;
    let dst_ptr := dst_ptr + src_size_raw in
    if flag_set flags AM_LINE then
      memcpy dst_ser dst_ptr [10] 1;; mret (dst_ptr + 1)
    else mret dst_ptr) dst_off;;
  (match bookmark with
   | Some _ =>
       v ← BIN dst_ser;
       match bookmarks v with
       | Some (bmk_index, _) =>
           if Z.ltb (misc_length v) bmk_index then
             assert (is_change sym);;
             BIN_modify dst_ser (set_bookmarks None)
           else if Z.ltb (misc_length v) sizeof_REBVAL then
             BIN_modify dst_ser (set_bookmarks None)
           else mret tt
       | None => mret tt
       end
   | None => mret tt
   end);;
  mret (if is_append sym then 0 else dst_idx + src_len_total).

End Splice.

End Modify.

(** ** Part III: what is claimed of a run

    [wpx m s Q E]: run from [s], [m] does not crash; if it returns, [Q] holds
    of the result and the final state; if it fails, [E] holds of the error
    and of the state left behind.  [wlx] is the same but says nothing of a
    run that crashes. *)

Section Outcomes.
Context {St Err : Type}.

Definition wpx {A} (m : Mon St Err A) (s : St)
    (Q : A → St → Prop) (E : Err → St → Prop) : Prop :=
  match m s with
  | Done a s' => Q a s'
  | Failed e s' => E e s'
  | Panic => False
  end.

Definition wlx {A} (m : Mon St Err A) (s : St)
    (Q : A → St → Prop) (E : Err → St → Prop) : Prop :=
  match m s with
  | Done a s' => Q a s'
  | Failed e s' => E e s'
  | Panic => True
  end.

Definition no_fail : Err → St → Prop := fun _ _ => False.

End Outcomes.

Module FrameSpec.
Import Frame.

(** Every series in use lies below the next free address, and so does the
    keylist it links, if any. *)
Definition series_ok (n p : ptr) (v : REBSER) : Prop :=
  (p < n)%positive ∧
  match link_keylist v with Some k => (k < n)%positive | None => True end.

Definition heap_wf (s : State) : Prop :=
  map_Forall (series_ok (next s)) (heap s).

#[export] Instance series_ok_dec n p v : Decision (series_ok n p v).
Proof. unfold series_ok. destruct (link_keylist v); apply _. Defined.

#[export] Instance heap_wf_dec s : Decision (heap_wf s).
Proof. unfold heap_wf. apply _. Defined.

Definition keylist_of (s : State) (c : ptr) : option ptr :=
  heap s !! c ≫= link_keylist.

Definition is_shared (s : State) (k : ptr) : Prop :=
  ∃ kv, heap s !! k = Some kv ∧ KEYLIST_FLAG_SHARED kv = true.

Definition is_unique (s : State) (k : ptr) : Prop :=
  ∃ kv, heap s !! k = Some kv ∧ KEYLIST_FLAG_SHARED kv = false.

Arguments keylist_of s c%_positive.
Arguments is_shared s k%_positive.
Arguments is_unique s k%_positive.
Arguments Copy_Context_Shallow_Extra src%_positive extra%_nat _.
Arguments Expand_Context context%_positive delta%_nat _.
Arguments Merge_Contexts_Selfish _ SYM_SELF%_nat (parent1 parent2)%_positive _.
Arguments Resolve_Context _ (target source)%_positive _ _ _ _.

(** The table reads 0 everywhere. *)
Definition binds_zero (s : State) : Prop :=
  ∀ c, bind_at (Bind_Table s) c = 0.

(** Every entry of the table that is not 0 belongs to a key of the buffer. *)
Definition binds_covered (canon : REBSYM → REBSYM) (s : State) : Prop :=
  ∀ c, bind_at (Bind_Table s) c ≠ 0 →
       ∃ t, Typeset t ∈ BUF_COLLECT s ∧ canon (ts_sym t) = c.

Definition all_typesets (l : list RELVAL) : Prop :=
  Forall (fun v => IS_TYPESET v = true) l.

(** The symbols of the keys and the values of the variables of a context,
    roots left out. *)
Definition keys_of (s : State) (c : ptr) : option (list RELVAL) :=
  k ← keylist_of s c; kv ← heap s !! k; Some (drop 1 (ser_cells kv)).

Definition vars_of (s : State) (c : ptr) : option (list RELVAL) :=
  v ← heap s !! c; Some (drop 1 (ser_cells v)).

Arguments keys_of s c%_positive.
Arguments vars_of s c%_positive.

(** The state a call ends in, when it ends by a return or by a `fail`. *)
Definition final_state {A} (o : outcome State error A) : option State :=
  match o with
  | Done _ s | Failed _ s => Some s
  | Panic => None
  end.

(** Resolve_Context: the index [i] it takes from [only_words] (0 when that
    is not an integer), the slot its copying loop starts from, and whether
    it selects the words of canon [c] in the first place. *)
Definition resolve_i (only_words : REBVAL) : nat :=
  match only_words with
  | Integer v =>
      let i := Z.to_nat (v mod 2 ^ 32) in
      if Nat.eqb i 0 then 1%nat else i
  | _ => 0%nat
  end.

Definition resolve_start (only_words : REBVAL) : nat :=
  if negb (Nat.eqb (resolve_i only_words) 0) then resolve_i only_words
  else 1%nat.

Definition resolve_selects (canon : REBSYM → REBSYM) (only_words : REBVAL)
    (c : REBSYM) : Prop :=
  match only_words with
  | Void | Integer _ => True
  | AnyArray REB_BLOCK words =>
      ∃ k sym b, AnyWord k sym b ∈ words ∧
                 IS_WORD (AnyWord k sym b) || IS_SET_WORD (AnyWord k sym b)
                   = true ∧
                 canon sym = c
  | _ => False
  end.

(** *** States to run the routines on *)

Definition key (sym : REBSYM) (hidden : bool) : RELVAL :=
  Typeset (mkTypeset sym ALL_64 hidden false false).
Definition object (p : ptr) : RELVAL := AnyContext (Some REB_OBJECT) p None.
Definition varlist (cells : list RELVAL) (k : ptr) : REBSER :=
  mkSer cells 0 true false true false (Some k) None.
Definition keylist (cells : list RELVAL) (shared : bool) (meta : option ptr)
  : REBSER :=
  mkSer cells 0 true false false shared None meta.
Arguments key sym%_nat hidden.
Arguments object p%_positive.
Arguments varlist cells k%_positive.

(** Symbols used below: 1 is `self`, 10 11 12 are x y z; every symbol is
    its own canon. *)
Definition canon_id : REBSYM → REBSYM := fun sym => sym.

(** Two objects, at 1 and 3, on one SHARED keylist, at 2, whose meta is the
    object at 4. *)
Definition st_shared : State :=
  mkState
    (list_to_map
       [ (1%positive, varlist [object 1; Integer 1; Integer 2] 2);
         (2%positive,
          keylist [key 0 false; key 10 false; key 11 false] true
                  (Some 4%positive));
         (3%positive, varlist [object 3; Integer 5; Integer 6] 2);
         (4%positive, varlist [object 4] 5);
         (5%positive, keylist [key 0 false] false None) ])
    6%positive ∅ [].

(** The same after a collection pass over the object at 1 that found no new
    key: the buffer holds its three keys, the table is yet to be cleared. *)
Definition st_collected : State :=
  mkState (heap st_shared) 6%positive
          (<[10%nat := 1]> (<[11%nat := 2]> ∅))
          [key 0 false; key 10 false; key 11 false].

(** P1 {x: 1 y: 2} at 1 and P2 {y: 3 z: 4} at 3, each with its hidden
    `self`. *)
Definition st_merge (x1 y1 y2 z2 : Z) : State :=
  mkState
    (list_to_map
       [ (1%positive,
          varlist [object 1; object 1; Integer x1; Integer y1] 2);
         (2%positive,
          keylist [key 0 false; key 1 true; key 10 false; key 11 false]
                  false None);
         (3%positive,
          varlist [object 3; object 3; Integer y2; Integer z2] 4);
         (4%positive,
          keylist [key 0 false; key 1 true; key 11 false; key 12 false]
                  false None) ])
    5%positive ∅ [].



(** A target {a: 1 b: (void)} at 1 and a source {a: 2 b: 3} at 3; the key
    `a` of the target is locked or not. *)
Definition st_resolve (locked : bool) : State :=
  mkState
    (list_to_map
       [ (1%positive, varlist [object 1; Integer 1; Void] 2);
         (2%positive,
          keylist [key 0 false;
                   Typeset (mkTypeset 10%nat ALL_64 false locked false);
                   key 11 false] false None);
         (3%positive, varlist [object 3; Integer 2; Integer 3] 4);
         (4%positive,
          keylist [key 0 false; key 10 false; key 11 false] false None) ])
    5%positive ∅ [].

(** A pass just started: the table empty, the root key in the buffer. *)
Definition st_started : State :=
  mkState ∅ 1%positive ∅ [key 0 false].

(** A pass that has collected the set-word of symbol 10. *)
Definition st_scanning : State :=
  mkState ∅ 1%positive (<[10%nat := 1]> ∅)
          [key 0 false; Val_Init_Typeset NOT_FLAGIT_KIND_REB_0 10%nat].

(** *** What the proofs keep track of *)

(** What the scan keeps true between cells, and what it leaves on a
    failure. *)
Definition scan_inv (canon : REBSYM → REBSYM) (h : gmap positive REBSER)
    (s : State) : Prop :=
  binds_covered canon s ∧ all_typesets (BUF_COLLECT s) ∧ heap s = h.

Definition scan_rolled_back (flags : Z) (h : gmap positive REBSER)
    (e : error) (s : State) : Prop :=
  binds_zero s ∧ BUF_COLLECT s = [] ∧ heap s = h ∧
  flag_set flags COLLECT_NO_DUP = true ∧ ∃ v, e = RE_DUP_VARS v.

(** Routines that leave the store alone. *)
Definition keeps_heap {A} (m : M A) : Prop :=
  ∀ s, wlx m s (fun _ s' => heap s' = heap s ∧ next s' = next s)
               (fun _ s' => heap s' = heap s ∧ next s' = next s).

(** The target holds the values [P] names in the slots [P] names, links the
    keylist [tk], which is another series, and lies below the next free
    address. *)
Definition slots_inv (target tk : ptr) (P : nat → RELVAL → Prop)
    (s : State) : Prop :=
  (target < next s)%positive ∧ tk ≠ target ∧
  ∃ tv, heap s !! target = Some tv ∧ link_keylist tv = Some tk ∧
        ∀ j v, P j v → ser_cells tv !! j = Some v.

(** The slot [j] of the target holds [v], and the key of that slot, in the
    keylist [tk] the target links, is locked. *)
Definition locked_slot (target tk : ptr) (j : nat) (v : RELVAL)
    (s : State) : Prop :=
  ((target < next s)%positive ∧ (tk < next s)%positive ∧ tk ≠ target) ∧
  (∃ tv, heap s !! target = Some tv ∧ link_keylist tv = Some tk ∧
         ser_cells tv !! j = Some v) ∧
  (∃ tkv key, heap s !! tk = Some tkv ∧
              ser_cells tkv !! j = Some (Typeset key) ∧
              TYPESET_FLAG_LOCKED key = true).

(** What the copy of one word's value rests on: the target, its keylist, the
    source and its keylist are where they are expected, apart from one
    another as far as it matters, with the cells named. *)
Definition resolve_heap (target source tk sk : ptr)
    (tcells kcells scells skcells : list RELVAL) (s : State) : Prop :=
  ((target < next s)%positive ∧ (source < next s)%positive ∧
   (sk < next s)%positive) ∧
  (tk ≠ target ∧ tk ≠ source ∧ target ≠ source ∧ sk ≠ target) ∧
  (∃ tv, heap s !! target = Some tv ∧ link_keylist tv = Some tk ∧
         ser_cells tv = tcells) ∧
  (∃ tkv, heap s !! tk = Some tkv ∧ ser_cells tkv = kcells) ∧
  (∃ sv, heap s !! source = Some sv ∧ link_keylist sv = Some sk ∧
         ser_cells sv = scells) ∧
  (∃ skv, heap s !! sk = Some skv ∧ ser_cells skv = skcells).

(** Keys that differ in their lookback flag at most. *)
Definition key_like (a b : RELVAL) : Prop :=
  match a, b with
  | Typeset t, Typeset t' =>
      ts_sym t = ts_sym t' ∧ TYPESET_FLAG_LOCKED t = TYPESET_FLAG_LOCKED t'
  | Typeset _, _ | _, Typeset _ => False
  | _, _ => True
  end.

(** Code that only reads. *)
Definition reads_only {A} (m : M A) : Prop :=
  ∀ s, wlx m s (fun _ s' => s' = s) (fun _ s' => s' = s).

(** *** Appending and finding *)

(** The key Append_Context_Core writes, and the word it hands back bound to
    the new slot, when it was given one. *)
Definition appended_key (word : option RELVAL) (sym : REBSYM)
    (lookahead : bool) : RELVAL :=
  Typeset (mkTypeset match word with
                     | Some (AnyWord _ wsym _) => wsym
                     | _ => sym
                     end ALL_64 false false lookahead).

Definition bound_word (word : option RELVAL) (c : ptr) (n : nat)
  : option RELVAL :=
  match word with
  | Some (AnyWord k sym _) => Some (AnyWord k sym (Some (c, Z.of_nat n)))
  | _ => None
  end.

(** [s'] is [s] with [key] at the tail of the keylist [k] and a void
    variable at the tail of the varlist [c], each taken from the spare room
    of its series, and nothing else different. *)
Definition appended (c k : ptr) (cv kv : REBSER) (key : RELVAL)
    (s s' : State) : Prop :=
  heap s' !! k
    = Some (set_cells (ser_cells kv ++ [key])
                      (set_rest (ser_rest kv - 1) kv)) ∧
  heap s' !! c
    = Some (set_cells (ser_cells cv ++ [Void])
                      (set_rest (ser_rest cv - 1) cv)) ∧
  (∀ p, p ≠ c → p ≠ k → heap s' !! p = heap s !! p) ∧
  next s' = next s ∧ Bind_Table s' = Bind_Table s ∧
  BUF_COLLECT s' = BUF_COLLECT s.

(** The test Find_Word_In_Context makes on a key. *)
Definition key_matches (canon : REBSYM → REBSYM) (sym : REBSYM)
    (t : typeset) : bool :=
  Nat.eqb sym (ts_sym t) || Nat.eqb (canon sym) (canon (ts_sym t)).

(** No key from slot [lo] on matches. *)
Definition no_match (canon : REBSYM → REBSYM) (sym : REBSYM)
    (cells : list RELVAL) (lo : nat) : Prop :=
  ∀ j u, (lo ≤ j)%nat → cells !! j = Some (Typeset u) →
         key_matches canon sym u = false.

(** The key [t] at slot [m] is the first from slot [lo] on to match. *)
Definition first_match (canon : REBSYM → REBSYM) (sym : REBSYM)
    (cells : list RELVAL) (lo m : nat) (t : typeset) : Prop :=
  (lo ≤ m)%nat ∧ cells !! m = Some (Typeset t) ∧
  key_matches canon sym t = true ∧
  ∀ j u, (lo ≤ j < m)%nat → cells !! j = Some (Typeset u) →
         key_matches canon sym u = false.

(** Every cell of a keylist from slot 1 on is a typeset. *)
Definition keys_typesets (cells : list RELVAL) : Prop :=
  ∀ j, (1 ≤ j < length cells)%nat → ∃ t, cells !! j = Some (Typeset t).

(** The target of [st_resolve] with its varlist locked. *)
Definition st_locked : State :=
  mkState
    (<[1%positive := mkSer [object 1; Integer 1; Void] 0 true true true false
                           (Some 2%positive) None]>
       (heap (st_resolve false)))
    5%positive ∅ [].

Arguments AnyWord k sym%_nat binding.
Arguments Append_Context_Core context%_positive word sym%_nat lookahead _.
Arguments Append_Context context%_positive word sym%_nat _.
Arguments Find_Word_In_Context _ context%_positive sym%_nat always _.
Arguments appended (c k)%_positive cv kv key s s'.
Arguments no_match canon sym%_nat cells lo%_nat.
Arguments first_match canon sym%_nat cells (lo m)%_nat t.



(** The table holds, for every key of the buffer from slot 1 on, the slot
    of that key. *)
Definition buf_indexed (canon : REBSYM → REBSYM) (s : State) : Prop :=
  ∀ i t, (1 ≤ i)%nat → BUF_COLLECT s !! i = Some (Typeset t) →
         bind_at (Bind_Table s) (canon (ts_sym t)) = Z.of_nat i.

(** No two keys from slot 1 on have one canon. *)
Definition keys_distinct (canon : REBSYM → REBSYM) (l : list RELVAL) : Prop :=
  ∀ i j t u, (1 ≤ i)%nat → (1 ≤ j)%nat →
             l !! i = Some (Typeset t) → l !! j = Some (Typeset u) →
             canon (ts_sym t) = canon (ts_sym u) → i = j.

(** What a scan of Collect_Context_Inner_Loop that returns has done to the
    buffer and the table: the buffer has only grown, the entries of the
    table that were set are as they were, and every word of [l] that is to
    be collected has an entry. *)
Definition scan_indexes (canon : REBSYM → REBSYM) (flags : Z)
    (l : list RELVAL) (s s' : State) : Prop :=
  (∃ more, BUF_COLLECT s' = BUF_COLLECT s ++ more) ∧
  (∀ c, bind_at (Bind_Table s) c ≠ 0 →
        bind_at (Bind_Table s') c = bind_at (Bind_Table s) c) ∧
  (∀ k sym b,
     AnyWord k sym b ∈ l →
     IS_SET_WORD (AnyWord k sym b) || flag_set flags COLLECT_ANY_WORD = true →
     bind_at (Bind_Table s') (canon sym) ≠ 0).

(** The canons of the keys of a list of cells, in order. *)
Definition key_canons (canon : REBSYM → REBSYM) (l : list RELVAL)
  : list REBSYM :=
  omap (fun v => match v with
                 | Typeset t => Some (canon (ts_sym t))
                 | _ => None
                 end) l.

(** [s'] is [s] with the context [c] moved from the SHARED keylist [kv]
    to a copy of it made at the first free address, with room for [delta]
    more keys, and nothing else different. *)
Definition unshared (c : ptr) (cv kv : REBSER) (delta : nat)
    (s s' : State) : Prop :=
  heap s' !! c
    = Some (set_keylist (next s)
              (set_rest (Nat.max (ser_rest cv) delta) cv)) ∧
  heap s' !! next s
    = Some (mkSer (ser_cells kv) delta true false false false None
                  (misc_meta kv)) ∧
  (∀ p, p ≠ c → p ≠ next s → heap s' !! p = heap s !! p) ∧
  next s' = Pos.succ (next s) ∧ Bind_Table s' = Bind_Table s ∧
  BUF_COLLECT s' = BUF_COLLECT s.

(** The rootkey and the hidden key of `self`. *)
Definition rootkey : RELVAL := Val_Init_Typeset ALL_64 SYM_0.
Definition self_key (SYM_SELF : REBSYM) : RELVAL :=
  Typeset (mkTypeset SYM_SELF ALL_64 true false false).

(** What the loop of Merge_Contexts_Selfish over the keys of the second
    parent has made of the child's cells [C0] when it is at key [j]: the
    store is [h0] but for the cells [C] of the child; every key gone over
    has put the parent's variable in the slot the table gives for its
    canon, and the other slots are as they were. *)
Definition merge_loop_inv (canon : REBSYM → REBSYM) (child : ptr)
    (cv0 : REBSER) (h0 : gmap positive REBSER) (s0 : State)
    (keys2 vars2 : list RELVAL) (C0 : list RELVAL) (j : nat) (sx : State)
  : Prop :=
  ∃ C,
    heap sx = <[child := set_cells C cv0]> h0 ∧
    next sx = next s0 ∧ Bind_Table sx = Bind_Table s0 ∧
    BUF_COLLECT sx = BUF_COLLECT s0 ∧
    length C = length C0 ∧
    (∀ j' u, (1 ≤ j' < j)%nat → keys2 !! j' = Some (Typeset u) →
             C !! Z.to_nat (bind_at (Bind_Table s0) (canon (ts_sym u)))
               = vars2 !! j') ∧
    (∀ n, (∀ j' u, (1 ≤ j' < j)%nat → keys2 !! j' = Some (Typeset u) →
                   Z.to_nat (bind_at (Bind_Table s0) (canon (ts_sym u)))
                     ≠ n) →
          C !! n = C0 !! n) ∧
    (∀ n v, C !! n = Some v →
            C0 !! n = Some v ∨ ∃ j', (1 ≤ j')%nat ∧ vars2 !! j' = Some v).

(** A value that rebinding from either parent leaves as it is: it holds no
    word bound to one of them. *)
Definition rebind_free (canon : REBSYM → REBSYM) (p1 p2 : ptr)
    (v : RELVAL) : Prop :=
  ∀ dst ob, Rebind_Value canon p1 dst ob v = v ∧
            Rebind_Value canon p2 dst ob v = v.

(** The test Find_Word_In_Array makes on a cell. *)
Definition word_matches (canon : REBSYM → REBSYM) (sym : REBSYM)
    (v : RELVAL) : bool :=
  match v with
  | AnyWord _ wsym _ => Nat.eqb sym (canon wsym)
  | _ => false
  end.

(** The canons of the words a block holds at its top level, in order. *)
Definition word_canons (canon : REBSYM → REBSYM) (l : list RELVAL)
  : list REBSYM :=
  omap (fun v => match v with
                 | AnyWord _ sym _ => Some (canon sym)
                 | _ => None
                 end) l.

(** Plain words: WORD! cells that are not bound. *)
Definition plain_words (l : list RELVAL) : Prop :=
  Forall (fun v => ∃ sym, v = AnyWord REB_WORD sym None) l.

(** What the scan of Collect_Words keeps true between cells: the store is
    [h], the buffer holds plain words of different canons, and the table
    marks the canons of those words and no other. *)
Definition words_inv (canon : REBSYM → REBSYM) (h : gmap positive REBSER)
    (n : ptr) (s : State) : Prop :=
  heap s = h ∧ next s = n ∧ plain_words (BUF_COLLECT s) ∧
  NoDup (word_canons canon (BUF_COLLECT s)) ∧
  ∀ c, bind_at (Bind_Table s) c ≠ 0 ↔ c ∈ word_canons canon (BUF_COLLECT s).

(** What a scan adds to the buffer: [more], which holds a word for every
    word of [l] that is to be collected, and, when the scan does not go
    into blocks, only words of [l]. *)
Definition scan_adds (canon : REBSYM → REBSYM) (flags : Z)
    (l : list RELVAL) (s s' : State) : Prop :=
  ∃ more,
    BUF_COLLECT s' = BUF_COLLECT s ++ more ∧
    (∀ k sym b,
       AnyWord k sym b ∈ l →
       IS_SET_WORD (AnyWord k sym b) || flag_set flags COLLECT_ANY_WORD
         = true →
       canon sym ∈ word_canons canon (BUF_COLLECT s')) ∧
    (flag_set flags COLLECT_DEEP = false →
     ∀ c, c ∈ word_canons canon more → c ∈ word_canons canon l).

(** A block [x 5 y: y] at 1, in a store that holds nothing else; 10 and 11
    are x and y. *)
Definition st_words : State :=
  mkState
    (list_to_map
       [ (1%positive,
          mkSer [AnyWord REB_WORD 10 None; Integer 5;
                 AnyWord REB_SET_WORD 11 None; AnyWord REB_WORD 11 None]
                0 false false false false None None) ])
    2%positive ∅ [].

Arguments Find_Word_In_Array _ NOT_FOUND%_nat array%_positive
  (index sym)%_nat _.
Arguments word_matches canon sym%_nat v.
Arguments rebind_free canon (p1 p2)%_positive v.
Arguments Make_Selfish_Context_Detect _ SYM_SELF%_nat kind spec exit_from
  stale head opt_parent _.
Arguments self_key SYM_SELF%_nat.
Arguments Collect_Context_Keys _ context%_positive check_dups _.
Arguments Collect_Keylist_Managed _ SYM_SELF%_nat stale head prior flags%_Z _.
Arguments Collect_Words _ head opt_prior_head flags%_Z _.

(** *** Resolve_Context: what it takes to return *)

(** The canon of a key's symbol; a cell that is no key counts for the
    symbol 0. *)
Definition cell_canon (canon : REBSYM → REBSYM) (v : RELVAL) : REBSYM :=
  match v with Typeset t => canon (ts_sym t) | _ => SYM_0 end.

(** The cells at the indices of [cs] are keys, of the canons [cs] lists. *)
Definition keys_have (canon : REBSYM → REBSYM) (cells : list RELVAL)
    (cs : list REBSYM) : Prop :=
  ∀ n c, cs !! n = Some c →
         ∃ t, cells !! n = Some (Typeset t) ∧ canon (ts_sym t) = c.

(** The canons Resolve_Context tags in the table before it copies: those of
    the target's keys from the index on, or those of the words of the
    block.  [tc] lists the canons of the target's keys. *)
Definition resolve_tagged (canon : REBSYM → REBSYM) (only_words : REBVAL)
    (tc : list REBSYM) (c : REBSYM) : Prop :=
  match only_words with
  | Integer _ => c ∈ drop (resolve_i only_words) tc
  | AnyArray REB_BLOCK _ => resolve_selects canon only_words c
  | _ => False
  end.

(** Every entry of the table that is not 0 belongs to a canon of [R] and is
    below [n]. *)
Definition binds_within (R : REBSYM → Prop) (n : nat) (s : State) : Prop :=
  ∀ c, bind_at (Bind_Table s) c ≠ 0 →
       R c ∧ bind_at (Bind_Table s) c < Z.of_nat n.

(** The store as the loops of Resolve_Context go over it: the target links
    the keylist [tk] and has a variable for each of its keys, of canons
    [tc]; the source links [sk], whose first keys have the canons [sc], and
    has a variable for each of them.  The keylists may be one series: until
    keys are appended to the target ([exact]), [sk] holds no more than the
    keys of [sc]. *)
Definition resolve_shape (canon : REBSYM → REBSYM)
    (target source sk tk : ptr) (tc sc : list REBSYM) (exact : bool)
    (s : State) : Prop :=
  ((target < next s)%positive ∧ (tk < next s)%positive ∧
   (source < next s)%positive ∧ (sk < next s)%positive) ∧
  (tk ≠ target ∧ tk ≠ source ∧ target ≠ source ∧ sk ≠ target) ∧
  (∃ tv tkv, heap s !! target = Some tv ∧ link_keylist tv = Some tk ∧
             heap s !! tk = Some tkv ∧
             length (ser_cells tv) = length tc ∧
             length (ser_cells tkv) = length tc ∧
             keys_have canon (ser_cells tkv) tc) ∧
  (∃ sv skv, heap s !! source = Some sv ∧ link_keylist sv = Some sk ∧
             heap s !! sk = Some skv ∧
             (length sc ≤ length (ser_cells sv))%nat ∧
             keys_have canon (ser_cells skv) sc ∧
             (exact = true → length (ser_cells skv) = length sc)).

(** A call of Resolve_Context that is in order: no pass is under way (the
    table reads 0 and the buffer is empty); the target, whose varlist is
    not locked, and the source are two contexts, each with a keylist of
    typesets that is not the varlist of either and a variable for each key.
    To extend the target, moreover, the keys of the source have symbols
    (which Append_Context_Core asserts), and each word of a block given as
    [only_words] is a key of the target or of the source (the words left
    tagged otherwise are what the closing ASSERT_BIND_TABLE_EMPTY finds). *)
Definition resolve_ready (canon : REBSYM → REBSYM) (target source : ptr)
    (only_words : REBVAL) (expand : bool) (tv : REBSER) (tk : ptr)
    (tkv sv : REBSER) (sk : ptr) (skv : REBSER) (s : State) : Prop :=
  (heap_wf s ∧ binds_zero s ∧ BUF_COLLECT s = []) ∧
  (heap s !! target = Some tv ∧ link_keylist tv = Some tk ∧
   heap s !! tk = Some tkv ∧
   heap s !! source = Some sv ∧ link_keylist sv = Some sk ∧
   heap s !! sk = Some skv) ∧
  (tk ≠ target ∧ tk ≠ source ∧ target ≠ source ∧ sk ≠ target) ∧
  SERIES_FLAG_LOCKED tv = false ∧
  (length (ser_cells tv) = length (ser_cells tkv) ∧
   all_typesets (ser_cells tkv)) ∧
  ((length (ser_cells skv) ≤ length (ser_cells sv))%nat ∧
   all_typesets (ser_cells skv)) ∧
  (expand = true →
   Forall (fun c => c ≠ SYM_0) (drop 1 (cell_canon canon <$> ser_cells skv)) ∧
   match only_words with
   | AnyArray REB_BLOCK _ =>
       ∀ c, resolve_selects canon only_words c →
            c ∈ drop 1 (cell_canon canon <$> ser_cells tkv) ∨
            c ∈ drop 1 (cell_canon canon <$> ser_cells skv)
   | _ => True
   end).

End FrameSpec.

Module ModifySpec.
Import Modify.

Arguments Binary ser%_positive index%_Z.
Arguments AnyString k ser%_positive index%_Z.
Arguments AnyArray k arr%_positive index%_Z.

(** The values an array holds, markers left out. *)
Definition values (a : REBARR) : list REBVAL := cell_value <$> arr_cells a.

(** The cells [src_rel] points at lie in an array other than [dst], or are
    the caller's own cell: [block] is what the copying loop reads. *)
Definition src_ok (dst : ptr) (src_rel : src_pointer) (block : list cell)
    (s : State) : Prop :=
  match src_rel with
  | SrcAt arr off =>
      arr ≠ dst ∧ 0 ≤ off ∧
      ∃ sa, arrays s !! arr = Some sa ∧
            take (length block) (drop (Z.to_nat off) (arr_cells sa)) = block ∧
            (Z.to_nat off + length block ≤ length (arr_cells sa))%nat
  | SrcVal c => block = [c]
  end.

(** [s'] differs from [s] at most in the array [dst]. *)
Definition frame (dst : ptr) (s s' : State) : Prop :=
  (∀ p, p ≠ dst → arrays s' !! p = arrays s !! p) ∧
  series s' = series s ∧ next s' = next s.

(** [old] with the run [new] written over it from position [d] on. *)
Definition spliced {A} (d : nat) (new old : list A) : list A :=
  take d old ++ new ++ drop (d + length new) old.

(** The cell at the head of an array, if it has one, carries the marker. *)
Definition head_marked (a : REBARR) : Prop :=
  ∀ c, arr_cells a !! 0%nat = Some c → NEWLINE_BEFORE c = true.

(** The cells one duplicate copies: the source cell itself or, with
    AM_SPLICE, the cells of the source array from its index on, [dst_len] of
    them under the /PART of an insert or append.  [None] when the request is
    not well formed: a splice of what is no array, an index outside the
    array, a part that is negative or longer than what is there. *)
Definition source_cells (sym : verb) (flags : Z) (src_val : cell)
    (dst_len : Z) (s : State) : option (list cell) :=
  if flag_set flags AM_SPLICE then
    match VAL_UNESCAPED (cell_value src_val) with
    | AnyArray _ arr index =>
        a ← arrays s !! arr;
        if Z.ltb index 0 || Z.ltb (Z.of_nat (length (arr_cells a))) index
        then None
        else
          let rest := drop (Z.to_nat index) (arr_cells a) in
          if negb (is_change sym) && flag_set flags AM_PART then
            if Z.leb 0 dst_len && Z.leb dst_len (Z.of_nat (length rest))
            then Some (take (Z.to_nat dst_len) rest)
            else None
          else Some rest
    | _ => None
    end
  else Some [src_val].

(** Where the cells go: the index given, or the tail for an append and for
    an index past the tail. *)
Definition target_index (sym : verb) (a : REBARR) (dst_idx : Z) : Z :=
  let tail := Z.of_nat (length (arr_cells a)) in
  if is_append sym || Z.ltb tail dst_idx then tail else dst_idx.

(** The values the array [p] holds once a call has returned. *)
Definition values_after {A} (o : outcome State error A) (p : ptr)
  : option (list REBVAL) :=
  match o with
  | Done _ s' => values <$> arrays s' !! p
  | _ => None
  end.

(** The destination passes the checks Modify_String_Or_Binary makes before
    it looks at the source: the series may be written; a BINARY! over a
    series flagged as string stands at the start of a codepoint (or at the
    tail); a string has the codepoints its index counts. *)
Definition dst_ready (dst : REBVAL) (s : State) : Prop :=
  match dst with
  | Binary p i =>
      ∃ ds, series s !! p = Some ds ∧ read_only ds = false ∧
            (IS_SER_STRING ds = true →
             0 ≤ i ≤ Z.of_nat (length (ser_bytes ds)) ∧
             ∀ b, ser_bytes ds !! Z.to_nat i = Some b → b < 128)
  | AnyString _ p i =>
      ∃ ds, series s !! p = Some ds ∧ read_only ds = false ∧
            IS_SER_STRING ds = true ∧ 0 ≤ i ∧
            is_Some (skip_codepoints (Z.to_nat i) (ser_bytes ds))
  | _ => False
  end.

(** The destinations the up-front checks refuse: a series that may not be
    written, and a BINARY! that stands inside a codepoint (at a byte that is
    not below 0x80) of a series flagged as string. *)
Definition dst_read_only (dst : REBVAL) (s : State) : Prop :=
  match dst with
  | Binary p _ | AnyString _ p _ =>
      ∃ ds, series s !! p = Some ds ∧ read_only ds = true
  | _ => False
  end.

Definition dst_in_codepoint (dst : REBVAL) (s : State) : Prop :=
  match dst with
  | Binary p i =>
      ∃ ds b, series s !! p = Some ds ∧ read_only ds = false ∧
              IS_SER_STRING ds = true ∧ 0 ≤ i ∧
              ser_bytes ds !! Z.to_nat i = Some b ∧ 128 ≤ b
  | _ => False
  end.

Definition dst_index (dst : REBVAL) : Z :=
  match dst with
  | Binary _ i | AnyString _ _ i | AnyArray _ _ i => i
  | _ => 0
  end.

(** A chain of well-formed UTF-8 encodings: each is as long as its leading
    byte announces. *)
Definition encoding (e : list Z) : Prop :=
  match e with
  | [] => False
  | b :: _ => length e = utf8_size b
  end.

(** The series at [p] holds the bytes [bytes] and counts [len]
    codepoints. *)
Definition text_holds (p : ptr) (bytes : list Z) (len : Z) (s : State)
  : Prop :=
  ∃ v, series s !! p = Some v ∧ ser_bytes v = bytes ∧ misc_length v = len.

(** *** States to run the routines on *)

Definition int_cell (n : Z) : cell := mkCell (Integer n) false.

(** The empty array at 1 and the block [10 20 30] at 5. *)
Definition st_block : State :=
  mkState
    (list_to_map
       [ (1%positive, mkArr [] false);
         (5%positive, mkArr [int_cell 10; int_cell 20; int_cell 30] false) ])
    ∅ 6%positive.

Definition EMPTY_BLOCK : cell := mkCell (AnyArray REB_BLOCK 1 0) false.
Definition EMPTY_TEXT : REBVAL := AnyString REB_TEXT 2 0.

(** Molding is not under test: every value molds to `?`. *)
Definition mold_any : State → REBVAL → list Z := fun _ _ => [63].
Definition form_any : State → cell → list Z := fun _ _ => [63].

(** Memory reads as zero wherever the sources leave it open. *)
Definition zero_past : State → byte_pointer → nat → Z := fun _ _ _ => 0.
Definition zero_gap : State → ptr → Z → nat → Z := fun _ _ _ _ => 0.

Definition Modify_Array' := Modify_Array EMPTY_BLOCK.
Definition Modify_String_Or_Binary' :=
  Modify_String_Or_Binary EMPTY_TEXT mold_any form_any mold_any 32
    zero_past zero_gap.

(** The empty text at 2 and, at 7, a text of four codepoints, the first
    encoded on four bytes, the others on one. *)
Definition st_text : State :=
  mkState ∅
    (list_to_map
       [ (2%positive, mkBin [] true 0 None false);
         (7%positive,
          mkBin [240; 159; 152; 128; 97; 98; 99] true 4 None false) ])
    8%positive.

(** *** What is written into a byte series *)

(** The bytes of a source that needs no molding: a character is its
    encoding, an integer that is a byte is that byte. *)
Definition source_bytes (src : REBVAL) : option (list Z) :=
  match src with
  | Char encoded => Some encoded
  | Integer i => if Z.leb 0 i && Z.leb i 255 then Some [i] else None
  | _ => None
  end.

(** What one duplicate comes to: the source, and a line feed under /LINE. *)
Definition dup_bytes (flags : Z) (src_mem : list Z) : list Z :=
  src_mem ++ (if flag_set flags AM_LINE then [10] else []).

(** The encodings one duplicate of a character comes to. *)
Definition dup_encodings (flags : Z) (encoded : list Z) : list (list Z) :=
  encoded :: (if flag_set flags AM_LINE then [[10]] else []).

(** The index of the bookmark of the series at [p], if it has one. *)
Definition marked (p : ptr) (i : option Z) (s : State) : Prop :=
  ∃ v, series s !! p = Some v ∧ fst <$> bookmarks v = i.

(** A write to the series [p] keeps what [R] says of the state. *)
Definition kept_by_writes (p : ptr) (R : State → Prop) : Prop :=
  ∀ s v, R s → R (mkState (arrays s) (<[p := v]> (series s)) (next s)).

(** *** What a call of Modify_Array comes to *)

(** How many cells at the target index a CHANGE takes away: the [dst_len]
    given when /PART is used or when more cells are written than that, and
    otherwise as many as are written.  An insert or append takes none. *)
Definition replaced_len (sym : verb) (flags dst_len size : Z) : Z :=
  if negb (is_change sym) then 0
  else if Z.ltb dst_len size || flag_set flags AM_PART then dst_len
  else size.

(** [s'] differs from [s] in the array [dst] and in the array at the
    address [fresh], if at all. *)
Definition arrays_kept (dst fresh : ptr) (s s' : State) : Prop :=
  (∀ p, p ≠ dst → p ≠ fresh → arrays s' !! p = arrays s !! p) ∧
  series s' = series s.

(** The block [10 20] at 9, written with a line break at its end. *)
Definition st_lines : State :=
  mkState
    (list_to_map
       [ (1%positive, mkArr [] false);
         (9%positive, mkArr [int_cell 10; int_cell 20] true) ])
    ∅ 10%positive.

(** The text `hi` at 3, read-only, and the plain binary #{010203} at 4. *)
Definition st_frozen : State :=
  mkState ∅
    (list_to_map
       [ (2%positive, mkBin [] true 0 None false);
         (3%positive, mkBin [104; 105] true 2 None true);
         (4%positive, mkBin [1; 2; 3] false 0 None false) ])
    5%positive.

(** The text of [st_text] with a bookmark at its third codepoint. *)
Definition st_marked : State :=
  mkState ∅
    (list_to_map
       [ (2%positive, mkBin [] true 0 None false);
         (7%positive,
          mkBin [240; 159; 152; 128; 97; 98; 99] true 4 (Some (2, 5))
                false) ])
    8%positive.

(** Both at once. *)
Definition st_mixed : State :=
  mkState (arrays st_block) (series st_text) 8%positive.

End ModifySpec.

(** ** Part IV: rules for outcomes *)

Section OutcomeRules.
Context {St Err : Type}.

Lemma wpx_bind {A B} (m : Mon St Err A) (f : A → Mon St Err B) s Q E :
  wpx m s (fun a s' => wpx (f a) s' Q E) E → wpx (m ≫= f) s Q E.
Proof. unfold wpx, mbind, Mon_bind. destruct (m s); auto. Qed.

Lemma wpx_ret {A} (a : A) s (Q : A → St → Prop) (E : Err → St → Prop) :
  Q a s → wpx (mret a : Mon St Err A) s Q E.
Proof. auto. Qed.

Lemma wpx_mono {A} (m : Mon St Err A) s (Q Q' : A → St → Prop)
    (E E' : Err → St → Prop) :
  wpx m s Q E → (∀ a s', Q a s' → Q' a s') → (∀ e s', E e s' → E' e s') →
  wpx m s Q' E'.
Proof. unfold wpx. destruct (m s); auto. Qed.

Lemma wpx_assert b s (Q : unit → St → Prop) (E : Err → St → Prop) :
  b = true → Q tt s → wpx (assert b) s Q E.
Proof. intros -> H. exact H. Qed.

Lemma wpx_fail {A} e s (Q : A → St → Prop) (E : Err → St → Prop) :
  E e s → wpx (fail e : Mon St Err A) s Q E.
Proof. auto. Qed.

Lemma wpx_done {A} (m : Mon St Err A) s Q :
  wpx m s Q no_fail → ∃ a s', m s = Done a s' ∧ Q a s'.
Proof. unfold wpx, no_fail. destruct (m s); naive_solver. Qed.

Lemma wpx_failed {A} (m : Mon St Err A) s E :
  wpx m s (fun _ _ => False) E → ∃ e s', m s = Failed e s' ∧ E e s'.
Proof. unfold wpx. destruct (m s); naive_solver. Qed.

Lemma wpx_for_each {A} (body : A → Mon St Err unit) (I : St → Prop) E xs s :
  I s →
  (∀ x s1, x ∈ xs → I s1 → wpx (body x) s1 (fun _ s2 => I s2) E) →
  wpx (for_each body xs) s (fun _ s' => I s') E.
Proof.
  revert s. induction xs as [|x xs IH]; intros s HI Hbody; [exact HI|].
  cbn [for_each]. apply wpx_bind.
  eapply wpx_mono; [apply Hbody; [left|exact HI]| |auto].
  cbv beta. intros _ s1 H1. apply IH; [exact H1|].
  intros y s2 Hy. apply Hbody. by right.
Qed.

Lemma wlx_bind {A B} (m : Mon St Err A) (f : A → Mon St Err B) s Q E :
  wlx m s (fun a s' => wlx (f a) s' Q E) E → wlx (m ≫= f) s Q E.
Proof. unfold wlx, mbind, Mon_bind. destruct (m s); auto. Qed.

Lemma wlx_ret {A} (a : A) s (Q : A → St → Prop) (E : Err → St → Prop) :
  Q a s → wlx (mret a : Mon St Err A) s Q E.
Proof. auto. Qed.

Lemma wlx_mono {A} (m : Mon St Err A) s (Q Q' : A → St → Prop)
    (E E' : Err → St → Prop) :
  wlx m s Q E → (∀ a s', Q a s' → Q' a s') → (∀ e s', E e s' → E' e s') →
  wlx m s Q' E'.
Proof. unfold wlx. destruct (m s); auto. Qed.

Lemma wlx_assert b s (Q : unit → St → Prop) (E : Err → St → Prop) :
  (b = true → Q tt s) → wlx (assert b) s Q E.
Proof. destruct b; [intros H; exact (H eq_refl)|constructor]. Qed.

Lemma wlx_panic {A} s (Q : A → St → Prop) (E : Err → St → Prop) :
  wlx (panic : Mon St Err A) s Q E.
Proof. constructor. Qed.

Lemma wlx_fail {A} e s (Q : A → St → Prop) (E : Err → St → Prop) :
  E e s → wlx (fail e : Mon St Err A) s Q E.
Proof. auto. Qed.

Lemma wlx_for_ (body : nat → Mon St Err unit) (I : nat → St → Prop) E
    count start s :
  I start s →
  (∀ j s1, (start ≤ j < start + count)%nat → I j s1 →
           wlx (body j) s1 (fun _ s2 => I (S j) s2) E) →
  wlx (for_ start count body) s (fun _ s' => I (start + count)%nat s') E.
Proof.
  revert start s. induction count as [|count IH]; intros start s HI Hbody.
  - cbn. by rewrite Nat.add_0_r.
  - cbn [for_]. apply wlx_bind.
    eapply wlx_mono; [apply Hbody; [lia|exact HI]| |auto].
    cbv beta. intros _ s1 H1.
    replace (start + S count)%nat with (S start + count)%nat by lia.
    apply IH; [exact H1|]. intros j s2 Hj. apply Hbody. lia.
Qed.

Lemma wlx_for_fold {A} (body : nat → A → Mon St Err A)
    (I : nat → A → St → Prop) E count start a s :
  I start a s →
  (∀ j a1 s1, (start ≤ j < start + count)%nat → I j a1 s1 →
              wlx (body j a1) s1 (fun a2 s2 => I (S j) a2 s2) E) →
  wlx (for_fold start count body a) s
      (fun a' s' => I (start + count)%nat a' s') E.
Proof.
  revert start a s. induction count as [|count IH]; intros start a s HI Hbody.
  - cbn. by rewrite Nat.add_0_r.
  - cbn [for_fold]. apply wlx_bind.
    eapply wlx_mono; [apply Hbody; [lia|exact HI]| |auto].
    cbv beta. intros a1 s1 H1.
    replace (start + S count)%nat with (S start + count)%nat by lia.
    apply IH; [exact H1|]. intros j a2 s2 Hj. apply Hbody. lia.
Qed.

Lemma wpx_for_fold {A} (body : nat → A → Mon St Err A)
    (I : nat → A → St → Prop) E count start a s :
  I start a s →
  (∀ j a1 s1, (start ≤ j < start + count)%nat → I j a1 s1 →
              wpx (body j a1) s1 (fun a2 s2 => I (S j) a2 s2) E) →
  wpx (for_fold start count body a) s
      (fun a' s' => I (start + count)%nat a' s') E.
Proof.
  revert start a s. induction count as [|count IH]; intros start a s HI Hbody.
  - cbn. by rewrite Nat.add_0_r.
  - cbn [for_fold]. apply wpx_bind.
    eapply wpx_mono; [apply Hbody; [lia|exact HI]| |auto].
    cbv beta. intros a1 s1 H1.
    replace (start + S count)%nat with (S start + count)%nat by lia.
    apply IH; [exact H1|]. intros j a2 s2 Hj. apply Hbody. lia.
Qed.

End OutcomeRules.

Ltac wp_bind :=
  cbv beta zeta;
  lazymatch goal with
  | |- wpx (mbind _ _) _ _ _ => apply wpx_bind
  | |- wlx (mbind _ _) _ _ _ => apply wlx_bind
  end.
Ltac wp_ret :=
  cbv beta;
  lazymatch goal with
  | |- wpx _ _ _ _ => apply wpx_ret
  | |- wlx _ _ _ _ => apply wlx_ret
  end.
Ltac wp_assert := cbv beta; apply wpx_assert; [done|].

(** ** Part V: properties of the context routines *)

Module FrameProofs.
Import Frame FrameSpec.

Abbreviation wp m s Q := (wpx m s Q no_fail).

Lemma wpx_SER {E} p v s (Q : REBSER → State → Prop) :
  heap s !! p = Some v → Q v s → wpx (SER p) s Q E.
Proof. intros H HQ. unfold wpx, SER. rewrite H. exact HQ. Qed.

Lemma wpx_store {E} p a s (Q : unit → State → Prop) :
  Q tt (with_heap (<[p := a]> (heap s)) s) → wpx (store p a) s Q E.
Proof. auto. Qed.

Lemma wpx_modify {E} p f v s (Q : unit → State → Prop) :
  heap s !! p = Some v →
  Q tt (with_heap (<[p := f v]> (heap s)) s) → wpx (modify p f) s Q E.
Proof.
  intros H HQ. unfold modify. apply wpx_bind. eapply wpx_SER; eauto.
Qed.

Lemma wpx_alloc {E} a s (Q : ptr → State → Prop) :
  Q (next s) (mkState (<[next s := a]> (heap s)) (Pos.succ (next s))
                      (Bind_Table s) (BUF_COLLECT s)) →
  wpx (alloc a) s Q E.
Proof. auto. Qed.

Lemma wpx_get_buf {E} s (Q : list RELVAL → State → Prop) :
  Q (BUF_COLLECT s) s → wpx get_buf s Q E.
Proof. auto. Qed.

Lemma wpx_set_buf {E} c s (Q : unit → State → Prop) :
  Q tt (with_buf c s) → wpx (set_buf c) s Q E.
Proof. auto. Qed.

Lemma wpx_binds_get {E} c s (Q : Z → State → Prop) :
  Q (bind_at (Bind_Table s) c) s → wpx (binds_get c) s Q E.
Proof. auto. Qed.

Lemma wpx_binds_set {E} c v s (Q : unit → State → Prop) :
  Q tt (with_binds (<[c := v]> (Bind_Table s)) s) → wpx (binds_set c v) s Q E.
Proof. auto. Qed.

Lemma wpx_get {E} s (Q : State → State → Prop) : Q s s → wpx get s Q E.
Proof. auto. Qed.

Lemma wpx_CTX_KEYLIST {E} c v k s (Q : ptr → State → Prop) :
  heap s !! c = Some v → link_keylist v = Some k → Q k s →
  wpx (CTX_KEYLIST c) s Q E.
Proof.
  intros H Hk HQ. unfold CTX_KEYLIST. apply wpx_bind.
  eapply wpx_SER; [exact H|]. rewrite Hk. exact HQ.
Qed.

Lemma wpx_ARR_LEN {E} a v s (Q : nat → State → Prop) :
  heap s !! a = Some v → Q (length (ser_cells v)) s → wpx (ARR_LEN a) s Q E.
Proof.
  intros H HQ. unfold ARR_LEN. apply wpx_bind. eapply wpx_SER; eauto.
Qed.

Lemma wpx_ARR_AT {E} a i v c s (Q : RELVAL → State → Prop) :
  heap s !! a = Some v → ser_cells v !! i = Some c → Q c s →
  wpx (ARR_AT a i) s Q E.
Proof.
  intros H Hc HQ. unfold ARR_AT. apply wpx_bind.
  eapply wpx_SER; [exact H|]. rewrite Hc. exact HQ.
Qed.

Lemma wpx_ARR_PUT {E} a i c v s (Q : unit → State → Prop) :
  heap s !! a = Some v → (i < length (ser_cells v))%nat →
  Q tt (with_heap (<[a := set_cells (<[i := c]> (ser_cells v)) v]> (heap s)) s) →
  wpx (ARR_PUT a i c) s Q E.
Proof.
  intros H Hi HQ. unfold ARR_PUT. apply wpx_bind.
  eapply wpx_SER; [exact H|]. rewrite bool_decide_eq_true_2 by exact Hi.
  exact HQ.
Qed.

Lemma wpx_Copy_Array_Extra_Shallow {E} a extra v s (Q : ptr → State → Prop) :
  heap s !! a = Some v →
  Q (next s)
    (mkState (<[next s := mkSer (ser_cells v) extra false false false false
                                None None]> (heap s))
             (Pos.succ (next s)) (Bind_Table s) (BUF_COLLECT s)) →
  wpx (Copy_Array_Extra_Shallow a extra) s Q E.
Proof.
  intros H HQ. unfold Copy_Array_Extra_Shallow. apply wpx_bind.
  eapply wpx_SER; [exact H|]. exact HQ.
Qed.

Ltac st_simpl :=
  cbv beta;
  cbn [heap next Bind_Table BUF_COLLECT with_heap with_binds with_buf].
Ltac map_simpl :=
  st_simpl;
  repeat first
    [ rewrite lookup_insert_eq
    | rewrite lookup_insert_ne by (congruence || lia) ];
  simpl.
Ltac map_lookup := map_simpl; (done || eassumption).
Ltac wp_ser := st_simpl; eapply wpx_SER; [map_lookup|].
Ltac wp_alloc := st_simpl; apply wpx_alloc.
Ltac wp_modify := st_simpl; eapply wpx_modify; [map_lookup|].
Ltac wp_copy :=
  st_simpl; eapply wpx_Copy_Array_Extra_Shallow; [map_lookup|].
Ltac wp_keylist := st_simpl; eapply wpx_CTX_KEYLIST; [map_lookup|done|].

(** *** Shape of the store *)

Lemma heap_wf_lt s p v :
  heap_wf s → heap s !! p = Some v → (p < next s)%positive.
Proof. intros Hwf H. by destruct (Hwf _ _ H). Qed.

Lemma heap_wf_link s p v k :
  heap_wf s → heap s !! p = Some v → link_keylist v = Some k →
  (k < next s)%positive.
Proof. intros Hwf H Hk. destruct (Hwf _ _ H) as [_ Hl]. by rewrite Hk in Hl. Qed.

Lemma heap_wf_fresh s : heap_wf s → heap s !! next s = None.
Proof.
  intros Hwf. destruct (heap s !! next s) eqn:H; [|done].
  pose proof (heap_wf_lt _ _ _ Hwf H). lia.
Qed.

(** *** Copy_Context_Shallow_Extra *)

(** C1.  A shallow copy with [extra = 0] holds the very keylist of its
    source, which both then see marked SHARED; with [extra > 0] it holds a
    keylist allocated by the call, not SHARED, linked by no other context,
    with the cells and the meta of the source's. *)
Theorem Copy_Context_Shallow_Extra_keylist
    s src extra sv k kv kind vl ef cells :
  heap_wf s →
  heap s !! src = Some sv → ARRAY_FLAG_CONTEXT_VARLIST sv = true →
  link_keylist sv = Some k →
  heap s !! k = Some kv → SERIES_FLAG_MANAGED kv = true →
  ser_cells sv = AnyContext kind vl ef :: cells →
  ∃ dest s',
    Copy_Context_Shallow_Extra src extra s = Done dest s' ∧
    dest ≠ src ∧ keylist_of s' src = Some k ∧
    (extra = 0%nat → keylist_of s' dest = Some k ∧ is_shared s' k) ∧
    ((0 < extra)%nat →
       ∃ k', keylist_of s' dest = Some k' ∧ k' ≠ k ∧ heap s !! k' = None ∧
             is_unique s' k' ∧
             (∃ kv', heap s' !! k' = Some kv' ∧
                     ser_cells kv' = ser_cells kv ∧
                     misc_meta kv' = misc_meta kv) ∧
             ∀ c, keylist_of s' c = Some k' → c = dest).
Proof.
  intros Hwf Hsrc Hfl Hk Hkv Hm Hc.
  pose proof (heap_wf_lt _ _ _ Hwf Hsrc) as Hsrcn.
  pose proof (heap_wf_lt _ _ _ Hwf Hkv) as Hkn.
  apply wpx_done. unfold Copy_Context_Shallow_Extra.
  wp_bind. wp_ser. wp_bind. wp_assert.
  wp_bind. wp_keylist.
  wp_bind. wp_ser. wp_bind. wp_assert.
  wp_bind. unfold CTX_META. wp_bind. wp_keylist.
  wp_bind. wp_ser. wp_ret.
  wp_bind. destruct (Nat.eqb_spec extra 0) as [->|Hex].
  - unfold Copy_Array_Shallow.
    wp_bind. wp_copy.
    wp_bind. wp_keylist.
    wp_bind. unfold INIT_CTX_KEYLIST_SHARED.
    wp_bind. wp_modify.
    wp_modify.
    wp_ret.
    wp_bind. wp_modify.
    wp_bind. unfold CTX_VALUE.
    eapply wpx_ARR_AT; [map_lookup|simpl; rewrite Hc; done|].
    wp_bind. simpl. wp_ret.
    wp_bind. eapply wpx_ARR_PUT; [map_lookup|simpl; rewrite Hc; simpl; lia|].
    wp_bind. unfold INIT_CONTEXT_META. wp_bind.
    wp_keylist.
    wp_modify.
    wp_ret.
    unfold keylist_of, is_shared.
    split; [map_simpl; lia|].
    destruct (decide (src = k)) as [<-|Hne].
    + assert (kv = sv) as -> by congruence.
      split; [map_simpl; done|].
      split; [|intros; lia]. intros _.
      split; [map_simpl; done|].
      eexists. split; [map_lookup|]. done.
    + split; [map_simpl; rewrite Hsrc; done|].
      split; [|intros; lia]. intros _.
      split; [map_simpl; done|].
      eexists. split; [map_lookup|]. done.
  - wp_bind. wp_copy.
    wp_bind. wp_copy.
    wp_bind. unfold INIT_CTX_KEYLIST_UNIQUE.
    wp_bind. wp_ser. wp_bind. wp_assert.
    wp_modify.
    wp_bind. wp_keylist.
    wp_bind. unfold MANAGE_ARRAY.
    wp_modify.
    wp_ret.
    wp_bind. wp_modify.
    wp_bind. unfold CTX_VALUE.
    eapply wpx_ARR_AT; [map_lookup|simpl; rewrite Hc; done|].
    wp_bind. simpl. wp_ret.
    wp_bind. eapply wpx_ARR_PUT; [map_lookup|simpl; rewrite Hc; simpl; lia|].
    wp_bind. unfold INIT_CONTEXT_META. wp_bind.
    wp_keylist.
    wp_modify.
    wp_ret.
    unfold keylist_of, is_unique.
    split; [map_simpl; lia|]. split; [map_simpl; rewrite Hsrc; done|].
    split; [intros; lia|]. intros _.
    exists (next s).
    split; [map_simpl; done|].
    split; [lia|].
    split; [by apply heap_wf_fresh|].
    split; [eexists; split; [map_lookup|done]|].
    split; [eexists; split; [map_lookup|done]|].
    intros c Hc'.
    destruct (decide (c = Pos.succ (next s))) as [|Hn1]; [done|]. exfalso.
    destruct (decide (c = next s)) as [->|Hn2].
    + revert Hc'. map_simpl. done.
    + revert Hc'. map_simpl.
      destruct (heap s !! c) eqn:Hcc; simpl; [|done].
      intros Hl. pose proof (heap_wf_link _ _ _ _ Hwf Hcc Hl). lia.
Qed.

Ltac by_compute :=
  lazymatch goal with
  | |- ?P => apply (bool_decide_unpack P); vm_compute; exact I
  end.

Lemma Copy_Context_Shallow_Extra_keylist_witness :
  ∃ dest s',
    Copy_Context_Shallow_Extra 1 0 st_shared = Done dest s' ∧
    keylist_of s' 1 = Some 2%positive ∧
    keylist_of s' dest = Some 2%positive ∧ is_shared s' 2.
Proof.
  destruct (Copy_Context_Shallow_Extra_keylist st_shared 1%positive 0%nat
              (varlist [object 1; Integer 1; Integer 2] 2) 2%positive
              (keylist [key 0 false; key 10 false; key 11 false] true
                       (Some 4%positive))
              (Some REB_OBJECT) 1%positive None [Integer 1; Integer 2])
    as (dest & s' & Hrun & _ & Hsrc & Hzero & _);
    [by_compute | reflexivity..|].
  destruct (Hzero eq_refl) as [Hdest Hshared].
  exists dest, s'. auto.
Defined.

(** *** Expand_Context *)

(** C2.  Expanding a context whose keylist is SHARED leaves every series
    but the context's own varlist as it was (the old keylist, and with it
    what every other holder sees, included); the context itself now holds a
    keylist allocated by the call, not SHARED, with the old cells and the
    old meta. *)
Theorem Expand_Context_copy_on_write s c delta cv k kv :
  heap_wf s →
  heap s !! c = Some cv → link_keylist cv = Some k →
  heap s !! k = Some kv → KEYLIST_FLAG_SHARED kv = true →
  c ≠ k → (0 < delta)%nat →
  ∃ s',
    Expand_Context c delta s = Done tt s' ∧
    heap s' !! k = Some kv ∧
    (∀ d dv, d ≠ c → heap s !! d = Some dv → link_keylist dv = Some k →
             heap s' !! d = Some dv ∧ keylist_of s' d = Some k) ∧
    (∀ p, p ≠ c → (p < next s)%positive → heap s' !! p = heap s !! p) ∧
    ∃ k' kv',
      keylist_of s' c = Some k' ∧ heap s !! k' = None ∧
      heap s' !! k' = Some kv' ∧ KEYLIST_FLAG_SHARED kv' = false ∧
      ser_cells kv' = ser_cells kv ∧ misc_meta kv' = misc_meta kv.
Proof.
  intros Hwf Hc Hk Hkv Hsh Hne Hd.
  pose proof (heap_wf_lt _ _ _ Hwf Hc) as Hcn.
  pose proof (heap_wf_lt _ _ _ Hwf Hkv) as Hkn.
  cut (wp (Expand_Context c delta) s (fun _ s' =>
         heap s' !! k = Some kv ∧
         (∀ p, p ≠ c → (p < next s)%positive → heap s' !! p = heap s !! p) ∧
         ∃ k' kv',
           keylist_of s' c = Some k' ∧ heap s !! k' = None ∧
           heap s' !! k' = Some kv' ∧ KEYLIST_FLAG_SHARED kv' = false ∧
           ser_cells kv' = ser_cells kv ∧ misc_meta kv' = misc_meta kv)).
  { intros H. apply wpx_done in H as ([] & s' & Hrun & Hold & Hframe & Hnew).
    exists s'. split; [done|]. split; [done|]. split; [|done].
    intros d dv Hdc Hd' Hl.
    assert (heap s' !! d = Some dv) as Hd''.
    { rewrite Hframe; [done..|]. by eapply heap_wf_lt. }
    split; [done|]. unfold keylist_of. by rewrite Hd''. }
  unfold Expand_Context, Extend_Series.
  wp_bind. wp_modify.
  wp_bind. unfold Expand_Context_Keylist_Core.
  destruct (Nat.eqb_spec delta 0) as [->|_]; [lia|].
  wp_bind. wp_keylist.
  wp_bind. wp_ser. rewrite Hsh.
  wp_bind. wp_copy.
  wp_bind. wp_modify.
  wp_bind. unfold MANAGE_ARRAY. wp_modify.
  wp_bind. unfold INIT_CTX_KEYLIST_UNIQUE.
  wp_bind. wp_ser. wp_bind. wp_assert.
  wp_modify.
  wp_ret. wp_ret.
  split; [map_lookup|].
  split; [intros p Hp Hlt; map_simpl; done|].
  exists (next s). eexists.
  unfold keylist_of.
  split; [map_simpl; done|].
  split; [by apply heap_wf_fresh|].
  split; [map_lookup|]. done.
Qed.

Lemma Expand_Context_copy_on_write_witness :
  ∃ s',
    Expand_Context 1 3 st_shared = Done tt s' ∧
    heap s' !! 2%positive = heap st_shared !! 2%positive ∧
    heap s' !! 3%positive = heap st_shared !! 3%positive ∧
    keylist_of s' 3 = Some 2%positive ∧
    keylist_of s' 1 ≠ Some 2%positive.
Proof.
  destruct (Expand_Context_copy_on_write st_shared 1%positive 3%nat
              (varlist [object 1; Integer 1; Integer 2] 2) 2%positive
              (keylist [key 0 false; key 10 false; key 11 false] true
                       (Some 4%positive)))
    as (s' & Hrun & Hold & Hother & _ & k' & kv' & Hk' & Hfresh & _);
    [by_compute | reflexivity.. | discriminate | lia |].
  destruct (Hother 3%positive (varlist [object 3; Integer 5; Integer 6] 2))
    as [H3 H3k]; [discriminate | reflexivity..|].
  exists s'. split; [done|]. split; [done|]. split; [done|].
  split; [done|]. rewrite Hk'. intros [= ->]. discriminate.
Defined.

(** *** Grab_Collected_Keylist_Managed *)

Ltac grab_new :=
  wp_bind; wp_bind; wp_alloc; wp_bind; unfold MANAGE_ARRAY; wp_modify;
  wp_ret; wp_bind; wp_modify; wp_ret; split; [done|];
  unfold with_heap; cbn [heap next Bind_Table BUF_COLLECT];
  by rewrite !insert_insert_eq.

(** The keylist made from the buffer, at the next free address. *)
Lemma Grab_Collected_Keylist_Managed_copy s prior :
  (1 ≤ length (BUF_COLLECT s))%nat →
  match prior with
  | Some p =>
      ∃ pv k kv, heap s !! p = Some pv ∧ link_keylist pv = Some k ∧
                 heap s !! k = Some kv ∧ SERIES_FLAG_MANAGED kv = true ∧
                 length (BUF_COLLECT s) ≠ (length (ser_cells kv) - 1 + 1)%nat
  | None => True
  end →
  Grab_Collected_Keylist_Managed prior s =
    Done (next s)
         (mkState
            (<[next s := mkSer (BUF_COLLECT s) 0 true false false false
                               None None]> (heap s))
            (Pos.succ (next s)) (Bind_Table s) (BUF_COLLECT s)).
Proof.
  intros Hlen Hprior.
  cut (wp (Grab_Collected_Keylist_Managed prior) s (fun k s' =>
         k = next s ∧
         s' = mkState
                (<[next s := mkSer (BUF_COLLECT s) 0 true false false false
                                   None None]> (heap s))
                (Pos.succ (next s)) (Bind_Table s) (BUF_COLLECT s))).
  { intros H. apply wpx_done in H as (k & s' & Hrun & -> & ->). done. }
  unfold Grab_Collected_Keylist_Managed.
  wp_bind. apply wpx_get_buf.
  wp_bind. apply wpx_assert; [by apply Nat.leb_le|].
  destruct prior as [p|].
  - destruct Hprior as (pv & k & kv & Hp & Hl & Hk & Hm & Hne).
    wp_bind. wp_bind. wp_keylist. wp_bind. wp_ser. wp_assert.
    wp_bind. wp_bind. unfold CTX_LEN. wp_bind. wp_keylist.
    wp_bind. eapply wpx_ARR_LEN; [done|]. wp_ret. wp_ret.
    rewrite (proj2 (Nat.eqb_neq _ _) Hne). grab_new.
  - wp_bind. wp_ret. wp_bind. wp_ret. grab_new.
Qed.

(** C9, as the code has it.  When the buffer holds as many keys as the prior
    context (its length is CTX_LEN(prior) + 1), the call returns the prior's
    own keylist node; nothing is allocated and the node keeps its cells,
    flags and links, but its meta is set to NULL.  Otherwise, and when there
    is no prior, it returns a keylist allocated by the call: managed, with
    the cells of the buffer and a NULL meta; no series that existed is
    touched. *)
Theorem Grab_Collected_Keylist_Managed_reuse_or_copy s prior :
  (1 ≤ length (BUF_COLLECT s))%nat →
  (∀ p, prior = Some p →
        ∃ pv k kv, heap s !! p = Some pv ∧ link_keylist pv = Some k ∧
                   heap s !! k = Some kv ∧ SERIES_FLAG_MANAGED kv = true) →
  (∀ p pv k kv,
     prior = Some p → heap s !! p = Some pv → link_keylist pv = Some k →
     heap s !! k = Some kv →
     length (BUF_COLLECT s) = (length (ser_cells kv) - 1 + 1)%nat →
     Grab_Collected_Keylist_Managed prior s =
       Done k (with_heap (<[k := set_meta None kv]> (heap s)) s)) ∧
  ((prior = None ∨
    ∃ p pv k kv,
      prior = Some p ∧ heap s !! p = Some pv ∧ link_keylist pv = Some k ∧
      heap s !! k = Some kv ∧
      length (BUF_COLLECT s) ≠ (length (ser_cells kv) - 1 + 1)%nat) →
   Grab_Collected_Keylist_Managed prior s =
     Done (next s)
          (mkState
             (<[next s := mkSer (BUF_COLLECT s) 0 true false false false
                                None None]> (heap s))
             (Pos.succ (next s)) (Bind_Table s) (BUF_COLLECT s))).
Proof.
  intros Hlen Hprior. split.
  - intros p pv k kv -> Hp Hl Hk Heq.
    destruct (Hprior p eq_refl) as (pv' & k' & kv' & Hp' & Hl' & Hk' & Hm).
    assert (pv' = pv) as -> by congruence.
    assert (k' = k) as -> by congruence.
    assert (kv' = kv) as -> by congruence.
    cut (wp (Grab_Collected_Keylist_Managed (Some p)) s (fun r s' =>
           r = k ∧ s' = with_heap (<[k := set_meta None kv]> (heap s)) s)).
    { intros H. apply wpx_done in H as (r & s' & Hrun & -> & ->). done. }
    unfold Grab_Collected_Keylist_Managed.
    wp_bind. apply wpx_get_buf.
    wp_bind. apply wpx_assert; [by apply Nat.leb_le|].
    wp_bind. wp_bind. wp_keylist. wp_bind. wp_ser. wp_assert.
    wp_bind. wp_bind. unfold CTX_LEN. wp_bind. wp_keylist.
    wp_bind. eapply wpx_ARR_LEN; [done|]. wp_ret. wp_ret.
    rewrite (proj2 (Nat.eqb_eq _ _) Heq).
    wp_bind. wp_keylist. wp_bind. wp_modify. wp_ret. done.
  - intros Hcase. apply Grab_Collected_Keylist_Managed_copy; [done|].
    destruct Hcase as [->|(p & pv & k & kv & -> & Hp & Hl & Hk & Hne)];
      [done|].
    destruct (Hprior p eq_refl) as (pv' & k' & kv' & Hp' & Hl' & Hk' & Hm).
    assert (pv' = pv) as -> by congruence.
    assert (k' = k) as -> by congruence.
    assert (kv' = kv) as -> by congruence.
    exists pv, k, kv. done.
Qed.

Lemma Grab_Collected_Keylist_Managed_reuse_or_copy_witness :
  Grab_Collected_Keylist_Managed (Some 1%positive) st_collected =
    Done 2%positive
      (with_heap
         (<[2%positive :=
              keylist [key 0 false; key 10 false; key 11 false] true None]>
            (heap st_collected))
         st_collected).
Proof.
  refine (proj1 (Grab_Collected_Keylist_Managed_reuse_or_copy
                   st_collected (Some 1%positive) _ _)
                1%positive (varlist [object 1; Integer 1; Integer 2] 2)
                2%positive
                (keylist [key 0 false; key 10 false; key 11 false] true
                         (Some 4%positive))
                eq_refl eq_refl eq_refl eq_refl eq_refl).
  - simpl. lia.
  - intros p [= <-]. eexists _, _, _. repeat split; reflexivity.
Defined.

(** C9, as the spec has it, fails: the keylist handed back for the object at
    1 is its own, at 2, but no longer as it was: its meta, the object at 4,
    is gone. *)
Lemma Grab_Collected_Keylist_Managed_changes_prior :
  ∃ s',
    Grab_Collected_Keylist_Managed (Some 1%positive) st_collected
      = Done 2%positive s' ∧
    keylist_of st_collected 1 = Some 2%positive ∧
    heap s' !! 2%positive ≠ heap st_collected !! 2%positive ∧
    misc_meta <$> heap st_collected !! 2%positive = Some (Some 4%positive) ∧
    misc_meta <$> heap s' !! 2%positive = Some None.
Proof.
  eexists. split; [vm_compute; reflexivity|].
  split; [reflexivity|]. split; [vm_compute; discriminate|].
  split; reflexivity.
Qed.

(** *** Collect_Context_Inner_Loop *)

Lemma bind_at_insert b c v c' :
  bind_at (<[c := v]> b) c' = if decide (c = c') then v else bind_at b c'.
Proof.
  unfold bind_at. destruct (decide (c = c')) as [->|Hne].
  - by rewrite lookup_insert_eq.
  - by rewrite lookup_insert_ne.
Qed.

(** Induction over cells, going into the arrays they carry. *)
Lemma RELVAL_nested_ind (P : RELVAL → Prop) :
  P Trash → P Void → P Blank → (∀ i, P (Integer i)) →
  (∀ t, P (Typeset t)) → (∀ k sym b, P (AnyWord k sym b)) →
  (∀ k at_, Forall P at_ → P (AnyArray k at_)) →
  (∀ k vl e, P (AnyContext k vl e)) →
  ∀ v, P v.
Proof.
  intros HT HV HB HI HTs HW HA HC. fix IH 1. intros [| | |i|t|k sym b|k at_|k vl e];
    [exact HT|exact HV|exact HB|apply HI|apply HTs|apply HW| |apply HC].
  apply HA. induction at_ as [|x at_ IHl]; constructor; [apply IH|exact IHl].
Qed.

(** The walk that clears the table: it runs through typesets without a
    crash, touches the table only, and leaves 0 at the canon of every key it
    went over. *)
Lemma reset_walk_spec canon (E : error → State → Prop) l s :
  all_typesets l →
  wpx (for_each (fun key => c ← VAL_TYPESET_CANON canon key; binds_set c 0) l)
      s
      (fun _ s' =>
         heap s' = heap s ∧ next s' = next s ∧
         BUF_COLLECT s' = BUF_COLLECT s ∧
         (∀ c, bind_at (Bind_Table s') c = 0
               ∨ bind_at (Bind_Table s') c = bind_at (Bind_Table s) c) ∧
         (∀ t, Typeset t ∈ l →
               bind_at (Bind_Table s') (canon (ts_sym t)) = 0))
      E.
Proof.
  intros Hl. revert s. induction Hl as [|key l Hkey Hl IH]; intros s.
  - cbn. repeat split; auto. intros t Ht. by apply elem_of_nil in Ht.
  - cbn [for_each]. wp_bind. wp_bind.
    destruct key as [| | | |t| | |]; try discriminate Hkey.
    cbn [VAL_TYPESET_CANON]. wp_ret. apply wpx_binds_set.
    eapply wpx_mono; [apply IH| |auto].
    cbv beta. intros _ s' (Hh & Hn & Hb & Hz & Hk).
    cbn [heap next Bind_Table BUF_COLLECT with_binds] in *.
    split; [done|]. split; [done|]. split; [done|]. split.
    + intros c. destruct (Hz c) as [H0|Heq]; [by left|].
      rewrite Heq, bind_at_insert. case_decide; auto.
    + intros t' Ht'. apply elem_of_cons in Ht' as [[= ->]|Ht']; [|by apply Hk].
      destruct (Hz (canon (ts_sym t))) as [H0|Heq]; [done|].
      rewrite Heq, bind_at_insert. by rewrite decide_True.
Qed.

Lemma Collect_Context_Inner_Loop_value_spec canon flags stale h v :
  (flag_set flags COLLECT_NO_DUP = true → all_typesets stale) →
  ∀ s, scan_inv canon h s →
       wpx (Collect_Context_Inner_Loop_value canon flags stale v) s
           (fun _ s' => scan_inv canon h s') (scan_rolled_back flags h).
Proof.
  intros Hstale. induction v as [| | |i|t|k sym b|k at_ IH|k vl e]
    using RELVAL_nested_ind; intros s Hinv;
    try (cbn [Collect_Context_Inner_Loop_value]; wp_ret; exact Hinv).
  - (* a word *)
    destruct Hinv as (Hcov & Hbuf & Hh).
    cbn [Collect_Context_Inner_Loop_value]. wp_bind. apply wpx_binds_get.
    destruct (Z.eqb_spec (bind_at (Bind_Table s) (canon sym)) 0) as [Hz|Hnz].
    + destruct (IS_SET_WORD (AnyWord k sym b)
                || flag_set flags COLLECT_ANY_WORD); [|wp_ret; done].
      wp_bind. apply wpx_get_buf. wp_bind. apply wpx_binds_set.
      apply wpx_set_buf. unfold scan_inv, binds_covered.
      cbn [heap next Bind_Table BUF_COLLECT with_binds with_buf].
      split; [|split; [|done]].
      * intros c. rewrite bind_at_insert. case_decide as Hc.
        -- intros _. eexists. split; [apply elem_of_app; right; by left|].
           exact Hc.
        -- intros Hne. destruct (Hcov c Hne) as (t & Ht & Hct).
           exists t. split; [apply elem_of_app; by left|done].
      * apply Forall_app. split; [done|]. by constructor.
    + destruct (flag_set flags COLLECT_NO_DUP) eqn:Hdup; [|wp_ret; done].
      wp_bind. apply wpx_get_buf. wp_bind.
      eapply wpx_mono;
        [apply (reset_walk_spec canon (scan_rolled_back flags h));
         apply Forall_app; split; [done|by apply Hstale]| |auto].
      cbv beta. intros _ s' (Hh' & _ & _ & Hzero & Hkeys).
      wp_bind. apply wpx_set_buf. apply wpx_fail.
      unfold scan_rolled_back, binds_zero.
      cbn [heap next Bind_Table BUF_COLLECT with_buf].
      split; [|split; [done|split; [congruence|split; [done|eauto]]]].
      intros c. destruct (Hzero c) as [H0|Heq]; [done|].
      destruct (Z.eq_dec (bind_at (Bind_Table s) c) 0) as [Hc0|Hcn];
        [congruence|].
      destruct (Hcov c Hcn) as (t & Ht & <-).
      apply Hkeys. apply elem_of_app. by left.
  - (* an array *)
    cbn [Collect_Context_Inner_Loop_value].
    destruct (ANY_EVAL_BLOCK (AnyArray k at_) && flag_set flags COLLECT_DEEP);
      [|wp_ret; done].
    apply wpx_for_each; [done|].
    intros x s1 Hx Hs1. rewrite Forall_forall in IH. by apply IH.
Qed.

Lemma binds_zero_Forall s :
  map_Forall (fun _ v => v = 0) (Bind_Table s) → binds_zero s.
Proof.
  intros H c. unfold bind_at.
  destruct (Bind_Table s !! c) eqn:Hc; [|done]. exact (H _ _ Hc).
Qed.

(** C3: what the code does on a duplicate when the cells past the length
    of the buffer are not typesets.  The reset walks from the head of the
    buffer to the first END, and the buffer is not terminated while keys are
    collected: with the two WORD! cells that a Collect_Words of four words
    leaves past the rootkey and the key of `x`, the scan of [x: x:] under
    COLLECT_NO_DUP takes the canon of a typeset from a word, and neither
    empties the buffer nor raises the error; so does Collect_Keylist_Managed
    from a clean table and buffer.  With the buffer terminated at its
    length the same scan resets the table, empties the buffer and fails
    with the duplicate error. *)
Lemma Collect_Context_Inner_Loop_walks_past_length :
  Collect_Context_Inner_Loop canon_id COLLECT_NO_DUP
      [AnyWord REB_WORD 12%nat None; AnyWord REB_WORD 13%nat None]
      [AnyWord REB_SET_WORD 10%nat None; AnyWord REB_SET_WORD 10%nat None]
      st_started
    = Panic ∧
  Collect_Keylist_Managed canon_id 1%nat
      [AnyWord REB_WORD 12%nat None; AnyWord REB_WORD 13%nat None]
      [AnyWord REB_SET_WORD 10%nat None; AnyWord REB_SET_WORD 10%nat None]
      None COLLECT_NO_DUP (mkState ∅ 1%positive ∅ [])
    = Panic ∧
  ∃ s',
    Collect_Context_Inner_Loop canon_id COLLECT_NO_DUP []
        [AnyWord REB_SET_WORD 10%nat None; AnyWord REB_SET_WORD 10%nat None]
        st_started
    = Failed (RE_DUP_VARS (AnyWord REB_SET_WORD 10%nat None)) s' ∧
    binds_zero s' ∧ BUF_COLLECT s' = [].
Proof.
  split; [vm_compute; reflexivity|]. split; [vm_compute; reflexivity|].
  eexists. split; [vm_compute; reflexivity|]. split; [|reflexivity].
  apply binds_zero_Forall. by_compute.
Qed.

(** Merging P1 {x y} with P2 {y z}, each with its hidden `self`: the keys
    are self, x, y, z, with x from P1 and y and z from P2, and the one `self`
    is the child. *)
Example Merge_Contexts_Selfish_two_selves (x1 y1 y2 z2 : Z) :
  ∃ child s',
    Merge_Contexts_Selfish canon_id 1 1 3 (st_merge x1 y1 y2 z2)
      = Done child s' ∧
    keys_of s' child
      = Some [key 1 true; key 10 false; key 11 false; key 12 false] ∧
    vars_of s' child
      = Some [object child; Integer x1; Integer y2; Integer z2] ∧
    binds_zero s' ∧ BUF_COLLECT s' = [].
Proof.
  eexists _, _. split; [vm_compute; reflexivity|].
  split; [reflexivity|]. split; [reflexivity|]. split; [|reflexivity].
  apply binds_zero_Forall. by_compute.
Qed.



(** *** Resolve_Context *)

(** Rules that say nothing of a crash: what a primitive read or checked
    comes as a hypothesis. *)

Lemma wlx_conj {A} (m : M A) s (Q1 Q2 : A → State → Prop)
    (E1 E2 : error → State → Prop) :
  wlx m s Q1 E1 → wlx m s Q2 E2 →
  wlx m s (fun a s' => Q1 a s' ∧ Q2 a s') (fun e s' => E1 e s' ∧ E2 e s').
Proof. unfold wlx. destruct (m s); auto. Qed.

Lemma wlx_SER {E} p s (Q : REBSER → State → Prop) :
  (∀ v, heap s !! p = Some v → Q v s) → wlx (SER p) s Q E.
Proof. intros H. unfold wlx, SER. destruct (heap s !! p); auto. Qed.

Lemma wlx_modify {E} p f s (Q : unit → State → Prop) :
  (∀ v, heap s !! p = Some v →
        Q tt (with_heap (<[p := f v]> (heap s)) s)) →
  wlx (modify p f) s Q E.
Proof.
  intros H. unfold modify. apply wlx_bind. apply wlx_SER. intros v Hv.
  exact (H v Hv).
Qed.

Lemma wlx_alloc {E} a s (Q : ptr → State → Prop) :
  Q (next s) (mkState (<[next s := a]> (heap s)) (Pos.succ (next s))
                      (Bind_Table s) (BUF_COLLECT s)) →
  wlx (alloc a) s Q E.
Proof. auto. Qed.

Lemma wlx_ARR_AT {E} a i s (Q : RELVAL → State → Prop) :
  (∀ v c, heap s !! a = Some v → ser_cells v !! i = Some c → Q c s) →
  wlx (ARR_AT a i) s Q E.
Proof.
  intros H. unfold ARR_AT. apply wlx_bind. apply wlx_SER. intros v Hv.
  destruct (ser_cells v !! i) eqn:Hc; [by eapply H|apply wlx_panic].
Qed.

Lemma wlx_ARR_PUT {E} a i c s (Q : unit → State → Prop) :
  (∀ v, heap s !! a = Some v → (i < length (ser_cells v))%nat →
        Q tt (with_heap
                (<[a := set_cells (<[i := c]> (ser_cells v)) v]> (heap s)) s)) →
  wlx (ARR_PUT a i c) s Q E.
Proof.
  intros H. unfold ARR_PUT. apply wlx_bind. apply wlx_SER. intros v Hv.
  case_bool_decide; [by apply H|apply wlx_panic].
Qed.

Lemma wlx_KEY_AT {E} k n s (Q : typeset → State → Prop) :
  (∀ v t, heap s !! k = Some v → ser_cells v !! n = Some (Typeset t) →
          Q t s) →
  wlx (KEY_AT k n) s Q E.
Proof.
  intros H. unfold KEY_AT. apply wlx_bind. apply wlx_ARR_AT.
  intros v c Hv Hc. destruct c; try apply wlx_panic. by eapply H.
Qed.

Lemma wlx_CTX_KEYLIST {E} c s (Q : ptr → State → Prop) :
  (∀ v k, heap s !! c = Some v → link_keylist v = Some k → Q k s) →
  wlx (CTX_KEYLIST c) s Q E.
Proof.
  intros H. unfold CTX_KEYLIST. apply wlx_bind. apply wlx_SER. intros v Hv.
  destruct (link_keylist v) eqn:Hk; [by eapply H|apply wlx_panic].
Qed.

Lemma wlx_ARR_LEN {E} a s (Q : nat → State → Prop) :
  (∀ v, heap s !! a = Some v → Q (length (ser_cells v)) s) →
  wlx (ARR_LEN a) s Q E.
Proof.
  intros H. unfold ARR_LEN. apply wlx_bind. apply wlx_SER. intros v Hv.
  by apply H.
Qed.

Lemma wlx_CTX_LEN {E} c s (Q : nat → State → Prop) :
  (∀ v k kv, heap s !! c = Some v → link_keylist v = Some k →
             heap s !! k = Some kv →
             Q (length (ser_cells kv) - 1)%nat s) →
  wlx (CTX_LEN c) s Q E.
Proof.
  intros H. unfold CTX_LEN. apply wlx_bind. apply wlx_CTX_KEYLIST.
  intros v k Hv Hk. apply wlx_bind. apply wlx_ARR_LEN. intros kv Hkv.
  by eapply H.
Qed.

Lemma wlx_CTX_VAR {E} c n s (Q : RELVAL → State → Prop) :
  (∀ v x, n ≠ 0%nat → heap s !! c = Some v → ser_cells v !! n = Some x →
          Q x s) →
  wlx (CTX_VAR c n) s Q E.
Proof.
  intros H. unfold CTX_VAR. apply wlx_bind. apply wlx_assert.
  intros Hn. apply wlx_ARR_AT. intros v x Hv Hx. eapply H; [|done..].
  intros ->. discriminate.
Qed.

Lemma wlx_CTX_KEY {E} c n s (Q : typeset → State → Prop) :
  (∀ t, Q t s) → wlx (CTX_KEY c n) s Q E.
Proof.
  intros H. unfold CTX_KEY. apply wlx_bind. apply wlx_assert. intros _.
  apply wlx_bind. apply wlx_CTX_KEYLIST. intros v k _ _.
  apply wlx_KEY_AT. intros; apply H.
Qed.

Lemma wlx_binds_get {E} c s (Q : Z → State → Prop) :
  Q (bind_at (Bind_Table s) c) s → wlx (binds_get c) s Q E.
Proof. auto. Qed.

Lemma wlx_binds_set {E} c v s (Q : unit → State → Prop) :
  Q tt (with_binds (<[c := v]> (Bind_Table s)) s) → wlx (binds_set c v) s Q E.
Proof. auto. Qed.

Lemma wlx_get_buf {E} s (Q : list RELVAL → State → Prop) :
  Q (BUF_COLLECT s) s → wlx get_buf s Q E.
Proof. auto. Qed.

Lemma wlx_set_buf {E} c s (Q : unit → State → Prop) :
  Q tt (with_buf c s) → wlx (set_buf c) s Q E.
Proof. auto. Qed.

Lemma wlx_ASSERT_BIND_TABLE_EMPTY {E} s (Q : unit → State → Prop) :
  (binds_zero s → Q tt s) → wlx ASSERT_BIND_TABLE_EMPTY s Q E.
Proof.
  intros H. unfold wlx, ASSERT_BIND_TABLE_EMPTY.
  case_bool_decide as Hz; [|done]. apply H. by apply binds_zero_Forall.
Qed.

Lemma keeps_heap_ret {A} (a : A) : keeps_heap (mret a : M A).
Proof. intros s. by apply wlx_ret. Qed.

Lemma keeps_heap_bind {A B} (m : M A) (f : A → M B) :
  keeps_heap m → (∀ a, keeps_heap (f a)) → keeps_heap (m ≫= f).
Proof.
  intros Hm Hf s. apply wlx_bind.
  eapply wlx_mono; [apply Hm| |auto].
  cbv beta. intros a s1 [Hh Hn].
  eapply wlx_mono; [apply Hf| |]; cbv beta; intros ? s2 [Hh' Hn'];
    split; congruence.
Qed.

Lemma keeps_heap_for_ (body : nat → M unit) count start :
  (∀ j, keeps_heap (body j)) → keeps_heap (for_ start count body).
Proof.
  intros Hb. revert start. induction count as [|count IH]; intros start.
  - apply keeps_heap_ret.
  - cbn [for_]. apply keeps_heap_bind; [apply Hb|]. intros _. apply IH.
Qed.

Lemma keeps_heap_for_fold {A} (body : nat → A → M A) count start a :
  (∀ j a, keeps_heap (body j a)) → keeps_heap (for_fold start count body a).
Proof.
  intros Hb. revert start a. induction count as [|count IH]; intros start a.
  - apply keeps_heap_ret.
  - cbn [for_fold]. apply keeps_heap_bind; [apply Hb|]. intros a'. apply IH.
Qed.

Lemma keeps_heap_panic {A} : keeps_heap (panic : M A).
Proof. intros s. apply wlx_panic. Qed.

Lemma keeps_heap_assert b : keeps_heap (assert b : M unit).
Proof. destruct b; [apply keeps_heap_ret|apply keeps_heap_panic]. Qed.

Lemma keeps_heap_SER p : keeps_heap (SER p).
Proof. intros s. apply wlx_SER. auto. Qed.

Lemma keeps_heap_ARR_AT a i : keeps_heap (ARR_AT a i).
Proof. intros s. apply wlx_ARR_AT. auto. Qed.

Lemma keeps_heap_KEY_AT k n : keeps_heap (KEY_AT k n).
Proof. intros s. apply wlx_KEY_AT. auto. Qed.

Lemma keeps_heap_CTX_KEYLIST c : keeps_heap (CTX_KEYLIST c).
Proof. intros s. apply wlx_CTX_KEYLIST. auto. Qed.

Lemma keeps_heap_ARR_LEN a : keeps_heap (ARR_LEN a).
Proof. intros s. apply wlx_ARR_LEN. auto. Qed.

Lemma keeps_heap_CTX_LEN c : keeps_heap (CTX_LEN c).
Proof. intros s. apply wlx_CTX_LEN. auto. Qed.

Lemma keeps_heap_binds_get c : keeps_heap (binds_get c).
Proof. intros s. by apply wlx_binds_get. Qed.

Lemma keeps_heap_binds_set c v : keeps_heap (binds_set c v).
Proof. intros s. by apply wlx_binds_set. Qed.

Lemma keeps_heap_get_buf : keeps_heap get_buf.
Proof. intros s. by apply wlx_get_buf. Qed.

Lemma keeps_heap_set_buf c : keeps_heap (set_buf c).
Proof. intros s. by apply wlx_set_buf. Qed.

Lemma keeps_heap_ASSERT_BIND_TABLE_EMPTY : keeps_heap ASSERT_BIND_TABLE_EMPTY.
Proof. intros s. apply wlx_ASSERT_BIND_TABLE_EMPTY. auto. Qed.

Ltac keeps :=
  repeat first
    [ apply keeps_heap_ret | apply keeps_heap_panic | apply keeps_heap_assert
    | apply keeps_heap_SER | apply keeps_heap_ARR_AT | apply keeps_heap_KEY_AT
    | apply keeps_heap_CTX_KEYLIST | apply keeps_heap_ARR_LEN
    | apply keeps_heap_CTX_LEN | apply keeps_heap_binds_get
    | apply keeps_heap_binds_set | apply keeps_heap_get_buf
    | apply keeps_heap_set_buf | apply keeps_heap_ASSERT_BIND_TABLE_EMPTY
    | apply keeps_heap_for_ | apply keeps_heap_for_fold
    | (apply keeps_heap_bind; [|intros ?])
    | match goal with
      | |- keeps_heap (if ?b then _ else _) => destruct b
      | |- keeps_heap (match ?x with _ => _ end) => destruct x
      | |- ∀ _, _ => intros ?
      end ].

Lemma keeps_heap_Collect_Keys_Start flags :
  keeps_heap (Collect_Keys_Start flags).
Proof. unfold Collect_Keys_Start. keeps. Qed.

Lemma keeps_heap_Resolve_tag_words canon words n :
  keeps_heap (Resolve_tag_words canon words n).
Proof.
  revert n. induction words as [|w words IH]; intros n; cbn; [keeps|].
  destruct (_ || _); [|apply IH].
  apply keeps_heap_bind; [unfold VAL_WORD_CANON; keeps|]. intros c.
  apply keeps_heap_bind; [keeps|]. intros _. apply IH.
Qed.

Lemma keeps_heap_Resolve_untag_words canon words :
  keeps_heap (Resolve_untag_words canon words).
Proof.
  induction words as [|w words IH]; cbn; [keeps|].
  destruct (_ || _); [|apply IH].
  apply keeps_heap_bind; [unfold VAL_WORD_CANON; keeps|]. intros c.
  apply keeps_heap_bind; [keeps|]. intros _. apply IH.
Qed.

Lemma slots_inv_heap target tk P s s' :
  heap s' = heap s → next s' = next s →
  slots_inv target tk P s → slots_inv target tk P s'.
Proof. unfold slots_inv. intros -> ->. done. Qed.

Lemma wlx_keeps {A} (m : M A) s (Q : A → State → Prop) E :
  keeps_heap m →
  (∀ a s', heap s' = heap s → next s' = next s → Q a s') →
  (∀ e s', heap s' = heap s → next s' = next s → E e s') →
  wlx m s Q E.
Proof.
  intros Hk HQ HE. eapply wlx_mono; [apply Hk| |]; cbv beta;
    intros ? s' [Hh Hn]; auto.
Qed.

Lemma Expand_Context_slots target tk P delta s E :
  slots_inv target tk P s →
  wlx (Expand_Context target delta) s
      (fun _ s' => ∃ tk', slots_inv target tk' P s' ∧
                          Bind_Table s' = Bind_Table s ∧
                          BUF_COLLECT s' = BUF_COLLECT s)
      E.
Proof.
  intros (Hlt & Hne & tv & Htv & Hl & HP).
  unfold Expand_Context, Extend_Series.
  wp_bind. apply wlx_modify. intros tv0 Htv0.
  assert (tv0 = tv) as -> by congruence.
  wp_bind. unfold Expand_Context_Keylist_Core.
  destruct (Nat.eqb delta 0).
  { wp_ret. wp_ret. exists tk. split; [|done].
    split; [done|]. split; [done|]. eexists. split; [map_lookup|]. done. }
  wp_bind. apply wlx_CTX_KEYLIST. intros tv1 k Htv1 Hk. revert Htv1.
  map_simpl. intros [= <-]. simpl in Hk.
  assert (k = tk) as -> by congruence.
  wp_bind. apply wlx_SER. intros kv. map_simpl. intros Hkv.
  destruct (KEYLIST_FLAG_SHARED kv).
  - wp_bind. unfold Copy_Array_Extra_Shallow. wp_bind. apply wlx_SER.
    intros kv' _. apply wlx_alloc.
    wp_bind. apply wlx_modify. intros nv _.
    wp_bind. unfold MANAGE_ARRAY. apply wlx_modify. intros nv' _.
    wp_bind. unfold INIT_CTX_KEYLIST_UNIQUE. wp_bind. apply wlx_SER.
    intros nv'' _. wp_bind. apply wlx_assert. intros _.
    apply wlx_modify. intros tv2. map_simpl. intros [= <-].
    wp_ret. wp_ret. exists (next s). split; [|done].
    split; [st_simpl; lia|]. split; [lia|].
    eexists. split; [map_lookup|]. done.
  - wp_bind. apply wlx_modify. intros kv' _. wp_ret. wp_ret.
    exists tk. split; [|done].
    split; [done|]. split; [done|].
    eexists. split; [map_lookup|]. done.
Qed.

(** Appending a key and its variable touches no slot there was. *)
Lemma Append_Context_Core_slots target tk P sym lookahead s E :
  slots_inv target tk P s →
  wlx (Append_Context_Core target None sym lookahead) s
      (fun r s' => slots_inv target tk P s' ∧
                   Bind_Table s' = Bind_Table s ∧
                   BUF_COLLECT s' = BUF_COLLECT s ∧
                   ∀ j v, P j v → j ≠ snd r)
      E.
Proof.
  intros (Hlt & Hne & tv & Htv & Hl & HP).
  unfold Append_Context_Core.
  wp_bind. apply wlx_CTX_KEYLIST. intros tv0 k Htv0 Hk.
  assert (tv0 = tv) as -> by congruence.
  assert (k = tk) as -> by congruence.
  wp_bind. unfold EXPAND_SERIES_TAIL. apply wlx_modify. intros kv Hkv.
  wp_bind. apply wlx_ARR_LEN. intros kv'. map_simpl. intros [= <-].
  wp_bind. wp_ret.
  wp_bind. apply wlx_ARR_PUT. intros kv'. map_simpl. intros [= <-] _.
  wp_bind. apply wlx_modify. intros tv'. map_simpl. rewrite Htv.
  intros [= <-].
  wp_bind. apply wlx_ARR_LEN. intros tv'. map_simpl. intros [= <-].
  wp_bind. apply wlx_ARR_PUT. intros tv'. map_simpl. intros [= <-] _.
  wp_bind. apply wlx_assert. intros _. wp_ret.
  rewrite length_app. simpl.
  split; [|split; [done|split; [done|]]].
  - split; [done|]. split; [done|].
    eexists. split; [map_lookup|]. split; [done|]. simpl.
    intros j v Hj. specialize (HP j v Hj).
    pose proof (lookup_lt_Some _ _ _ HP).
    rewrite list_lookup_insert_ne by lia.
    by apply lookup_app_l_Some.
  - intros j v Hj. specialize (HP j v Hj).
    pose proof (lookup_lt_Some _ _ _ HP). lia.
Qed.

(** One round of the copying loop with [all] false writes to no slot that
    holds a value. *)
Lemma Resolve_Context_copy_keeps canon target source tk P j s E :
  (∀ j v, P j v → IS_VOID v = false) →
  slots_inv target tk P s →
  wlx (Resolve_Context_copy canon target source tk false j) s
      (fun _ s' => slots_inv target tk P s') E.
Proof.
  intros Hset Hinv. unfold Resolve_Context_copy.
  wp_bind. apply wlx_KEY_AT. intros kv key Hkv Hkey.
  wp_bind. apply wlx_binds_get.
  generalize (bind_at (Bind_Table s) (canon (ts_sym key))). intros m.
  destruct (negb _); [|by wp_ret].
  wp_bind. apply wlx_binds_set.
  cbv beta. set (s1 := with_binds _ s).
  assert (slots_inv target tk P s1) as Hinv1 by exact Hinv.
  clearbody s1. clear Hinv Hkv s. rename s1 into s, Hinv1 into Hinv.
  wp_bind. destruct (TYPESET_FLAG_LOCKED key).
  { wp_ret. by wp_ret. }
  wp_bind. apply wlx_ARR_AT. intros tv var Htv Hvar. wp_ret.
  destruct (IS_VOID var) eqn:Hvoid; [|by wp_ret].
  destruct Hinv as (Hlt & Hne & tv' & Htv' & Hl & HP).
  assert (tv' = tv) as -> by congruence.
  assert (∀ x, slots_inv target tk P
                 (with_heap (<[target := set_cells (<[j := x]> (ser_cells tv))
                                           tv]> (heap s)) s)) as Hput.
  { intros x. split; [done|]. split; [done|].
    eexists. split; [map_lookup|]. split; [done|]. simpl.
    intros j' v' Hj'. rewrite list_lookup_insert_ne; [by apply HP|].
    intros ->. specialize (HP _ _ Hj'). specialize (Hset _ _ Hj').
    congruence. }
  destruct (Z.ltb _ 0).
  - apply wlx_ARR_PUT. intros tv0 Htv0 _.
    assert (tv0 = tv) as -> by congruence. apply Hput.
  - wp_bind. apply wlx_CTX_VAR. intros sv x _ _ _.
    wp_bind. apply wlx_ARR_PUT. intros tv0 Htv0 _.
    assert (tv0 = tv) as -> by congruence.
    wp_bind. apply wlx_CTX_KEY. intros skey.
    apply wlx_ARR_PUT. intros kv0. map_simpl. intros Hkv0 _.
    destruct (Hput x) as (Hlt' & _ & tv1 & Htv1 & Hl1 & HP1).
    split; [done|]. split; [done|].
    exists tv1. split; [|done]. revert Htv1. map_simpl. done.
Qed.

(** The loop that appends the new keys touches no slot there was. *)
Lemma Resolve_Context_append_slots canon target source tk sk P count s E :
  slots_inv target tk P s →
  wlx (for_ 1 count (fun n =>
         key ← KEY_AT sk n;
         let c := canon (ts_sym key) in
         b ← binds_get c;
         if negb (Z.eqb b 0) then
           binds_set c 0;;
           '(_, var) ← Append_Context_Core target None c
                         (TYPESET_FLAG_LOOKBACK key);
           v ← CTX_VAR source n;
           ARR_PUT target var v
         else mret tt)) s
      (fun _ s' => slots_inv target tk P s') E.
Proof.
  intros Hinv.
  apply wlx_mono with (Q := fun _ s' => slots_inv target tk P s') (E := E);
    [|auto..].
  apply (wlx_for_ _ (fun _ s' => slots_inv target tk P s') E); [exact Hinv|].
  clear s Hinv. intros n s _ Hinv. cbv beta.
  wp_bind. apply wlx_KEY_AT. intros kv key _ _.
  wp_bind. apply wlx_binds_get.
  destruct (negb _); [|by wp_ret].
  wp_bind. apply wlx_binds_set.
  wp_bind.
  eapply wlx_mono with (E := E);
    [apply Append_Context_Core_slots; exact Hinv| |auto].
  cbv beta. intros [w var] s1 (Hinv1 & _ & _ & Hvar). simpl in Hvar.
  wp_bind. apply wlx_CTX_VAR. intros sv x _ _ _.
  apply wlx_ARR_PUT. intros tv Htv _.
  destruct Hinv1 as (Hlt & Hne & tv' & Htv' & Hl & HP).
  assert (tv' = tv) as -> by congruence.
  split; [done|]. split; [done|].
  eexists. split; [map_lookup|]. split; [done|]. simpl.
  intros j v Hj. rewrite list_lookup_insert_ne; [by apply HP|].
  intros ->. by eapply Hvar.
Qed.

(** With [all] false, no slot of the target that holds a value is written,
    whatever the call goes through. *)
Lemma Resolve_Context_keeps_slots canon target source only_words expand
    tk P s :
  (∀ j v, P j v → IS_VOID v = false) →
  slots_inv target tk P s →
  wlx (Resolve_Context canon target source only_words false expand) s
      (fun _ s' => ∃ tk', slots_inv target tk' P s')
      (fun _ s' => ∃ tk', slots_inv target tk' P s').
Proof.
  intros Hset Hinv. unfold Resolve_Context.
  wp_bind. apply wlx_keeps; [keeps| |by eauto using slots_inv_heap].
  intros _ s1 Hh Hn. apply (slots_inv_heap _ _ _ _ _ Hh Hn) in Hinv.
  clear s Hh Hn. rename s1 into s.
  wp_bind. apply wlx_SER. intros tv Htv.
  wp_bind. destruct (SERIES_FLAG_LOCKED tv); [apply wlx_fail; eauto|].
  wp_ret. wp_bind. apply wlx_CTX_LEN. intros ? ? ? _ _ _.
  generalize (match only_words with
              | Integer v =>
                  if (Z.to_nat (v mod 2 ^ 32) =? 0)%nat then 1%nat
                  else Z.to_nat (v mod 2 ^ 32)
              | _ => 0%nat
              end). intros i.
  match goal with |- wlx (if ?b then _ else _) _ _ _ => destruct b end;
    [wp_ret; eauto|].
  wp_bind. apply wlx_keeps;
    [apply keeps_heap_Collect_Keys_Start| |by eauto using slots_inv_heap].
  intros _ s1 Hh Hn. apply (slots_inv_heap _ _ _ _ _ Hh Hn) in Hinv.
  clear s Htv Hh Hn. rename s1 into s.
  wp_bind. apply wlx_keeps; [| |by eauto using slots_inv_heap].
  { destruct (negb _); [keeps|].
    destruct only_words as [| | | | | |[] words|]; try keeps.
    apply keeps_heap_Resolve_tag_words. }
  intros n s1 Hh Hn. apply (slots_inv_heap _ _ _ _ _ Hh Hn) in Hinv.
  clear s Hh Hn. rename s1 into s.
  (* growing the target *)
  wp_bind.
  apply wlx_mono with
    (Q := fun _ s' => ∃ tk', slots_inv target tk' P s')
    (E := fun _ s' => ∃ tk', slots_inv target tk' P s'); [| |auto].
  { destruct (expand && _); [|wp_ret; eauto].
    wp_bind. apply wlx_CTX_KEYLIST. intros ? tkeys _ _.
    wp_bind. apply wlx_ARR_LEN. intros ? _.
    wp_bind. apply wlx_keeps; [keeps| |by eauto using slots_inv_heap].
    intros n' s1 Hh Hn.
    pose proof (slots_inv_heap _ _ _ _ _ Hh Hn Hinv) as Hinv1.
    destruct (Z.ltb 0 n'); [|wp_ret; eauto].
    wp_bind.
    eapply wlx_mono with (E := fun _ s' => ∃ tk', slots_inv target tk' P s');
      [eapply Expand_Context_slots; exact Hinv1| |auto].
    cbv beta. intros _ s2 (tk' & Hinv2 & _). wp_ret. eauto. }
  clear s Hinv tk. cbv beta. intros expand' s (tk & Hinv).
  (* marking the source's words *)
  wp_bind. apply wlx_CTX_KEYLIST. intros ? skeys _ _.
  wp_bind. apply wlx_ARR_LEN. intros ? _.
  wp_bind. apply wlx_keeps; [keeps| |by eauto using slots_inv_heap].
  intros _ s1 Hh Hn. apply (slots_inv_heap _ _ _ _ _ Hh Hn) in Hinv.
  clear s Hh Hn. rename s1 into s.
  (* the copying loop *)
  wp_bind. apply wlx_CTX_KEYLIST. intros tv2 tkeys Htv2 Hl2.
  assert (tkeys = tk) as ->.
  { destruct Hinv as (_ & _ & tv' & Htv' & Hl' & _). congruence. }
  wp_bind. apply wlx_ARR_LEN. intros ? _.
  wp_bind.
  apply wlx_mono with
    (Q := fun _ s' => slots_inv target tk P s')
    (E := fun _ s' => ∃ tk', slots_inv target tk' P s'); [| |auto].
  { apply (wlx_for_ _ (fun _ s' => slots_inv target tk P s')); [exact Hinv|].
    intros j s1 _ Hs1. by apply Resolve_Context_copy_keeps. }
  clear s Hinv Htv2 Hl2. cbv beta. intros _ s Hinv.
  (* new words, or the reset of the table *)
  wp_bind.
  apply wlx_mono with
    (Q := fun _ s' => slots_inv target tk P s')
    (E := fun _ s' => ∃ tk', slots_inv target tk' P s'); [| |auto].
  { destruct expand'.
    - wp_bind. apply wlx_CTX_KEYLIST. intros ? sk _ _.
      wp_bind. apply wlx_ARR_LEN. intros ? _.
      by apply Resolve_Context_append_slots.
    - apply wlx_keeps; [|by eauto using slots_inv_heap..].
      destruct (negb _); [keeps|].
      destruct only_words as [| | | | | |[] words|]; try keeps.
      apply keeps_heap_Resolve_untag_words. }
  clear s Hinv. cbv beta. intros _ s Hinv.
  wp_bind. apply wlx_keeps; [keeps| |by eauto using slots_inv_heap].
  intros _ s1 Hh Hn. apply (slots_inv_heap _ _ _ _ _ Hh Hn) in Hinv.
  apply wlx_set_buf. eauto.
Qed.

(** **** A locked key keeps its slot *)

Lemma locked_slot_heap target tk j v s s' :
  heap s' = heap s → next s' = next s →
  locked_slot target tk j v s → locked_slot target tk j v s'.
Proof. unfold locked_slot. intros -> ->. done. Qed.

Lemma Expand_Context_locked target tk j v delta s E :
  locked_slot target tk j v s →
  wlx (Expand_Context target delta) s
      (fun _ s' => ∃ tk', locked_slot target tk' j v s') E.
Proof.
  intros ((Hlt & Hlk & Hne) & (tv & Htv & Hl & Hv) &
          (tkv & key & Htkv & Hkey & Hlocked)).
  unfold Expand_Context, Extend_Series.
  wp_bind. apply wlx_modify. intros tv0 Htv0.
  assert (tv0 = tv) as -> by congruence.
  wp_bind. unfold Expand_Context_Keylist_Core.
  destruct (Nat.eqb delta 0).
  { wp_ret. wp_ret. exists tk. split; [done|]. split.
    - eexists. split; [map_lookup|]. done.
    - exists tkv, key. split; [map_lookup|]. done. }
  wp_bind. apply wlx_CTX_KEYLIST. intros tv1 k Htv1 Hk. revert Htv1.
  map_simpl. intros [= <-]. simpl in Hk.
  assert (k = tk) as -> by congruence.
  wp_bind. apply wlx_SER. intros kv. map_simpl. rewrite Htkv. intros [= <-].
  destruct (KEYLIST_FLAG_SHARED tkv).
  - wp_bind. unfold Copy_Array_Extra_Shallow. wp_bind. apply wlx_SER.
    intros kv'. map_simpl. rewrite Htkv. intros [= <-]. apply wlx_alloc.
    wp_bind. apply wlx_modify. intros nv. map_simpl. intros [= <-].
    wp_bind. unfold MANAGE_ARRAY. apply wlx_modify. intros nv'. map_simpl.
    intros [= <-].
    wp_bind. unfold INIT_CTX_KEYLIST_UNIQUE. wp_bind. apply wlx_SER.
    intros nv'' _. wp_bind. apply wlx_assert. intros _.
    apply wlx_modify. intros tv2. map_simpl. intros [= <-].
    wp_ret. wp_ret. exists (next s). split; [st_simpl; lia|]. split.
    + eexists. split; [map_lookup|]. done.
    + eexists _, key. split; [map_lookup|]. done.
  - wp_bind. apply wlx_modify. intros kv'. map_simpl. rewrite Htkv.
    intros [= <-]. wp_ret. wp_ret.
    exists tk. split; [done|]. split.
    + eexists. split; [map_lookup|]. done.
    + eexists _, key. split; [map_lookup|]. done.
Qed.

(** Appending a key and its variable touches neither the slot nor its
    key. *)
Lemma Append_Context_Core_locked target tk j v sym lookahead s E :
  locked_slot target tk j v s →
  wlx (Append_Context_Core target None sym lookahead) s
      (fun r s' => locked_slot target tk j v s' ∧ j ≠ snd r) E.
Proof.
  intros ((Hlt & Hlk & Hne) & (tv & Htv & Hl & Hv) &
          (tkv & key & Htkv & Hkey & Hlocked)).
  pose proof (lookup_lt_Some _ _ _ Hv) as Hjv.
  pose proof (lookup_lt_Some _ _ _ Hkey) as Hjk.
  unfold Append_Context_Core.
  wp_bind. apply wlx_CTX_KEYLIST. intros tv0 k Htv0 Hk.
  assert (tv0 = tv) as -> by congruence.
  assert (k = tk) as -> by congruence.
  wp_bind. unfold EXPAND_SERIES_TAIL. apply wlx_modify. intros kv Hkv.
  assert (kv = tkv) as -> by congruence.
  wp_bind. apply wlx_ARR_LEN. intros kv'. map_simpl. intros [= <-].
  wp_bind. wp_ret.
  wp_bind. apply wlx_ARR_PUT. intros kv'. map_simpl. intros [= <-] _.
  wp_bind. apply wlx_modify. intros tv'. map_simpl. rewrite Htv.
  intros [= <-].
  wp_bind. apply wlx_ARR_LEN. intros tv'. map_simpl. intros [= <-].
  wp_bind. apply wlx_ARR_PUT. intros tv'. map_simpl. intros [= <-] _.
  wp_bind. apply wlx_assert. intros _. wp_ret.
  rewrite !length_app. simpl. split; [|lia].
  split; [done|]. split.
  - eexists. split; [map_lookup|]. split; [done|]. simpl.
    rewrite list_lookup_insert_ne by lia. by apply lookup_app_l_Some.
  - eexists _, key. split; [map_lookup|]. split; [|done]. simpl.
    rewrite list_lookup_insert_ne by lia. by apply lookup_app_l_Some.
Qed.

(** One round of the copying loop, whatever [all] is, writes neither to
    the slot of a locked key nor to that key's flag. *)
Lemma Resolve_Context_copy_locked canon target source tk all j v j' s E :
  locked_slot target tk j v s →
  wlx (Resolve_Context_copy canon target source tk all j') s
      (fun _ s' => locked_slot target tk j v s') E.
Proof.
  intros Hinv. unfold Resolve_Context_copy.
  wp_bind. apply wlx_KEY_AT. intros kv key' Hkv Hkey'.
  wp_bind. apply wlx_binds_get.
  generalize (bind_at (Bind_Table s) (canon (ts_sym key'))). intros m.
  destruct (negb _); [|by wp_ret].
  wp_bind. apply wlx_binds_set.
  cbv beta. set (s1 := with_binds _ s).
  assert (locked_slot target tk j v s1) as Hinv1 by exact Hinv.
  assert (heap s1 !! tk = Some kv) as Hkv1 by exact Hkv.
  clearbody s1. clear Hinv Hkv s. rename s1 into s, Hinv1 into Hinv.
  destruct Hinv as ((Hlt & Hlk & Hne) & (tv & Htv & Hl & Hv) &
                    (tkv & key & Htkv & Hkey & Hlocked)).
  assert (tkv = kv) as -> by congruence.
  destruct (decide (j' = j)) as [->|Hjj].
  { assert (key' = key) as -> by congruence. rewrite Hlocked.
    wp_bind. wp_ret. wp_ret.
    split; [done|]. split; [by exists tv|by exists kv, key]. }
  assert (∀ x, locked_slot target tk j v
                 (with_heap (<[target := set_cells (<[j' := x]> (ser_cells tv))
                                           tv]> (heap s)) s)) as Hput.
  { intros x. split; [done|]. split.
    - eexists. split; [map_lookup|]. split; [done|]. simpl.
      by rewrite list_lookup_insert_ne.
    - exists kv, key. split; [map_lookup|]. done. }
  wp_bind.
  apply wlx_mono with (Q := fun _ s' => s' = s) (E := E); [| |auto].
  { destruct (TYPESET_FLAG_LOCKED key'); [by wp_ret|].
    destruct all; [by wp_ret|].
    wp_bind. apply wlx_ARR_AT. intros ? ? _ _. by wp_ret. }
  cbv beta. intros ok ? ->.
  destruct ok; [|wp_ret; split; [done|];
                 split; [by exists tv|by exists kv, key]].
  destruct (Z.ltb _ 0).
  - apply wlx_ARR_PUT. intros tv0 Htv0 _.
    assert (tv0 = tv) as -> by congruence. apply Hput.
  - wp_bind. apply wlx_CTX_VAR. intros sv x _ _ _.
    wp_bind. apply wlx_ARR_PUT. intros tv0 Htv0 _.
    assert (tv0 = tv) as -> by congruence.
    wp_bind. apply wlx_CTX_KEY. intros skey.
    apply wlx_ARR_PUT. intros kv0. map_simpl. rewrite Hkv1.
    intros [= <-] _.
    destruct (Hput x) as (_ & (tv1 & Htv1 & Hl1 & Hv1) & _).
    split; [done|]. split.
    + exists tv1. split; [|done]. revert Htv1. map_simpl. done.
    + eexists _, key. split; [map_lookup|]. split; [|done]. simpl.
      by rewrite list_lookup_insert_ne.
Qed.

(** The loop that appends the new keys touches neither. *)
Lemma Resolve_Context_append_locked canon target source tk sk j v count
    s E :
  locked_slot target tk j v s →
  wlx (for_ 1 count (fun n =>
         key ← KEY_AT sk n;
         let c := canon (ts_sym key) in
         b ← binds_get c;
         if negb (Z.eqb b 0) then
           binds_set c 0;;
           '(_, var) ← Append_Context_Core target None c
                         (TYPESET_FLAG_LOOKBACK key);
           v ← CTX_VAR source n;
           ARR_PUT target var v
         else mret tt)) s
      (fun _ s' => locked_slot target tk j v s') E.
Proof.
  intros Hinv.
  apply wlx_mono with (Q := fun _ s' => locked_slot target tk j v s')
                      (E := E); [|auto..].
  apply (wlx_for_ _ (fun _ s' => locked_slot target tk j v s') E);
    [exact Hinv|].
  clear s Hinv. intros n s _ Hinv. cbv beta.
  wp_bind. apply wlx_KEY_AT. intros kv key _ _.
  wp_bind. apply wlx_binds_get.
  destruct (negb _); [|by wp_ret].
  wp_bind. apply wlx_binds_set.
  wp_bind.
  eapply wlx_mono with (E := E);
    [apply Append_Context_Core_locked; exact Hinv| |auto].
  cbv beta. intros [w var] s1 (Hinv1 & Hvar). simpl in Hvar.
  wp_bind. apply wlx_CTX_VAR. intros sv x _ _ _.
  apply wlx_ARR_PUT. intros tv Htv _.
  destruct Hinv1 as ((Hlt & Hlk & Hne) & (tv' & Htv' & Hl & Hv) &
                     (tkv & key' & Htkv & Hkey & Hlocked)).
  assert (tv' = tv) as -> by congruence.
  split; [done|]. split.
  - eexists. split; [map_lookup|]. split; [done|]. simpl.
    by rewrite list_lookup_insert_ne.
  - exists tkv, key'. split; [map_lookup|]. done.
Qed.

(** Whatever [all] is, the slot of a locked key is not written, whatever
    the call goes through. *)
Lemma Resolve_Context_keeps_locked canon target source only_words all
    expand tk j v s :
  locked_slot target tk j v s →
  wlx (Resolve_Context canon target source only_words all expand) s
      (fun _ s' => ∃ tk', locked_slot target tk' j v s')
      (fun _ s' => ∃ tk', locked_slot target tk' j v s').
Proof.
  intros Hinv. unfold Resolve_Context.
  wp_bind. apply wlx_keeps; [keeps| |by eauto using locked_slot_heap].
  intros _ s1 Hh Hn. apply (locked_slot_heap _ _ _ _ _ _ Hh Hn) in Hinv.
  clear s Hh Hn. rename s1 into s.
  wp_bind. apply wlx_SER. intros tv Htv.
  wp_bind. destruct (SERIES_FLAG_LOCKED tv); [apply wlx_fail; eauto|].
  wp_ret. wp_bind. apply wlx_CTX_LEN. intros ? ? ? _ _ _.
  generalize (match only_words with
              | Integer v =>
                  if (Z.to_nat (v mod 2 ^ 32) =? 0)%nat then 1%nat
                  else Z.to_nat (v mod 2 ^ 32)
              | _ => 0%nat
              end). intros i.
  match goal with |- wlx (if ?b then _ else _) _ _ _ => destruct b end;
    [wp_ret; eauto|].
  wp_bind. apply wlx_keeps;
    [apply keeps_heap_Collect_Keys_Start| |by eauto using locked_slot_heap].
  intros _ s1 Hh Hn. apply (locked_slot_heap _ _ _ _ _ _ Hh Hn) in Hinv.
  clear s Htv Hh Hn. rename s1 into s.
  wp_bind. apply wlx_keeps; [| |by eauto using locked_slot_heap].
  { destruct (negb _); [keeps|].
    destruct only_words as [| | | | | |[] words|]; try keeps.
    apply keeps_heap_Resolve_tag_words. }
  intros n s1 Hh Hn. apply (locked_slot_heap _ _ _ _ _ _ Hh Hn) in Hinv.
  clear s Hh Hn. rename s1 into s.
  (* growing the target *)
  wp_bind.
  apply wlx_mono with
    (Q := fun _ s' => ∃ tk', locked_slot target tk' j v s')
    (E := fun _ s' => ∃ tk', locked_slot target tk' j v s'); [| |auto].
  { destruct (expand && _); [|wp_ret; eauto].
    wp_bind. apply wlx_CTX_KEYLIST. intros ? tkeys _ _.
    wp_bind. apply wlx_ARR_LEN. intros ? _.
    wp_bind. apply wlx_keeps; [keeps| |by eauto using locked_slot_heap].
    intros n' s1 Hh Hn.
    pose proof (locked_slot_heap _ _ _ _ _ _ Hh Hn Hinv) as Hinv1.
    destruct (Z.ltb 0 n'); [|wp_ret; eauto].
    wp_bind.
    eapply wlx_mono
      with (E := fun _ s' => ∃ tk', locked_slot target tk' j v s');
      [eapply Expand_Context_locked; exact Hinv1| |auto].
    cbv beta. intros _ s2 (tk' & Hinv2). wp_ret. eauto. }
  clear s Hinv tk. cbv beta. intros expand' s (tk & Hinv).
  (* marking the source's words *)
  wp_bind. apply wlx_CTX_KEYLIST. intros ? skeys _ _.
  wp_bind. apply wlx_ARR_LEN. intros ? _.
  wp_bind. apply wlx_keeps; [keeps| |by eauto using locked_slot_heap].
  intros _ s1 Hh Hn. apply (locked_slot_heap _ _ _ _ _ _ Hh Hn) in Hinv.
  clear s Hh Hn. rename s1 into s.
  (* the copying loop *)
  wp_bind. apply wlx_CTX_KEYLIST. intros tv2 tkeys Htv2 Hl2.
  assert (tkeys = tk) as ->.
  { destruct Hinv as (_ & (tv' & Htv' & Hl' & _) & _). congruence. }
  wp_bind. apply wlx_ARR_LEN. intros ? _.
  wp_bind.
  apply wlx_mono with
    (Q := fun _ s' => locked_slot target tk j v s')
    (E := fun _ s' => ∃ tk', locked_slot target tk' j v s'); [| |auto].
  { apply (wlx_for_ _ (fun _ s' => locked_slot target tk j v s'));
      [exact Hinv|].
    intros j' s1 _ Hs1. by apply Resolve_Context_copy_locked. }
  clear s Hinv Htv2 Hl2. cbv beta. intros _ s Hinv.
  (* new words, or the reset of the table *)
  wp_bind.
  apply wlx_mono with
    (Q := fun _ s' => locked_slot target tk j v s')
    (E := fun _ s' => ∃ tk', locked_slot target tk' j v s'); [| |auto].
  { destruct expand'.
    - wp_bind. apply wlx_CTX_KEYLIST. intros ? sk _ _.
      wp_bind. apply wlx_ARR_LEN. intros ? _.
      by apply Resolve_Context_append_locked.
    - apply wlx_keeps; [|by eauto using locked_slot_heap..].
      destruct (negb _); [keeps|].
      destruct only_words as [| | | | | |[] words|]; try keeps.
      apply keeps_heap_Resolve_untag_words. }
  clear s Hinv. cbv beta. intros _ s Hinv.
  wp_bind. apply wlx_keeps; [keeps| |by eauto using locked_slot_heap].
  intros _ s1 Hh Hn. apply (locked_slot_heap _ _ _ _ _ _ Hh Hn) in Hinv.
  apply wlx_set_buf. eauto.
Qed.

Lemma resolve_heap_heap target source tk sk tc kc sc skc s s' :
  heap s' = heap s → next s' = next s →
  resolve_heap target source tk sk tc kc sc skc s →
  resolve_heap target source tk sk tc kc sc skc s'.
Proof. unfold resolve_heap. intros -> ->. done. Qed.

Lemma Expand_Context_resolve_heap target source tk sk tc kc sc skc delta s E :
  resolve_heap target source tk sk tc kc sc skc s →
  wlx (Expand_Context target delta) s
      (fun _ s' => ∃ tk', resolve_heap target source tk' sk tc kc sc skc s' ∧
                          Bind_Table s' = Bind_Table s)
      E.
Proof.
  intros ((Hlt & Hls & Hlk) & (Hn1 & Hn2 & Hn3 & Hn4)
          & (tv & Htv & Hl & Htc) & (tkv & Htkv & Hkc)
          & (sv & Hsv & Hsl & Hsc) & (skv & Hskv & Hskc)).
  unfold Expand_Context, Extend_Series.
  wp_bind. apply wlx_modify. intros tv0 Htv0.
  assert (tv0 = tv) as -> by congruence.
  wp_bind. unfold Expand_Context_Keylist_Core.
  destruct (Nat.eqb delta 0).
  { wp_ret. wp_ret. exists tk. split; [|done].
    split; [done|]. split; [done|].
    split; [eexists; split; [map_lookup|done]|].
    split; [eexists; split; [map_lookup|done]|].
    split; [eexists; split; [map_lookup|done]|].
    eexists; split; [map_lookup|done]. }
  wp_bind. apply wlx_CTX_KEYLIST. intros tv1 k Htv1 Hk. revert Htv1.
  map_simpl. intros [= <-]. simpl in Hk.
  assert (k = tk) as -> by congruence.
  wp_bind. apply wlx_SER. intros kv. map_simpl. rewrite Htkv. intros [= <-].
  destruct (KEYLIST_FLAG_SHARED tkv).
  - wp_bind. unfold Copy_Array_Extra_Shallow. wp_bind. apply wlx_SER.
    intros kv'. map_simpl. rewrite Htkv. intros [= <-]. apply wlx_alloc.
    wp_bind. apply wlx_modify. intros nv. map_simpl. intros [= <-].
    wp_bind. unfold MANAGE_ARRAY. apply wlx_modify. intros nv'.
    map_simpl. intros [= <-].
    wp_bind. unfold INIT_CTX_KEYLIST_UNIQUE. wp_bind. apply wlx_SER.
    intros nv''. map_simpl. intros [= <-]. wp_bind. apply wlx_assert.
    intros _.
    apply wlx_modify. intros tv2. map_simpl. intros [= <-].
    wp_ret. wp_ret. exists (next s). split; [|done].
    split; [st_simpl; lia|]. split; [repeat split; (done || lia)|].
    split; [eexists; split; [map_lookup|done]|].
    split; [eexists; split; [map_lookup|done]|].
    split; [eexists; split; [map_lookup|done]|].
    eexists; split; [map_lookup|done].
  - wp_bind. apply wlx_modify. intros kv'. map_simpl. rewrite Htkv.
    intros [= <-]. wp_ret. wp_ret.
    exists tk. split; [|done].
    split; [done|]. split; [done|].
    split; [eexists; split; [map_lookup|done]|].
    split; [eexists; split; [map_lookup|done]|].
    split; [eexists; split; [map_lookup|done]|].
    destruct (decide (sk = tk)) as [->|Hne].
    + eexists; split; [map_lookup|]. simpl. congruence.
    + eexists; split; [map_lookup|done].
Qed.

(** The loop that marks the source's words: the table ends with the index
    of the last key of the source that has the canon looked for. *)
Lemma Resolve_Context_mark_source canon only_words sk skv m skey c0 s E :
  heap s !! sk = Some skv →
  ser_cells skv !! m = Some (Typeset skey) → canon (ts_sym skey) = c0 →
  (1 ≤ m)%nat →
  (∀ m' k', (m < m')%nat → ser_cells skv !! m' = Some (Typeset k') →
            canon (ts_sym k') ≠ c0) →
  IS_VOID only_words = true ∨ bind_at (Bind_Table s) c0 ≠ 0 →
  wlx (for_ 1 (length (ser_cells skv) - 1) (fun n =>
         key ← KEY_AT sk n;
         let c := canon (ts_sym key) in
         b ← binds_get c;
         if IS_VOID only_words || negb (Z.eqb b 0)
         then binds_set c (Z.of_nat n) else mret tt)) s
      (fun _ s' => heap s' = heap s ∧ next s' = next s ∧
                   bind_at (Bind_Table s') c0 = Z.of_nat m)
      E.
Proof.
  intros Hsk Hm Hc0 Hm1 Hlast Hsel.
  pose proof (lookup_lt_Some _ _ _ Hm) as Hlen.
  set (I := fun (n : nat) (s' : State) =>
              heap s' = heap s ∧ next s' = next s ∧
              ((n ≤ m)%nat →
               IS_VOID only_words = true ∨ bind_at (Bind_Table s') c0 ≠ 0) ∧
              ((m < n)%nat → bind_at (Bind_Table s') c0 = Z.of_nat m)).
  apply wlx_mono with
    (Q := fun _ s' => I (1 + (length (ser_cells skv) - 1))%nat s')
    (E := E); [|cbv beta|auto].
  2: { intros _ s' (Hh & Hn & _ & Hb). split; [done|]. split; [done|].
       apply Hb. lia. }
  apply (wlx_for_ _ I).
  { split; [done|]. split; [done|]. split; [done|]. lia. }
  unfold I.
  clear Hsel. intros n s1 Hn (Hh & Hnx & Hpre & Hpost). cbv beta.
  wp_bind. apply wlx_KEY_AT. intros skv' key Hskv' Hkey.
  assert (skv' = skv) as -> by congruence.
  wp_bind. apply wlx_binds_get.
  destruct (IS_VOID only_words || negb (bind_at (Bind_Table s1) (canon (ts_sym key)) =? 0))
    eqn:Hcond.
  - apply wlx_binds_set. st_simpl.
    split; [done|]. split; [done|]. rewrite bind_at_insert. split.
    + intros Hle. case_decide; [right; lia|]. apply Hpre. lia.
    + intros Hlt. destruct (decide (n = m)) as [->|Hne].
      * assert (key = skey) as -> by congruence.
        rewrite decide_True by done. done.
      * rewrite decide_False; [apply Hpost; lia|].
        intros Heq. eapply (Hlast n key); [lia|done|]. congruence.
  - wp_ret. split; [done|]. split; [done|]. split.
    + intros Hle. apply Hpre. lia.
    + intros Hlt. destruct (decide (n = m)) as [->|Hne]; [|apply Hpost; lia].
      exfalso. assert (key = skey) as -> by congruence.
      apply orb_false_elim in Hcond as [Hv Hb].
      destruct (Hpre ltac:(lia)) as [Hv'|Hb']; [congruence|].
      apply negb_false_iff, Z.eqb_eq in Hb. congruence.
Qed.

(** The loop that tags the target's words from [i] on. *)
Lemma Resolve_Context_tag_from canon tk tkv i j key s E :
  heap s !! tk = Some tkv →
  ser_cells tkv !! j = Some (Typeset key) → (i ≤ j)%nat →
  wlx (for_ i (length (ser_cells tkv) - i) (fun j =>
         key ← KEY_AT tk j;
         binds_set (canon (ts_sym key)) (-1))) s
      (fun _ s' => heap s' = heap s ∧ next s' = next s ∧
                   bind_at (Bind_Table s') (canon (ts_sym key)) ≠ 0)
      E.
Proof.
  intros Htk Hj Hij.
  pose proof (lookup_lt_Some _ _ _ Hj) as Hlen.
  set (I := fun (n : nat) (s' : State) =>
              heap s' = heap s ∧ next s' = next s ∧
              ((j < n)%nat →
               bind_at (Bind_Table s') (canon (ts_sym key)) = -1)).
  apply wlx_mono with
    (Q := fun _ s' => I (i + (length (ser_cells tkv) - i))%nat s')
    (E := E); [|cbv beta|auto].
  2: { intros _ s' (Hh & Hn & Hb). split; [done|]. split; [done|].
       rewrite Hb; [done|lia]. }
  apply (wlx_for_ _ I).
  { split; [done|]. split; [done|]. lia. }
  unfold I. intros n s1 Hn (Hh & Hnx & Hpost). cbv beta.
  wp_bind. apply wlx_KEY_AT. intros tkv' key' Htkv' Hkey'.
  assert (tkv' = tkv) as -> by congruence.
  apply wlx_binds_set. st_simpl. split; [done|]. split; [done|].
  intros Hlt. rewrite bind_at_insert. case_decide; [done|].
  destruct (decide (n = j)) as [->|Hne]; [|apply Hpost; lia].
  congruence.
Qed.

(** The loop that tags the words of a block. *)
Lemma Resolve_tag_words_selected canon words c0 E :
  ∀ n s,
    (bind_at (Bind_Table s) c0 = -1 ∨
     ∃ k sym b, AnyWord k sym b ∈ words ∧
                IS_WORD (AnyWord k sym b) || IS_SET_WORD (AnyWord k sym b)
                  = true ∧
                canon sym = c0) →
    wlx (Resolve_tag_words canon words n) s
        (fun _ s' => heap s' = heap s ∧ next s' = next s ∧
                     bind_at (Bind_Table s') c0 = -1)
        E.
Proof.
  induction words as [|w words IH]; intros n s Hsel.
  - cbn [Resolve_tag_words]. wp_ret.
    destruct Hsel as [H|(k & sym & b & Hin & _)]; [done|].
    by apply elem_of_nil in Hin.
  - cbn [Resolve_tag_words].
    destruct (IS_WORD w || IS_SET_WORD w) eqn:Hw.
    + wp_bind. destruct w as [| | | | |k sym b| |]; try discriminate Hw.
      cbn [VAL_WORD_CANON]. wp_ret. wp_bind. apply wlx_binds_set.
      eapply wlx_mono with (E := E); [apply IH| |auto].
      * st_simpl. rewrite bind_at_insert.
        destruct (decide (canon sym = c0)) as [Heq|Hne]; [by left|].
        destruct Hsel as [H|(k' & sym' & b' & Hin & Hw' & Hc)]; [by left|].
        apply elem_of_cons in Hin as [[= -> -> ->]|Hin]; [done|].
        right. eauto 10.
      * cbv beta. intros _ s' (Hh & Hn & Hb). done.
    + apply IH. destruct Hsel as [H|(k' & sym' & b' & Hin & Hw' & Hc)];
        [by left|].
      apply elem_of_cons in Hin as [<-|Hin]; [congruence|].
      right. eauto 10.
Qed.

Lemma key_like_refl a : key_like a a.
Proof. by destruct a. Qed.

Lemma key_like_Typeset_l l l' n t :
  Forall2 key_like l l' → l !! n = Some (Typeset t) →
  ∃ t', l' !! n = Some (Typeset t') ∧ ts_sym t = ts_sym t' ∧
        TYPESET_FLAG_LOCKED t = TYPESET_FLAG_LOCKED t'.
Proof.
  intros HF Hn. destruct (Forall2_lookup_l _ _ _ _ _ HF Hn) as (y & Hy & Hl).
  destruct y; try done. eauto.
Qed.

Lemma key_like_Typeset_r l l' n t' :
  Forall2 key_like l l' → l' !! n = Some (Typeset t') →
  ∃ t, l !! n = Some (Typeset t) ∧ ts_sym t = ts_sym t' ∧
       TYPESET_FLAG_LOCKED t = TYPESET_FLAG_LOCKED t'.
Proof.
  intros HF Hn. destruct (Forall2_lookup_r _ _ _ _ _ HF Hn) as (y & Hy & Hl).
  destruct y; try done. eauto.
Qed.

Lemma key_like_set_lookback l l' n t' b :
  Forall2 key_like l l' → l' !! n = Some (Typeset t') →
  Forall2 key_like l (<[n := Typeset (set_lookback b t')]> l').
Proof.
  intros HF Hn.
  destruct (key_like_Typeset_r _ _ _ _ HF Hn) as (t & Ht & Hs & Hl).
  rewrite <- (list_insert_id l n (Typeset t)) by done.
  apply Forall2_insert; [done|]. done.
Qed.

(** The copying loop with [all] true: the slot of a key that is not locked,
    first of its canon from [start] on, whose canon the table maps to [m],
    ends up holding the source's variable [m]. *)
Lemma Resolve_Context_copy_loop canon target source tk sk tc kc sc skc
    j key m v start s E :
  resolve_heap target source tk sk tc kc sc skc s →
  kc !! j = Some (Typeset key) → TYPESET_FLAG_LOCKED key = false →
  (start ≤ j)%nat →
  (∀ j' key', (start ≤ j' < j)%nat → kc !! j' = Some (Typeset key') →
              canon (ts_sym key') ≠ canon (ts_sym key)) →
  (1 ≤ m)%nat → sc !! m = Some v →
  bind_at (Bind_Table s) (canon (ts_sym key)) = Z.of_nat m →
  wlx (for_ start (length kc - start)
         (Resolve_Context_copy canon target source tk true)) s
      (fun _ s' => slots_inv target tk (fun j' v' => j' = j ∧ v' = v) s')
      E.
Proof.
  intros ((Hlt & Hls & Hlk) & (Hn1 & Hn2 & Hn3 & Hn4)
          & (tv & Htv & Hl & Htc) & (tkv & Htkv & Hkc)
          & (sv & Hsv & Hsl & Hsc) & _) Hj Hunl Hstart Hfirst Hm1 Hv Hbind.
  pose proof (lookup_lt_Some _ _ _ Hj) as Hlen.
  set (I := fun (n : nat) (s' : State) =>
              (target < next s')%positive ∧
              (∃ tv', heap s' !! target = Some tv' ∧
                      link_keylist tv' = Some tk ∧
                      ((j < n)%nat → ser_cells tv' !! j = Some v)) ∧
              (∃ tkv', heap s' !! tk = Some tkv' ∧
                       Forall2 key_like kc (ser_cells tkv')) ∧
              (∃ sv', heap s' !! source = Some sv' ∧ ser_cells sv' = sc) ∧
              ((n ≤ j)%nat →
               bind_at (Bind_Table s') (canon (ts_sym key)) = Z.of_nat m)).
  apply wlx_mono with
    (Q := fun _ s' => I (start + (length kc - start))%nat s')
    (E := E); [|cbv beta|auto].
  2: { intros _ s' (Hlt' & (tv' & Htv' & Hl' & Hslot) & _).
       split; [done|]. split; [done|]. exists tv'.
       split; [done|]. split; [done|]. intros j' v' [-> ->].
       apply Hslot. lia. }
  apply (wlx_for_ _ I).
  { split; [done|]. split; [exists tv; split; [done|split; [done|lia]]|].
    split; [exists tkv; split; [done|]|].
    { rewrite Hkc. apply Forall2_same_length_lookup. split; [done|].
      intros i x y Hx Hy. assert (x = y) as -> by congruence.
      apply key_like_refl. }
    split; [by exists sv|]. done. }
  unfold I. clear I Htv Htkv Hsv Hbind Hlt Hls Hlk tv Hl Htc tkv Hkc sv Hsl Hsc s.
  intros n s Hn (Hlt & (tv & Htv & Hl & Hslot) & (tkv & Htkv & Hlike)
                 & (sv & Hsv & Hsc) & Hbind). cbv beta.
  unfold Resolve_Context_copy.
  wp_bind. apply wlx_KEY_AT. intros tkv' t Htkv' Ht.
  assert (tkv' = tkv) as -> by congruence.
  destruct (key_like_Typeset_r _ _ _ _ Hlike Ht) as (t0 & Ht0 & Hsym & Hlock).
  wp_bind. apply wlx_binds_get.
  destruct (Z.eqb_spec (bind_at (Bind_Table s) (canon (ts_sym t))) 0)
    as [Hz|Hnz]; cbn [negb].
  { wp_ret. split; [done|].
    destruct (decide (n = j)) as [->|Hne].
    - exfalso. assert (t0 = key) as -> by congruence.
      rewrite <- Hsym, Hbind in Hz by lia. lia.
    - split; [exists tv; split; [done|split; [done|]]; intros; apply Hslot; lia|].
      split; [by exists tkv|]. split; [by exists sv|].
      intros. apply Hbind. lia. }
  wp_bind. apply wlx_binds_set. st_simpl.
  assert ((S n ≤ j)%nat →
          bind_at (<[canon (ts_sym t) := 0]> (Bind_Table s))
                  (canon (ts_sym key)) = Z.of_nat m) as Hbind'.
  { intros Hle. rewrite bind_at_insert, decide_False; [apply Hbind; lia|].
    rewrite <- Hsym. apply (Hfirst n t0); [lia|done]. }
  wp_bind.
  apply wlx_mono with
    (Q := fun ok s' =>
            s' = with_binds (<[canon (ts_sym t) := 0]> (Bind_Table s)) s ∧
            (n = j → ok = true))
    (E := E); [| |auto].
  { destruct (TYPESET_FLAG_LOCKED t) eqn:Hlk.
    - wp_ret. split; [done|]. intros ->.
      assert (t0 = key) as -> by congruence. congruence.
    - wp_ret. done. }
  cbv beta. intros ok s' [-> Hok].
  destruct ok.
  2: { wp_ret. st_simpl. split; [done|].
       split; [exists tv; split; [done|split; [done|]]; intros;
               apply Hslot; destruct (decide (n = j)) as [->|];
               [by specialize (Hok eq_refl)|lia]|].
       split; [by exists tkv|]. split; [by exists sv|]. done. }
  destruct (Z.ltb_spec (bind_at (Bind_Table s) (canon (ts_sym t))) 0)
    as [Hneg|Hpos].
  - apply wlx_ARR_PUT. intros tv'. st_simpl. rewrite Htv. intros [= <-] Hin.
    st_simpl. split; [done|].
    split; [eexists; split; [map_lookup|split; [done|]]|].
    { simpl. intros Hjn. destruct (decide (n = j)) as [->|Hne].
      - exfalso. assert (t0 = key) as -> by congruence.
        rewrite <- Hsym, Hbind in Hneg by lia. lia.
      - rewrite list_lookup_insert_ne by done. apply Hslot. lia. }
    split; [exists tkv; split; [map_lookup|done]|].
    split; [exists sv; split; [map_lookup|done]|]. done.
  - wp_bind. apply wlx_CTX_VAR. intros sv'. st_simpl. intros x _.
    rewrite Hsv. intros [= <-] Hx.
    wp_bind. apply wlx_ARR_PUT. intros tv'. st_simpl. rewrite Htv.
    intros [= <-] Hin.
    wp_bind. apply wlx_CTX_KEY. intros skey.
    apply wlx_ARR_PUT. intros tkv'. map_simpl. rewrite Htkv.
    intros [= <-] Hin'.
    st_simpl. split; [done|].
    split; [eexists; split; [map_lookup|split; [done|]]|].
    { simpl. intros Hjn. destruct (decide (n = j)) as [->|Hne].
      - assert (t0 = key) as -> by congruence.
        rewrite <- Hsym, Hbind, Nat2Z.id in Hx by lia.
        rewrite list_lookup_insert_eq by done. congruence.
      - rewrite list_lookup_insert_ne by done. apply Hslot. lia. }
    split; [eexists; split; [map_lookup|]|].
    { simpl. by apply key_like_set_lookback. }
    split; [exists sv; split; [map_lookup|done]|]. done.
Qed.

Lemma reads_only_ret {A} (a : A) : reads_only (mret a : M A).
Proof. intros s. by apply wlx_ret. Qed.

Lemma reads_only_bind {A B} (m : M A) (f : A → M B) :
  reads_only m → (∀ a, reads_only (f a)) → reads_only (m ≫= f).
Proof.
  intros Hm Hf s. apply wlx_bind.
  eapply wlx_mono; [apply Hm| |auto].
  cbv beta. intros a s1 ->. apply Hf.
Qed.

Lemma reads_only_for_fold {A} (body : nat → A → M A) count start a :
  (∀ j a, reads_only (body j a)) → reads_only (for_fold start count body a).
Proof.
  intros Hb. revert start a. induction count as [|count IH]; intros start a.
  - apply reads_only_ret.
  - cbn [for_fold]. apply reads_only_bind; [apply Hb|]. intros a'. apply IH.
Qed.

Lemma reads_only_KEY_AT k n : reads_only (KEY_AT k n).
Proof. intros s. apply wlx_KEY_AT. auto. Qed.

Lemma reads_only_binds_get c : reads_only (binds_get c).
Proof. intros s. by apply wlx_binds_get. Qed.

Lemma resolve_start_le only_words j :
  (resolve_start only_words ≤ j)%nat → (resolve_i only_words ≤ j)%nat.
Proof.
  unfold resolve_start. destruct (Nat.eqb_spec (resolve_i only_words) 0);
    simpl; lia.
Qed.

(** The tagging of the words to copy: unless everything is to be copied,
    the canon looked for ends up tagged. *)
Lemma Resolve_Context_tagging canon target only_words tv tk tkv j key s E :
  heap s !! target = Some tv → link_keylist tv = Some tk →
  heap s !! tk = Some tkv →
  ser_cells tkv !! j = Some (Typeset key) →
  (resolve_start only_words ≤ j)%nat →
  resolve_selects canon only_words (canon (ts_sym key)) →
  wlx (if negb (Nat.eqb (resolve_i only_words) 0) then
         tkeys ← CTX_KEYLIST target;
         klen ← ARR_LEN tkeys;
         for_ (resolve_i only_words) (klen - resolve_i only_words) (fun j =>
           key ← KEY_AT tkeys j;
           binds_set (canon (ts_sym key)) (-1));;
         len ← CTX_LEN target;
         mret (Z.of_nat len)
       else
         match only_words with
         | AnyArray REB_BLOCK words => Resolve_tag_words canon words 0
         | _ => mret 0
         end) s
      (fun _ s' => heap s' = heap s ∧ next s' = next s ∧
                   (IS_VOID only_words = true ∨
                    bind_at (Bind_Table s') (canon (ts_sym key)) ≠ 0))
      E.
Proof.
  intros Htv Hl Htkv Hj Hstart Hsel.
  apply resolve_start_le in Hstart.
  destruct (negb (Nat.eqb (resolve_i only_words) 0)) eqn:Hi.
  - wp_bind. apply wlx_CTX_KEYLIST. intros tv' tk' Htv' Hl'.
    assert (tk' = tk) as -> by congruence.
    wp_bind. apply wlx_ARR_LEN. intros tkv' Htkv'.
    assert (tkv' = tkv) as -> by congruence.
    wp_bind.
    eapply wlx_mono with (E := E);
      [by eapply Resolve_Context_tag_from| |auto].
    cbv beta. intros _ s' (Hh & Hn & Hb).
    wp_bind. apply wlx_CTX_LEN. intros ? ? ? _ _ _. wp_ret. auto.
  - destruct only_words as [| | |v| | |[] words|]; try done.
    + wp_ret. auto.
    + exfalso. revert Hi. unfold resolve_i. cbv zeta.
      destruct (Nat.eqb_spec (Z.to_nat (v `mod` 2 ^ 32)) 0) as [|Hne];
        [done|]. by rewrite (proj2 (Nat.eqb_neq _ _) Hne).
    + eapply wlx_mono with (E := E);
        [apply (Resolve_tag_words_selected canon words
                  (canon (ts_sym key))); by right| |auto].
      cbv beta. intros _ s' (Hh & Hn & Hb). split; [done|]. split; [done|].
      right. rewrite Hb. done.
Qed.

(** With [all] true, the slot of a selected key that is not locked ends up
    holding the source's value. *)
Lemma Resolve_Context_copies canon target source only_words expand s
    tv tk tkv sv sk skv j key m skey v :
  heap_wf s →
  heap s !! target = Some tv → link_keylist tv = Some tk →
  heap s !! tk = Some tkv →
  heap s !! source = Some sv → link_keylist sv = Some sk →
  heap s !! sk = Some skv →
  tk ≠ target → target ≠ source → tk ≠ source → sk ≠ target →
  ser_cells tkv !! j = Some (Typeset key) →
  TYPESET_FLAG_LOCKED key = false →
  (resolve_start only_words ≤ j)%nat →
  (∀ j' key', (resolve_start only_words ≤ j' < j)%nat →
              ser_cells tkv !! j' = Some (Typeset key') →
              canon (ts_sym key') ≠ canon (ts_sym key)) →
  ser_cells skv !! m = Some (Typeset skey) → (1 ≤ m)%nat →
  canon (ts_sym skey) = canon (ts_sym key) →
  (∀ m' k', (m < m')%nat → ser_cells skv !! m' = Some (Typeset k') →
            canon (ts_sym k') ≠ canon (ts_sym key)) →
  ser_cells sv !! m = Some v →
  resolve_selects canon only_words (canon (ts_sym key)) →
  wlx (Resolve_Context canon target source only_words true expand) s
      (fun _ s' => ∃ tv', heap s' !! target = Some tv' ∧
                          ser_cells tv' !! j = Some v)
      (fun _ _ => True).
Proof.
  intros Hwf Htv Hl Htkv Hsv Hsl Hskv Hn1 Hn3 Hn2 Hn4 Hj Hunl Hstart Hfirst
         Hm Hm1 Hcanon Hlast Hv Hsel.
  pose proof (lookup_lt_Some _ _ _ Hj) as Hjlen.
  assert (resolve_heap target source tk sk (ser_cells tv) (ser_cells tkv)
            (ser_cells sv) (ser_cells skv) s) as Hheap.
  { split; [repeat split; by eapply heap_wf_lt|]. split; [done|].
    split; [by exists tv|]. split; [by exists tkv|].
    split; [by exists sv|]. by exists skv. }
  set (Post := fun (_ : unit) (s' : State) =>
                 ∃ tv', heap s' !! target = Some tv' ∧
                        ser_cells tv' !! j = Some v).
  set (Any := fun (_ : error) (_ : State) => True).
  assert (∀ tk' s', slots_inv target tk' (fun j' v' => j' = j ∧ v' = v) s' →
                    Post tt s') as Hpost.
  { intros tk' s' (_ & _ & tv' & Htv' & _ & HP). exists tv'. auto. }
  unfold Resolve_Context.
  wp_bind. apply wlx_ASSERT_BIND_TABLE_EMPTY. intros Hzero.
  wp_bind. apply wlx_SER. intros tv0 Htv0.
  wp_bind. destruct (SERIES_FLAG_LOCKED tv0); [by apply wlx_fail|].
  wp_ret. wp_bind. apply wlx_CTX_LEN. intros tv1 tk1 tkv1 Htv1 Hl1 Htkv1.
  assert (tv1 = tv) as -> by congruence.
  assert (tk1 = tk) as -> by congruence.
  assert (tkv1 = tkv) as -> by congruence.
  change (match only_words with
          | Integer v0 =>
              if (Z.to_nat (v0 `mod` 2 ^ 32) =? 0)%nat then 1%nat
              else Z.to_nat (v0 `mod` 2 ^ 32)
          | _ => 0%nat
          end) with (resolve_i only_words).
  assert (IS_INTEGER only_words
          && (length (ser_cells tkv) - 1 <? resolve_i only_words)%nat
          = false) as ->.
  { apply andb_false_iff. right. apply Nat.ltb_ge.
    apply resolve_start_le in Hstart. lia. }
  (* the pass starts; the words to copy are tagged *)
  wp_bind. apply wlx_keeps;
    [apply keeps_heap_Collect_Keys_Start| |done].
  intros _ s1 Hh1 Hx1.
  wp_bind.
  eapply wlx_mono with (E := Any);
    [eapply (Resolve_Context_tagging canon target only_words tv tk tkv j key);
     (done || congruence)| |done].
  cbv beta. intros n s2 (Hh2 & Hx2 & Hb2).
  assert (heap s2 = heap s) as Hh by congruence.
  assert (next s2 = next s) as Hx by congruence.
  apply (resolve_heap_heap _ _ _ _ _ _ _ _ _ _ Hh Hx) in Hheap.
  clear Hh1 Hx1 Hh2 Hx2 Hh Hx Htv0 Htv1 Hl1 Htkv1 Hzero s1 Htv Htkv Hsv Hskv
        Hwf s tv0.
  rename s2 into s.
  (* the target grows *)
  wp_bind.
  apply wlx_mono with
    (Q := fun _ s' =>
            ∃ tk', resolve_heap target source tk' sk (ser_cells tv)
                     (ser_cells tkv) (ser_cells sv) (ser_cells skv) s' ∧
                   Bind_Table s' = Bind_Table s)
    (E := Any); [| |done].
  { destruct (expand && _); [|wp_ret; eauto].
    wp_bind. apply wlx_CTX_KEYLIST. intros ? tkeys _ _.
    wp_bind. apply wlx_ARR_LEN. intros ? _.
    wp_bind.
    apply wlx_mono with (Q := fun _ s' => s' = s) (E := Any); [| |done].
    { eapply wlx_mono;
        [apply reads_only_for_fold; intros j0 a;
         apply reads_only_bind; [apply reads_only_KEY_AT|];
         intros k0; apply reads_only_bind; [apply reads_only_binds_get|];
         intros b0; apply reads_only_ret
        |done|done]. }
    cbv beta. intros n' s' ->.
    destruct (Z.ltb 0 n'); [|wp_ret; eauto].
    wp_bind.
    eapply wlx_mono with (E := Any);
      [eapply Expand_Context_resolve_heap; exact Hheap| |done].
    cbv beta. intros _ s2 (tk' & Hheap2 & Hb). wp_ret. eauto. }
  cbv beta. intros expand' s1 (tk' & Hheap1 & Hbinds).
  rewrite <- Hbinds in Hb2. clear Hbinds Hheap s Hn1 Hn2 tk Hl.
  rename s1 into s, Hheap1 into Hheap, tk' into tk.
  (* the source's words are marked *)
  pose proof Hheap as (_ & _ & (tv1 & Htv1 & Hl1 & Htc) & (tkv1 & Htkv1 & Hkc)
                       & (sv1 & Hsv1 & Hsl1 & Hsc) & (skv1 & Hskv1 & Hskc)).
  wp_bind. apply wlx_CTX_KEYLIST. intros sv2 skeys Hsv2 Hsl2.
  assert (skeys = sk) as -> by congruence.
  wp_bind. apply wlx_ARR_LEN. intros skv2 Hskv2.
  assert (skv2 = skv1) as -> by congruence.
  wp_bind.
  eapply wlx_mono with (E := Any);
    [eapply (Resolve_Context_mark_source canon only_words sk skv1 m skey
               (canon (ts_sym key))); try done; rewrite Hskc; done| |done].
  cbv beta. intros _ s1 (Hh & Hx & Hbind).
  apply (resolve_heap_heap _ _ _ _ _ _ _ _ _ _ Hh Hx) in Hheap.
  assert (heap s1 !! target = Some tv1) as Htv1' by congruence.
  assert (heap s1 !! tk = Some tkv1) as Htkv1' by congruence.
  clear Hh Hx Hb2 Htv1 Htkv1 Hsv1 Hskv1 Hsv2 Hskv2 s.
  rename s1 into s.
  (* the copying loop *)
  wp_bind. apply wlx_CTX_KEYLIST. intros tv2 tkeys Htv2 Hl2.
  assert (tkeys = tk) as -> by congruence.
  wp_bind. apply wlx_ARR_LEN. intros tkv2 Htkv2.
  assert (tkv2 = tkv1) as -> by congruence.
  wp_bind. rewrite Hkc.
  change (if negb (resolve_i only_words =? 0)%nat
          then resolve_i only_words else 1%nat)
    with (resolve_start only_words).
  eapply wlx_mono with (E := Any);
    [eapply (Resolve_Context_copy_loop canon target source tk sk _ _ _ _
               j key m v); (done || eassumption)| |done].
  cbv beta. clear Hheap Htv1' Htkv1' Htv2 Htkv2 Hbind s.
  intros _ s Hinv.
  (* new words, or the reset of the table *)
  wp_bind.
  apply wlx_mono with
    (Q := fun _ s' =>
            slots_inv target tk (fun j' v' => j' = j ∧ v' = v) s')
    (E := Any); [| |done].
  { destruct expand'.
    - wp_bind. apply wlx_CTX_KEYLIST. intros ? sk' _ _.
      wp_bind. apply wlx_ARR_LEN. intros ? _.
      by apply Resolve_Context_append_slots.
    - apply wlx_keeps; [|by eauto using slots_inv_heap|done].
      destruct (negb _); [keeps|].
      destruct only_words as [| | | | | |[] words|]; try keeps.
      apply keeps_heap_Resolve_untag_words. }
  clear s Hinv. cbv beta. intros _ s Hinv.
  wp_bind. apply wlx_keeps; [keeps| |done].
  intros _ s1 Hh Hx. apply (slots_inv_heap _ _ _ _ _ Hh Hx) in Hinv.
  apply wlx_set_buf. by eapply Hpost.
Qed.

(** C6, as the spec has it, fails: `a` is selected, the source holds 2 for
    it, [all] is true, and the target's 1 stays, because its key is
    locked. *)
Lemma Resolve_Context_locked_not_overwritten :
  ∃ s',
    Resolve_Context canon_id 1 3 Void true false (st_resolve true)
      = Done tt s' ∧
    vars_of (st_resolve true) 3 = Some [Integer 2; Integer 3] ∧
    vars_of (st_resolve true) 1 = Some [Integer 1; Void] ∧
    vars_of s' 1 = Some [Integer 1; Integer 3].
Proof.
  eexists. split; [vm_compute; reflexivity|].
  repeat split; reflexivity.
Qed.


End FrameProofs.

(** ** Part VI: properties of the splice routines *)

Module ModifyProofs.
Import Modify ModifySpec.

(** *** Rules for the array primitives *)

Lemma frame_refl dst s : frame dst s s.
Proof. by split. Qed.

Lemma frame_trans dst s1 s2 s3 :
  frame dst s1 s2 → frame dst s2 s3 → frame dst s1 s3.
Proof.
  intros (H1 & H2 & H3) (H4 & H5 & H6). split; [|split]; [|congruence..].
  intros p Hp. rewrite H4, H1; done.
Qed.

Lemma frame_store dst v s :
  frame dst s (mkState (<[dst := v]> (arrays s)) (series s) (next s)).
Proof.
  split; [|done]. intros p Hp. cbn. by rewrite lookup_insert_ne.
Qed.

Lemma wpx_ARR_m {E} a v s (Q : REBARR → State → Prop) :
  arrays s !! a = Some v → Q v s → wpx (ARR a) s Q E.
Proof. intros H HQ. unfold wpx, ARR. rewrite H. exact HQ. Qed.

Lemma wpx_ARR_LEN_m {E} a v s (Q : Z → State → Prop) :
  arrays s !! a = Some v → Q (Z.of_nat (length (arr_cells v))) s →
  wpx (ARR_LEN a) s Q E.
Proof.
  intros H HQ. unfold ARR_LEN. apply wpx_bind. eapply wpx_ARR_m; eauto.
Qed.

Lemma wpx_ARR_store_m {E} a v s (Q : unit → State → Prop) :
  (∀ s', frame a s s' → arrays s' !! a = Some v → Q tt s') →
  wpx (ARR_store a v) s Q E.
Proof.
  intros HQ. unfold wpx, ARR_store. apply HQ; [apply frame_store|].
  cbn. by rewrite lookup_insert_eq.
Qed.

Lemma wpx_ARR_AT_m {E} a i v s (Q : option cell → State → Prop) :
  arrays s !! a = Some v → 0 ≤ i ≤ Z.of_nat (length (arr_cells v)) →
  Q (arr_cells v !! Z.to_nat i) s → wpx (ARR_AT a i) s Q E.
Proof.
  intros H Hi HQ. unfold ARR_AT. apply wpx_bind.
  eapply wpx_ARR_m; [exact H|].
  destruct (Z.ltb_spec i 0); [lia|].
  destruct (arr_cells v !! Z.to_nat i) as [c|] eqn:Hc; [exact HQ|].
  apply lookup_ge_None in Hc.
  destruct (Z.eqb_spec i (Z.of_nat (length (arr_cells v)))); [exact HQ|lia].
Qed.

Lemma wpx_ARR_PUT_m {E} a i c v s (Q : unit → State → Prop) :
  arrays s !! a = Some v → 0 ≤ i < Z.of_nat (length (arr_cells v)) →
  (∀ s', frame a s s' →
         arrays s' !! a = Some (mkArr (<[Z.to_nat i := c]> (arr_cells v))
                                      (NEWLINE_AT_TAIL v)) → Q tt s') →
  wpx (ARR_PUT a i c) s Q E.
Proof.
  intros H Hi HQ. unfold ARR_PUT. apply wpx_bind.
  eapply wpx_ARR_m; [exact H|].
  destruct (Z.leb_spec 0 i); [|lia].
  destruct (Z.ltb_spec i (Z.of_nat (length (arr_cells v)))); [|lia].
  cbn [andb]. by apply wpx_ARR_store_m.
Qed.

Lemma wpx_SET_NEWLINE_AT_TAIL_m {E} a b v s (Q : unit → State → Prop) :
  arrays s !! a = Some v →
  (∀ s', frame a s s' → arrays s' !! a = Some (mkArr (arr_cells v) b) →
         Q tt s') →
  wpx (SET_NEWLINE_AT_TAIL a b) s Q E.
Proof.
  intros H HQ. unfold SET_NEWLINE_AT_TAIL. apply wpx_bind.
  eapply wpx_ARR_m; [exact H|]. by apply wpx_ARR_store_m.
Qed.

Lemma wpx_SET_NEWLINE_BEFORE_m {E} a i v s (Q : unit → State → Prop) :
  arrays s !! a = Some v → 0 ≤ i ≤ Z.of_nat (length (arr_cells v)) →
  (∀ s' v', frame a s s' → arrays s' !! a = Some v' →
            values v' = values v →
            (∀ c, arr_cells v' !! Z.to_nat i = Some c →
                  NEWLINE_BEFORE c = true) →
            Q tt s') →
  wpx (SET_NEWLINE_BEFORE a i) s Q E.
Proof.
  intros H Hi HQ. unfold SET_NEWLINE_BEFORE. apply wpx_bind.
  eapply wpx_ARR_AT_m; [exact H|exact Hi|].
  destruct (arr_cells v !! Z.to_nat i) as [c|] eqn:Hc.
  - pose proof (lookup_lt_Some _ _ _ Hc).
    eapply wpx_ARR_PUT_m; [exact H|lia|].
    intros s' Hf Hs'. eapply HQ; [exact Hf|exact Hs'| |].
    + unfold values. cbn [arr_cells]. rewrite list_fmap_insert.
      apply list_insert_id. by rewrite list_lookup_fmap, Hc.
    + cbn. intros c'. rewrite list_lookup_insert_eq by done.
      by intros [= <-].
  - apply wpx_ret. eapply HQ; [apply frame_refl|exact H|done|].
    intros c. by rewrite Hc.
Qed.

(** *** The copying loops of Modify_Array *)

Lemma src_ok_frame dst src_rel block s s' :
  frame dst s s' → src_ok dst src_rel block s → src_ok dst src_rel block s'.
Proof.
  intros (Hf & _ & _). destruct src_rel as [arr off|c]; [|done].
  intros (Hne & Hoff & sa & Hsa & Hb). split; [done|]. split; [done|].
  exists sa. by rewrite Hf.
Qed.

Lemma wpx_src_read {E} dst src_rel block j c s (Q : cell → State → Prop) :
  src_ok dst src_rel block s → block !! j = Some c → Q c s →
  wpx (src_read src_rel (Z.of_nat j)) s Q E.
Proof.
  intros Hok Hj HQ. pose proof (lookup_lt_Some _ _ _ Hj) as Hlt.
  destruct src_rel as [arr off|c']; cbn [src_read].
  - destruct Hok as (Hne & Hoff & sa & Hsa & Hb & Hlen).
    apply wpx_bind. eapply wpx_ARR_AT_m; [exact Hsa|lia|].
    replace (Z.to_nat (off + Z.of_nat j)) with (Z.to_nat off + j)%nat by lia.
    rewrite <- Hb in Hj. rewrite lookup_take_lt in Hj by done.
    rewrite lookup_drop in Hj. rewrite Hj. exact HQ.
  - cbn in Hok. subst block. destruct j; [|done]. by injection Hj as ->.
Qed.

Lemma spliced_length {A} d (new old : list A) :
  (d + length new ≤ length old)%nat →
  length (spliced d new old) = length old.
Proof.
  intros H. unfold spliced.
  rewrite !length_app, length_take, length_drop. lia.
Qed.

Lemma spliced_spliced {A} d (X B L : list A) :
  (d + length X + length B ≤ length L)%nat →
  spliced (d + length X) B (spliced d X L) = spliced d (X ++ B) L.
Proof.
  intros H. unfold spliced.
  rewrite (app_assoc (take d L) X).
  rewrite take_app_length' by (rewrite length_app, length_take; lia).
  rewrite <- (drop_drop _ (length B) (d + length X)%nat).
  rewrite drop_app_length' by (rewrite length_app, length_take; lia).
  rewrite drop_drop, length_app, <- !app_assoc.
  by rewrite Nat.add_assoc.
Qed.

Lemma spliced_insert {A} i (x : A) l :
  (i < length l)%nat → <[i := x]> l = spliced i [x] l.
Proof.
  intros H. unfold spliced. rewrite insert_take_drop by done.
  cbn. do 3 f_equal. lia.
Qed.

Lemma spliced_nil {A} d (l : list A) : spliced d [] l = l.
Proof.
  unfold spliced. cbn. rewrite Nat.add_0_r. apply take_drop.
Qed.

Lemma values_length a : length (values a) = length (arr_cells a).
Proof. apply length_fmap. Qed.

(** The markers set after a cell is copied leave the values as they are. *)
Lemma Modify_Array_markers {E} dst i (b1 b2 : bool) s a
    (Q : unit → State → Prop) :
  arrays s !! dst = Some a → 0 ≤ i ≤ Z.of_nat (length (arr_cells a)) →
  (∀ s' a', frame dst s s' → arrays s' !! dst = Some a' →
            values a' = values a → Q tt s') →
  wpx (if b1 then SET_NEWLINE_BEFORE dst i;; SET_NEWLINE_AT_TAIL dst false
       else if b2 then SET_NEWLINE_BEFORE dst i else mret tt) s Q E.
Proof.
  intros Ha Hi HQ. destruct b1; [|destruct b2].
  - apply wpx_bind. eapply wpx_SET_NEWLINE_BEFORE_m; [exact Ha|exact Hi|].
    intros s1 a1 Hf1 Ha1 Hv1 _.
    eapply wpx_SET_NEWLINE_AT_TAIL_m; [exact Ha1|].
    intros s2 Hf2 Ha2. eapply HQ; [by eapply frame_trans|exact Ha2|].
    exact Hv1.
  - eapply wpx_SET_NEWLINE_BEFORE_m; [exact Ha|exact Hi|].
    intros s1 a1 Hf1 Ha1 Hv1 _. by eapply HQ.
  - apply wpx_ret. eapply HQ; [apply frame_refl|exact Ha|done].
Qed.

Lemma Modify_Array_dup_spec {E} dst src_rel block hn tn dup_index d s0 s a :
  frame dst s0 s → arrays s !! dst = Some a →
  src_ok dst src_rel block s →
  0 ≤ d → d + Z.of_nat (length block) ≤ Z.of_nat (length (arr_cells a)) →
  wpx (Modify_Array_dup dst src_rel (Z.of_nat (length block)) hn tn
                        dup_index d) s
    (fun r s' =>
       r = d + Z.of_nat (length block) ∧ frame dst s0 s' ∧
       src_ok dst src_rel block s' ∧
       ∃ a', arrays s' !! dst = Some a' ∧
             values a' = spliced (Z.to_nat d) (cell_value <$> block)
                                 (values a)) E.
Proof.
  intros Hf0 Ha Hok Hd Hfit. unfold Modify_Array_dup. rewrite Nat2Z.id.
  set (I := fun (j : nat) (r : Z) (s' : State) =>
    r = d + Z.of_nat j ∧ frame dst s s' ∧
    ∃ a', arrays s' !! dst = Some a' ∧
          values a' = spliced (Z.to_nat d) (cell_value <$> take j block)
                              (values a)).
  apply wpx_mono with (Q := fun r s' => I (0 + length block)%nat r s')
                      (E := E); [|unfold I|done].
  - apply (wpx_for_fold _ I).
    + unfold I. split; [lia|]. split; [apply frame_refl|].
      exists a. split; [done|]. rewrite take_0, fmap_nil.
      by rewrite spliced_nil.
    + intros j r s1 Hj (-> & Hf1 & a1 & Ha1 & Hv1).
      assert (is_Some (block !! j)) as [c Hc] by (apply lookup_lt_is_Some; lia).
      assert (length (arr_cells a1) = length (arr_cells a)) as Hlen.
      { rewrite <- !values_length, Hv1. apply spliced_length.
        rewrite values_length, length_fmap, length_take. lia. }
      apply wpx_bind. unfold Derelativize. apply wpx_bind.
      eapply wpx_src_read; [by eapply src_ok_frame|exact Hc|].
      eapply wpx_ARR_PUT_m; [exact Ha1|lia|].
      intros s2 Hf2 Ha2. apply wpx_bind.
      eapply Modify_Array_markers; [exact Ha2|cbn; rewrite length_insert; lia|].
      intros s3 a3 Hf3 Ha3 Hv3. apply wpx_ret.
      split; [lia|]. split; [eauto using frame_trans|].
      exists a3. split; [done|]. rewrite Hv3. unfold values at 1.
      cbn [arr_cells]. rewrite list_fmap_insert. fold (values a1).
      rewrite Hv1.
      rewrite spliced_insert
        by (rewrite spliced_length;
            rewrite ?values_length, ?length_fmap, ?length_take; lia).
      rewrite (take_S_r _ _ _ Hc), fmap_app. cbn [fmap list_fmap].
      replace (Z.to_nat (d + Z.of_nat j))
        with (Z.to_nat d + length (cell_value <$> take j block))%nat
        by (rewrite length_fmap, length_take; lia).
      apply spliced_spliced.
      rewrite values_length, length_fmap, length_take. cbn. lia.
  - intros r s' (-> & Hf & a' & Ha' & Hv). cbn [Nat.add] in *.
    rewrite firstn_all in Hv.
    split; [done|]. split; [eauto using frame_trans|].
    split; [by eapply src_ok_frame|]. by exists a'.
Qed.

Lemma Modify_Array_dups_spec {E} dst src_rel block hn tn dups d s a :
  arrays s !! dst = Some a → src_ok dst src_rel block s →
  0 ≤ d →
  d + Z.of_nat dups * Z.of_nat (length block)
    ≤ Z.of_nat (length (arr_cells a)) →
  wpx (for_fold 0 dups
         (Modify_Array_dup dst src_rel (Z.of_nat (length block)) hn tn) d) s
    (fun r s' =>
       r = d + Z.of_nat dups * Z.of_nat (length block) ∧ frame dst s s' ∧
       ∃ a', arrays s' !! dst = Some a' ∧
             values a' = spliced (Z.to_nat d)
                           (concat (replicate dups (cell_value <$> block)))
                           (values a)) E.
Proof.
  intros Ha Hok Hd Hfit.
  set (I := fun (k : nat) (r : Z) (s' : State) =>
    r = d + Z.of_nat k * Z.of_nat (length block) ∧ frame dst s s' ∧
    ∃ a', arrays s' !! dst = Some a' ∧
          values a' = spliced (Z.to_nat d)
                        (concat (replicate k (cell_value <$> block)))
                        (values a)).
  assert (∀ k, length (concat (replicate k (cell_value <$> block)))
               = (k * length block)%nat) as Hcat.
  { induction k as [|k IH]; [done|].
    cbn [replicate concat]. rewrite length_app, IH, length_fmap. lia. }
  apply wpx_mono with (Q := fun r s' => I (0 + dups)%nat r s') (E := E);
    [|unfold I; cbn [Nat.add]; done|done].
  apply (wpx_for_fold _ I).
  - unfold I. split; [lia|]. split; [apply frame_refl|].
    exists a. split; [done|]. cbn [replicate concat]. by rewrite spliced_nil.
  - intros k r s1 Hk (-> & Hf1 & a1 & Ha1 & Hv1).
    assert (length (arr_cells a1) = length (arr_cells a)) as Hlen.
    { rewrite <- !values_length, Hv1. apply spliced_length.
      rewrite values_length, Hcat. nia. }
    eapply wpx_mono;
      [eapply (Modify_Array_dup_spec dst src_rel block hn tn k _ s s1 a1);
         [exact Hf1|exact Ha1|by eapply src_ok_frame|nia|nia]
      | |done].
    cbv beta. intros r s2 (-> & Hf2 & _ & a2 & Ha2 & Hv2).
    split; [lia|]. split; [exact Hf2|].
    exists a2. split; [done|]. rewrite Hv2, Hv1.
    replace (Z.to_nat (d + Z.of_nat k * Z.of_nat (length block)))
      with (Z.to_nat d
            + length (concat (replicate k (cell_value <$> block))))%nat
      by (rewrite Hcat; nia).
    rewrite spliced_spliced
      by (rewrite values_length, Hcat, length_fmap; nia).
    f_equal. clear. induction k as [|k IH]; cbn [replicate concat].
    + by rewrite app_nil_r.
    + by rewrite <- app_assoc, IH.
Qed.

(** What follows the loops: the marker after the last duplicate, and the
    one /LINE puts on the head. *)
Lemma Modify_Array_finish {E} dst (tn line : bool) dst_idx (tail : Z) s a :
  arrays s !! dst = Some a →
  0 ≤ dst_idx ≤ Z.of_nat (length (arr_cells a)) →
  wpx ((if tn then
          len ← ARR_LEN dst;
          if Z.eqb dst_idx len then SET_NEWLINE_AT_TAIL dst true
          else SET_NEWLINE_BEFORE dst dst_idx
        else mret tt);;
       (if line then SET_NEWLINE_BEFORE dst 0 else mret tt);;
       mret tail) s
    (fun r s' =>
       r = tail ∧ frame dst s s' ∧
       ∃ a', arrays s' !! dst = Some a' ∧ values a' = values a ∧
             (line = true → head_marked a')) E.
Proof.
  intros Ha Hi. apply wpx_bind.
  assert (wpx (if tn then
                 len ← ARR_LEN dst;
                 if Z.eqb dst_idx len then SET_NEWLINE_AT_TAIL dst true
                 else SET_NEWLINE_BEFORE dst dst_idx
               else mret tt) s
            (fun _ s1 => frame dst s s1 ∧
               ∃ a1, arrays s1 !! dst = Some a1 ∧ values a1 = values a) E)
    as H1.
  { destruct tn.
    - apply wpx_bind. eapply wpx_ARR_LEN_m; [exact Ha|].
      destruct (Z.eqb dst_idx (Z.of_nat (length (arr_cells a)))).
      + eapply wpx_SET_NEWLINE_AT_TAIL_m; [exact Ha|].
        intros s1 Hf1 Ha1. split; [done|]. by eexists.
      + eapply wpx_SET_NEWLINE_BEFORE_m; [exact Ha|exact Hi|].
        intros s1 a1 Hf1 Ha1 Hv1 _. split; [done|]. by eexists.
    - apply wpx_ret. split; [apply frame_refl|]. by eexists. }
  eapply wpx_mono; [exact H1| |done]. cbv beta.
  intros _ s1 (Hf1 & a1 & Ha1 & Hv1). apply wpx_bind. destruct line.
  - eapply wpx_SET_NEWLINE_BEFORE_m; [exact Ha1|lia|].
    intros s2 a2 Hf2 Ha2 Hv2 Hm. apply wpx_ret.
    split; [done|]. split; [eauto using frame_trans|].
    exists a2. split; [done|]. split; [congruence|]. intros _. exact Hm.
  - apply wpx_ret. apply wpx_ret.
    split; [done|]. split; [done|]. exists a1. by repeat split.
Qed.

Lemma s32_small x : - 2 ^ 31 ≤ x < 2 ^ 31 → s32 x = x.
Proof. intros H. unfold s32. rewrite Z.mod_small; lia. Qed.

Lemma u32_small x : 0 ≤ x < 2 ^ 32 → u32 x = x.
Proof. intros H. unfold u32. by rewrite Z.mod_small. Qed.

Lemma source_cells_splice sym flags src_val dst_len s block :
  source_cells sym flags src_val dst_len s = Some block →
  flag_set flags AM_SPLICE = true →
  ∃ k arr index sa,
    VAL_UNESCAPED (cell_value src_val) = AnyArray k arr index ∧
    arrays s !! arr = Some sa ∧
    0 ≤ index ≤ Z.of_nat (length (arr_cells sa)) ∧
    take (length block) (drop (Z.to_nat index) (arr_cells sa)) = block ∧
    (Z.to_nat index + length block ≤ length (arr_cells sa))%nat ∧
    (if negb (is_change sym) && flag_set flags AM_PART then dst_len
     else if Z.leb (Z.of_nat (length (arr_cells sa))) index then 0
          else Z.of_nat (length (arr_cells sa)) - index)
      = Z.of_nat (length block).
Proof.
  unfold source_cells. intros H Hsp. rewrite Hsp in H.
  destruct (VAL_UNESCAPED (cell_value src_val)) as [| | | | | |k arr index| |];
    try done.
  destruct (arrays s !! arr) as [sa|] eqn:Hsa; [|done]. cbn in H.
  destruct (Z.ltb_spec index 0); [done|].
  destruct (Z.ltb_spec (Z.of_nat (length (arr_cells sa))) index); [done|].
  cbn [orb] in H. exists k, arr, index, sa.
  split; [done|]. split; [done|]. split; [lia|].
  destruct (negb (is_change sym) && flag_set flags AM_PART).
  - destruct (Z.leb_spec 0 dst_len); [|done].
    destruct (Z.leb_spec dst_len
                (Z.of_nat (length (drop (Z.to_nat index) (arr_cells sa)))));
      [|done].
    cbn [andb] in H. injection H as <-.
    rewrite length_drop in *. rewrite length_take, length_drop.
    split; [|lia].
    rewrite Nat.min_l by lia. done.
  - injection H as <-. rewrite length_drop.
    split; [by rewrite <- (length_drop _ (Z.to_nat index)), firstn_all|].
    split; [lia|].
    destruct (Z.leb_spec (Z.of_nat (length (arr_cells sa))) index); lia.
Qed.

(** Modify_Array_source finds the cells [source_cells] tells, leaves the
    destination as it is, and reads from an array that is not the
    destination. *)
Lemma Modify_Array_source_spec {E} sym dst src_val flags dst_len s a block :
  arrays s !! dst = Some a → arrays s !! next s = None →
  source_cells sym flags src_val dst_len s = Some block →
  wpx (Modify_Array_source sym dst src_val flags dst_len) s
    (fun r s' =>
       ∃ tn src_rel,
         r = (Z.of_nat (length block), tn, src_rel) ∧
         (flag_set flags AM_LINE = true → tn = true) ∧
         arrays s' !! dst = Some a ∧ src_ok dst src_rel block s') E.
Proof.
  intros Ha Hfresh Hsrc. unfold Modify_Array_source.
  destruct (flag_set flags AM_SPLICE) eqn:Hsp.
  - destruct (source_cells_splice _ _ _ _ _ _ Hsrc Hsp)
      as (k & arr & index & sa & -> & Hsa & Hidx & Hb & Hfit & Hilen).
    apply wpx_bind. eapply wpx_ARR_m; [exact Hsa|].
    cbv zeta. rewrite Hilen.
    apply wpx_bind.
    apply wpx_mono
      with (Q := fun tn s' => s' = s ∧
                              (flag_set flags AM_LINE = true → tn = true))
           (E := E); [| |done].
    { destruct (flag_set flags AM_LINE); [by apply wpx_ret|].
      apply wpx_bind. eapply wpx_ARR_AT_m; [exact Hsa|lia|].
      by destruct (arr_cells sa !! _); apply wpx_ret. }
    cbv beta. intros tn s' [-> Htn]. apply wpx_bind.
    destruct (Pos.eqb_spec dst arr) as [<-|Hne].
    + assert (sa = a) as -> by congruence.
      apply wpx_bind. unfold Copy_Array_At_Extra_Shallow.
      apply wpx_bind. eapply wpx_ARR_m; [exact Ha|].
      destruct (Z.ltb_spec index 0); [lia|].
      unfold ARR_alloc, wpx. cbn.
      assert (next s ≠ dst) by congruence.
      exists tn, (SrcAt (next s) 0). split; [done|]. split; [done|].
      split; [by rewrite lookup_insert_ne|].
      split; [done|]. split; [done|].
      eexists. split; [cbn [arrays]; by rewrite lookup_insert_eq|].
      cbn [arr_cells Z.to_nat drop Nat.add].
      rewrite length_drop. split; [done|lia].
    + apply wpx_ret. apply wpx_ret.
      exists tn, (SrcAt arr index). split; [done|]. split; [done|].
      split; [done|]. split; [done|]. split; [lia|].
      exists sa. done.
  - unfold source_cells in Hsrc. rewrite Hsp in Hsrc. injection Hsrc as <-.
    apply wpx_ret. exists (flag_set flags AM_LINE), (SrcVal src_val).
    done.
Qed.

(** Modify_Array_resize leaves room for [size] cells at [dst_idx]; for an
    insert or append the room is a gap opened there. *)
Lemma Modify_Array_resize_spec {E} sym dst dst_idx flags dst_len size s a :
  arrays s !! dst = Some a →
  0 ≤ dst_idx ≤ Z.of_nat (length (arr_cells a)) → 0 ≤ size →
  size + dst_idx < 2 ^ 32 →
  (is_change sym = true →
   dst_len ≤ Z.of_nat (length (arr_cells a)) - dst_idx) →
  wpx (Modify_Array_resize sym dst dst_idx flags dst_len size
         (Z.of_nat (length (arr_cells a)))) s
    (fun _ s' =>
       frame dst s s' ∧
       ∃ a', arrays s' !! dst = Some a' ∧
             dst_idx + size ≤ Z.of_nat (length (arr_cells a')) ∧
             (is_change sym = false →
              arr_cells a'
                = expand Trash_cell dst_idx size (arr_cells a))) E.
Proof.
  intros Ha Hidx Hsize Hfit Hchg. unfold Modify_Array_resize.
  assert (∀ index delta,
    0 ≤ delta → 0 ≤ index ≤ Z.of_nat (length (arr_cells a)) →
    dst_idx + size ≤ Z.of_nat (length (arr_cells a)) + delta →
    (is_change sym = false → index = dst_idx ∧ delta = size) →
    wpx (Expand_Array dst index delta) s
      (fun _ s' =>
         frame dst s s' ∧
         ∃ a', arrays s' !! dst = Some a' ∧
               dst_idx + size ≤ Z.of_nat (length (arr_cells a')) ∧
               (is_change sym = false →
                arr_cells a'
                  = expand Trash_cell dst_idx size (arr_cells a))) E)
    as Hexp.
  { intros index delta Hd Hi Hroom Hins. unfold Expand_Array.
    apply wpx_bind. eapply wpx_ARR_m; [exact Ha|].
    destruct (Z.ltb_spec delta 0); [lia|].
    destruct (Z.ltb_spec index 0); [lia|].
    destruct (Z.ltb_spec (Z.of_nat (length (arr_cells a))) index); [lia|].
    cbn [orb]. apply wpx_ARR_store_m. intros s' Hf Hs'.
    split; [done|]. eexists. split; [exact Hs'|]. cbn [arr_cells].
    split.
    - unfold expand.
      rewrite !length_app, length_take, length_replicate, length_drop. lia.
    - intros Hc. by destruct (Hins Hc) as [-> ->]. }
  destruct (is_change sym) eqn:Hsym; cbn [negb].
  - specialize (Hchg eq_refl).
    destruct (Z.ltb_spec dst_len size).
    { apply Hexp; [lia|lia|lia|done]. }
    destruct (Z.ltb_spec size dst_len); cbn [andb].
    + destruct (flag_set flags AM_PART).
      * unfold Remove_Array_Units.
        apply wpx_bind. eapply wpx_ARR_m; [exact Ha|].
        destruct (Z.ltb_spec (dst_len - size) 0); [lia|].
        destruct (Z.ltb_spec dst_idx 0); [lia|].
        cbn [orb]. apply wpx_ARR_store_m. intros s' Hf Hs'.
        split; [done|]. eexists. split; [exact Hs'|]. cbn [arr_cells].
        split; [|done]. unfold remove.
        rewrite length_app, length_take, length_drop. lia.
      * rewrite u32_small by lia.
        destruct (Z.ltb_spec (Z.of_nat (length (arr_cells a)))
                             (size + dst_idx)).
        -- apply wpx_bind. eapply wpx_ARR_LEN_m; [exact Ha|].
           rewrite u32_small by lia. apply Hexp; [lia|lia|lia|done].
        -- apply wpx_ret. split; [apply frame_refl|].
           exists a. split; [done|]. split; [lia|done].
    + rewrite u32_small by lia.
      destruct (Z.ltb_spec (Z.of_nat (length (arr_cells a)))
                           (size + dst_idx)).
      * apply wpx_bind. eapply wpx_ARR_LEN_m; [exact Ha|].
        rewrite u32_small by lia. apply Hexp; [lia|lia|lia|done].
      * apply wpx_ret. split; [apply frame_refl|].
        exists a. split; [done|]. split; [lia|done].
  - apply Hexp; [lia|lia|lia|done].
Qed.

Lemma spliced_expand {A} (fill : A) d (X L : list A) :
  (d ≤ length L)%nat →
  spliced d X (expand fill (Z.of_nat d) (Z.of_nat (length X)) L)
    = take d L ++ X ++ drop d L.
Proof.
  intros H. unfold spliced, expand. rewrite !Nat2Z.id.
  rewrite take_app_length' by (rewrite length_take; lia).
  rewrite (app_assoc (take d L) (replicate _ _)).
  rewrite drop_app_length'
    by (rewrite length_app, length_take, length_replicate; lia).
  done.
Qed.

Lemma concat_replicate_length {A} n (l : list A) :
  length (concat (replicate n l)) = (n * length l)%nat.
Proof.
  induction n as [|n IH]; [done|].
  cbn [replicate concat]. rewrite length_app, IH. lia.
Qed.

(** A call that has something to write: it returns, and the destination
    then holds, for an insert or append, the duplicates between what was
    before the target index and what was after it. *)
Lemma Modify_Array_run EMPTY_BLOCK sym dst dst_idx src_val flags dst_len
    dups s a block :
  arrays s !! dst = Some a → arrays s !! next s = None →
  IS_NULLED (cell_value src_val) = false → 0 < dups → 0 ≤ dst_idx →
  source_cells sym flags src_val dst_len s = Some block →
  dups * Z.of_nat (length block) < 2 ^ 31 →
  target_index sym a dst_idx + dups * Z.of_nat (length block) < 2 ^ 32 →
  (is_change sym = true →
   dst_len ≤ Z.of_nat (length (arr_cells a)) - target_index sym a dst_idx) →
  wpx (Modify_Array EMPTY_BLOCK sym dst dst_idx src_val flags dst_len dups) s
    (fun r s' =>
       r = (if is_append sym then 0
            else target_index sym a dst_idx
                 + dups * Z.of_nat (length block)) ∧
       ∃ a', arrays s' !! dst = Some a' ∧
             (flag_set flags AM_LINE = true → head_marked a') ∧
             (is_change sym = false →
              values a'
                = take (Z.to_nat (target_index sym a dst_idx)) (values a)
                  ++ concat (replicate (Z.to_nat dups) (cell_value <$> block))
                  ++ drop (Z.to_nat (target_index sym a dst_idx)) (values a)))
    no_fail.
Proof.
  intros Ha Hfresh Hnull Hdups Hidx Hsrc Hsize Hfit Hchg.
  assert (0 ≤ target_index sym a dst_idx ≤ Z.of_nat (length (arr_cells a)))
    as Hti.
  { unfold target_index. cbv zeta.
    destruct (is_append sym); cbn [orb]; [lia|].
    destruct (Z.ltb_spec (Z.of_nat (length (arr_cells a))) dst_idx); lia. }
  unfold Modify_Array.
  apply wpx_bind. eapply wpx_ARR_LEN_m; [exact Ha|].
  rewrite Hnull. cbn [andb orb]. cbv beta iota.
  rewrite Hnull. cbn [orb].
  destruct (Z.leb_spec dups 0); [lia|].
  change (if is_append sym
             || Z.ltb (Z.of_nat (length (arr_cells a))) dst_idx
          then Z.of_nat (length (arr_cells a)) else dst_idx)
    with (target_index sym a dst_idx).
  cbv zeta. set (idx := target_index sym a dst_idx) in *.
  apply wpx_bind.
  eapply wpx_mono;
    [eapply Modify_Array_source_spec; [exact Ha|exact Hfresh|exact Hsrc]
    | |done].
  cbv beta. intros r s1 (tn & src_rel & -> & Htn & Ha1 & Hok).
  cbv beta iota. rewrite s32_small by lia.
  apply wpx_bind. eapply wpx_ARR_LEN_m; [exact Ha1|].
  apply wpx_bind. eapply wpx_ARR_m; [exact Ha1|].
  apply wpx_bind.
  eapply wpx_mono;
    [eapply Modify_Array_resize_spec; [exact Ha1|lia|lia|lia|exact Hchg]
    | |done].
  cbv beta. intros _ s2 (Hf2 & a2 & Ha2 & Hroom & Hexp).
  apply wpx_bind.
  eapply wpx_mono;
    [eapply (Modify_Array_dups_spec dst src_rel block _ _ (Z.to_nat dups)
               idx s2 a2);
       [exact Ha2|by eapply src_ok_frame|lia|lia]
    | |done].
  cbv beta. intros r s3 (-> & Hf3 & a3 & Ha3 & Hv3).
  assert (length (arr_cells a3) = length (arr_cells a2)) as Hlen3.
  { rewrite <- !values_length, Hv3. apply spliced_length.
    rewrite values_length, concat_replicate_length, length_fmap. nia. }
  eapply wpx_mono;
    [eapply Modify_Array_finish; [exact Ha3|lia]| |done].
  cbv beta. intros r s4 (-> & Hf4 & a4 & Ha4 & Hv4 & Hm).
  split; [rewrite u32_small by lia; destruct (is_append sym); lia|].
  exists a4. split; [done|]. split; [done|].
  intros Hc. rewrite Hv4, Hv3. unfold values at 1. rewrite (Hexp Hc).
  unfold expand. rewrite !fmap_app, fmap_take, fmap_replicate, fmap_drop.
  fold (values a).
  pose proof (spliced_expand (cell_value Trash_cell) (Z.to_nat idx)
                (concat (replicate (Z.to_nat dups) (cell_value <$> block)))
                (values a)) as Hse.
  unfold expand in Hse.
  rewrite concat_replicate_length, length_fmap in Hse.
  rewrite !Nat2Z.id in Hse.
  replace (Z.to_nat (dups * Z.of_nat (length block)))
    with (Z.to_nat dups * length block)%nat by nia.
  apply Hse. rewrite values_length. lia.
Qed.

(** *** Splicing an array into itself *)

(** C4.  Inserting into an array, at [idx], [dups] times what the array
    itself holds from [index] on leaves what was before [idx], then the
    [dups] duplicates of the cells as they were on entry, then what was at
    [idx] and after: the cells are read from the copy made before the loop,
    not from the array being shifted.  The call returns the index after the
    insertion. *)
Theorem Modify_Array_self_splice EMPTY_BLOCK k nl dst idx index dups s a :
  arrays s !! dst = Some a → arrays s !! next s = None →
  0 ≤ idx ≤ Z.of_nat (length (arr_cells a)) →
  0 ≤ index ≤ Z.of_nat (length (arr_cells a)) →
  0 < dups →
  idx + dups * (Z.of_nat (length (arr_cells a)) - index) < 2 ^ 31 →
  ∃ s' a',
    Modify_Array EMPTY_BLOCK SYM_INSERT dst idx
        (mkCell (AnyArray k dst index) nl) AM_SPLICE 0 dups s
      = Done (idx + dups * (Z.of_nat (length (arr_cells a)) - index)) s' ∧
    arrays s' !! dst = Some a' ∧
    values a'
      = take (Z.to_nat idx) (values a)
        ++ concat (replicate (Z.to_nat dups)
                             (drop (Z.to_nat index) (values a)))
        ++ drop (Z.to_nat idx) (values a).
Proof.
  intros Ha Hfresh Hidx Hindex Hdups Hfit.
  assert (source_cells SYM_INSERT AM_SPLICE (mkCell (AnyArray k dst index) nl)
            0 s = Some (drop (Z.to_nat index) (arr_cells a))) as Hsrc.
  { unfold source_cells. cbn. rewrite Ha. cbn.
    destruct (Z.ltb_spec index 0); [lia|].
    by destruct (Z.ltb_spec (Z.of_nat (length (arr_cells a))) index); [lia|]. }
  assert (target_index SYM_INSERT a idx = idx) as Hti.
  { unfold target_index. cbn.
    by destruct (Z.ltb_spec (Z.of_nat (length (arr_cells a))) idx); [lia|]. }
  assert (Z.of_nat (length (drop (Z.to_nat index) (arr_cells a)))
          = Z.of_nat (length (arr_cells a)) - index) as Hlen
    by (rewrite length_drop; lia).
  pose proof (Modify_Array_run EMPTY_BLOCK SYM_INSERT dst idx
                (mkCell (AnyArray k dst index) nl) AM_SPLICE 0 dups s a _
                Ha Hfresh eq_refl Hdups (proj1 Hidx) Hsrc) as Hrun.
  rewrite Hti, Hlen in Hrun.
  apply wpx_done in Hrun as (r & s' & Hcall & -> & a' & Ha' & _ & Hv);
    [|nia|nia|done].
  exists s', a'. split; [exact Hcall|]. split; [exact Ha'|].
  rewrite (Hv eq_refl). unfold values. by rewrite fmap_drop.
Qed.

Lemma Modify_Array_self_splice_witness :
  ∃ s' a',
    Modify_Array' SYM_INSERT 5%positive 1
        (mkCell (AnyArray REB_BLOCK 5 0) false) AM_SPLICE 0 2 st_block
      = Done 7 s' ∧
    arrays s' !! 5%positive = Some a' ∧
    values a' = Integer <$> [10; 10; 20; 30; 10; 20; 30; 20; 30].
Proof.
  apply (Modify_Array_self_splice EMPTY_BLOCK REB_BLOCK false 5%positive 1
           0 2 st_block
           (mkArr [int_cell 10; int_cell 20; int_cell 30] false)).
  - reflexivity.
  - reflexivity.
  - cbn; lia.
  - cbn; lia.
  - lia.
  - cbn; lia.
Defined.

(** With a dup count of 2 the block [10 20 30] inserted into itself at
    index 1 comes to nine cells, both duplicates between the 10 and the
    [20 30] that followed it; the six cells [10 10 20 30 20 30] are what a
    dup count of 1 gives, and no index of the source value gives them with
    a dup count of 2. *)
Lemma Modify_Array_two_dups_of_itself :
  values_after
      (Modify_Array' SYM_INSERT 5%positive 1
         (mkCell (AnyArray REB_BLOCK 5 0) false) AM_SPLICE 0 2 st_block)
      5%positive
    = Some (Integer <$> [10; 10; 20; 30; 10; 20; 30; 20; 30]) ∧
  Forall (fun index =>
            values_after
                (Modify_Array' SYM_INSERT 5%positive 1
                   (mkCell (AnyArray REB_BLOCK 5 index) false) AM_SPLICE 0 2
                   st_block)
                5%positive
              ≠ Some (Integer <$> [10; 10; 20; 30; 20; 30]))
         [0; 1; 2; 3] ∧
  values_after
      (Modify_Array' SYM_INSERT 5%positive 1
         (mkCell (AnyArray REB_BLOCK 5 0) false) AM_SPLICE 0 1 st_block)
      5%positive
    = Some (Integer <$> [10; 10; 20; 30; 20; 30]).
Proof.
  split; [reflexivity|]. split; [|reflexivity].
  repeat constructor; discriminate.
Qed.

(** *** The head of the array under /LINE *)

(** C10.  A call with AM_LINE, a source that is not null and a positive dup
    count returns, and whatever cell is then at the head of the destination
    carries the newline marker, wherever the cells were written.  (The
    request is well formed: [source_cells] tells what a duplicate is, the
    sizes fit 32 bits, and the part a CHANGE replaces lies in the array.) *)
Theorem Modify_Array_line_marks_head EMPTY_BLOCK sym dst dst_idx src_val
    flags dst_len dups s a block :
  arrays s !! dst = Some a → arrays s !! next s = None →
  flag_set flags AM_LINE = true →
  IS_NULLED (cell_value src_val) = false → 0 < dups → 0 ≤ dst_idx →
  source_cells sym flags src_val dst_len s = Some block →
  dups * Z.of_nat (length block) < 2 ^ 31 →
  target_index sym a dst_idx + dups * Z.of_nat (length block) < 2 ^ 32 →
  (is_change sym = true →
   dst_len ≤ Z.of_nat (length (arr_cells a)) - target_index sym a dst_idx) →
  ∃ r s' a',
    Modify_Array EMPTY_BLOCK sym dst dst_idx src_val flags dst_len dups s
      = Done r s' ∧
    arrays s' !! dst = Some a' ∧ head_marked a' ∧
    (is_change sym = false →
     length (arr_cells a')
       = (length (arr_cells a) + Z.to_nat dups * length block)%nat).
Proof.
  intros Ha Hfresh Hline Hnull Hdups Hidx Hsrc Hsize Hfit Hchg.
  assert (0 ≤ target_index sym a dst_idx ≤ Z.of_nat (length (arr_cells a)))
    as Hti.
  { unfold target_index. cbv zeta.
    destruct (is_append sym); cbn [orb]; [lia|].
    destruct (Z.ltb_spec (Z.of_nat (length (arr_cells a))) dst_idx); lia. }
  destruct (wpx_done _ _ _
              (Modify_Array_run EMPTY_BLOCK sym dst dst_idx src_val flags
                 dst_len dups s a block Ha Hfresh Hnull Hdups Hidx Hsrc
                 Hsize Hfit Hchg))
    as (r & s' & Hcall & _ & a' & Ha' & Hm & Hv).
  exists r, s', a'. split; [exact Hcall|]. split; [exact Ha'|].
  split; [exact (Hm Hline)|].
  intros Hc. rewrite <- !values_length, (Hv Hc).
  rewrite !length_app, length_take, length_drop, concat_replicate_length,
    length_fmap, values_length.
  lia.
Qed.

Lemma Modify_Array_line_marks_head_witness :
  ∃ r s' a',
    Modify_Array' SYM_APPEND 5%positive 0 (int_cell 40) AM_LINE 0 1 st_block
      = Done r s' ∧
    arrays s' !! 5%positive = Some a' ∧ head_marked a' ∧
    (is_change SYM_APPEND = false →
     length (arr_cells a') = (3 + Z.to_nat 1 * 1)%nat).
Proof.
  apply (Modify_Array_line_marks_head EMPTY_BLOCK SYM_APPEND 5%positive 0
           (int_cell 40) AM_LINE 0 1 st_block
           (mkArr [int_cell 10; int_cell 20; int_cell 30] false)
           [int_cell 40]).
  - reflexivity.
  - reflexivity.
  - reflexivity.
  - reflexivity.
  - lia.
  - lia.
  - reflexivity.
  - cbn; lia.
  - cbn; lia.
  - discriminate.
Defined.

(** *** Requests for no action *)

Ltac wp_post Q :=
  lazymatch goal with
  | |- wpx ?m ?s ?Q' ?E =>
      apply (wpx_mono m s Q Q' E E);
        [| |let H := fresh in intros ? ? H; exact H]
  end.

Lemma wpx_returns {A} (m : M A) s r :
  wpx m s (fun a s' => a = r ∧ s' = s) no_fail → m s = Done r s.
Proof. intros H. apply wpx_done in H as (a & s' & -> & -> & ->). done. Qed.

Lemma wpx_BIN {E} p v s (Q : REBSER → State → Prop) :
  series s !! p = Some v → Q v s → wpx (BIN p) s Q E.
Proof. intros H HQ. unfold wpx, BIN. rewrite H. exact HQ. Qed.

Lemma wpx_get_m {E} s (Q : State → State → Prop) :
  Q s s → wpx ((fun s => Done s s) : M State) s Q E.
Proof. auto. Qed.

(** C7.  With a null source to insert or append, or a dup count that is not
    positive, Modify_Array changes nothing and returns 0 for an append and
    the index it was given otherwise.  So does Modify_String_Or_Binary
    (called, for a /PART insertion of a source that is not null, with a part
    that is not negative) on a destination whose index lies within its
    series and that passes the two checks made up front; on a destination
    that fails one of the two, a series that is read-only or a BINARY! that
    stands inside a codepoint of a series flagged as string, it fails
    instead, and changes nothing either. *)
Theorem no_action_returns_natural_index
    EMPTY_BLOCK EMPTY_TEXT Mold_Or_Form_Value Form_Value
    Join_Binary_In_Byte_Buf sizeof_REBVAL memory_past memory_gap
    sym dst_arr dst_idx dst src flags dst_len part dups s a :
  arrays s !! dst_arr = Some a →
  (IS_NULLED (cell_value src) = true ∧ sym ≠ SYM_CHANGE) ∨ dups ≤ 0 →
  (IS_NULLED (cell_value src) = false → sym ≠ SYM_CHANGE →
   flag_set flags AM_PART = true → 0 ≤ part) →
  let call :=
    Modify_String_Or_Binary EMPTY_TEXT Mold_Or_Form_Value Form_Value
      Join_Binary_In_Byte_Buf sizeof_REBVAL memory_past memory_gap
      dst sym (cell_value src) flags part dups s in
  Modify_Array EMPTY_BLOCK sym dst_arr dst_idx src flags dst_len dups s
    = Done (if is_append sym then 0 else dst_idx) s ∧
  (dst_ready dst s →
   call = Done (if is_append sym then 0 else dst_index dst) s) ∧
  (dst_read_only dst s → call = Failed Error_Series_Read_Only s) ∧
  (dst_in_codepoint dst s → call = Failed Error_Index_Codepoint_Modify s).
Proof.
  intros Ha Hno Hpart call. split; [|split; [|split]].
  - apply wpx_returns. unfold Modify_Array.
    apply wpx_bind. eapply wpx_ARR_LEN_m; [exact Ha|].
    destruct Hno as [[Hnull Hsym]|Hdups].
    + rewrite Hnull. destruct sym; [| |congruence]; cbn; rewrite Hnull; done.
    + destruct (Z.leb_spec dups 0); [|lia].
      destruct (IS_NULLED (cell_value src) && is_change sym); cbv beta iota;
        rewrite orb_true_r; by apply wpx_ret.
  - intros Hdst. unfold call. apply wpx_returns. unfold Modify_String_Or_Binary.
    apply wpx_bind.
    wp_post (fun p s' =>
               s' = s ∧
               match dst with
               | Binary q _ | AnyString _ q _ => q = p
               | _ => False
               end ∧
               ∃ ds, series s !! p = Some ds ∧ dst_ready dst s).
    { destruct dst; try done; pose proof Hdst as (ds & Hds & Hro & Hrest);
        cbn [VAL_SERIES]; apply wpx_ret;
        exact (conj eq_refl (conj eq_refl (ex_intro _ ds (conj Hds Hdst)))). }
    cbv beta. intros p s' (-> & Hp & ds & Hds & _).
    apply wpx_bind. eapply wpx_BIN; [exact Hds|].
    apply wpx_bind.
    assert (read_only ds = false) as ->.
    { destruct dst; try done; destruct Hdst as (ds' & Hds' & Hro & _);
        subst p; congruence. }
    apply wpx_ret.
    assert (VAL_INDEX dst = mret (dst_index dst)) as ->
      by (by destruct dst).
    apply wpx_bind. apply wpx_ret.
    apply wpx_bind.
    wp_post (fun (_ : Z * Z) s' => s' = s).
    { destruct dst; try done; cbn [IS_BINARY dst_index]; subst p.
      - destruct Hdst as (ds' & Hds' & _ & Hb).
        assert (ds' = ds) as -> by congruence.
        apply wpx_bind. destruct (IS_SER_STRING ds); [|by apply wpx_ret].
        destruct (Hb eq_refl) as [Hi Hlt].
        apply wpx_bind. unfold BIN_AT_byte.
        destruct (Z.ltb_spec index 0); [lia|].
        destruct (ser_bytes ds !! Z.to_nat index) as [b|] eqn:Hbyte.
        + apply wpx_ret. specialize (Hlt b eq_refl).
          destruct (Z.leb_spec 128 b); [lia|]. by apply wpx_ret.
        + apply lookup_ge_None in Hbyte.
          destruct (Z.eqb_spec index (Z.of_nat (length (ser_bytes ds))));
            [|lia].
          by apply wpx_ret.
      - destruct Hdst as (ds' & Hds' & _ & Hstr & Hi & [off Hoff]).
        assert (ds' = ds) as -> by congruence.
        apply wpx_bind. wp_assert.
        apply wpx_bind. wp_assert.
        apply wpx_bind. unfold VAL_OFFSET_FOR_INDEX.
        destruct (Z.ltb_spec index 0); [lia|]. rewrite Hoff.
        apply wpx_ret. by apply wpx_ret. }
    cbv beta. intros [tail dst_off] s' ->.
    destruct Hno as [[Hnull Hsym]|Hdups].
    + rewrite Hnull. destruct sym; [| |congruence]; by apply wpx_ret.
    + destruct (IS_NULLED (cell_value src)) eqn:Hnull; cbn [andb].
      * destruct sym; cbn [is_append is_insert is_change];
          try (by apply wpx_ret).
        cbn [negb andb]. apply wpx_bind. apply wpx_ret.
        destruct (Z.leb_spec dups 0); [|lia]. cbn [Z.eqb orb].
        by apply wpx_ret.
      * apply wpx_bind.
        destruct (negb (is_change sym) && flag_set flags AM_PART) eqn:Hfl.
        -- apply andb_prop in Hfl as [Hc Hfl].
           apply wpx_bind. apply wpx_assert.
           { apply Z.leb_le. apply Hpart; [done| |done].
             by destruct sym. }
           apply wpx_ret.
           destruct (Z.leb_spec dups 0); [|lia]. rewrite orb_true_r.
           by apply wpx_ret.
        -- apply wpx_ret.
           destruct (Z.leb_spec dups 0); [|lia]. rewrite orb_true_r.
           by apply wpx_ret.
  - intros Hro. unfold call, Modify_String_Or_Binary, mbind, Mon_bind.
    destruct dst; try done; destruct Hro as (ds & Hds & Hro);
      cbn [VAL_SERIES]; unfold BIN, mret, Mon_ret; cbn;
      by rewrite Hds, Hro.
  - intros Hcp. unfold call, Modify_String_Or_Binary, mbind, Mon_bind.
    destruct dst; try done.
    destruct Hcp as (ds & b & Hds & Hro & Hstr & Hi & Hb & Hge).
    cbn [VAL_SERIES VAL_INDEX IS_BINARY]. unfold BIN, mret, Mon_ret. cbn.
    rewrite Hds, Hro. cbn. rewrite Hstr. unfold BIN_AT_byte.
    destruct (Z.ltb_spec index 0); [lia|]. rewrite Hb. cbn.
    by destruct (Z.leb_spec 128 b); [|lia].
Qed.

Lemma no_action_returns_natural_index_witness :
  Modify_Array' SYM_APPEND 5%positive 0 (mkCell Nulled false) 0 0 1 st_mixed
    = Done 0 st_mixed ∧
  Modify_String_Or_Binary' (AnyString REB_TEXT 7 1) SYM_APPEND Nulled 0 0 1
      st_mixed
    = Done 0 st_mixed.
Proof.
  destruct (no_action_returns_natural_index
              EMPTY_BLOCK EMPTY_TEXT mold_any form_any mold_any 32
              zero_past zero_gap
              SYM_APPEND 5%positive 0 (AnyString REB_TEXT 7 1)
              (mkCell Nulled false)
              0 0 0 1 st_mixed
              (mkArr [int_cell 10; int_cell 20; int_cell 30] false))
    as (Harr & Hstr & _).
  - reflexivity.
  - left. split; [reflexivity|discriminate].
  - discriminate.
  - split; [exact Harr|]. apply Hstr.
    eexists. split; [reflexivity|]. split; [reflexivity|].
    split; [reflexivity|]. split; [lia|]. vm_compute. eauto.
Defined.

(** A null source appended through a BINARY! that stands inside a codepoint
    of a series aliased as string: the call fails instead of returning. *)
Lemma Modify_String_Or_Binary_null_source_fails :
  IS_NULLED Nulled = true ∧
  Modify_String_Or_Binary' (Binary 7 1) SYM_APPEND Nulled 0 0 1 st_text
    = Failed Error_Index_Codepoint_Modify st_text.
Proof. split; reflexivity. Qed.

(** *** CHANGE of a text: bytes and codepoints *)

Lemma encoding_length e : encoding e → (0 < length e)%nat.
Proof. destruct e; [done|]. cbn. lia. Qed.

Lemma skip_codepoints_chain es rest :
  Forall encoding es →
  skip_codepoints (length es) (concat es ++ rest)
    = Some (Z.of_nat (length (concat es))).
Proof.
  induction 1 as [|e es He Hes IH]; [done|].
  destruct e as [|b e]; [done|]. cbn in He.
  cbn [length concat skip_codepoints app].
  rewrite <- He. cbn [drop]. rewrite <- app_assoc.
  rewrite !length_app, drop_app_length.
  destruct (Nat.leb_spec (S (length e))
              (S (length e + (length (concat es) + length rest))));
    [|lia].
  rewrite IH. cbn [mbind option_bind]. f_equal. lia.
Qed.

Lemma concat_encodings_length es :
  Forall encoding es → (length es ≤ length (concat es))%nat.
Proof.
  induction 1 as [|e es He Hes IH]; [done|].
  cbn [concat length]. rewrite length_app.
  pose proof (encoding_length e He). lia.
Qed.

Lemma wpx_text_BIN {E} p bytes len s (Q : REBSER → State → Prop) :
  text_holds p bytes len s →
  (∀ v, ser_bytes v = bytes → misc_length v = len → Q v s) →
  wpx (BIN p) s Q E.
Proof.
  intros (v & Hv & Hb & Hl) HQ. eapply wpx_BIN; [exact Hv|]. by apply HQ.
Qed.

Lemma wpx_text_modify {E} p f bytes len bytes' len' s
    (Q : unit → State → Prop) :
  text_holds p bytes len s →
  (∀ v, ser_bytes v = bytes → misc_length v = len →
        ser_bytes (f v) = bytes' ∧ misc_length (f v) = len') →
  (∀ s', text_holds p bytes' len' s' → Q tt s') →
  wpx (BIN_modify p f) s Q E.
Proof.
  intros (v & Hv & Hb & Hl) Hf HQ. unfold BIN_modify.
  apply wpx_bind. eapply wpx_BIN; [exact Hv|].
  unfold wpx, BIN_store. apply HQ. exists (f v).
  split; [cbn; by rewrite lookup_insert_eq|]. by apply Hf.
Qed.

Lemma wpx_text_Remove_Series_Units {E} p index quantity bytes len s
    (Q : unit → State → Prop) :
  text_holds p bytes len s → 0 ≤ quantity → 0 ≤ index →
  (∀ s', text_holds p (remove index quantity bytes) len s' → Q tt s') →
  wpx (Remove_Series_Units p index quantity) s Q E.
Proof.
  intros (v & Hv & Hb & Hl) Hq Hi HQ. unfold Remove_Series_Units.
  apply wpx_bind. eapply wpx_BIN; [exact Hv|].
  destruct (Z.ltb_spec quantity 0); [lia|].
  destruct (Z.ltb_spec index 0); [lia|]. cbn [orb].
  unfold wpx, BIN_store. apply HQ. eexists.
  split; [cbn; by rewrite lookup_insert_eq|]. cbn. by rewrite Hb.
Qed.

Lemma wpx_text_SET_SERIES_USED {E} p n bytes len s
    (Q : unit → State → Prop) :
  text_holds p bytes len s → n = Z.of_nat (length bytes) →
  (∀ s', text_holds p bytes len s' → Q tt s') →
  wpx (SET_SERIES_USED p n) s Q E.
Proof.
  intros (v & Hv & Hb & Hl) -> HQ. unfold SET_SERIES_USED.
  apply wpx_bind. eapply wpx_BIN; [exact Hv|].
  destruct (Z.ltb_spec (Z.of_nat (length bytes)) 0); [lia|].
  unfold wpx, BIN_store. apply HQ. eexists.
  split; [cbn; by rewrite lookup_insert_eq|]. cbn. rewrite Hb.
  split; [|done].
  rewrite Nat2Z.id, Nat.sub_diag. cbn [replicate].
  by rewrite app_nil_r, firstn_all.
Qed.

Lemma wpx_text_memcpy {E} p off src_mem n bytes len s
    (Q : unit → State → Prop) :
  text_holds p bytes len s → 0 ≤ n → 0 ≤ off →
  n ≤ Z.of_nat (length src_mem) → off + n ≤ Z.of_nat (length bytes) →
  (∀ s', text_holds p (overwrite off (take (Z.to_nat n) src_mem) bytes)
                    len s' → Q tt s') →
  wpx (memcpy p off src_mem n) s Q E.
Proof.
  intros (v & Hv & Hb & Hl) Hn Hoff Hsrc Hfit HQ. unfold memcpy.
  apply wpx_bind. eapply wpx_BIN; [exact Hv|]. rewrite Hb.
  destruct (Z.ltb_spec n 0); [lia|].
  destruct (Z.ltb_spec off 0); [lia|].
  destruct (Z.ltb_spec (Z.of_nat (length bytes)) (off + n)); [lia|].
  cbn [orb]. unfold wpx, BIN_store. apply HQ. eexists.
  split; [cbn; by rewrite lookup_insert_eq|]. done.
Qed.

(** A copy that asks for the bytes the source has reads just those. *)
Lemma wpx_src_bytes_own {E} memory_past bytes s
    (Q : list Z → State → Prop) :
  Q bytes s →
  wpx (src_bytes memory_past (PtrOwn bytes) (Z.of_nat (length bytes))) s Q E.
Proof.
  intros HQ. unfold src_bytes. apply wpx_bind, wpx_get_m.
  apply wpx_bind, wpx_ret. apply wpx_ret.
  by rewrite Nat2Z.id, Nat.sub_diag, firstn_all, app_nil_r.
Qed.

(** The bytes of [mid] taken out but one, and that one overwritten. *)
Lemma overwrite_remove (pre mid post : list Z) c :
  (0 < length mid)%nat →
  overwrite (Z.of_nat (length pre)) [c]
    (remove (Z.of_nat (length pre)) (Z.of_nat (length mid) - 1)
            (pre ++ mid ++ post))
  = pre ++ [c] ++ post.
Proof.
  intros Hm. unfold overwrite, remove. rewrite !Nat2Z.id.
  rewrite take_app_length, drop_app_ge by lia.
  rewrite take_app_length, drop_app_ge by (rewrite ?length_app; lia).
  rewrite drop_drop.
  do 2 f_equal. cbn [length].
  rewrite drop_app_ge by lia.
  replace (length pre + Z.to_nat (Z.of_nat (length mid) - 1) - length pre
           + (length pre + 1 - length pre) - length mid)%nat with 0%nat
    by lia.
  done.
Qed.

(** C8.  A CHANGE that replaces the codepoints [mid] of a text (one
    codepoint, or the /PART given) by a character encoded on the one byte
    [c] leaves the encodings before and after them around [c]: the bytes
    in use go down by the bytes of [mid] less one, the length in codepoints
    by the count of [mid] less one, and the call returns the index after
    the character. *)
Theorem Modify_String_Or_Binary_change_shrinks
    EMPTY_TEXT Mold_Or_Form_Value Form_Value Join_Binary_In_Byte_Buf
    sizeof_REBVAL memory_past memory_gap k ser flags part c pre mid post s ds :
  series s !! ser = Some ds →
  IS_SER_STRING ds = true → read_only ds = false →
  Forall encoding pre → Forall encoding mid → Forall encoding post →
  ser_bytes ds = concat pre ++ concat mid ++ concat post →
  misc_length ds = Z.of_nat (length pre + length mid + length post) →
  (0 < length mid)%nat → Z.of_nat (length mid) < 2 ^ 32 →
  (if flag_set flags AM_PART then part else 1) = Z.of_nat (length mid) →
  flag_set flags AM_LINE = false →
  0 ≤ c < 128 →
  ∃ s' ds',
    Modify_String_Or_Binary EMPTY_TEXT Mold_Or_Form_Value Form_Value
        Join_Binary_In_Byte_Buf sizeof_REBVAL memory_past memory_gap
        (AnyString k ser (Z.of_nat (length pre))) SYM_CHANGE (Char [c])
        flags part 1 s
      = Done (Z.of_nat (length pre) + 1) s' ∧
    series s' !! ser = Some ds' ∧
    ser_bytes ds' = concat (pre ++ [c] :: post) ∧
    Forall encoding (pre ++ [c] :: post) ∧
    Z.of_nat (length (ser_bytes ds'))
      = Z.of_nat (length (ser_bytes ds))
        - (Z.of_nat (length (concat mid)) - 1) ∧
    misc_length ds' = misc_length ds - (Z.of_nat (length mid) - 1).
Proof.
  intros Hds Hstr Hro Hpre Hmid Hpost Hbytes Hlen Hm Hm32 Hpart Hline Hc.
  pose proof (concat_encodings_length _ Hmid) as Hmb.
  set (off := Z.of_nat (length (concat pre))).
  assert (skip_codepoints (Z.to_nat (Z.of_nat (length pre))) (ser_bytes ds)
          = Some off) as Hoff.
  { rewrite Nat2Z.id, Hbytes. by apply skip_codepoints_chain. }
  assert (skip_codepoints (length mid)
            (drop (Z.to_nat off) (ser_bytes ds))
          = Some (Z.of_nat (length (concat mid)))) as Hskip.
  { unfold off. rewrite Nat2Z.id, Hbytes, drop_app_length.
    by apply skip_codepoints_chain. }
  assert (text_holds ser (ser_bytes ds) (misc_length ds) s) as Hh
    by (by exists ds).
  cut (wpx (Modify_String_Or_Binary EMPTY_TEXT Mold_Or_Form_Value Form_Value
              Join_Binary_In_Byte_Buf sizeof_REBVAL memory_past memory_gap
              (AnyString k ser (Z.of_nat (length pre))) SYM_CHANGE (Char [c])
              flags part 1) s
         (fun r s' =>
            r = Z.of_nat (length pre) + 1 ∧
            text_holds ser (concat pre ++ [c] ++ concat post)
                       (misc_length ds + 1 - Z.of_nat (length mid)) s')
         no_fail).
  { intros H.
    apply wpx_done in H as (r & s' & Hcall & -> & ds' & Hds' & Hb' & Hl').
    exists s', ds'. split; [exact Hcall|]. split; [exact Hds'|].
    split; [by rewrite Hb', concat_app|].
    split.
    { apply Forall_app. split; [done|]. constructor; [|done].
      cbn. unfold utf8_size. by destruct (Z.ltb_spec c 192); [|lia]. }
    rewrite Hb', Hbytes, Hl', Hlen. rewrite !length_app. cbn [length].
    lia. }
  unfold Modify_String_Or_Binary. cbn [VAL_SERIES VAL_INDEX IS_BINARY].
  apply wpx_bind, wpx_ret.
  apply wpx_bind. eapply wpx_BIN; [exact Hds|].
  rewrite Hro, Hstr.
  apply wpx_bind, wpx_ret. apply wpx_bind, wpx_ret.
  apply wpx_bind. apply wpx_bind. wp_assert. apply wpx_bind. wp_assert.
  apply wpx_bind. unfold VAL_OFFSET_FOR_INDEX at 1.
  destruct (Z.ltb_spec (Z.of_nat (length pre)) 0); [lia|].
  rewrite Hoff. apply wpx_ret. apply wpx_ret. cbv beta iota.
  cbn [IS_NULLED andb is_change negb]. cbv beta iota.
  apply wpx_bind, wpx_ret. cbn [Z.eqb Z.leb Z.compare orb]. cbv beta iota.
  cbn [is_append orb].
  destruct (Z.ltb_spec (misc_length ds) (Z.of_nat (length pre))); [lia|].
  cbv beta iota.
  apply wpx_bind. unfold Modify_source. apply wpx_bind, wpx_get_m.
  rewrite Hstr. apply wpx_ret. cbv beta iota zeta. rewrite Hline.
  cbv beta iota. cbn [is_insert length].
  change (Z.of_nat 1) with 1. change (1 * 1) with 1.
  assert ((if negb (flag_set flags AM_PART) then 1 else part)
          = Z.of_nat (length mid)) as ->
    by (destruct (flag_set flags AM_PART); exact Hpart).
  assert (VAL_OFFSET_FOR_INDEX ds (Z.of_nat (length pre)) = mret off) as Hvo.
  { unfold VAL_OFFSET_FOR_INDEX.
    destruct (Z.ltb_spec (Z.of_nat (length pre)) 0); [lia|].
    by rewrite Hoff. }
  apply wpx_bind. apply wpx_bind. apply wpx_bind, wpx_ret.
  unfold VAL_SIZE_LIMIT_AT at 1. rewrite Hvo.
  apply wpx_bind, wpx_ret. cbn [Z.eqb Pos.eqb]. apply wpx_ret. cbv beta iota.
  rewrite u32_small by lia. unfold STR_LEN_AT.
  destruct (Z.leb_spec (misc_length ds) (Z.of_nat (length pre))); [lia|].
  destruct (Z.ltb_spec (misc_length ds - Z.of_nat (length pre))
                       (Z.of_nat (length mid))); [lia|].
  apply wpx_bind. apply wpx_bind, wpx_ret. apply wpx_bind.
  unfold VAL_SIZE_LIMIT_AT. rewrite Hvo. apply wpx_bind, wpx_ret.
  destruct (Z.eqb_spec (Z.of_nat (length mid)) (-1)); [lia|].
  destruct (Z.ltb_spec (Z.of_nat (length mid)) 0); [lia|].
  rewrite Nat2Z.id, Hskip. apply wpx_ret. cbv beta iota.
  apply wpx_bind. apply wpx_assert; [apply Z.eqb_refl|]. apply wpx_ret.
  cbv beta iota.
  set (B := Z.of_nat (length (concat mid))) in *.
  assert (length (remove off (B - 1) (ser_bytes ds))
          = (length (concat pre) + 1 + length (concat post))%nat) as Hrl.
  { unfold remove, off, B. rewrite Hbytes.
    rewrite length_app, length_take, length_drop, !length_app. lia. }
  apply wpx_bind.
  wp_post (fun (_ : unit) s' =>
             text_holds ser (remove off (B - 1) (ser_bytes ds))
                        (misc_length ds) s').
  { destruct (Z.ltb_spec B 1); [lia|].
    destruct (Z.ltb_spec 1 B).
    - apply wpx_bind.
      eapply wpx_text_Remove_Series_Units; [exact Hh|lia|unfold off; lia|].
      intros s1 Ht1.
      eapply wpx_text_SET_SERIES_USED; [exact Ht1| |by intros].
      rewrite Hrl, Hbytes, !length_app. lia.
    - apply wpx_ret. replace (B - 1) with 0 by lia.
      unfold remove. cbn [Z.to_nat]. by rewrite Nat.add_0_r, take_drop. }
  cbv beta. intros _ s1 Ht1. apply wpx_bind.
  wp_post (fun (_ : unit) s' =>
             text_holds ser (remove off (B - 1) (ser_bytes ds))
                        (misc_length ds) s').
  { destruct (bookmarks ds) as [[bi bo]|]; [|by apply wpx_ret].
    destruct (Z.ltb (Z.of_nat (length pre)) bi); [|by apply wpx_ret].
    eapply wpx_text_modify; [exact Ht1|by intros|by intros]. }
  cbv beta. intros _ s2 Ht2.
  eapply wpx_text_modify;
    [exact Ht2|intros v Hv _; split; [exact Hv|cbn; reflexivity]|].
  intros s3 Ht3. change (Z.to_nat 1) with 1%nat. cbn [for_fold].
  apply wpx_bind. apply wpx_bind. apply wpx_bind.
  apply (wpx_src_bytes_own memory_past [c]). apply wpx_bind.
  eapply wpx_text_memcpy;
    [exact Ht3|lia|unfold off; lia|cbn [length]; lia|rewrite Hrl; unfold off; lia|].
  intros s4 Ht4. apply wpx_ret. apply wpx_ret. apply wpx_bind.
  change (take (Z.to_nat 1) [c]) with [c] in Ht4.
  unfold off, B in Ht4. rewrite Hbytes in Ht4.
  rewrite overwrite_remove in Ht4 by lia.
  wp_post (fun (_ : unit) s' =>
             text_holds ser (concat pre ++ [c] ++ concat post)
                        (misc_length ds + 1 - Z.of_nat (length mid)) s').
  { destruct (bookmarks ds) as [?|]; [|by apply wpx_ret].
    apply wpx_bind. eapply wpx_text_BIN; [exact Ht4|]. intros v _ _.
    destruct (bookmarks v) as [[bi bo]|]; [|by apply wpx_ret].
    destruct (Z.ltb (misc_length v) bi).
    - apply wpx_bind. wp_assert.
      eapply wpx_text_modify; [exact Ht4|by intros|by intros].
    - destruct (Z.ltb (misc_length v) sizeof_REBVAL); [|by apply wpx_ret].
      eapply wpx_text_modify; [exact Ht4|by intros|by intros]. }
  cbv beta. intros _ s5 Ht5. apply wpx_ret. by split.
Qed.

Lemma Modify_String_Or_Binary_change_shrinks_witness :
  ∃ s' ds',
    Modify_String_Or_Binary' (AnyString REB_TEXT 7 0) SYM_CHANGE (Char [120])
        0 0 1 st_text
      = Done 1 s' ∧
    series s' !! 7%positive = Some ds' ∧
    ser_bytes ds' = [120; 97; 98; 99] ∧
    Forall encoding [[120]; [97]; [98]; [99]] ∧
    Z.of_nat (length (ser_bytes ds')) = 7 - (4 - 1) ∧
    misc_length ds' = 4 - (1 - 1).
Proof.
  apply (Modify_String_Or_Binary_change_shrinks
           EMPTY_TEXT mold_any form_any mold_any 32 zero_past zero_gap REB_TEXT 7%positive 0 0
           120 [] [[240; 159; 152; 128]] [[97]; [98]; [99]] st_text
           (mkBin [240; 159; 152; 128; 97; 98; 99] true 4 None false)).
  - reflexivity.
  - reflexivity.
  - reflexivity.
  - constructor.
  - repeat constructor.
  - repeat constructor.
  - reflexivity.
  - reflexivity.
  - cbn; lia.
  - cbn; lia.
  - reflexivity.
  - reflexivity.
  - lia.
Defined.

End ModifyProofs.


(** ** Part VII: more of the context routines *)

Section MoreOutcomeRules.
Context {St Err : Type}.

(** What a run keeps can be shown apart from what it does, and without
    showing again that it does not crash. *)
Lemma wpx_also {A} (m : Mon St Err A) s (Q Q' : A → St → Prop)
    (E : Err → St → Prop) :
  wpx m s Q E → wlx m s Q' (fun _ _ => True) →
  wpx m s (fun a s' => Q a s' ∧ Q' a s') E.
Proof. unfold wpx, wlx. destruct (m s); tauto. Qed.

Lemma wlx_any {A} (m : Mon St Err A) s :
  wlx m s (fun _ _ => True) (fun _ _ => True).
Proof. unfold wlx. by destruct (m s). Qed.

Lemma wlx_for_each {A} (body : A → Mon St Err unit) (I : St → Prop) E xs s :
  I s →
  (∀ x s1, x ∈ xs → I s1 → wlx (body x) s1 (fun _ s2 => I s2) E) →
  wlx (for_each body xs) s (fun _ s' => I s') E.
Proof.
  revert s. induction xs as [|x xs IH]; intros s HI Hbody; [exact HI|].
  cbn [for_each]. apply wlx_bind.
  eapply wlx_mono; [apply Hbody; [left|exact HI]| |auto].
  cbv beta. intros _ s1 H1. apply IH; [exact H1|].
  intros y s2 Hy. apply Hbody. by right.
Qed.

Lemma wpx_run {A} (m : Mon St Err A) s a s' (Q : A → St → Prop)
    (E : Err → St → Prop) :
  m s = Done a s' → Q a s' → wpx m s Q E.
Proof. intros Hrun HQ. unfold wpx. by rewrite Hrun. Qed.

Lemma wpx_ext {A} (m m' : Mon St Err A) s (Q : A → St → Prop)
    (E : Err → St → Prop) :
  m s = m' s → wpx m' s Q E → wpx m s Q E.
Proof. unfold wpx. by intros ->. Qed.

Lemma for_fold_ext {A} (body body' : nat → A → Mon St Err A) count :
  (∀ j a s, body j a s = body' j a s) →
  ∀ start a s,
    for_fold start count body a s = for_fold start count body' a s.
Proof.
  intros Hb. induction count as [|count IH]; intros start a s; [done|].
  cbn [for_fold]. unfold mbind, Mon_bind. rewrite Hb.
  destruct (body' start a s); [apply IH|done|done].
Qed.

Lemma wpx_for_ (body : nat → Mon St Err unit) (I : nat → St → Prop) E
    count start s :
  I start s →
  (∀ j s1, (start ≤ j < start + count)%nat → I j s1 →
           wpx (body j) s1 (fun _ s2 => I (S j) s2) E) →
  wpx (for_ start count body) s (fun _ s' => I (start + count)%nat s') E.
Proof.
  revert start s. induction count as [|count IH]; intros start s HI Hbody.
  - cbn. by rewrite Nat.add_0_r.
  - cbn [for_]. apply wpx_bind.
    eapply wpx_mono; [apply Hbody; [lia|exact HI]| |auto].
    cbv beta. intros _ s1 H1.
    replace (start + S count)%nat with (S start + count)%nat by lia.
    apply IH; [exact H1|]. intros j s2 Hj. apply Hbody. lia.
Qed.

End MoreOutcomeRules.

Module FrameMore.
Import Frame FrameSpec FrameProofs.

(** *** Alloc_Context *)

(** X1.  Alloc_Context always returns.  The context it returns lives at the
    first free address, with only its rootvar (pointing back at it, header
    unset) and room for [len] variables; its keylist lives at the next
    address, holds only the rootkey of symbol 0, is managed, not SHARED and
    has no meta.  No other series, nor the table, nor the buffer, changes. *)
Theorem Alloc_Context_fresh s len :
  ∃ s',
    Alloc_Context len s = Done (next s) s' ∧
    heap s' !! next s
      = Some (mkSer [AnyContext None (next s) None] len false false true
                    false (Some (Pos.succ (next s))) None) ∧
    heap s' !! Pos.succ (next s)
      = Some (mkSer [Val_Init_Typeset ALL_64 SYM_0] len true false false
                    false None None) ∧
    (∀ p, p ≠ next s → p ≠ Pos.succ (next s) →
          heap s' !! p = heap s !! p) ∧
    next s' = Pos.succ (Pos.succ (next s)) ∧
    Bind_Table s' = Bind_Table s ∧ BUF_COLLECT s' = BUF_COLLECT s.
Proof.
  cut (wp (Alloc_Context len) s (fun r s' =>
         r = next s ∧
         heap s' !! next s
           = Some (mkSer [AnyContext None (next s) None] len false false
                         true false (Some (Pos.succ (next s))) None) ∧
         heap s' !! Pos.succ (next s)
           = Some (mkSer [Val_Init_Typeset ALL_64 SYM_0] len true false
                         false false None None) ∧
         (∀ p, p ≠ next s → p ≠ Pos.succ (next s) →
               heap s' !! p = heap s !! p) ∧
         next s' = Pos.succ (Pos.succ (next s)) ∧
         Bind_Table s' = Bind_Table s ∧ BUF_COLLECT s' = BUF_COLLECT s)).
  { intros H. apply wpx_done in H as (r & s' & Hrun & -> & H). eauto. }
  assert (Pos.succ (next s) ≠ next s) as Hne by lia.
  unfold Alloc_Context, Make_Array, Alloc_Tail_Array, EXPAND_SERIES_TAIL,
    MANAGE_ARRAY, INIT_CTX_KEYLIST_UNIQUE.
  wp_bind. wp_alloc.
  wp_bind. wp_modify.
  wp_bind. wp_bind. wp_modify.
  wp_bind. eapply wpx_ARR_LEN; [map_lookup|]. wp_ret.
  wp_bind. eapply wpx_ARR_PUT; [map_lookup|simpl; lia|].
  wp_bind. wp_alloc.
  wp_bind. wp_bind. wp_modify.
  wp_bind. eapply wpx_ARR_LEN; [map_lookup|]. wp_ret.
  wp_bind. eapply wpx_ARR_PUT; [map_lookup|simpl; lia|].
  wp_bind. wp_modify.
  wp_bind. wp_bind. wp_ser. wp_bind. wp_assert.
  wp_modify.
  wp_bind. wp_modify.
  wp_ret.
  split; [done|]. st_simpl.
  replace (len + 1 - 1)%nat with len by lia.
  split; [by map_simpl|]. split; [by map_simpl|].
  split; [intros p Hp1 Hp2; map_simpl; done|]. done.
Qed.

(** *** Expand_Context on a keylist that is not shared *)

(** X2.  Expanding by [delta > 0] a context whose keylist is not SHARED
    keeps the keylist it has: the call returns, and the only change is that
    the varlist and the keylist each have room for [delta] more cells.  No
    cell, flag, link or meta of any series changes, and nothing is
    allocated. *)
Theorem Expand_Context_in_place s c delta cv k kv :
  heap s !! c = Some cv → link_keylist cv = Some k →
  heap s !! k = Some kv → KEYLIST_FLAG_SHARED kv = false →
  c ≠ k → (0 < delta)%nat →
  ∃ s',
    Expand_Context c delta s = Done tt s' ∧
    heap s' = <[k := set_rest (Nat.max (ser_rest kv) delta) kv]>
                (<[c := set_rest (Nat.max (ser_rest cv) delta) cv]> (heap s)) ∧
    keylist_of s' c = Some k ∧ is_unique s' k ∧
    next s' = next s ∧ Bind_Table s' = Bind_Table s ∧
    BUF_COLLECT s' = BUF_COLLECT s.
Proof.
  intros Hc Hk Hkv Hsh Hne Hd.
  cut (wp (Expand_Context c delta) s (fun _ s' =>
         heap s' = <[k := set_rest (Nat.max (ser_rest kv) delta) kv]>
                     (<[c := set_rest (Nat.max (ser_rest cv) delta) cv]>
                        (heap s)) ∧
         next s' = next s ∧ Bind_Table s' = Bind_Table s ∧
         BUF_COLLECT s' = BUF_COLLECT s)).
  { intros H. apply wpx_done in H as ([] & s' & Hrun & Hh & Hrest).
    exists s'. split; [done|]. split; [done|].
    unfold keylist_of, is_unique. rewrite Hh.
    split; [map_simpl; by rewrite Hk|].
    split; [|done]. eexists. split; [map_lookup|]. done. }
  unfold Expand_Context, Extend_Series.
  wp_bind. wp_modify.
  wp_bind. unfold Expand_Context_Keylist_Core.
  destruct (Nat.eqb_spec delta 0) as [->|_]; [lia|].
  wp_bind. wp_keylist.
  wp_bind. wp_ser. rewrite Hsh.
  wp_bind. wp_modify.
  wp_ret. wp_ret. done.
Qed.

Lemma Expand_Context_in_place_witness :
  ∃ s',
    Expand_Context 1 2 (st_resolve false) = Done tt s' ∧
    heap s'
      = <[2%positive :=
            set_rest 2
              (keylist [key 0 false; key 10 false; key 11 false] false None)]>
          (<[1%positive :=
               set_rest 2 (varlist [object 1; Integer 1; Void] 2)]>
             (heap (st_resolve false))) ∧
    keylist_of s' 1 = Some 2%positive ∧ is_unique s' 2 ∧
    next s' = 5%positive ∧ Bind_Table s' = ∅ ∧ BUF_COLLECT s' = [].
Proof.
  apply (Expand_Context_in_place (st_resolve false) 1%positive 2%nat
           (varlist [object 1; Integer 1; Void] 2) 2%positive
           (keylist [key 0 false; key 10 false; key 11 false] false None)).
  - reflexivity.
  - reflexivity.
  - reflexivity.
  - reflexivity.
  - discriminate.
  - lia.
Defined.

Lemma set_rest_same (v : REBSER) : set_rest (ser_rest v) v = v.
Proof. by destruct v. Qed.

Lemma with_heap_same (s : State) p v :
  heap s !! p = Some v → with_heap (<[p := v]> (heap s)) s = s.
Proof. intros H. destruct s. unfold with_heap. cbn in *. by rewrite insert_id. Qed.

(** X3.  A request for no room is no request: Expand_Context with a delta
    of 0 returns with the state as it was, and
    Ensure_Keylist_Unique_Invalidated, which is
    Expand_Context_Keylist_Core with a delta of 0, returns FALSE with the
    state as it was whether the keylist is SHARED or not. *)
Theorem Expand_Context_zero s c cv :
  heap s !! c = Some cv →
  Expand_Context c 0 s = Done tt s ∧
  Ensure_Keylist_Unique_Invalidated c s = Done false s.
Proof.
  intros Hc. split; [|done].
  unfold Expand_Context, Extend_Series, modify, SER, store, mbind, Mon_bind.
  rewrite Hc. rewrite Nat.max_0_r, set_rest_same.
  by rewrite with_heap_same.
Qed.

Lemma Expand_Context_zero_witness :
  Expand_Context 1 0 st_shared = Done tt st_shared ∧
  Ensure_Keylist_Unique_Invalidated 1%positive st_shared
    = Done false st_shared.
Proof.
  apply (Expand_Context_zero st_shared 1%positive
           (varlist [object 1; Integer 1; Integer 2] 2)).
  reflexivity.
Defined.

(** *** Append_Context_Core *)

Lemma insert_app_last {A} (l : list A) (x y : A) :
  <[length l := y]> (l ++ [x]) = l ++ [y].
Proof.
  rewrite <- (Nat.add_0_r (length l)), insert_app_r. done.
Qed.

Lemma Append_Context_Core_run {E} c word sym lookahead s cv k kv
    (Q : option RELVAL * nat → State → Prop) :
  heap s !! c = Some cv → link_keylist cv = Some k →
  heap s !! k = Some kv → c ≠ k →
  match word with
  | Some w => ANY_WORD w = true ∧ sym = SYM_0
  | None => sym ≠ SYM_0
  end →
  (∀ s', appended c k cv kv (appended_key word sym lookahead) s s' →
         Q (bound_word word c (length (ser_cells kv)),
            length (ser_cells cv)) s') →
  wpx (Append_Context_Core c word sym lookahead) s Q E.
Proof.
  intros Hc Hk Hkv Hne Hw HQ.
  unfold Append_Context_Core, EXPAND_SERIES_TAIL.
  wp_bind. wp_keylist.
  wp_bind. wp_modify.
  wp_bind. eapply wpx_ARR_LEN; [map_lookup|].
  cbn [ser_cells set_rest set_cells replicate]. rewrite length_app.
  cbn [length]. replace (length (ser_cells kv) + 1 - 1)%nat
    with (length (ser_cells kv)) by lia.
  wp_bind.
  apply wpx_mono
    with (Q := fun r s' =>
                 s' = with_heap (<[k := set_rest (ser_rest kv - 1)
                                          (set_cells (ser_cells kv ++ [Trash])
                                                     kv)]> (heap s)) s ∧
                 appended_key word sym lookahead
                   = Typeset (mkTypeset r ALL_64 false false lookahead))
         (E := E); [| |done].
  { destruct word as [[]|]; try (by destruct Hw); by wp_ret. }
  cbv beta. intros ksym s1 [-> Hkey]. rewrite <- Hkey.
  wp_bind. eapply wpx_ARR_PUT;
    [map_lookup|cbn; rewrite length_app; cbn; lia|].
  wp_bind. wp_modify.
  wp_bind. eapply wpx_ARR_LEN; [map_lookup|].
  cbn [ser_cells set_rest set_cells replicate]. rewrite length_app.
  cbn [length]. replace (length (ser_cells cv) + 1 - 1)%nat
    with (length (ser_cells cv)) by lia.
  wp_bind. eapply wpx_ARR_PUT;
    [map_lookup|cbn; rewrite length_app; cbn; lia|].
  cbn [ser_cells set_rest set_cells]. rewrite !insert_app_last.
  st_simpl.
  lazymatch goal with
  | |- wpx _ ?S _ _ =>
      assert (appended c k cv kv (appended_key word sym lookahead) s S)
        as Happ
  end.
  { unfold appended. st_simpl.
    split; [by map_simpl|]. split; [by map_simpl|].
    split; [intros p Hp1 Hp2; by map_simpl|]. done. }
  destruct word as [w|].
  - destruct Hw as [Hany ->]. destruct w; try done.
    wp_bind. unfold CTX_LEN. wp_bind. wp_keylist.
    wp_bind. eapply wpx_ARR_LEN; [map_lookup|]. wp_ret.
    wp_bind. wp_assert. wp_ret.
    cbn [ser_cells set_cells set_rest]. rewrite length_app. cbn [length].
    replace (length (ser_cells kv) + 1 - 1)%nat
      with (length (ser_cells kv)) by lia.
    by apply HQ.
  - wp_bind. apply wpx_assert; [by destruct (Nat.eqb_spec sym SYM_0)|].
    wp_ret. by apply HQ.
Qed.

(** X4.  Append_Context_Core returns on a context whose keylist is another
    series than its varlist: the key (of the word's symbol, or of [sym] when
    no word is given) is written at the tail of the keylist the context
    links, in place, whether that keylist is SHARED or not; a void variable
    is written at the tail of the varlist; the index of that variable is
    returned, with the word bound to the context at the new key's index.
    No other series changes. *)
Theorem Append_Context_Core_appends c word sym lookahead s cv k kv :
  heap s !! c = Some cv → link_keylist cv = Some k →
  heap s !! k = Some kv → c ≠ k →
  match word with
  | Some w => ANY_WORD w = true ∧ sym = SYM_0
  | None => sym ≠ SYM_0
  end →
  ∃ s',
    Append_Context_Core c word sym lookahead s
      = Done (bound_word word c (length (ser_cells kv)),
              length (ser_cells cv)) s' ∧
    appended c k cv kv (appended_key word sym lookahead) s s'.
Proof.
  intros Hc Hk Hkv Hne Hw.
  cut (wp (Append_Context_Core c word sym lookahead) s (fun r s' =>
         r = (bound_word word c (length (ser_cells kv)),
              length (ser_cells cv)) ∧
         appended c k cv kv (appended_key word sym lookahead) s s')).
  { intros H. apply wpx_done in H as (r & s' & Hrun & -> & H). eauto. }
  eapply Append_Context_Core_run; eauto.
Qed.

Lemma Append_Context_Core_appends_witness :
  ∃ s',
    Append_Context_Core 1 (Some (AnyWord REB_SET_WORD 12 None)) SYM_0 false
        st_shared
      = Done (Some (AnyWord REB_SET_WORD 12 (Some (1%positive, 3))), 3%nat)
             s' ∧
    appended 1 2 (varlist [object 1; Integer 1; Integer 2] 2)
      (keylist [key 0 false; key 10 false; key 11 false] true
               (Some 4%positive))
      (key 12 false) st_shared s'.
Proof.
  apply (Append_Context_Core_appends 1%positive
           (Some (AnyWord REB_SET_WORD 12 None)) SYM_0 false st_shared
           (varlist [object 1; Integer 1; Integer 2] 2) 2%positive
           (keylist [key 0 false; key 10 false; key 11 false] true
                    (Some 4%positive))).
  - reflexivity.
  - reflexivity.
  - reflexivity.
  - discriminate.
  - split; reflexivity.
Defined.

(** *** Find_Word_In_Context *)

Lemma Find_Word_In_Context_from_run {E} canon k kv sym always s count :
  heap s !! k = Some kv →
  ∀ n, (n + count = length (ser_cells kv))%nat →
       (∀ j, (n ≤ j < length (ser_cells kv))%nat →
             ∃ t, ser_cells kv !! j = Some (Typeset t)) →
       wpx (Find_Word_In_Context_from canon k sym always n count) s
         (fun r s' =>
            s' = s ∧
            ((r = 0%nat ∧ no_match canon sym (ser_cells kv) n) ∨
             ∃ m t, first_match canon sym (ser_cells kv) n m t ∧
                    r = if negb always && TYPESET_FLAG_HIDDEN t
                        then 0%nat else m)) E.
Proof.
  intros Hk. induction count as [|count IH]; intros n Hn Hty.
  - cbn [Find_Word_In_Context_from]. wp_ret. split; [done|]. left.
    split; [done|]. intros j u Hj Hu.
    apply lookup_lt_Some in Hu. lia.
  - cbn [Find_Word_In_Context_from].
    destruct (Hty n) as [t Ht]; [lia|].
    wp_bind. unfold KEY_AT. wp_bind.
    eapply wpx_ARR_AT; [exact Hk|exact Ht|]. wp_ret.
    fold (key_matches canon sym t).
    destruct (key_matches canon sym t) eqn:Hm.
    + wp_ret. split; [done|]. right. exists n, t.
      split; [|done]. split; [lia|]. split; [done|]. split; [done|].
      intros j u Hj. lia.
    + eapply wpx_mono; [apply (IH (S n)); [lia|]| |done].
      { intros j Hj. apply Hty. lia. }
      cbv beta. intros r s' [-> [[-> Hno]|(m & u & (Hle & Hu & Hmu & Hfirst) & ->)]].
      * split; [done|]. left. split; [done|].
        intros j u Hj Hu. destruct (decide (j = n)) as [->|Hjn].
        -- rewrite Ht in Hu. by injection Hu as <-.
        -- apply (Hno j u); [lia|done].
      * split; [done|]. right. exists m, u. split; [|done].
        split; [lia|]. split; [done|]. split; [done|].
        intros j w Hj Hw. destruct (decide (j = n)) as [->|Hjn].
        -- rewrite Ht in Hw. by injection Hw as <-.
        -- apply (Hfirst j w); [lia|done].
Qed.

Lemma Find_Word_In_Context_run {E} canon c sym always s cv k kv
    (Q : nat → State → Prop) :
  heap s !! c = Some cv → link_keylist cv = Some k →
  heap s !! k = Some kv → (1 ≤ length (ser_cells kv))%nat →
  keys_typesets (ser_cells kv) →
  (∀ r, ((r = 0%nat ∧ no_match canon sym (ser_cells kv) 1) ∨
         ∃ m t, first_match canon sym (ser_cells kv) 1 m t ∧
                r = if negb always && TYPESET_FLAG_HIDDEN t
                    then 0%nat else m) →
        Q r s) →
  wpx (Find_Word_In_Context canon c sym always) s Q E.
Proof.
  intros Hc Hl Hk Hlen Hty HQ. unfold Find_Word_In_Context.
  wp_bind. wp_keylist.
  wp_bind. unfold CTX_LEN. wp_bind. wp_keylist.
  wp_bind. eapply wpx_ARR_LEN; [exact Hk|]. wp_ret.
  eapply wpx_mono;
    [eapply (Find_Word_In_Context_from_run canon k kv); [exact Hk|lia|]
    | |done].
  { intros j Hj. by apply Hty. }
  cbv beta. intros r s' [-> H]. by apply HQ.
Qed.

(** X5.  Find_Word_In_Context only reads.  On a context whose keys are
    typesets it returns 0 when no key from slot 1 on has the symbol or its
    canon; otherwise the first such key decides: its slot is returned, or 0
    when that key is hidden and [always] is not set, whatever keys of the
    same canon follow it. *)
Theorem Find_Word_In_Context_first_match canon c sym always s cv k kv :
  heap s !! c = Some cv → link_keylist cv = Some k →
  heap s !! k = Some kv → (1 ≤ length (ser_cells kv))%nat →
  keys_typesets (ser_cells kv) →
  ∃ r,
    Find_Word_In_Context canon c sym always s = Done r s ∧
    ((r = 0%nat ∧ no_match canon sym (ser_cells kv) 1) ∨
     ∃ m t, first_match canon sym (ser_cells kv) 1 m t ∧
            r = if negb always && TYPESET_FLAG_HIDDEN t then 0%nat else m).
Proof.
  intros Hc Hl Hk Hlen Hty.
  cut (wp (Find_Word_In_Context canon c sym always) s (fun r s' =>
         s' = s ∧
         ((r = 0%nat ∧ no_match canon sym (ser_cells kv) 1) ∨
          ∃ m t, first_match canon sym (ser_cells kv) 1 m t ∧
                 r = if negb always && TYPESET_FLAG_HIDDEN t
                     then 0%nat else m))).
  { intros H. apply wpx_done in H as (r & s' & Hrun & -> & H). eauto. }
  eapply Find_Word_In_Context_run; eauto.
Qed.

Lemma Find_Word_In_Context_first_match_witness :
  ∃ r,
    Find_Word_In_Context canon_id 1 1 false (st_merge 1 2 3 4)
      = Done r (st_merge 1 2 3 4) ∧
    ((r = 0%nat ∧
      no_match canon_id 1
        [key 0 false; key 1 true; key 10 false; key 11 false] 1) ∨
     ∃ m t,
       first_match canon_id 1
         [key 0 false; key 1 true; key 10 false; key 11 false] 1 m t ∧
       r = if negb false && TYPESET_FLAG_HIDDEN t then 0%nat else m).
Proof.
  apply (Find_Word_In_Context_first_match canon_id 1%positive 1%nat false
           (st_merge 1 2 3 4)
           (varlist [object 1; object 1; Integer 1; Integer 2] 2) 2%positive
           (keylist [key 0 false; key 1 true; key 10 false; key 11 false]
                    false None)).
  - reflexivity.
  - reflexivity.
  - reflexivity.
  - cbn; lia.
  - intros j Hj. cbn in Hj.
    destruct j as [|[|[|[|j]]]]; [lia|eauto..|lia].
Defined.

(** X6.  What is appended is found: after Append_Context of a symbol that no
    key of the context matched, Find_Word_In_Context of that symbol returns
    the index Append_Context returned, hidden keys wanted or not, and the
    variable at that index is void. *)
Theorem Append_Context_then_find canon c sym always s cv k kv :
  heap s !! c = Some cv → link_keylist cv = Some k →
  heap s !! k = Some kv → c ≠ k → sym ≠ SYM_0 →
  (1 ≤ length (ser_cells kv))%nat → keys_typesets (ser_cells kv) →
  length (ser_cells cv) = length (ser_cells kv) →
  no_match canon sym (ser_cells kv) 1 →
  ∃ s',
    Append_Context c None sym s = Done (None, length (ser_cells cv)) s' ∧
    Find_Word_In_Context canon c sym always s'
      = Done (length (ser_cells cv)) s' ∧
    CTX_VAR c (length (ser_cells cv)) s' = Done Void s'.
Proof.
  intros Hc Hl Hk Hne Hsym Hlen Hty Heq Hno.
  cut (wp (Append_Context c None sym) s (fun r s' =>
         r = (None, length (ser_cells cv)) ∧
         appended c k cv kv (appended_key None sym false) s s')).
  2:{ unfold Append_Context. eapply Append_Context_Core_run; eauto. }
  intros H. apply wpx_done in H as (r & s' & Hrun & -> & Happ).
  destruct Happ as (Hk' & Hc' & _).
  exists s'. split; [exact Hrun|]. split.
  - cut (wp (Find_Word_In_Context canon c sym always) s' (fun r s'' =>
           r = length (ser_cells cv) ∧ s'' = s')).
    { intros H. by apply wpx_done in H as (r & s'' & -> & -> & ->). }
    eapply Find_Word_In_Context_run; [exact Hc'|exact Hl|exact Hk'|..].
    + cbn. rewrite length_app. lia.
    + intros j Hj. cbn in *. rewrite length_app in Hj. cbn in Hj.
      destruct (decide (j = length (ser_cells kv))) as [->|Hjl].
      * rewrite lookup_app_r, Nat.sub_diag by lia. cbn. eauto.
      * rewrite lookup_app_l by lia. apply Hty. lia.
    + cbn [ser_cells set_cells set_rest].
      assert ((ser_cells kv ++ [appended_key None sym false])
                !! length (ser_cells kv)
              = Some (appended_key None sym false)) as Hnew
        by (by rewrite lookup_app_r, Nat.sub_diag by lia).
      assert (key_matches canon sym
                (mkTypeset sym ALL_64 false false false) = true) as Hmatch
        by (unfold key_matches; cbn; by rewrite Nat.eqb_refl).
      intros r [[-> Hnone]|(m & t & (Hle & Hm & Hmt & Hfirst) & ->)].
      * pose proof (Hnone _ (mkTypeset sym ALL_64 false false false)
                      Hlen Hnew).
        congruence.
      * destruct (Nat.lt_trichotomy m (length (ser_cells kv)))
          as [Hlt|[->|Hgt]].
        -- rewrite lookup_app_l in Hm by lia.
           specialize (Hno _ _ Hle Hm). congruence.
        -- rewrite Hnew in Hm. injection Hm as <-.
           cbn [TYPESET_FLAG_HIDDEN]. rewrite andb_false_r.
           by rewrite Heq.
        -- pose proof (Hfirst _ (mkTypeset sym ALL_64 false false false)
                         (conj Hlen Hgt) Hnew).
           congruence.
  - unfold CTX_VAR, ARR_AT, SER, assert, mbind, Mon_bind, mret, Mon_ret.
    destruct (Nat.eqb_spec (length (ser_cells cv)) 0); [lia|]. cbn [negb].
    rewrite Hc'. cbn [ser_cells set_cells set_rest].
    by rewrite lookup_app_r, Nat.sub_diag by lia.
Qed.

Lemma Append_Context_then_find_witness :
  ∃ s',
    Append_Context 1 None 12 (st_resolve false) = Done (None, 3%nat) s' ∧
    Find_Word_In_Context canon_id 1 12 false s' = Done 3%nat s' ∧
    CTX_VAR 1%positive 3 s' = Done Void s'.
Proof.
  apply (Append_Context_then_find canon_id 1%positive 12%nat false
           (st_resolve false)
           (varlist [object 1; Integer 1; Void] 2) 2%positive
           (keylist [key 0 false; key 10 false; key 11 false] false None)).
  - reflexivity.
  - reflexivity.
  - reflexivity.
  - discriminate.
  - discriminate.
  - cbn; lia.
  - intros j Hj. cbn in Hj. destruct j as [|[|[|j]]]; [lia|eauto..|lia].
  - reflexivity.
  - intros j u Hj Hu.
    destruct j as [|[|[|j]]]; [lia|injection Hu as <-; reflexivity..|done].
Defined.

(** *** Resolve_Context: what stops it before it starts *)

Lemma Forall_binds_zero s :
  binds_zero s → map_Forall (fun _ v => v = 0) (Bind_Table s).
Proof.
  intros H c v Hc. specialize (H c). unfold bind_at, REBSYM in H.
  by rewrite Hc in H.
Qed.

Lemma wpx_ASSERT_BIND_TABLE_EMPTY {E} s (Q : unit → State → Prop) :
  binds_zero s → Q tt s → wpx ASSERT_BIND_TABLE_EMPTY s Q E.
Proof.
  intros Hz HQ. unfold wpx, ASSERT_BIND_TABLE_EMPTY.
  rewrite bool_decide_eq_true_2 by (by apply Forall_binds_zero). exact HQ.
Qed.

(** X7.  Resolve_Context into a target whose varlist is locked fails with
    the locked-series error before anything is written: the state the
    failure leaves is the state of the call, whatever the source, the
    selection and the flags. *)
Theorem Resolve_Context_locked canon target source only_words all expand
    s tv :
  binds_zero s →
  heap s !! target = Some tv → SERIES_FLAG_LOCKED tv = true →
  Resolve_Context canon target source only_words all expand s
    = Failed RE_LOCKED s.
Proof.
  intros Hz Ht Hlock.
  cut (wpx (Resolve_Context canon target source only_words all expand) s
         (fun _ _ => False) (fun e s' => e = RE_LOCKED ∧ s' = s)).
  { intros H. by apply wpx_failed in H as (e & s' & -> & -> & ->). }
  unfold Resolve_Context.
  wp_bind. apply wpx_ASSERT_BIND_TABLE_EMPTY; [done|].
  wp_bind. wp_ser. rewrite Hlock.
  wp_bind. by apply wpx_fail.
Qed.

Lemma Resolve_Context_locked_witness :
  Resolve_Context canon_id 1 3 Void true true st_locked
    = Failed RE_LOCKED st_locked.
Proof.
  apply (Resolve_Context_locked canon_id 1%positive 3%positive Void true true
           st_locked
           (mkSer [object 1; Integer 1; Void] 0 true true true false
                  (Some 2%positive) None)).
  - intros c. reflexivity.
  - reflexivity.
  - reflexivity.
Defined.

(** X8.  Resolve_Context asked to start at an index past the last key of
    the target (an INTEGER! [only_words] greater than the target's length)
    returns at once: nothing is copied, expanded or collected, and the state
    is the state of the call. *)
Theorem Resolve_Context_index_past_tail canon target source v all expand
    s tv k kv :
  binds_zero s →
  heap s !! target = Some tv → SERIES_FLAG_LOCKED tv = false →
  link_keylist tv = Some k → heap s !! k = Some kv →
  (length (ser_cells kv) - 1 < resolve_i (Integer v))%nat →
  Resolve_Context canon target source (Integer v) all expand s = Done tt s.
Proof.
  intros Hz Ht Hlock Hl Hk Hpast.
  cut (wp (Resolve_Context canon target source (Integer v) all expand) s
         (fun _ s' => s' = s)).
  { intros H. by apply wpx_done in H as ([] & s' & -> & ->). }
  unfold Resolve_Context.
  wp_bind. apply wpx_ASSERT_BIND_TABLE_EMPTY; [done|].
  wp_bind. wp_ser. rewrite Hlock.
  wp_bind. wp_ret.
  wp_bind. unfold CTX_LEN. wp_bind. wp_keylist.
  wp_bind. eapply wpx_ARR_LEN; [exact Hk|]. wp_ret.
  cbv zeta. cbn [IS_INTEGER andb]. fold (resolve_i (Integer v)).
  destruct (Nat.ltb_spec (length (ser_cells kv) - 1) (resolve_i (Integer v)));
    [|lia].
  by wp_ret.
Qed.

Lemma Resolve_Context_index_past_tail_witness :
  Resolve_Context canon_id 1 3 (Integer 3) true true (st_resolve false)
    = Done tt (st_resolve false).
Proof.
  apply (Resolve_Context_index_past_tail canon_id 1%positive 3%positive 3
           true true (st_resolve false)
           (varlist [object 1; Integer 1; Void] 2) 2%positive
           (keylist [key 0 false; key 10 false; key 11 false] false None)).
  - intros c. reflexivity.
  - reflexivity.
  - reflexivity.
  - reflexivity.
  - reflexivity.
  - vm_compute. lia.
Defined.

(** *** Find_Word_In_Array *)

Lemma Find_Word_In_Array_from_run {E} canon NOT_FOUND a av sym s count :
  heap s !! a = Some av →
  ∀ n, (n + count = length (ser_cells av))%nat →
       wpx (Find_Word_In_Array_from canon NOT_FOUND a sym n count) s
         (fun r s' =>
            s' = s ∧
            ((r = NOT_FOUND ∧
              ∀ j v, (n ≤ j)%nat → ser_cells av !! j = Some v →
                     word_matches canon sym v = false) ∨
             ((n ≤ r)%nat ∧
              ∃ v, ser_cells av !! r = Some v ∧
                   word_matches canon sym v = true ∧
                   ∀ j u, (n ≤ j < r)%nat → ser_cells av !! j = Some u →
                          word_matches canon sym u = false))) E.
Proof.
  intros Ha. induction count as [|count IH]; intros n Hn.
  - cbn [Find_Word_In_Array_from]. wp_ret. split; [done|]. left.
    split; [done|]. intros j v Hj Hv. apply lookup_lt_Some in Hv. lia.
  - cbn [Find_Word_In_Array_from].
    destruct (lookup_lt_is_Some_2 (ser_cells av) n) as [v Hv]; [lia|].
    wp_bind. eapply wpx_ARR_AT; [exact Ha|exact Hv|]. wp_bind.
    apply wpx_mono with
      (Q := fun found s' => s' = s ∧ found = word_matches canon sym v)
      (E := E); [|cbv beta|done].
    { destruct v; cbn [ANY_WORD VAL_WORD_CANON word_matches]; by wp_ret. }
    intros found s' [-> ->].
    destruct (word_matches canon sym v) eqn:Hm.
    + wp_ret. split; [done|]. right. split; [done|]. exists v.
      split; [done|]. split; [done|]. intros j u Hj. lia.
    + eapply wpx_mono; [apply (IH (S n)); lia| |done].
      cbv beta.
      intros r s' [-> [[-> Hno]|(Hle & u & Hu & Hmu & Hfirst)]].
      * split; [done|]. left. split; [done|].
        intros j w Hj Hw. destruct (decide (j = n)) as [->|Hjn].
        -- rewrite Hv in Hw. by injection Hw as <-.
        -- apply (Hno j w); [lia|done].
      * split; [done|]. right. split; [lia|]. exists u.
        split; [done|]. split; [done|].
        intros j w Hj Hw. destruct (decide (j = n)) as [->|Hjn].
        -- rewrite Hv in Hw. by injection Hw as <-.
        -- apply (Hfirst j w); [lia|done].
Qed.

(** X18.  Find_Word_In_Array only reads.  It returns the index of the first
    cell from [index] on that is a word, of any kind, whose canon is [sym],
    and NOT_FOUND when there is none, as when [index] is at or past the
    tail.  The symbol asked for is compared as it is given: it is the
    words of the array that are taken to their canon. *)
Theorem Find_Word_In_Array_first_match canon NOT_FOUND array index sym s av :
  heap s !! array = Some av →
  ∃ r,
    Find_Word_In_Array canon NOT_FOUND array index sym s = Done r s ∧
    ((r = NOT_FOUND ∧
      ∀ j v, (index ≤ j)%nat → ser_cells av !! j = Some v →
             word_matches canon sym v = false) ∨
     ((index ≤ r)%nat ∧
      ∃ v, ser_cells av !! r = Some v ∧ word_matches canon sym v = true ∧
           ∀ j u, (index ≤ j < r)%nat → ser_cells av !! j = Some u →
                  word_matches canon sym u = false)).
Proof.
  intros Ha.
  cut (wpx (Find_Word_In_Array canon NOT_FOUND array index sym) s
         (fun r s' =>
            s' = s ∧
            ((r = NOT_FOUND ∧
              ∀ j v, (index ≤ j)%nat → ser_cells av !! j = Some v →
                     word_matches canon sym v = false) ∨
             ((index ≤ r)%nat ∧
              ∃ v, ser_cells av !! r = Some v ∧
                   word_matches canon sym v = true ∧
                   ∀ j u, (index ≤ j < r)%nat →
                          ser_cells av !! j = Some u →
                          word_matches canon sym u = false))) no_fail).
  { intros H. apply wpx_done in H as (r & s' & Hrun & -> & Hr). eauto. }
  unfold Find_Word_In_Array. wp_bind.
  eapply wpx_ARR_LEN; [exact Ha|].
  destruct (decide (index ≤ length (ser_cells av))%nat) as [Hle|Hgt].
  - apply (Find_Word_In_Array_from_run canon NOT_FOUND array av); [done|lia].
  - replace (length (ser_cells av) - index)%nat with 0%nat by lia.
    cbn [Find_Word_In_Array_from]. wp_ret. split; [done|]. left.
    split; [done|]. intros j v Hj Hv. apply lookup_lt_Some in Hv. lia.
Qed.

Lemma Find_Word_In_Array_first_match_witness :
  heap st_words !! 1%positive
    = Some (mkSer [AnyWord REB_WORD 10 None; Integer 5;
                   AnyWord REB_SET_WORD 11 None; AnyWord REB_WORD 11 None]
                  0 false false false false None None) ∧
  ∃ r,
    Find_Word_In_Array canon_id 99 1 1 11 st_words = Done r st_words ∧
    ((r = 99%nat ∧
      ∀ j v, (1 ≤ j)%nat →
             [AnyWord REB_WORD 10 None; Integer 5;
              AnyWord REB_SET_WORD 11 None; AnyWord REB_WORD 11 None] !! j
               = Some v →
             word_matches canon_id 11 v = false) ∨
     ((1 ≤ r)%nat ∧
      ∃ v, [AnyWord REB_WORD 10 None; Integer 5;
            AnyWord REB_SET_WORD 11 None; AnyWord REB_WORD 11 None] !! r
             = Some v ∧
           word_matches canon_id 11 v = true ∧
           ∀ j u, (1 ≤ j < r)%nat →
                  [AnyWord REB_WORD 10 None; Integer 5;
                   AnyWord REB_SET_WORD 11 None; AnyWord REB_WORD 11 None]
                    !! j = Some u →
                  word_matches canon_id 11 u = false)).
Proof.
  split; [reflexivity|].
  apply (Find_Word_In_Array_first_match canon_id 99%nat 1%positive 1%nat
           11%nat st_words
           (mkSer [AnyWord REB_WORD 10 None; Integer 5;
                   AnyWord REB_SET_WORD 11 None; AnyWord REB_WORD 11 None]
                  0 false false false false None None)).
  reflexivity.
Defined.

(** *** Collect_Words *)

Lemma word_canons_app canon l1 l2 :
  word_canons canon (l1 ++ l2)
    = word_canons canon l1 ++ word_canons canon l2.
Proof. apply omap_app. Qed.

Lemma word_canons_elem canon l c :
  c ∈ word_canons canon l ↔ ∃ k sym b, AnyWord k sym b ∈ l ∧ canon sym = c.
Proof.
  unfold word_canons. rewrite list_elem_of_omap. split.
  - intros (v & Hv & Hc). destruct v; try done. injection Hc as <-. eauto.
  - intros (k & sym & b & Hv & <-). eauto.
Qed.

Lemma Collect_Words_Inner_Loop_value_spec {E} canon flags h n v :
  ∀ s, words_inv canon h n s →
       wpx (Collect_Words_Inner_Loop_value canon flags v) s
         (fun _ s' => words_inv canon h n s' ∧ scan_adds canon flags [v] s s')
         E.
Proof.
  assert (∀ s, words_inv canon h n s →
            ∀ v, (∀ k sym b, v ≠ AnyWord k sym b) →
                 words_inv canon h n s ∧ scan_adds canon flags [v] s s)
    as Hskip.
  { intros s Hinv v0 Hv0. split; [done|]. exists [].
    split; [by rewrite app_nil_r|]. split.
    - intros k sym b Hin. apply list_elem_of_singleton in Hin.
      exfalso. by eapply Hv0.
    - intros _ c Hc. by apply elem_of_nil in Hc. }
  induction v as [| | |i|t|k sym b|k at_ IH|k vl e]
    using RELVAL_nested_ind; intros s Hinv;
    try (cbn [Collect_Words_Inner_Loop_value]; wp_ret; by apply Hskip).
  - (* a word *)
    destruct Hinv as (Hh & Hn & Hplain & Hnd & Hbind).
    cbn [Collect_Words_Inner_Loop_value]. wp_bind. apply wpx_binds_get.
    destruct (Z.eqb_spec (bind_at (Bind_Table s) (canon sym)) 0) as [Hz|Hnz];
      cbn [andb].
    + destruct (IS_SET_WORD (AnyWord k sym b)
                || flag_set flags COLLECT_ANY_WORD) eqn:Hsel.
      * wp_bind. apply wpx_binds_set. wp_bind. apply wpx_get_buf.
        apply wpx_set_buf. st_simpl.
        assert (canon sym ∉ word_canons canon (BUF_COLLECT s)) as Hnew.
        { intros Hin. apply Hbind in Hin. done. }
        split.
        -- unfold words_inv. st_simpl. rewrite word_canons_app.
           change (word_canons canon [AnyWord REB_WORD sym None])
             with [canon sym].
           split; [done|]. split; [done|]. split.
           { apply Forall_app. split; [done|]. constructor; [|done]. eauto. }
           split.
           { apply NoDup_app. split; [done|]. split.
             - intros c Hc Hc'. apply list_elem_of_singleton in Hc'.
               by subst.
             - apply NoDup_singleton. }
           intros c. rewrite bind_at_insert, elem_of_app,
             list_elem_of_singleton.
           case_decide as Hc.
           { split; [auto|done]. }
           rewrite Hbind. split; [auto|]. intros [?|?]; [done|congruence].
        -- exists [AnyWord REB_WORD sym None]. st_simpl.
           split; [done|]. split.
           ++ intros k' sym' b' Hin _.
              apply list_elem_of_singleton in Hin. injection Hin as _ <- _.
              rewrite word_canons_app, elem_of_app. right.
              cbn. apply list_elem_of_singleton. done.
           ++ intros _ c Hc. exact Hc.
      * wp_ret. split; [done|]. exists []. split; [by rewrite app_nil_r|].
        split.
        -- intros k' sym' b' Hin Hsel'.
           apply list_elem_of_singleton in Hin. injection Hin as -> -> ->.
           congruence.
        -- intros _ c Hc. by apply elem_of_nil in Hc.
    + wp_ret. split; [done|]. exists []. split; [by rewrite app_nil_r|].
      split.
      * intros k' sym' b' Hin _.
        apply list_elem_of_singleton in Hin. injection Hin as _ <- _.
        by apply Hbind.
      * intros _ c Hc. by apply elem_of_nil in Hc.
  - (* an array *)
    cbn [Collect_Words_Inner_Loop_value].
    destruct (ANY_EVAL_BLOCK (AnyArray k at_)) eqn:Hblock; cbn [andb];
      [|wp_ret; by apply Hskip].
    destruct (flag_set flags COLLECT_DEEP) eqn:Hdeep;
      [|wp_ret; by apply Hskip].
    eapply wpx_mono;
      [apply (wpx_for_each _
                (fun s1 => words_inv canon h n s1 ∧
                           ∃ more, BUF_COLLECT s1 = BUF_COLLECT s ++ more))
      | |done].
    + split; [done|]. exists []. by rewrite app_nil_r.
    + intros x s1 Hx [Hs1 [more1 Hm1]]. rewrite Forall_forall in IH.
      eapply wpx_mono; [by apply IH| |done].
      cbv beta. intros _ s2 [Hs2 (more2 & Hm2 & _)]. split; [done|].
      exists (more1 ++ more2). by rewrite Hm2, Hm1, app_assoc.
    + cbv beta. intros _ s' [Hs' [more Hm]]. split; [done|]. exists more.
      split; [done|]. split.
      * intros k' sym' b' Hin. apply list_elem_of_singleton in Hin. done.
      * intros Hd. congruence.
Qed.

Lemma Collect_Words_Inner_Loop_spec {E} canon flags h n l :
  ∀ s, words_inv canon h n s →
       wpx (Collect_Words_Inner_Loop canon l flags) s
         (fun _ s' => words_inv canon h n s' ∧ scan_adds canon flags l s s')
         E.
Proof.
  unfold Collect_Words_Inner_Loop.
  induction l as [|v l IH]; intros s Hinv.
  - cbn [for_each]. wp_ret. split; [done|]. exists [].
    split; [by rewrite app_nil_r|]. split.
    + intros k sym b Hin. by apply elem_of_nil in Hin.
    + intros _ c Hc. by apply elem_of_nil in Hc.
  - cbn [for_each]. wp_bind.
    eapply wpx_mono;
      [by apply (Collect_Words_Inner_Loop_value_spec canon flags h n)| |done].
    cbv beta. intros _ s1 [Hs1 (more1 & Hm1 & Hall1 & Honly1)].
    eapply wpx_mono; [by apply IH| |done].
    cbv beta. intros _ s2 [Hs2 (more2 & Hm2 & Hall2 & Honly2)].
    split; [done|]. exists (more1 ++ more2).
    split; [by rewrite Hm2, Hm1, app_assoc|]. split.
    + intros k sym b Hin Hsel. apply elem_of_cons in Hin as [<-|Hin].
      * rewrite Hm2, word_canons_app, elem_of_app. left.
        eapply Hall1; [by apply list_elem_of_singleton|done].
      * by eapply Hall2.
    + intros Hd c Hc. rewrite word_canons_app, elem_of_app in Hc.
      change (v :: l) with ([v] ++ l).
      rewrite word_canons_app, elem_of_app.
      destruct Hc as [Hc|Hc]; [left; by apply Honly1|right; by apply Honly2].
Qed.

(** The walk that clears the table after the scan. *)
Lemma reset_words_spec {E} canon l s :
  plain_words l →
  wpx (for_each (fun word => c ← VAL_WORD_CANON canon word; binds_set c 0) l)
      s
      (fun _ s' =>
         heap s' = heap s ∧ next s' = next s ∧
         BUF_COLLECT s' = BUF_COLLECT s ∧
         (∀ c, bind_at (Bind_Table s') c = 0
               ∨ bind_at (Bind_Table s') c = bind_at (Bind_Table s) c) ∧
         (∀ c, c ∈ word_canons canon l → bind_at (Bind_Table s') c = 0))
      E.
Proof.
  intros Hl. revert s. induction Hl as [|word l [sym ->] Hl IH]; intros s.
  - cbn. repeat split; auto. intros c Hc. by apply elem_of_nil in Hc.
  - cbn [for_each]. wp_bind. wp_bind. cbn [VAL_WORD_CANON]. wp_ret.
    apply wpx_binds_set.
    eapply wpx_mono; [apply IH| |auto].
    cbv beta. intros _ s' (Hh & Hn & Hb & Hz & Hk).
    cbn [heap next Bind_Table BUF_COLLECT with_binds] in *.
    split; [done|]. split; [done|]. split; [done|]. split.
    + intros c. destruct (Hz c) as [H0|Heq]; [by left|].
      rewrite Heq, bind_at_insert. case_decide; auto.
    + intros c Hc. cbn in Hc. apply elem_of_cons in Hc as [->|Hc];
        [|by apply Hk].
      destruct (Hz (canon sym)) as [H0|Heq]; [done|].
      rewrite Heq, bind_at_insert. by rewrite decide_True.
Qed.

(** X19.  Collect_Words, called with the table all zero and the buffer
    empty, returns and leaves them so; the store only gains the array it
    returns, at the first free address.  That array holds plain words, no
    two of one canon and none of the canon of a word of the prior block,
    and it has a word for every word of the block that is to be collected
    (a set-word, or any word under COLLECT_ANY_WORD) whose canon no word of
    the prior block has. *)
Theorem Collect_Words_clean canon head opt_prior_head flags s :
  binds_zero s → BUF_COLLECT s = [] →
  ∃ words s',
    Collect_Words canon head opt_prior_head flags s = Done (next s) s' ∧
    heap s' = <[next s := mkSer words 0 false false false false None None]>
                (heap s) ∧
    next s' = Pos.succ (next s) ∧
    binds_zero s' ∧ BUF_COLLECT s' = [] ∧
    plain_words words ∧ NoDup (word_canons canon words) ∧
    (∀ c, c ∈ word_canons canon words →
          c ∉ word_canons canon (default [] opt_prior_head)) ∧
    (∀ k sym b,
       AnyWord k sym b ∈ head →
       IS_SET_WORD (AnyWord k sym b) || flag_set flags COLLECT_ANY_WORD
         = true →
       canon sym ∉ word_canons canon (default [] opt_prior_head) →
       canon sym ∈ word_canons canon words).
Proof.
  intros Hzero Hbuf.
  cut (wpx (Collect_Words canon head opt_prior_head flags) s
         (fun r s' =>
            r = next s ∧
            ∃ words,
              heap s' = <[next s := mkSer words 0 false false false false
                                          None None]> (heap s) ∧
              next s' = Pos.succ (next s) ∧
              binds_zero s' ∧ BUF_COLLECT s' = [] ∧
              plain_words words ∧ NoDup (word_canons canon words) ∧
              (∀ c, c ∈ word_canons canon words →
                    c ∉ word_canons canon (default [] opt_prior_head)) ∧
              (∀ k sym b,
                 AnyWord k sym b ∈ head →
                 IS_SET_WORD (AnyWord k sym b)
                 || flag_set flags COLLECT_ANY_WORD = true →
                 canon sym ∉ word_canons canon (default [] opt_prior_head) →
                 canon sym ∈ word_canons canon words)) no_fail).
  { intros H. apply wpx_done in H as (r & s' & Hrun & -> & words & H).
    by exists words, s'. }
  assert (words_inv canon (heap s) (next s) s) as Hinv.
  { unfold words_inv. rewrite Hbuf. split; [done|]. split; [done|].
    split; [constructor|]. split; [constructor|].
    intros c. rewrite Hzero. split; [done|]. intros Hc.
    by apply elem_of_nil in Hc. }
  unfold Collect_Words. wp_bind.
  apply wpx_ASSERT_BIND_TABLE_EMPTY; [done|].
  wp_bind. apply wpx_get_buf. wp_bind. rewrite Hbuf. wp_assert.
  wp_bind.
  apply wpx_mono with
    (Q := fun _ s1 =>
            words_inv canon (heap s) (next s) s1 ∧
            (∀ c, c ∈ word_canons canon (default [] opt_prior_head) ↔
                  c ∈ word_canons canon (BUF_COLLECT s1)))
    (E := no_fail); [|cbv beta|done].
  { destruct opt_prior_head as [prior_head|]; cbn [default].
    - eapply wpx_mono;
        [by apply (Collect_Words_Inner_Loop_spec canon COLLECT_ANY_WORD
                     (heap s) (next s))| |done].
      cbv beta. intros _ s1 [Hs1 (more & Hm & Hall & Honly)].
      split; [done|]. intros c. split.
      + intros Hc. apply word_canons_elem in Hc as (k & sym & b & Hin & <-).
        eapply Hall; [exact Hin|].
        change (flag_set COLLECT_ANY_WORD COLLECT_ANY_WORD) with true.
        apply orb_true_r.
      + rewrite Hm, Hbuf. cbn [app]. by apply Honly.
    - wp_ret. split; [done|]. by rewrite Hbuf. }
  intros _ s1 [Hs1 Hprior].
  wp_bind. apply wpx_get_buf. wp_bind.
  eapply wpx_mono;
    [by apply (Collect_Words_Inner_Loop_spec canon flags (heap s) (next s))
    | |done].
  cbv beta. intros _ s2 [Hs2 (more & Hm & Hall & _)].
  destruct Hs2 as (Hh2 & Hn2 & Hplain2 & Hnd2 & Hbind2).
  wp_bind. apply wpx_get_buf. wp_bind.
  eapply wpx_mono; [by apply reset_words_spec| |done].
  cbv beta. intros _ s3 (Hh3 & Hn3 & Hb3 & Hz3 & Hk3).
  assert (binds_zero s3) as Hzero3.
  { intros c. destruct (Hz3 c) as [H0|Heq]; [done|].
    destruct (Z.eq_dec (bind_at (Bind_Table s2) c) 0) as [Hc0|Hcn];
      [congruence|].
    apply Hk3. by apply Hbind2. }
  wp_bind. unfold Copy_Array_At_Max_Shallow.
  rewrite Hm, length_app, Nat.add_sub', drop_app_length, firstn_all.
  apply wpx_alloc.
  wp_bind. apply wpx_set_buf. wp_bind.
  apply wpx_ASSERT_BIND_TABLE_EMPTY; [done|]. wp_ret.
  split; [congruence|]. exists more. st_simpl.
  rewrite Hm, word_canons_app in Hnd2.
  apply NoDup_app in Hnd2 as (_ & Hdisj & Hndm).
  rewrite Hm in Hplain2. apply Forall_app in Hplain2 as [_ Hplainm].
  split; [congruence|]. split; [congruence|]. split; [done|].
  split; [done|]. split; [done|]. split; [done|]. split.
  - intros c Hc Hp. apply Hprior in Hp. by apply (Hdisj c).
  - intros k sym b Hin Hsel Hnp.
    specialize (Hall k sym b Hin Hsel).
    rewrite Hm, word_canons_app, elem_of_app in Hall.
    destruct Hall as [Hp|Hw]; [|done]. by apply Hprior in Hp.
Qed.

Lemma Collect_Words_clean_witness :
  binds_zero st_words ∧ BUF_COLLECT st_words = [] ∧
  ∃ words s',
    Collect_Words canon_id
        [AnyWord REB_WORD 10 None; Integer 5;
         AnyWord REB_SET_WORD 11 None; AnyWord REB_WORD 11 None]
        (Some [AnyWord REB_WORD 11 None]) COLLECT_ANY_WORD st_words
      = Done 2%positive s' ∧
    heap s' = <[2%positive := mkSer words 0 false false false false
                                    None None]> (heap st_words) ∧
    next s' = 3%positive ∧
    binds_zero s' ∧ BUF_COLLECT s' = [] ∧
    plain_words words ∧ NoDup (word_canons canon_id words) ∧
    (∀ c, c ∈ word_canons canon_id words →
          c ∉ word_canons canon_id [AnyWord REB_WORD 11 None]) ∧
    (∀ k sym b,
       AnyWord k sym b
         ∈ [AnyWord REB_WORD 10 None; Integer 5;
            AnyWord REB_SET_WORD 11 None; AnyWord REB_WORD 11 None] →
       IS_SET_WORD (AnyWord k sym b)
       || flag_set COLLECT_ANY_WORD COLLECT_ANY_WORD = true →
       canon_id sym ∉ word_canons canon_id [AnyWord REB_WORD 11 None] →
       canon_id sym ∈ word_canons canon_id words).
Proof.
  assert (binds_zero st_words) as Hz by (intros c; reflexivity).
  split; [exact Hz|]. split; [reflexivity|].
  apply (Collect_Words_clean canon_id
           [AnyWord REB_WORD 10 None; Integer 5;
            AnyWord REB_SET_WORD 11 None; AnyWord REB_WORD 11 None]
           (Some [AnyWord REB_WORD 11 None]) COLLECT_ANY_WORD st_words);
    [exact Hz|reflexivity].
Defined.

(** *** Collect_Keylist_Managed *)

(** A scan that returns has only added to the buffer. *)
Lemma Collect_Context_Inner_Loop_value_grows canon flags stale v :
  ∀ s, wlx (Collect_Context_Inner_Loop_value canon flags stale v) s
         (fun _ s' =>
            (length (BUF_COLLECT s) ≤ length (BUF_COLLECT s'))%nat ∧
            next s' = next s)
         (fun _ _ => True).
Proof.
  induction v as [| | |i|t|k sym b|k at_ IH|k vl e]
    using RELVAL_nested_ind; intros s;
    try (cbn [Collect_Context_Inner_Loop_value]; wp_ret; done).
  - cbn [Collect_Context_Inner_Loop_value]. wp_bind. apply wlx_binds_get.
    destruct (Z.eqb (bind_at (Bind_Table s) (canon sym)) 0).
    + destruct (IS_SET_WORD (AnyWord k sym b)
                || flag_set flags COLLECT_ANY_WORD); [|wp_ret; done].
      wp_bind. apply wlx_get_buf. wp_bind. apply wlx_binds_set.
      apply wlx_set_buf. st_simpl. rewrite length_app. split; [lia|done].
    + destruct (flag_set flags COLLECT_NO_DUP); [|wp_ret; done].
      wp_bind. apply wlx_get_buf. wp_bind.
      eapply wlx_mono; [apply wlx_any| |done].
      cbv beta. intros _ s' _. wp_bind. apply wlx_set_buf.
      by apply wlx_fail.
  - cbn [Collect_Context_Inner_Loop_value].
    destruct (ANY_EVAL_BLOCK (AnyArray k at_) && flag_set flags COLLECT_DEEP);
      [|wp_ret; done].
    apply (wlx_for_each _
             (fun s1 => (length (BUF_COLLECT s) ≤ length (BUF_COLLECT s1))%nat
                        ∧ next s1 = next s)); [done|].
    intros x s1 Hx [Hlen Hn]. rewrite Forall_forall in IH.
    eapply wlx_mono; [by apply IH| |done].
    cbv beta. intros _ s2 [Hlen2 Hn2]. split; [lia|congruence].
Qed.


(** The walk of Collect_Keys_End. *)
Lemma Collect_Keys_End_walk {E} canon l s :
  all_typesets l →
  wpx (for_each (fun key =>
         assert (IS_TYPESET key);;
         c ← VAL_TYPESET_CANON canon key; binds_set c 0) l) s
      (fun _ s' =>
         heap s' = heap s ∧ next s' = next s ∧
         BUF_COLLECT s' = BUF_COLLECT s ∧
         (∀ c, bind_at (Bind_Table s') c = 0
               ∨ bind_at (Bind_Table s') c = bind_at (Bind_Table s) c) ∧
         (∀ t, Typeset t ∈ l →
               bind_at (Bind_Table s') (canon (ts_sym t)) = 0))
      E.
Proof.
  intros Hl. revert s. induction Hl as [|key l Hkey Hl IH]; intros s.
  - cbn. repeat split; auto. intros t Ht. by apply elem_of_nil in Ht.
  - cbn [for_each]. wp_bind. wp_bind. wp_assert. wp_bind.
    destruct key as [| | | |t| | |]; try discriminate Hkey.
    cbn [VAL_TYPESET_CANON]. wp_ret. apply wpx_binds_set.
    eapply wpx_mono; [apply IH| |auto].
    cbv beta. intros _ s' (Hh & Hn & Hb & Hz & Hk).
    cbn [heap next Bind_Table BUF_COLLECT with_binds] in *.
    split; [done|]. split; [done|]. split; [done|]. split.
    + intros c. destruct (Hz c) as [H0|Heq]; [by left|].
      rewrite Heq, bind_at_insert. case_decide; auto.
    + intros t' Ht'. apply elem_of_cons in Ht' as [[= ->]|Ht'];
        [|by apply Hk].
      destruct (Hz (canon (ts_sym t))) as [H0|Heq]; [done|].
      rewrite Heq, bind_at_insert. by rewrite decide_True.
Qed.

Lemma Collect_Keys_End_run {E} canon s (Q : unit → State → Prop) :
  binds_covered canon s → all_typesets (BUF_COLLECT s) →
  (1 ≤ length (BUF_COLLECT s))%nat →
  (∀ s', heap s' = heap s → next s' = next s → binds_zero s' →
         BUF_COLLECT s' = [] → Q tt s') →
  wpx (Collect_Keys_End canon) s Q E.
Proof.
  intros Hcov Hty Hlen HQ. unfold Collect_Keys_End.
  wp_bind. apply wpx_get_buf.
  wp_bind. apply wpx_assert; [by apply Nat.leb_le|].
  wp_bind. eapply wpx_mono; [by apply Collect_Keys_End_walk| |done].
  cbv beta. intros _ s1 (Hh & Hn & Hb & Hz & Hk).
  wp_bind. apply wpx_set_buf.
  assert (binds_zero (with_buf [] s1)) as Hzero.
  { intros c. st_simpl. destruct (Hz c) as [H0|Heq]; [done|].
    destruct (Z.eq_dec (bind_at (Bind_Table s) c) 0) as [Hc0|Hcn];
      [congruence|].
    destruct (Hcov c Hcn) as (t & Ht & <-). by apply Hk. }
  apply wpx_ASSERT_BIND_TABLE_EMPTY; [done|]. by apply HQ.
Qed.




(** *** Collect_Context_Inner_Loop: the table indexes the buffer *)

Lemma scan_indexes_refl canon flags s v :
  (∀ k sym b, v = AnyWord k sym b →
     IS_SET_WORD v || flag_set flags COLLECT_ANY_WORD = true →
     bind_at (Bind_Table s) (canon sym) ≠ 0) →
  scan_indexes canon flags [v] s s.
Proof.
  intros Hv. split; [exists []; by rewrite app_nil_r|]. split; [done|].
  intros k sym b Hin Hsel. apply list_elem_of_singleton in Hin.
  subst v. by eapply Hv.
Qed.

Lemma Collect_Context_Inner_Loop_value_indexes canon flags stale v :
  ∀ s, buf_indexed canon s → (1 ≤ length (BUF_COLLECT s))%nat →
       wlx (Collect_Context_Inner_Loop_value canon flags stale v) s
         (fun _ s' =>
            buf_indexed canon s' ∧ scan_indexes canon flags [v] s s')
         (fun _ _ => True).
Proof.
  induction v as [| | |i|t|k sym b|k at_ IH|k vl e]
    using RELVAL_nested_ind; intros s Hidx Hlen;
    try (cbn [Collect_Context_Inner_Loop_value]; wp_ret;
         split; [done|]; by apply scan_indexes_refl).
  - (* a word *)
    cbn [Collect_Context_Inner_Loop_value]. wp_bind. apply wlx_binds_get.
    destruct (Z.eqb_spec (bind_at (Bind_Table s) (canon sym)) 0) as [Hz|Hnz].
    + destruct (IS_SET_WORD (AnyWord k sym b)
                || flag_set flags COLLECT_ANY_WORD) eqn:Hsel.
      * wp_bind. apply wlx_get_buf. wp_bind. apply wlx_binds_set.
        apply wlx_set_buf. st_simpl. split.
        -- intros i t Hi Ht. st_simpl. rewrite bind_at_insert.
           apply lookup_app_Some in Ht as [Ht|[Hge Ht]].
           ++ pose proof (Hidx i t Hi Ht) as Hb.
              case_decide as Hc; [|done]. rewrite <- Hc in Hb. lia.
           ++ apply list_lookup_singleton_Some in Ht as [Hi0 [= <-]].
              cbn [ts_sym]. rewrite decide_True by done. lia.
        -- split; [by eexists|]. st_simpl. split.
           ++ intros c Hc. rewrite bind_at_insert.
              case_decide as Hcc; [|done]. by subst c.
           ++ intros k' sym' b' Hin _.
              apply list_elem_of_singleton in Hin. injection Hin as _ <- _.
              rewrite bind_at_insert, decide_True by done. lia.
      * wp_ret. split; [done|]. apply scan_indexes_refl.
        intros k' sym' b' [= -> -> ->]. congruence.
    + destruct (flag_set flags COLLECT_NO_DUP).
      * wp_bind. apply wlx_get_buf. wp_bind.
        eapply wlx_mono; [apply wlx_any| |done].
        cbv beta. intros _ s' _. wp_bind. apply wlx_set_buf.
        by apply wlx_fail.
      * wp_ret. split; [done|]. apply scan_indexes_refl.
        by intros k' sym' b' [= _ <- _] _.
  - (* an array *)
    cbn [Collect_Context_Inner_Loop_value].
    destruct (ANY_EVAL_BLOCK (AnyArray k at_) && flag_set flags COLLECT_DEEP);
      [|wp_ret; split; [done|]; by apply scan_indexes_refl].
    eapply wlx_mono;
      [apply (wlx_for_each _
                (fun s1 =>
                   buf_indexed canon s1 ∧
                   (∃ more, BUF_COLLECT s1 = BUF_COLLECT s ++ more) ∧
                   ∀ c, bind_at (Bind_Table s) c ≠ 0 →
                        bind_at (Bind_Table s1) c
                          = bind_at (Bind_Table s) c))
      | |done].
    + split; [done|]. split; [exists []; by rewrite app_nil_r|done].
    + intros x s1 Hx (Hidx1 & [more1 Hm1] & Hmono1).
      rewrite Forall_forall in IH.
      eapply wlx_mono;
        [apply (IH x Hx s1 Hidx1); rewrite Hm1, length_app; lia| |done].
      cbv beta. intros _ s2 (Hidx2 & [more2 Hm2] & Hmono2 & _).
      split; [done|]. split.
      * exists (more1 ++ more2). by rewrite Hm2, Hm1, app_assoc.
      * intros c Hc. rewrite <- (Hmono1 c Hc). apply Hmono2.
        by rewrite Hmono1.
    + cbv beta. intros _ s' (Hidx' & Hmore & Hmono). split; [done|].
      split; [done|]. split; [done|].
      intros k' sym' b' Hin. by apply list_elem_of_singleton in Hin.
Qed.

Lemma Collect_Context_Inner_Loop_indexes canon flags stale l :
  ∀ s, buf_indexed canon s → (1 ≤ length (BUF_COLLECT s))%nat →
       wlx (Collect_Context_Inner_Loop canon flags stale l) s
         (fun _ s' => buf_indexed canon s' ∧ scan_indexes canon flags l s s')
         (fun _ _ => True).
Proof.
  unfold Collect_Context_Inner_Loop.
  induction l as [|v l IH]; intros s Hidx Hlen.
  - cbn [for_each]. wp_ret. split; [done|].
    split; [exists []; by rewrite app_nil_r|]. split; [done|].
    intros k sym b Hin. by apply elem_of_nil in Hin.
  - cbn [for_each]. wp_bind.
    eapply wlx_mono;
      [by apply Collect_Context_Inner_Loop_value_indexes| |done].
    cbv beta. intros _ s1 (Hidx1 & [more1 Hm1] & Hmono1 & Hall1).
    eapply wlx_mono; [apply IH; [done|rewrite Hm1, length_app; lia]| |done].
    cbv beta. intros _ s2 (Hidx2 & [more2 Hm2] & Hmono2 & Hall2).
    split; [done|]. split.
    { exists (more1 ++ more2). by rewrite Hm2, Hm1, app_assoc. }
    split.
    + intros c Hc. rewrite <- (Hmono1 c Hc). apply Hmono2.
      by rewrite Hmono1.
    + intros k sym b Hin Hsel. apply elem_of_cons in Hin as [<-|Hin].
      * assert (bind_at (Bind_Table s1) (canon sym) ≠ 0) as Hb
          by (eapply Hall1; [by apply list_elem_of_singleton|done]).
        by rewrite (Hmono2 _ Hb).
      * by eapply Hall2.
Qed.

Lemma buf_indexed_distinct canon s :
  buf_indexed canon s → keys_distinct canon (BUF_COLLECT s).
Proof.
  intros Hidx i j t u Hi Hj Ht Hu Hc.
  pose proof (Hidx i t Hi Ht) as Hbi. pose proof (Hidx j u Hj Hu) as Hbj.
  rewrite Hc in Hbi. lia.
Qed.



(** *** A duplicate stops the scan *)




(** *** Collect_Context_Keys *)

Lemma key_canons_elem canon l c :
  c ∈ key_canons canon l ↔ ∃ t, Typeset t ∈ l ∧ canon (ts_sym t) = c.
Proof.
  unfold key_canons. rewrite list_elem_of_omap. split.
  - intros (v & Hv & Hc). destruct v; try done. injection Hc as <-. eauto.
  - intros (t & Hv & <-). eauto.
Qed.

(** The loop that enters the keys no key of the buffer has the canon of:
    [buf] is the buffer, [collected] what the loop has added so far. *)
Lemma Collect_Context_Keys_dups_spec {E} canon buf keys :
  all_typesets keys → (1 ≤ length buf)%nat →
  ∀ collected s,
    (∀ i t, (1 ≤ i)%nat → (buf ++ collected) !! i = Some (Typeset t) →
            bind_at (Bind_Table s) (canon (ts_sym t)) = Z.of_nat i) →
    wpx (Collect_Context_Keys_dups canon keys collected
           (Z.of_nat (length (buf ++ collected)))) s
      (fun r s' =>
         heap s' = heap s ∧ next s' = next s ∧
         BUF_COLLECT s' = BUF_COLLECT s ∧
         ∃ added,
           r = collected ++ added ∧ sublist added keys ∧
           (∀ i t, (1 ≤ i)%nat → (buf ++ r) !! i = Some (Typeset t) →
                   bind_at (Bind_Table s') (canon (ts_sym t)) = Z.of_nat i) ∧
           (∀ c, bind_at (Bind_Table s) c ≠ 0 →
                 bind_at (Bind_Table s') c = bind_at (Bind_Table s) c) ∧
           (∀ c, bind_at (Bind_Table s') c ≠ 0 →
                 bind_at (Bind_Table s) c ≠ 0 ∨ c ∈ key_canons canon added) ∧
           (∀ c, c ∈ key_canons canon keys →
                 bind_at (Bind_Table s') c ≠ 0) ∧
           (∀ c, c ∈ key_canons canon added →
                 bind_at (Bind_Table s) c = 0)) E.
Proof.
  intros Hkeys Hbuf.
  induction Hkeys as [|key keys Hkey Hkeys IH]; intros collected s Hidx.
  - cbn [Collect_Context_Keys_dups]. wp_ret.
    split; [done|]. split; [done|]. split; [done|]. exists [].
    split; [by rewrite app_nil_r|]. split; [constructor|].
    split; [done|]. split; [done|]. split; [by left|].
    split; intros c Hc; by apply elem_of_nil in Hc.
  - destruct key as [| | | |t| | |]; try discriminate Hkey.
    cbn [Collect_Context_Keys_dups VAL_TYPESET_CANON]. wp_bind. wp_ret.
    wp_bind. apply wpx_binds_get.
    destruct (Z.eqb_spec (bind_at (Bind_Table s) (canon (ts_sym t))) 0)
      as [Hz|Hnz]; cbn [negb].
    + wp_bind. apply wpx_binds_set.
      replace (Z.of_nat (length (buf ++ collected)) + 1)
        with (Z.of_nat (length (buf ++ (collected ++ [Typeset t]))))
        by (rewrite !length_app; cbn [length]; lia).
      eapply wpx_mono; [apply IH| |done].
      * intros i u Hi Hu. st_simpl. rewrite bind_at_insert.
        rewrite app_assoc in Hu.
        apply lookup_app_Some in Hu as [Hu|[Hge Hu]].
        -- pose proof (Hidx i u Hi Hu) as Hb.
           case_decide as Hc; [|done]. rewrite <- Hc in Hb. lia.
        -- apply list_lookup_singleton_Some in Hu as [Hi0 [= <-]].
           rewrite decide_True by done. lia.
      * cbv beta.
        intros r s' (Hh & Hn & Hb & added & -> & Hsub & Hidx' & Hmono
                     & Hnew & Hall & Hfresh).
        cbn [heap next Bind_Table BUF_COLLECT with_binds] in *.
        split; [done|]. split; [done|]. split; [done|].
        exists (Typeset t :: added).
        split; [by rewrite <- app_assoc|]. split; [by apply sublist_skip|].
        split; [done|]. split.
        { intros c Hc. rewrite Hmono; rewrite bind_at_insert;
            case_decide as Hcc; try done; by subst c. }
        split.
        { intros c Hc. destruct (Hnew c Hc) as [Hold|Hin].
          - rewrite bind_at_insert in Hold. case_decide as Hcc; [|by left].
            right. subst c. apply key_canons_elem. exists t.
            split; [by left|done].
          - right. apply key_canons_elem in Hin as (u & Hu & <-).
            apply key_canons_elem. exists u. split; [by right|done]. }
        split.
        { intros c Hc. apply key_canons_elem in Hc as (u & Hu & <-).
          apply elem_of_cons in Hu as [[= ->]|Hu].
          - rewrite Hmono; rewrite bind_at_insert, decide_True by done;
              rewrite length_app; lia.
          - apply Hall. apply key_canons_elem. eauto. }
        intros c Hc. apply key_canons_elem in Hc as (u & Hu & <-).
        apply elem_of_cons in Hu as [[= ->]|Hu]; [done|].
        assert (bind_at (<[canon (ts_sym t) := Z.of_nat
                             (length (buf ++ collected))]> (Bind_Table s))
                        (canon (ts_sym u)) = 0) as H0.
        { apply Hfresh. apply key_canons_elem. eauto. }
        rewrite bind_at_insert in H0. case_decide as Hcc; [|done].
        rewrite length_app in H0. lia.
    + eapply wpx_mono; [by apply IH| |done].
      cbv beta.
      intros r s' (Hh & Hn & Hb & added & -> & Hsub & Hidx' & Hmono
                   & Hnew & Hall & Hfresh).
      split; [done|]. split; [done|]. split; [done|].
      exists added. split; [done|]. split; [by apply sublist_cons|].
      split; [done|]. split; [done|]. split; [done|]. split; [|done].
      intros c Hc. apply key_canons_elem in Hc as (u & Hu & <-).
      apply elem_of_cons in Hu as [[= ->]|Hu].
      * by rewrite Hmono.
      * apply Hall. apply key_canons_elem. eauto.
Qed.

(** X22.  Collect_Context_Keys with [check_dups] adds to the buffer the
    keys of the context that bring a new canon, and those only.  Started
    with the rootkey in the buffer and the table holding the slot of every
    key of the buffer, on a context whose keylist holds typesets, it
    returns with no series changed; what it added is a selection, in
    order, of the keys of the context, each of a canon the table did not
    hold; every key of the context now has a key of its canon in the
    buffer; and the table again holds the slot of every key, so that no two
    keys of the buffer have one canon. *)
Theorem Collect_Context_Keys_check_dups canon context s cv k kv :
  heap s !! context = Some cv → link_keylist cv = Some k →
  heap s !! k = Some kv → (1 ≤ length (ser_cells kv))%nat →
  all_typesets (ser_cells kv) →
  buf_indexed canon s → (1 ≤ length (BUF_COLLECT s))%nat →
  ∃ added s',
    Collect_Context_Keys canon context true s = Done tt s' ∧
    heap s' = heap s ∧ next s' = next s ∧
    BUF_COLLECT s' = BUF_COLLECT s ++ added ∧
    sublist added (drop 1 (ser_cells kv)) ∧
    (∀ c, c ∈ key_canons canon added → bind_at (Bind_Table s) c = 0) ∧
    (∀ c, c ∈ key_canons canon (drop 1 (ser_cells kv)) →
          c ∈ key_canons canon (drop 1 (BUF_COLLECT s'))
          ∨ bind_at (Bind_Table s) c ≠ 0) ∧
    buf_indexed canon s' ∧ keys_distinct canon (BUF_COLLECT s') ∧
    (binds_covered canon s → binds_covered canon s').
Proof.
  intros Hc Hl Hk Hklen Hkty Hidx Hlen.
  cut (wpx (Collect_Context_Keys canon context true) s
         (fun _ s' =>
            ∃ added,
              heap s' = heap s ∧ next s' = next s ∧
              BUF_COLLECT s' = BUF_COLLECT s ++ added ∧
              sublist added (drop 1 (ser_cells kv)) ∧
              (∀ c, c ∈ key_canons canon added →
                    bind_at (Bind_Table s) c = 0) ∧
              (∀ c, c ∈ key_canons canon (drop 1 (ser_cells kv)) →
                    c ∈ key_canons canon (drop 1 (BUF_COLLECT s'))
                    ∨ bind_at (Bind_Table s) c ≠ 0) ∧
              buf_indexed canon s' ∧ keys_distinct canon (BUF_COLLECT s') ∧
              (binds_covered canon s → binds_covered canon s')) no_fail).
  { intros H. apply wpx_done in H as ([] & s' & Hrun & added & H).
    by exists added, s'. }
  unfold Collect_Context_Keys.
  wp_bind. wp_keylist. wp_bind. wp_ser.
  wp_bind. apply wpx_get_buf.
  wp_bind. apply wpx_assert; [apply Z.leb_le; lia|].
  wp_bind. unfold CTX_LEN. wp_bind. wp_keylist.
  wp_bind. eapply wpx_ARR_LEN; [done|]. wp_ret.
  wp_bind.
  assert (all_typesets (drop 1 (ser_cells kv))) as Hkeys
    by (by apply Forall_drop).
  replace (Z.of_nat (length (BUF_COLLECT s)))
    with (Z.of_nat (length (BUF_COLLECT s ++ []))) by (by rewrite app_nil_r).
  eapply wpx_mono;
    [apply (Collect_Context_Keys_dups_spec canon (BUF_COLLECT s));
       [done|done|by rewrite app_nil_r]
    | |done].
  cbv beta.
  intros r s1 (Hh & Hn & Hb & added & -> & Hsub & Hidx' & Hmono & Hnew
               & Hall & Hfresh).
  cbn [app] in *. apply wpx_set_buf. exists added. st_simpl.
  assert (buf_indexed canon (with_buf (BUF_COLLECT s ++ added) s1)) as Hbi
    by (intros i t Hi Ht; by apply Hidx').
  split; [done|]. split; [done|]. split; [done|]. split; [done|].
  split; [done|]. split.
  { intros c Hcin.
    destruct (Z.eq_dec (bind_at (Bind_Table s) c) 0) as [Hz|Hnz];
      [left|by right].
    pose proof (Hall c Hcin) as Hne.
    destruct (Hnew c Hne) as [Hold|Hin]; [done|].
    apply key_canons_elem in Hin as (t & Ht & <-).
    apply key_canons_elem. exists t. split; [|done].
    apply list_elem_of_lookup in Ht as [j Hj].
    apply (list_elem_of_lookup_2 _ (length (BUF_COLLECT s) - 1 + j)).
    rewrite lookup_drop, lookup_app_r by lia.
    rewrite <- Hj. f_equal. lia. }
  split; [exact Hbi|]. split; [by apply (buf_indexed_distinct _ _ Hbi)|].
  intros Hcov c Hne.
  cbn [heap next Bind_Table BUF_COLLECT with_buf] in Hne |- *.
  destruct (Hnew c Hne) as [Hold|Hin].
  - destruct (Hcov c Hold) as (t & Ht & Hct).
    exists t. split; [apply elem_of_app; by left|done].
  - apply key_canons_elem in Hin as (t & Ht & Hct).
    exists t. split; [apply elem_of_app; by right|done].
Qed.

Lemma Collect_Context_Keys_check_dups_witness :
  buf_indexed canon_id st_collected ∧
  ∃ added s',
    Collect_Context_Keys canon_id 3 true st_collected = Done tt s' ∧
    heap s' = heap st_collected ∧ next s' = next st_collected ∧
    BUF_COLLECT s' = BUF_COLLECT st_collected ++ added ∧
    sublist added (drop 1 [key 0 false; key 10 false; key 11 false]) ∧
    (∀ c, c ∈ key_canons canon_id added →
          bind_at (Bind_Table st_collected) c = 0) ∧
    (∀ c, c ∈ key_canons canon_id
                (drop 1 [key 0 false; key 10 false; key 11 false]) →
          c ∈ key_canons canon_id (drop 1 (BUF_COLLECT s'))
          ∨ bind_at (Bind_Table st_collected) c ≠ 0) ∧
    buf_indexed canon_id s' ∧ keys_distinct canon_id (BUF_COLLECT s') ∧
    (binds_covered canon_id st_collected → binds_covered canon_id s').
Proof.
  assert (buf_indexed canon_id st_collected) as Hidx.
  { intros i t Hi Ht. unfold st_collected in *. cbn in Ht.
    destruct i as [|[|[|i]]]; [lia| | |done].
    - injection Ht as <-. reflexivity.
    - injection Ht as <-. reflexivity. }
  split; [exact Hidx|].
  apply (Collect_Context_Keys_check_dups canon_id 3%positive st_collected
           (varlist [object 3; Integer 5; Integer 6] 2) 2%positive
           (keylist [key 0 false; key 10 false; key 11 false] true
                    (Some 4%positive)));
    [reflexivity|reflexivity|reflexivity|cbn; lia|by repeat constructor
    |exact Hidx|cbn; lia].
Defined.

Lemma Collect_Context_Keys_nodups_index {E} canon keys :
  all_typesets keys → NoDup (key_canons canon keys) →
  ∀ i s,
    wpx (Collect_Context_Keys_nodups canon keys i) s
      (fun _ s' =>
         heap s' = heap s ∧ next s' = next s ∧
         BUF_COLLECT s' = BUF_COLLECT s ∧
         (∀ j t, keys !! j = Some (Typeset t) →
                 bind_at (Bind_Table s') (canon (ts_sym t))
                   = i + Z.of_nat j) ∧
         (∀ c, c ∉ key_canons canon keys →
               bind_at (Bind_Table s') c = bind_at (Bind_Table s) c)) E.
Proof.
  intros Hkeys. induction Hkeys as [|key keys Hkey Hkeys IH]; intros Hnd i s.
  - cbn. repeat split; auto. intros j t Hj. done.
  - destruct key as [| | | |t| | |]; try discriminate Hkey.
    cbn [key_canons omap] in Hnd. fold (key_canons canon keys) in Hnd.
    apply NoDup_cons in Hnd as [Hnew Hnd].
    cbn [Collect_Context_Keys_nodups VAL_TYPESET_CANON]. wp_bind. wp_ret.
    wp_bind. apply wpx_binds_set.
    eapply wpx_mono; [by apply IH| |done].
    cbv beta. intros _ s' (Hh & Hn & Hb & Hidx & Hoth).
    cbn [heap next Bind_Table BUF_COLLECT with_binds] in *.
    split; [done|]. split; [done|]. split; [done|]. split.
    + intros [|j] u Hu.
      * injection Hu as <-. rewrite Hoth by done.
        rewrite bind_at_insert, decide_True by done. lia.
      * rewrite (Hidx j u Hu). lia.
    + intros c Hc. cbn [key_canons omap] in Hc.
      fold (key_canons canon keys) in Hc.
      apply not_elem_of_cons in Hc as [Hct Hc].
      rewrite Hoth by done. by rewrite bind_at_insert, decide_False.
Qed.

(** X23.  Collect_Context_Keys without [check_dups] copies the keys of the
    context to the tail of the buffer as they are.  Started with the
    rootkey in the buffer and the table holding the slot of every key of
    the buffer, on a context whose keys are typesets of different canons
    that the table does not hold, it returns with no series changed, and
    the table again holds the slot of every key of the buffer. *)
Theorem Collect_Context_Keys_copies canon context s cv k kv :
  heap s !! context = Some cv → link_keylist cv = Some k →
  heap s !! k = Some kv → (1 ≤ length (ser_cells kv))%nat →
  all_typesets (ser_cells kv) →
  NoDup (key_canons canon (drop 1 (ser_cells kv))) →
  (∀ c, c ∈ key_canons canon (drop 1 (ser_cells kv)) →
        bind_at (Bind_Table s) c = 0) →
  buf_indexed canon s → (1 ≤ length (BUF_COLLECT s))%nat →
  ∃ s',
    Collect_Context_Keys canon context false s = Done tt s' ∧
    heap s' = heap s ∧ next s' = next s ∧
    BUF_COLLECT s' = BUF_COLLECT s ++ drop 1 (ser_cells kv) ∧
    buf_indexed canon s' ∧ keys_distinct canon (BUF_COLLECT s') ∧
    (binds_covered canon s → binds_covered canon s').
Proof.
  intros Hc Hl Hk Hklen Hkty Hnd Hnew Hidx Hlen.
  cut (wpx (Collect_Context_Keys canon context false) s
         (fun _ s' =>
            heap s' = heap s ∧ next s' = next s ∧
            BUF_COLLECT s' = BUF_COLLECT s ++ drop 1 (ser_cells kv) ∧
            buf_indexed canon s' ∧ keys_distinct canon (BUF_COLLECT s') ∧
            (binds_covered canon s → binds_covered canon s')) no_fail).
  { intros H. apply wpx_done in H as ([] & s' & Hrun & H). by exists s'. }
  unfold Collect_Context_Keys.
  wp_bind. wp_keylist. wp_bind. wp_ser.
  wp_bind. apply wpx_get_buf.
  wp_bind. apply wpx_assert; [apply Z.leb_le; lia|].
  wp_bind. unfold CTX_LEN. wp_bind. wp_keylist.
  wp_bind. eapply wpx_ARR_LEN; [done|]. wp_ret.
  wp_bind. apply wpx_set_buf.
  assert (all_typesets (drop 1 (ser_cells kv))) as Hkeys
    by (by apply Forall_drop).
  eapply wpx_mono; [by apply Collect_Context_Keys_nodups_index| |done].
  cbv beta. intros _ s' (Hh & Hn & Hb & Hidx' & Hoth).
  cbn [heap next Bind_Table BUF_COLLECT with_buf] in *.
  rewrite firstn_all2 in Hb by (rewrite length_drop; lia).
  assert (buf_indexed canon s') as Hbi.
  { intros i t Hi Ht. rewrite Hb in Ht.
    apply lookup_app_Some in Ht as [Ht|[Hge Ht]].
    - pose proof (Hidx i t Hi Ht) as Hold. rewrite Hoth; [done|].
      intros Hin. apply Hnew in Hin. lia.
    - rewrite (Hidx' _ t Ht). lia. }
  split; [done|]. split; [done|]. split; [done|]. split; [done|].
  split; [by apply buf_indexed_distinct|].
  intros Hcov c Hne. rewrite Hb.
  destruct (decide (c ∈ key_canons canon (drop 1 (ser_cells kv))))
    as [Hin|Hnin].
  - apply key_canons_elem in Hin as (t & Ht & Hct).
    exists t. split; [apply elem_of_app; by right|done].
  - rewrite Hoth in Hne by done.
    destruct (Hcov c Hne) as (t & Ht & Hct).
    exists t. split; [apply elem_of_app; by left|done].
Qed.

Lemma Collect_Context_Keys_copies_witness :
  ∃ s',
    Collect_Context_Keys canon_id 1 false
        (with_buf [key 0 false] st_shared)
      = Done tt s' ∧
    heap s' = heap st_shared ∧ next s' = next st_shared ∧
    BUF_COLLECT s'
      = [key 0 false] ++ drop 1 [key 0 false; key 10 false; key 11 false] ∧
    buf_indexed canon_id s' ∧ keys_distinct canon_id (BUF_COLLECT s') ∧
    (binds_covered canon_id (with_buf [key 0 false] st_shared) →
     binds_covered canon_id s').
Proof.
  apply (Collect_Context_Keys_copies canon_id 1%positive
           (with_buf [key 0 false] st_shared)
           (varlist [object 1; Integer 1; Integer 2] 2) 2%positive
           (keylist [key 0 false; key 10 false; key 11 false] true
                    (Some 4%positive))).
  - reflexivity.
  - reflexivity.
  - reflexivity.
  - cbn. lia.
  - by repeat constructor.
  - apply (bool_decide_unpack _). vm_compute. exact I.
  - intros c Hc. reflexivity.
  - intros i t Hi Ht. destruct i as [|i]; [lia|done].
  - cbn. lia.
Defined.

(** *** Copy_Context_Shallow_Extra: the variables *)

(** X24.  A shallow copy has the variables of its source, by value, under
    keys that read the same, and a root value of the source's kind that
    names the copy, not the source.  The copy is a series the store did
    not hold, flagged as a varlist; the source's varlist is as it was, and
    neither the table nor the buffer is touched.  This holds with and
    without room for extra keys. *)
Theorem Copy_Context_Shallow_Extra_values
    s src extra sv k kv kind vl ef cells :
  heap_wf s →
  heap s !! src = Some sv → ARRAY_FLAG_CONTEXT_VARLIST sv = true →
  link_keylist sv = Some k →
  heap s !! k = Some kv → SERIES_FLAG_MANAGED kv = true →
  ser_cells sv = AnyContext kind vl ef :: cells → src ≠ k →
  ∃ dest s' dv,
    Copy_Context_Shallow_Extra src extra s = Done dest s' ∧
    heap s !! dest = None ∧
    heap s' !! dest = Some dv ∧
    ser_cells dv = AnyContext kind dest ef :: cells ∧
    ARRAY_FLAG_CONTEXT_VARLIST dv = true ∧
    vars_of s' dest = vars_of s src ∧
    keys_of s' dest = keys_of s src ∧
    heap s' !! src = Some sv ∧
    Bind_Table s' = Bind_Table s ∧ BUF_COLLECT s' = BUF_COLLECT s.
Proof.
  intros Hwf Hsrc Hfl Hk Hkv Hm Hc Hne.
  pose proof (heap_wf_lt _ _ _ Hwf Hsrc) as Hsrcn.
  pose proof (heap_wf_lt _ _ _ Hwf Hkv) as Hkn.
  pose proof (heap_wf_fresh _ Hwf) as Hfresh.
  cut (wpx (Copy_Context_Shallow_Extra src extra) s
         (fun dest s' =>
            ∃ dv,
              heap s !! dest = None ∧
              heap s' !! dest = Some dv ∧
              ser_cells dv = AnyContext kind dest ef :: cells ∧
              ARRAY_FLAG_CONTEXT_VARLIST dv = true ∧
              vars_of s' dest = vars_of s src ∧
              keys_of s' dest = keys_of s src ∧
              heap s' !! src = Some sv ∧
              Bind_Table s' = Bind_Table s ∧
              BUF_COLLECT s' = BUF_COLLECT s) no_fail).
  { intros H. apply wpx_done in H as (dest & s' & Hrun & dv & H).
    by exists dest, s', dv. }
  unfold Copy_Context_Shallow_Extra.
  wp_bind. wp_ser. wp_bind. wp_assert.
  wp_bind. wp_keylist.
  wp_bind. wp_ser. wp_bind. wp_assert.
  wp_bind. unfold CTX_META. wp_bind. wp_keylist.
  wp_bind. wp_ser. wp_ret.
  wp_bind. destruct (Nat.eqb_spec extra 0) as [->|Hex].
  - unfold Copy_Array_Shallow.
    wp_bind. wp_copy.
    wp_bind. wp_keylist.
    wp_bind. unfold INIT_CTX_KEYLIST_SHARED.
    wp_bind. wp_modify.
    wp_modify.
    wp_ret.
    wp_bind. wp_modify.
    wp_bind. unfold CTX_VALUE.
    eapply wpx_ARR_AT; [map_lookup|simpl; rewrite Hc; done|].
    wp_bind. simpl. wp_ret.
    wp_bind. eapply wpx_ARR_PUT; [map_lookup|simpl; rewrite Hc; simpl; lia|].
    wp_bind. unfold INIT_CONTEXT_META. wp_bind.
    wp_keylist.
    wp_modify.
    wp_ret.
    unfold vars_of, keys_of, keylist_of.
    eexists. split; [exact Hfresh|].
    split; [map_lookup|]. split; [simpl; by rewrite Hc|]. split; [done|].
    split; [map_simpl; rewrite Hsrc; simpl; by rewrite Hc|].
    split; [do 3 (map_simpl; rewrite ?Hsrc, ?Hk, ?Hkv; simpl); done|].
    split; [map_simpl; done|]. done.
  - wp_bind. wp_copy.
    wp_bind. wp_copy.
    wp_bind. unfold INIT_CTX_KEYLIST_UNIQUE.
    wp_bind. wp_ser. wp_bind. wp_assert.
    wp_modify.
    wp_bind. wp_keylist.
    wp_bind. unfold MANAGE_ARRAY.
    wp_modify.
    wp_ret.
    wp_bind. wp_modify.
    wp_bind. unfold CTX_VALUE.
    eapply wpx_ARR_AT; [map_lookup|simpl; rewrite Hc; done|].
    wp_bind. simpl. wp_ret.
    wp_bind. eapply wpx_ARR_PUT; [map_lookup|simpl; rewrite Hc; simpl; lia|].
    wp_bind. unfold INIT_CONTEXT_META. wp_bind.
    wp_keylist.
    wp_modify.
    wp_ret.
    unfold vars_of, keys_of, keylist_of.
    assert (heap s !! Pos.succ (next s) = None) as Hfresh2.
    { destruct (heap s !! Pos.succ (next s)) eqn:H; [|done].
      pose proof (heap_wf_lt _ _ _ Hwf H). lia. }
    eexists. split; [exact Hfresh2|].
    split; [map_lookup|]. split; [simpl; by rewrite Hc|]. split; [done|].
    split; [map_simpl; rewrite Hsrc; simpl; by rewrite Hc|].
    split; [do 3 (map_simpl; rewrite ?Hsrc, ?Hk, ?Hkv; simpl); done|].
    split; [map_simpl; done|]. done.
Qed.

Lemma Copy_Context_Shallow_Extra_values_witness :
  ∃ dest s' dv,
    Copy_Context_Shallow_Extra 1 2 st_shared = Done dest s' ∧
    heap st_shared !! dest = None ∧
    heap s' !! dest = Some dv ∧
    ser_cells dv = object dest :: [Integer 1; Integer 2] ∧
    ARRAY_FLAG_CONTEXT_VARLIST dv = true ∧
    vars_of s' dest = vars_of st_shared 1 ∧
    keys_of s' dest = keys_of st_shared 1 ∧
    heap s' !! 1%positive
      = Some (varlist [object 1; Integer 1; Integer 2] 2) ∧
    Bind_Table s' = Bind_Table st_shared ∧
    BUF_COLLECT s' = BUF_COLLECT st_shared.
Proof.
  apply (Copy_Context_Shallow_Extra_values st_shared 1%positive 2%nat
           (varlist [object 1; Integer 1; Integer 2] 2) 2%positive
           (keylist [key 0 false; key 10 false; key 11 false] true
                    (Some 4%positive))
           (Some REB_OBJECT) 1%positive None [Integer 1; Integer 2]).
  - by_compute.
  - reflexivity.
  - reflexivity.
  - reflexivity.
  - reflexivity.
  - reflexivity.
  - reflexivity.
  - done.
Defined.

(** *** Expand_Context, then Append_Context *)

Lemma Expand_Context_shared_run {E} s c delta cv k kv
    (Q : unit → State → Prop) :
  heap_wf s →
  heap s !! c = Some cv → link_keylist cv = Some k →
  heap s !! k = Some kv → KEYLIST_FLAG_SHARED kv = true →
  c ≠ k → (0 < delta)%nat →
  (∀ s', unshared c cv kv delta s s' → Q tt s') →
  wpx (Expand_Context c delta) s Q E.
Proof.
  intros Hwf Hc Hk Hkv Hsh Hne Hd HQ.
  pose proof (heap_wf_lt _ _ _ Hwf Hc) as Hcn.
  pose proof (heap_wf_lt _ _ _ Hwf Hkv) as Hkn.
  unfold Expand_Context, Extend_Series.
  wp_bind. wp_modify.
  wp_bind. unfold Expand_Context_Keylist_Core.
  destruct (Nat.eqb_spec delta 0) as [->|_]; [lia|].
  wp_bind. wp_keylist.
  wp_bind. wp_ser. rewrite Hsh.
  wp_bind. wp_copy.
  wp_bind. wp_modify.
  wp_bind. unfold MANAGE_ARRAY. wp_modify.
  wp_bind. unfold INIT_CTX_KEYLIST_UNIQUE.
  wp_bind. wp_ser. wp_bind. wp_assert.
  wp_modify.
  wp_ret. wp_ret. apply HQ. unfold unshared.
  split; [map_lookup|]. split; [map_lookup|].
  split; [intros p Hp1 Hp2; by map_simpl|]. done.
Qed.

(** X25.  Expanding before appending keeps an append private.  On a
    context whose keylist is SHARED, Expand_Context by [delta > 0] followed
    by Append_Context of a symbol returns the index of the new variable and
    leaves the shared keylist, and every other series the store held, as it
    was: the key is at the tail of the copy of the keylist that the
    expansion made, which the context now links, not SHARED and with the
    meta of the old; the void variable is at the tail of the varlist. *)
Theorem Expand_Context_then_Append_Context s c delta sym cv k kv :
  heap_wf s →
  heap s !! c = Some cv → link_keylist cv = Some k →
  heap s !! k = Some kv → KEYLIST_FLAG_SHARED kv = true →
  c ≠ k → (0 < delta)%nat → sym ≠ SYM_0 →
  ∃ s' cv' kv',
    (Expand_Context c delta;; Append_Context c None sym) s
      = Done (None, length (ser_cells cv)) s' ∧
    heap s' !! k = Some kv ∧
    (∀ p, p ≠ c → p ≠ next s → heap s' !! p = heap s !! p) ∧
    heap s !! next s = None ∧
    heap s' !! c = Some cv' ∧ link_keylist cv' = Some (next s) ∧
    ser_cells cv' = ser_cells cv ++ [Void] ∧
    heap s' !! next s = Some kv' ∧
    ser_cells kv'
      = ser_cells kv ++ [Typeset (mkTypeset sym ALL_64 false false false)] ∧
    KEYLIST_FLAG_SHARED kv' = false ∧ misc_meta kv' = misc_meta kv.
Proof.
  intros Hwf Hc Hk Hkv Hsh Hne Hd Hsym.
  pose proof (heap_wf_lt _ _ _ Hwf Hc) as Hcn.
  pose proof (heap_wf_lt _ _ _ Hwf Hkv) as Hkn.
  cut (wpx (Expand_Context c delta;; Append_Context c None sym) s
         (fun r s' =>
            r = (None, length (ser_cells cv)) ∧
            ∃ cv' kv',
              heap s' !! k = Some kv ∧
              (∀ p, p ≠ c → p ≠ next s → heap s' !! p = heap s !! p) ∧
              heap s !! next s = None ∧
              heap s' !! c = Some cv' ∧ link_keylist cv' = Some (next s) ∧
              ser_cells cv' = ser_cells cv ++ [Void] ∧
              heap s' !! next s = Some kv' ∧
              ser_cells kv'
                = ser_cells kv
                  ++ [Typeset (mkTypeset sym ALL_64 false false false)] ∧
              KEYLIST_FLAG_SHARED kv' = false ∧
              misc_meta kv' = misc_meta kv) no_fail).
  { intros H. apply wpx_done in H as (r & s' & Hrun & -> & cv' & kv' & H).
    by exists s', cv', kv'. }
  wp_bind.
  eapply Expand_Context_shared_run; [done..|].
  intros s1 (Hc1 & Hk1 & Hoth1 & Hn1 & _ & _).
  unfold Append_Context.
  eapply Append_Context_Core_run;
    [exact Hc1|reflexivity|exact Hk1|lia|exact Hsym|].
  intros s2 (Hk2 & Hc2 & Hoth2 & _). split; [done|].
  eexists _, _.
  split; [rewrite Hoth2, Hoth1 by lia; done|].
  split; [intros p Hp1 Hp2; by rewrite Hoth2, Hoth1|].
  split; [by apply heap_wf_fresh|].
  split; [exact Hc2|]. split; [done|]. split; [done|].
  split; [exact Hk2|]. done.
Qed.

Lemma Expand_Context_then_Append_Context_witness :
  ∃ s' cv' kv',
    (Expand_Context 1 1;; Append_Context 1 None 12) st_shared
      = Done (None, 3%nat) s' ∧
    heap s' !! 2%positive
      = Some (keylist [key 0 false; key 10 false; key 11 false] true
                      (Some 4%positive)) ∧
    (∀ p, p ≠ 1%positive → p ≠ 6%positive →
          heap s' !! p = heap st_shared !! p) ∧
    heap st_shared !! 6%positive = None ∧
    heap s' !! 1%positive = Some cv' ∧
    link_keylist cv' = Some 6%positive ∧
    ser_cells cv' = [object 1; Integer 1; Integer 2] ++ [Void] ∧
    heap s' !! 6%positive = Some kv' ∧
    ser_cells kv'
      = [key 0 false; key 10 false; key 11 false] ++ [key 12 false] ∧
    KEYLIST_FLAG_SHARED kv' = false ∧ misc_meta kv' = Some 4%positive.
Proof.
  apply (Expand_Context_then_Append_Context st_shared 1%positive 1%nat
           12%nat (varlist [object 1; Integer 1; Integer 2] 2) 2%positive
           (keylist [key 0 false; key 10 false; key 11 false] true
                    (Some 4%positive))).
  - by_compute.
  - reflexivity.
  - reflexivity.
  - reflexivity.
  - reflexivity.
  - done.
  - lia.
  - done.
Defined.

(** *** Make_Selfish_Context_Detect *)

(** The collection of Make_Selfish_Context_Detect when there is no parent:
    the keylist is made at the first free address from the rootkey, the
    key of `self` and the keys of the block. *)
Lemma Collect_Keylist_Managed_selfish_run {E} canon SYM_SELF stale head
    flags s (Q : ptr * option nat → State → Prop) :
  binds_zero s → BUF_COLLECT s = [] → all_typesets stale →
  flag_set flags COLLECT_ENSURE_SELF = true →
  flag_set flags COLLECT_NO_DUP = false →
  (∀ keys s',
     heap s' = <[next s := mkSer (rootkey :: self_key SYM_SELF :: keys) 0
                                 true false false false None None]>
                 (heap s) →
     next s' = Pos.succ (next s) → binds_zero s' → BUF_COLLECT s' = [] →
     all_typesets keys →
     keys_distinct canon (rootkey :: self_key SYM_SELF :: keys) →
     (∀ k sym b,
        AnyWord k sym b ∈ head →
        IS_SET_WORD (AnyWord k sym b) || flag_set flags COLLECT_ANY_WORD
          = true →
        ∃ t, Typeset t ∈ rootkey :: self_key SYM_SELF :: keys ∧
             canon (ts_sym t) = canon sym) →
     Q (next s, Some 1%nat) s') →
  wpx (Collect_Keylist_Managed canon SYM_SELF stale head None flags) s Q E.
Proof.
  intros Hzero Hbuf Hstale Hself Hnodup HQ.
  unfold Collect_Keylist_Managed.
  wp_bind. unfold Collect_Keys_Start.
  wp_bind. apply wpx_ASSERT_BIND_TABLE_EMPTY; [done|].
  wp_bind. apply wpx_get_buf. wp_bind. rewrite Hbuf. wp_assert.
  apply wpx_set_buf. rewrite Hself.
  wp_bind. wp_bind. wp_ret. cbn [Nat.eqb].
  wp_bind. apply wpx_get_buf. wp_bind. apply wpx_set_buf.
  wp_bind. apply wpx_binds_set. wp_ret. wp_bind. wp_ret.
  st_simpl. cbn [take app].
  fold rootkey. fold (self_key SYM_SELF).
  set (s2 := with_binds _ _).
  assert (scan_inv canon (heap s) s2) as Hinv2.
  { unfold scan_inv, binds_covered, s2. st_simpl.
    split; [|split; [by repeat constructor|done]].
    intros c. rewrite bind_at_insert. case_decide as Hc.
    - intros _. eexists. split; [right; left|]. exact Hc.
    - intros Hne. by rewrite Hzero in Hne. }
  assert (buf_indexed canon s2) as Hidx2.
  { intros i t Hi Ht. unfold s2 in *. revert Ht. st_simpl.
    destruct i as [|[|i]]; [lia| |done].
    intros [= <-]. cbn [ts_sym]. rewrite bind_at_insert, decide_True by done.
    done. }
  wp_bind.
  eapply wpx_mono;
    [apply wpx_also;
       [apply wpx_also;
          [unfold Collect_Context_Inner_Loop;
           apply (wpx_for_each _ (scan_inv canon (heap s))
                    (scan_rolled_back flags (heap s))); [done|];
           intros x sx _ Hsx;
           by apply Collect_Context_Inner_Loop_value_spec
          |apply Collect_Context_Inner_Loop_indexes; [done|cbn; lia]]
       |unfold Collect_Context_Inner_Loop;
        apply (wlx_for_each _
                 (fun sx => (length (BUF_COLLECT s2)
                             ≤ length (BUF_COLLECT sx))%nat
                            ∧ next sx = next s2)); [done|];
        intros x sx _ [Hlx Hnx];
        eapply wlx_mono;
          [apply Collect_Context_Inner_Loop_value_grows| |done];
        cbv beta; intros _ sy [Hly Hny]; split; [lia|congruence]]
    | |].
  2:{ intros e s' (_ & _ & _ & Hf & _). congruence. }
  cbv beta.
  intros _ s3 [[(Hcov3 & Hty3 & Hh3) (Hidx3 & [more Hm3] & _ & Hall3)]
               [Hlen3 Hn3]].
  assert (BUF_COLLECT s3 = rootkey :: self_key SYM_SELF :: more) as Hb3
    by exact Hm3.
  wp_bind.
  eapply wpx_run.
  { apply (Grab_Collected_Keylist_Managed_copy s3 None); [|done].
    rewrite Hb3. cbn. lia. }
  wp_bind.
  apply (Collect_Keys_End_run canon); st_simpl; [done|done|rewrite Hb3; cbn; lia|].
  intros s5 Hh5 Hn5 Hz5 Hb5. wp_ret.
  cbn [heap next] in Hh5, Hn5.
  rewrite Hb3 in Hty3.
  change (next s2) with (next s) in Hn3. rewrite Hn3 in *.
  apply (HQ more).
  - by rewrite Hh5, Hh3, Hb3.
  - done.
  - done.
  - done.
  - by inversion Hty3 as [|? ? _ [|? ? _ ?]].
  - rewrite <- Hb3. by apply buf_indexed_distinct.
  - intros k sym b Hin Hsel. rewrite <- Hb3.
    by apply Hcov3, (Hall3 k sym b).
Qed.

(** X26.  Make_Selfish_Context_Detect with no parent, called with the
    table all zero and the buffer empty, returns a context that passes
    Assert_Context_Core.  Its keylist, made at the first free address, holds
    the rootkey, the hidden key of `self` and then keys of different canons,
    among them one for every set-word at the top of the block; it carries
    [spec] as meta and is marked SHARED.  Its varlist, made at the next
    address, holds the context value of kind [kind], with [exit_from], as
    root and in the slot of `self`, and a blank for every other key.  The
    table and the buffer are clean again, and no other series changes.
    (`self` is its own canon.) *)
Theorem Make_Selfish_Context_Detect_no_parent canon SYM_SELF kind spec
    exit_from stale head s :
  binds_zero s → BUF_COLLECT s = [] → all_typesets stale →
  canon SYM_SELF = SYM_SELF →
  let keylist := next s in
  let context := Pos.succ (next s) in
  ∃ keys s',
    Make_Selfish_Context_Detect canon SYM_SELF kind spec exit_from stale
        head None s
      = Done context s' ∧
    heap s' !! keylist
      = Some (mkSer (rootkey :: self_key SYM_SELF :: keys) 0 true false
                    false true None spec) ∧
    heap s' !! context
      = Some (mkSer (AnyContext (Some kind) context exit_from
                     :: AnyContext (Some kind) context exit_from
                     :: replicate (length keys) Blank)
                    0 false false true false (Some keylist) None) ∧
    (∀ p, p ≠ keylist → p ≠ context → heap s' !! p = heap s !! p) ∧
    next s' = Pos.succ context ∧ binds_zero s' ∧ BUF_COLLECT s' = [] ∧
    all_typesets keys ∧
    keys_distinct canon (rootkey :: self_key SYM_SELF :: keys) ∧
    (∀ k sym b,
       AnyWord k sym b ∈ head → IS_SET_WORD (AnyWord k sym b) = true →
       ∃ t, Typeset t ∈ rootkey :: self_key SYM_SELF :: keys ∧
            canon (ts_sym t) = canon sym).
Proof.
  intros Hzero Hbuf Hstale Hcanon keylist context.
  cut (wpx (Make_Selfish_Context_Detect canon SYM_SELF kind spec exit_from
              stale head None) s
         (fun r s' =>
            r = context ∧
            ∃ keys,
              heap s' !! keylist
                = Some (mkSer (rootkey :: self_key SYM_SELF :: keys) 0 true
                              false false true None spec) ∧
              heap s' !! context
                = Some (mkSer (AnyContext (Some kind) context exit_from
                               :: AnyContext (Some kind) context exit_from
                               :: replicate (length keys) Blank)
                              0 false false true false (Some keylist)
                              None) ∧
              (∀ p, p ≠ keylist → p ≠ context →
                    heap s' !! p = heap s !! p) ∧
              next s' = Pos.succ context ∧ binds_zero s' ∧
              BUF_COLLECT s' = [] ∧ all_typesets keys ∧
              keys_distinct canon (rootkey :: self_key SYM_SELF :: keys) ∧
              (∀ k sym b,
                 AnyWord k sym b ∈ head →
                 IS_SET_WORD (AnyWord k sym b) = true →
                 ∃ t, Typeset t ∈ rootkey :: self_key SYM_SELF :: keys ∧
                      canon (ts_sym t) = canon sym)) no_fail).
  { intros H. apply wpx_done in H as (r & s' & Hrun & -> & keys & H).
    by exists keys, s'. }
  unfold Make_Selfish_Context_Detect. wp_bind.
  apply (Collect_Keylist_Managed_selfish_run canon SYM_SELF);
    [done|done|done|reflexivity|reflexivity|].
  intros keys s5 Hh5 Hn5 Hz5 Hb5 Hkeys Hdist Hall.
  destruct s5 as [h5 n5 b5 u5].
  cbn [heap next Bind_Table BUF_COLLECT] in Hh5, Hn5, Hb5.
  subst h5 n5 u5. fold keylist. fold context.
  assert (keylist ≠ context) as Hkc by (unfold keylist, context; lia).
  wp_bind. eapply wpx_ARR_LEN; [map_lookup|].
  cbn [ser_cells length].
  wp_bind. unfold Make_Array. wp_alloc. fold context.
  wp_bind. wp_modify.
  wp_bind. unfold INIT_CTX_KEYLIST_SHARED. wp_bind. wp_modify. wp_modify.
  wp_bind. wp_modify.
  wp_bind. wp_ret.
  wp_bind. unfold CTX_VALUE.
  eapply wpx_ARR_AT; [map_lookup|reflexivity|].
  wp_bind. eapply wpx_ARR_PUT; [map_lookup|cbn; lia|].
  wp_bind. unfold CTX_TYPE, CTX_VALUE. wp_bind.
  eapply wpx_ARR_AT; [map_lookup|reflexivity|]. wp_ret.
  wp_bind. apply wpx_assert; [by apply bool_decide_eq_true_2|].
  wp_bind. unfold INIT_CONTEXT_META. wp_bind. wp_keylist. wp_modify.
  wp_bind. eapply wpx_ARR_AT; [map_lookup|reflexivity|].
  wp_bind. eapply wpx_ARR_PUT; [map_lookup|cbn; lia|].
  wp_bind. wp_ret.
  wp_bind. unfold CTX_KEY. wp_bind. wp_assert. wp_bind. wp_keylist.
  unfold KEY_AT. wp_bind.
  eapply wpx_ARR_AT; [map_lookup|reflexivity|]. wp_ret.
  wp_bind. apply wpx_assert; [by apply Nat.eqb_eq|].
  wp_bind. eapply wpx_ARR_AT; [map_lookup|reflexivity|].
  wp_bind. unfold CTX_VAR_PUT. wp_bind. wp_assert.
  eapply wpx_ARR_PUT; [map_lookup|cbn; rewrite length_replicate; lia|].
  wp_bind. wp_ret.
  wp_bind. unfold Assert_Context_Core.
  wp_bind. wp_ser. wp_bind. wp_assert.
  wp_bind. eapply wpx_ARR_AT; [map_lookup|reflexivity|].
  wp_bind. wp_assert.
  wp_bind. wp_keylist.
  wp_bind. eapply wpx_ARR_LEN; [map_lookup|].
  wp_bind. eapply wpx_ARR_LEN; [map_lookup|].
  wp_bind. wp_assert.
  wp_bind. apply wpx_assert;
    [cbn; rewrite length_replicate; apply Nat.eqb_eq; lia|].
  wp_bind. eapply wpx_ARR_AT; [map_lookup|reflexivity|].
  wp_bind. wp_assert.
  wp_bind. eapply wpx_ARR_AT; [map_lookup|reflexivity|].
  wp_bind. wp_assert.
  wp_bind. apply wpx_assert; [cbn; apply Pos.eqb_refl|].
  lazymatch goal with
  | |- wpx _ ?S _ _ => set (s9 := S)
  end.
  eapply wpx_mono;
    [apply (wpx_for_ _ (fun _ sx => sx = s9)); [done|]| |done].
  - intros j sx Hj ->. simpl in Hj.
    assert (∃ t, (rootkey :: self_key SYM_SELF :: keys) !! j
                 = Some (Typeset t)) as [t Ht].
    { destruct (lookup_lt_is_Some_2 (rootkey :: self_key SYM_SELF :: keys) j)
        as [v Hv]; [cbn [length] in *; lia|].
      assert (all_typesets (rootkey :: self_key SYM_SELF :: keys)) as Hty
        by (by repeat constructor).
      pose proof (proj1 (Forall_forall _ _) Hty v
                    (list_elem_of_lookup_2 _ _ _ Hv)) as Hv'.
      cbv beta in Hv'. destruct v; try discriminate Hv'. eauto. }
    destruct (lookup_lt_is_Some_2
                (AnyContext (Some kind) context exit_from
                 :: AnyContext (Some kind) context exit_from
                 :: replicate (length keys) Blank) j) as [v Hv].
    { cbn [length] in *. rewrite length_replicate. lia. }
    wp_bind. unfold s9. eapply wpx_ARR_AT; [map_lookup|exact Ht|].
    wp_bind. eapply wpx_ARR_AT; [map_lookup|exact Hv|]. by wp_assert.
  - cbv beta. intros _ s' ->. wp_ret. split; [done|]. exists keys.
    unfold s9. st_simpl.
    split; [map_lookup|].
    split; [map_simpl; by rewrite Nat.sub_diag|].
    split; [intros p Hp1 Hp2; by map_simpl|].
    split; [done|]. split; [exact Hz5|]. split; [done|].
    split; [done|]. split; [done|].
    intros k sym b Hin Hset. apply (Hall k sym b Hin). by rewrite Hset.
Qed.

Lemma Make_Selfish_Context_Detect_no_parent_witness :
  ∃ keys s',
    Make_Selfish_Context_Detect canon_id 1 REB_OBJECT None None []
        [AnyWord REB_SET_WORD 10 None; Integer 5;
         AnyWord REB_SET_WORD 11 None; AnyWord REB_WORD 12 None]
        None st_words
      = Done 3%positive s' ∧
    heap s' !! 2%positive
      = Some (mkSer (rootkey :: self_key 1 :: keys) 0 true false false true
                    None None) ∧
    heap s' !! 3%positive
      = Some (mkSer (AnyContext (Some REB_OBJECT) 3%positive None
                     :: AnyContext (Some REB_OBJECT) 3%positive None
                     :: replicate (length keys) Blank)
                    0 false false true false (Some 2%positive) None) ∧
    (∀ p, p ≠ 2%positive → p ≠ 3%positive →
          heap s' !! p = heap st_words !! p) ∧
    next s' = 4%positive ∧ binds_zero s' ∧ BUF_COLLECT s' = [] ∧
    all_typesets keys ∧
    keys_distinct canon_id (rootkey :: self_key 1 :: keys) ∧
    (∀ k sym b,
       AnyWord k sym b
         ∈ [AnyWord REB_SET_WORD 10 None; Integer 5;
            AnyWord REB_SET_WORD 11 None; AnyWord REB_WORD 12 None] →
       IS_SET_WORD (AnyWord k sym b) = true →
       ∃ t, Typeset t ∈ rootkey :: self_key 1 :: keys ∧
            canon_id (ts_sym t) = canon_id sym).
Proof.
  apply (Make_Selfish_Context_Detect_no_parent canon_id 1%nat REB_OBJECT
           None None []
           [AnyWord REB_SET_WORD 10 None; Integer 5;
            AnyWord REB_SET_WORD 11 None; AnyWord REB_WORD 12 None]
           st_words).
  - intros c. reflexivity.
  - reflexivity.
  - constructor.
  - reflexivity.
Defined.

(** *** Merge_Contexts_Selfish *)

Lemma key_canons_lookup canon l c :
  c ∈ key_canons canon l →
  ∃ j t, l !! j = Some (Typeset t) ∧ canon (ts_sym t) = c.
Proof.
  intros Hc. apply key_canons_elem in Hc as (t & Ht & Hct).
  apply list_elem_of_lookup in Ht as [j Hj]. eauto.
Qed.

Lemma key_canons_NoDup_lookup canon l i j t u :
  NoDup (key_canons canon l) →
  l !! i = Some (Typeset t) → l !! j = Some (Typeset u) →
  canon (ts_sym t) = canon (ts_sym u) → i = j.
Proof.
  revert i j. induction l as [|v l IH]; intros i j Hnd Hi Hj Hc; [done|].
  assert (NoDup (key_canons canon l) ∧
          ∀ w, v = Typeset w → canon (ts_sym w) ∉ key_canons canon l)
    as [Hnd' Hv].
  { destruct v; cbn in Hnd; try (split; [exact Hnd|done]).
    apply NoDup_cons in Hnd as [Hnew Hnd]. split; [done|].
    by intros w [= <-]. }
  destruct i as [|i], j as [|j]; cbn in Hi, Hj.
  - done.
  - injection Hi as ->. exfalso. apply (Hv t eq_refl).
    rewrite Hc. apply key_canons_elem. exists u.
    split; [by eapply list_elem_of_lookup_2|done].
  - injection Hj as ->. exfalso. apply (Hv u eq_refl).
    rewrite <- Hc. apply key_canons_elem. exists t.
    split; [by eapply list_elem_of_lookup_2|done].
  - f_equal. by eapply IH.
Qed.

(** Collect_Context_Keys without [check_dups], as the merge uses it on the
    first parent. *)
Lemma Collect_Context_Keys_copies_run {E} canon context s cv k kv :
  heap s !! context = Some cv → link_keylist cv = Some k →
  heap s !! k = Some kv → (1 ≤ length (ser_cells kv))%nat →
  all_typesets (ser_cells kv) →
  NoDup (key_canons canon (drop 1 (ser_cells kv))) →
  binds_zero s → (1 ≤ length (BUF_COLLECT s))%nat →
  wpx (Collect_Context_Keys canon context false) s
    (fun _ s' =>
       heap s' = heap s ∧ next s' = next s ∧
       BUF_COLLECT s' = BUF_COLLECT s ++ drop 1 (ser_cells kv) ∧
       (∀ j t, drop 1 (ser_cells kv) !! j = Some (Typeset t) →
               bind_at (Bind_Table s') (canon (ts_sym t))
                 = Z.of_nat (length (BUF_COLLECT s) + j)) ∧
       (∀ c, c ∉ key_canons canon (drop 1 (ser_cells kv)) →
             bind_at (Bind_Table s') c = 0)) E.
Proof.
  intros Hc Hl Hk Hklen Hkty Hnd Hzero Hlen.
  unfold Collect_Context_Keys.
  wp_bind. wp_keylist. wp_bind. wp_ser.
  wp_bind. apply wpx_get_buf.
  wp_bind. apply wpx_assert; [apply Z.leb_le; lia|].
  wp_bind. unfold CTX_LEN. wp_bind. wp_keylist.
  wp_bind. eapply wpx_ARR_LEN; [done|]. wp_ret.
  wp_bind. apply wpx_set_buf.
  assert (all_typesets (drop 1 (ser_cells kv))) as Hkeys
    by (by apply Forall_drop).
  eapply wpx_mono; [by apply Collect_Context_Keys_nodups_index| |done].
  cbv beta. intros _ s' (Hh & Hn & Hb & Hidx' & Hoth).
  cbn [heap next Bind_Table BUF_COLLECT with_buf] in *.
  rewrite firstn_all2 in Hb by (rewrite length_drop; lia).
  split; [done|]. split; [done|]. split; [done|]. split.
  - intros j t Hj. rewrite (Hidx' j t Hj). lia.
  - intros c Hc'. rewrite Hoth by done. apply Hzero.
Qed.

(** Collect_Context_Keys with [check_dups], as the merge uses it on the
    second parent. *)
Lemma Collect_Context_Keys_dups_run {E} canon context s cv k kv :
  heap s !! context = Some cv → link_keylist cv = Some k →
  heap s !! k = Some kv → (1 ≤ length (ser_cells kv))%nat →
  all_typesets (ser_cells kv) →
  buf_indexed canon s → (1 ≤ length (BUF_COLLECT s))%nat →
  wpx (Collect_Context_Keys canon context true) s
    (fun _ s' =>
       ∃ added,
         heap s' = heap s ∧ next s' = next s ∧
         BUF_COLLECT s' = BUF_COLLECT s ++ added ∧
         sublist added (drop 1 (ser_cells kv)) ∧
         buf_indexed canon s' ∧
         (∀ c, bind_at (Bind_Table s) c ≠ 0 →
               bind_at (Bind_Table s') c = bind_at (Bind_Table s) c) ∧
         (∀ c, bind_at (Bind_Table s') c ≠ 0 →
               bind_at (Bind_Table s) c ≠ 0
               ∨ c ∈ key_canons canon added) ∧
         (∀ c, c ∈ key_canons canon (drop 1 (ser_cells kv)) →
               bind_at (Bind_Table s') c ≠ 0) ∧
         (∀ c, c ∈ key_canons canon added →
               bind_at (Bind_Table s) c = 0)) E.
Proof.
  intros Hc Hl Hk Hklen Hkty Hidx Hlen.
  unfold Collect_Context_Keys.
  wp_bind. wp_keylist. wp_bind. wp_ser.
  wp_bind. apply wpx_get_buf.
  wp_bind. apply wpx_assert; [apply Z.leb_le; lia|].
  wp_bind. unfold CTX_LEN. wp_bind. wp_keylist.
  wp_bind. eapply wpx_ARR_LEN; [done|]. wp_ret.
  wp_bind.
  assert (all_typesets (drop 1 (ser_cells kv))) as Hkeys
    by (by apply Forall_drop).
  replace (Z.of_nat (length (BUF_COLLECT s)))
    with (Z.of_nat (length (BUF_COLLECT s ++ []))) by (by rewrite app_nil_r).
  eapply wpx_mono;
    [apply (Collect_Context_Keys_dups_spec canon (BUF_COLLECT s));
       [done|done|by rewrite app_nil_r]
    | |done].
  cbv beta.
  intros r s1 (Hh & Hn & Hb & added & -> & Hsub & Hidx' & Hmono & Hnew
               & Hall & Hfresh).
  cbn [app] in *. apply wpx_set_buf. exists added. st_simpl.
  split; [done|]. split; [done|]. split; [done|]. split; [done|].
  split; [intros i t Hi Ht; by apply Hidx'|]. done.
Qed.

(** The loop that gives the child the variables of the second parent.
    [keys2] and [vars2] are the cells of its keylist and of its varlist,
    roots included. *)
Lemma Merge_Contexts_Selfish_loop {E} canon child parent2 keys2p cv0 h0 s0
    kv2 pv2 C0 :
  h0 !! child = Some cv0 → ser_cells cv0 = C0 →
  h0 !! keys2p = Some kv2 → h0 !! parent2 = Some pv2 →
  child ≠ keys2p → child ≠ parent2 →
  heap s0 = h0 →
  all_typesets (ser_cells kv2) →
  (length (ser_cells kv2) ≤ length (ser_cells pv2))%nat →
  NoDup (key_canons canon (drop 1 (ser_cells kv2))) →
  (∀ j u, (1 ≤ j)%nat → ser_cells kv2 !! j = Some (Typeset u) →
          1 ≤ bind_at (Bind_Table s0) (canon (ts_sym u))
            < Z.of_nat (length C0)) →
  (∀ c c', bind_at (Bind_Table s0) c ≠ 0 →
           bind_at (Bind_Table s0) c = bind_at (Bind_Table s0) c' →
           c = c') →
  wpx (for_ 1 (length (ser_cells kv2) - 1) (fun j =>
         key ← KEY_AT keys2p j;
         value ← ARR_AT parent2 j;
         n ← binds_get (canon (ts_sym key));
         CTX_VAR_PUT child (Z.to_nat n) value)) s0
    (fun _ sx =>
       merge_loop_inv canon child cv0 h0 s0 (ser_cells kv2) (ser_cells pv2)
         C0 (length (ser_cells kv2)) sx) E.
Proof.
  intros Hchild HC0 Hk2 Hp2 Hck Hcp Hh0 Hty Hlen Hnd Hrange Hinj.
  destruct (decide (length (ser_cells kv2) = 0)%nat) as [Hz|Hnz].
  { rewrite Hz. cbn [for_ Nat.sub]. wp_ret. exists C0.
    split; [rewrite Hh0, <- HC0; destruct cv0; by rewrite insert_id|].
    do 4 (split; [done|]). split; [intros; lia|]. split; [done|].
    intros n v Hv. by left. }
  eapply wpx_mono;
    [apply (wpx_for_ _
              (merge_loop_inv canon child cv0 h0 s0 (ser_cells kv2)
                 (ser_cells pv2) C0))| |done].
  - exists C0.
    split; [rewrite Hh0, <- HC0; destruct cv0; by rewrite insert_id|].
    do 4 (split; [done|]). split; [intros; lia|]. split; [done|].
    intros n v Hv. by left.
  - intros j sx Hj (C & Hh & Hn & Hb & Hbuf & HlenC & Hput & Hkeep & Hfrom).
    destruct (lookup_lt_is_Some_2 (ser_cells kv2) j) as [kc Hkc]; [lia|].
    pose proof (proj1 (Forall_forall _ _) Hty kc
                  (list_elem_of_lookup_2 _ _ _ Hkc)) as Hkc'.
    cbv beta in Hkc'. destruct kc as [| | | |u| | |]; try discriminate Hkc'.
    destruct (lookup_lt_is_Some_2 (ser_cells pv2) j) as [v Hv]; [lia|].
    pose proof (Hrange j u (proj1 Hj) Hkc) as Hr.
    wp_bind. unfold KEY_AT. wp_bind.
    eapply wpx_ARR_AT;
      [rewrite Hh, lookup_insert_ne by done; exact Hk2|exact Hkc|].
    wp_ret. wp_bind.
    eapply wpx_ARR_AT;
      [rewrite Hh, lookup_insert_ne by done; exact Hp2|exact Hv|].
    wp_bind. apply wpx_binds_get. rewrite Hb. cbn [ts_sym].
    unfold CTX_VAR_PUT. wp_bind.
    apply wpx_assert; [apply negb_true_iff, Nat.eqb_neq; lia|].
    eapply wpx_ARR_PUT;
      [rewrite Hh, lookup_insert_eq; reflexivity|cbn; lia|].
    set (n := Z.to_nat (bind_at (Bind_Table s0) (canon (ts_sym u)))).
    exists (<[n := v]> C). st_simpl.
    split; [rewrite Hh, insert_insert_eq; by destruct cv0|].
    do 3 (split; [done|]). split; [by rewrite length_insert|]. split.
    + intros j' u' Hj' Hu'. destruct (decide (j' = j)) as [->|Hne].
      * rewrite Hkc in Hu'. injection Hu' as <-. fold n.
        rewrite list_lookup_insert_eq by (unfold n; lia). by rewrite Hv.
      * rewrite list_lookup_insert_ne; [apply Hput; [lia|done]|].
        unfold n. intros Heq.
        assert (canon (ts_sym u) = canon (ts_sym u')) as Hcc.
        { apply Hinj; [lia|]. apply Z2Nat.inj; [lia| |done].
          pose proof (Hrange j' u' (proj1 Hj') Hu'). lia. }
        apply Hne.
        assert (j' - 1 = j - 1)%nat; [|lia].
        eapply (key_canons_NoDup_lookup canon _ _ _ u' u Hnd);
          [rewrite lookup_drop; by replace (1 + (j' - 1))%nat with j' by lia
          |rewrite lookup_drop; by replace (1 + (j - 1))%nat with j by lia
          |done].
    + split.
      * intros m Hm. rewrite list_lookup_insert_ne.
        -- apply Hkeep. intros j' u' Hj' Hu'. apply (Hm j' u'); [lia|done].
        -- apply (Hm j u); [lia|done].
      * intros m w Hw. destruct (decide (n = m)) as [<-|Hnm].
        -- rewrite list_lookup_insert_eq in Hw by (unfold n; lia).
           injection Hw as <-. right. exists j. split; [lia|done].
        -- rewrite list_lookup_insert_ne in Hw by done. by apply Hfrom.
  - cbv beta. intros _ sx Hinv.
    by replace (1 + (length (ser_cells kv2) - 1))%nat
      with (length (ser_cells kv2)) in Hinv by lia.
Qed.

Lemma rebind_free_map canon p1 p2 l :
  Forall (rebind_free canon p1 p2) l →
  ∀ dst ob,
    map (Rebind_Value canon p1 dst ob) l = l ∧
    map (Rebind_Value canon p2 dst ob) l = l.
Proof.
  intros Hl dst ob. induction Hl as [|v l Hv Hl [IH1 IH2]]; [done|].
  destruct (Hv dst ob) as [H1 H2]. cbn [map].
  by rewrite H1, H2, IH1, IH2.
Qed.

(** What a call of Merge_Contexts_Selfish comes to.  The parents are
    contexts of one kind whose keys are typesets of different canons, one of
    them at least with a key for `self`, and whose variables hold no word
    bound to either; the table is all zero and the buffer empty. *)
Lemma Merge_Contexts_Selfish_run canon SYM_SELF parent1 parent2 s
    pv1 k1 kv1 pv2 k2 kv2 ty vl1 e1 vl2 e2 vars1 vars2 rk1 keys1 rk2 keys2 :
  heap_wf s → binds_zero s → BUF_COLLECT s = [] →
  heap s !! parent1 = Some pv1 → link_keylist pv1 = Some k1 →
  heap s !! k1 = Some kv1 →
  heap s !! parent2 = Some pv2 → link_keylist pv2 = Some k2 →
  heap s !! k2 = Some kv2 →
  ser_cells pv1 = AnyContext (Some ty) vl1 e1 :: vars1 →
  ser_cells pv2 = AnyContext (Some ty) vl2 e2 :: vars2 →
  ser_cells kv1 = rk1 :: keys1 → ser_cells kv2 = rk2 :: keys2 →
  all_typesets (ser_cells kv1) → all_typesets (ser_cells kv2) →
  length vars1 = length keys1 → length vars2 = length keys2 →
  NoDup (key_canons canon keys1) → NoDup (key_canons canon keys2) →
  canon SYM_SELF = SYM_SELF →
  SYM_SELF ∈ key_canons canon (keys1 ++ keys2) →
  Forall (rebind_free canon parent1 parent2) vars1 →
  Forall (rebind_free canon parent1 parent2) vars2 →
  let keylist := next s in
  let child := Pos.succ (next s) in
  let root := AnyContext (Some ty) child None in
  ∃ added s' cv' m,
    Merge_Contexts_Selfish canon SYM_SELF parent1 parent2 s
      = Done child s' ∧
    heap s' !! keylist
      = Some (mkSer (rootkey :: keys1 ++ added) 0 true false false false
                    None None) ∧
    sublist added keys2 ∧
    (∀ c, c ∈ key_canons canon added → c ∉ key_canons canon keys1) ∧
    (∀ c, c ∈ key_canons canon keys2 →
          c ∈ key_canons canon (keys1 ++ added)) ∧
    keys_distinct canon (rootkey :: keys1 ++ added) ∧
    heap s' !! child = Some cv' ∧ link_keylist cv' = Some keylist ∧
    ARRAY_FLAG_CONTEXT_VARLIST cv' = true ∧
    length (ser_cells cv') = S (length (keys1 ++ added)) ∧
    ser_cells cv' !! 0%nat = Some root ∧
    (1 ≤ m)%nat ∧ ser_cells cv' !! m = Some root ∧
    (∀ n u, (1 ≤ n)%nat →
            (rootkey :: keys1 ++ added) !! n = Some (Typeset u) →
            canon (ts_sym u) = SYM_SELF ↔ n = m) ∧
    (∀ n u, (1 ≤ n)%nat → n ≠ m →
            (rootkey :: keys1 ++ added) !! n = Some (Typeset u) →
            (∀ j w, keys2 !! j = Some (Typeset w) →
                    canon (ts_sym w) = canon (ts_sym u) →
                    ser_cells cv' !! n = vars2 !! j) ∧
            (canon (ts_sym u) ∉ key_canons canon keys2 →
             ser_cells cv' !! n = vars1 !! (n - 1)%nat)) ∧
    binds_zero s' ∧ BUF_COLLECT s' = [] ∧
    next s' = Pos.succ child ∧
    (∀ q, q ≠ keylist → q ≠ child → heap s' !! q = heap s !! q).
Proof.
  intros Hwf Hzero Hbuf Hp1 Hl1 Hk1 Hp2 Hl2 Hk2 Hc1 Hc2 Hkc1 Hkc2 Hty1 Hty2
    Hlen1 Hlen2 Hnd1 Hnd2 Hcanon Hself Hfree1 Hfree2 keylist child root.
  pose proof (heap_wf_lt _ _ _ Hwf Hp1) as Hp1n.
  pose proof (heap_wf_lt _ _ _ Hwf Hk1) as Hk1n.
  pose proof (heap_wf_lt _ _ _ Hwf Hp2) as Hp2n.
  pose proof (heap_wf_lt _ _ _ Hwf Hk2) as Hk2n.
  assert (all_typesets keys1) as Htk1
    by (rewrite Hkc1 in Hty1; by inversion Hty1).
  assert (all_typesets keys2) as Htk2
    by (rewrite Hkc2 in Hty2; by inversion Hty2).
  assert (drop 1 (ser_cells kv1) = keys1) as Hd1 by (by rewrite Hkc1).
  assert (drop 1 (ser_cells kv2) = keys2) as Hd2 by (by rewrite Hkc2).
  cut (wpx (Merge_Contexts_Selfish canon SYM_SELF parent1 parent2) s
         (fun r s' =>
            r = child ∧
            ∃ added cv' m,
              heap s' !! keylist
                = Some (mkSer (rootkey :: keys1 ++ added) 0 true false false
                              false None None) ∧
              sublist added keys2 ∧
              (∀ c, c ∈ key_canons canon added →
                    c ∉ key_canons canon keys1) ∧
              (∀ c, c ∈ key_canons canon keys2 →
                    c ∈ key_canons canon (keys1 ++ added)) ∧
              keys_distinct canon (rootkey :: keys1 ++ added) ∧
              heap s' !! child = Some cv' ∧
              link_keylist cv' = Some keylist ∧
              ARRAY_FLAG_CONTEXT_VARLIST cv' = true ∧
              length (ser_cells cv') = S (length (keys1 ++ added)) ∧
              ser_cells cv' !! 0%nat = Some root ∧
              (1 ≤ m)%nat ∧ ser_cells cv' !! m = Some root ∧
              (∀ n u, (1 ≤ n)%nat →
                      (rootkey :: keys1 ++ added) !! n = Some (Typeset u) →
                      canon (ts_sym u) = SYM_SELF ↔ n = m) ∧
              (∀ n u, (1 ≤ n)%nat → n ≠ m →
                      (rootkey :: keys1 ++ added) !! n = Some (Typeset u) →
                      (∀ j w, keys2 !! j = Some (Typeset w) →
                              canon (ts_sym w) = canon (ts_sym u) →
                              ser_cells cv' !! n = vars2 !! j) ∧
                      (canon (ts_sym u) ∉ key_canons canon keys2 →
                       ser_cells cv' !! n = vars1 !! (n - 1)%nat)) ∧
              binds_zero s' ∧ BUF_COLLECT s' = [] ∧
              next s' = Pos.succ child ∧
              (∀ q, q ≠ keylist → q ≠ child →
                    heap s' !! q = heap s !! q)) no_fail).
  { intros H.
    apply wpx_done in H as (r & s' & Hrun & -> & added & cv' & m & H).
    by exists added, s', cv', m. }
  unfold Merge_Contexts_Selfish.
  wp_bind. unfold CTX_TYPE, CTX_VALUE. wp_bind.
  eapply wpx_ARR_AT; [exact Hp1|by rewrite Hc1|]. wp_ret.
  wp_bind. wp_bind.
  eapply wpx_ARR_AT; [exact Hp2|by rewrite Hc2|]. wp_ret.
  wp_bind. apply wpx_assert; [by apply bool_decide_eq_true_2|].
  (* the keys *)
  wp_bind. unfold Collect_Keys_Start.
  wp_bind. apply wpx_ASSERT_BIND_TABLE_EMPTY; [done|].
  wp_bind. apply wpx_get_buf. wp_bind. rewrite Hbuf. wp_assert.
  apply wpx_set_buf. fold rootkey.
  wp_bind.
  eapply wpx_mono;
    [eapply (Collect_Context_Keys_copies_run canon parent1 _ pv1 k1 kv1);
       [exact Hp1|exact Hl1|exact Hk1|rewrite Hkc1; cbn; lia|exact Hty1
       |by rewrite Hd1|exact Hzero|cbn; lia]
    | |done].
  cbv beta. intros _ s2 (Hh2 & Hn2 & Hb2 & Hidx2 & Hoth2).
  cbn [heap next BUF_COLLECT with_buf length app] in Hh2, Hn2, Hb2, Hidx2.
  rewrite Hd1 in Hb2, Hidx2, Hoth2.
  assert (buf_indexed canon s2) as Hbi2.
  { intros i u Hi Hu. rewrite Hb2 in Hu. destruct i as [|i]; [lia|].
    cbn in Hu. rewrite (Hidx2 i u Hu). lia. }
  wp_bind.
  eapply wpx_mono;
    [eapply (Collect_Context_Keys_dups_run canon parent2 s2 pv2 k2 kv2);
       [by rewrite Hh2|exact Hl2|by rewrite Hh2|rewrite Hkc2; cbn; lia
       |exact Hty2|exact Hbi2|rewrite Hb2; cbn; lia]
    | |done].
  cbv beta.
  intros _ s3 (added & Hh3 & Hn3 & Hb3 & Hsub & Hbi3 & Hmono & Hnew & Hall
               & Hfresh).
  rewrite Hd2 in Hsub, Hall. rewrite Hb2 in Hb3. cbn [app] in Hb3.
  rewrite Hh2 in Hh3. rewrite Hn2 in Hn3.
  assert (all_typesets added) as Hta.
  { apply Forall_forall. intros v Hv.
    apply (proj1 (Forall_forall _ _) Htk2 v). by eapply elem_of_sublist. }
  assert (∀ c, bind_at (Bind_Table s3) c ≠ 0 →
            ∃ i u, (1 ≤ i < S (length (keys1 ++ added)))%nat ∧
                   (rootkey :: keys1 ++ added) !! i = Some (Typeset u) ∧
                   canon (ts_sym u) = c ∧
                   bind_at (Bind_Table s3) c = Z.of_nat i) as Hslots.
  { intros c Hc.
    assert (∃ i u, (keys1 ++ added) !! i = Some (Typeset u) ∧
                   canon (ts_sym u) = c) as (i & u & Hu & Hcu).
    { destruct (Hnew c Hc) as [Hold|Hin].
      - destruct (decide (c ∈ key_canons canon keys1)) as [Hin|Hnin];
          [|by rewrite Hoth2 in Hold].
        apply key_canons_lookup in Hin as (j & u & Hj & Hcu).
        exists j, u. split; [|done]. by apply lookup_app_l_Some.
      - apply key_canons_lookup in Hin as (j & u & Hj & Hcu).
        exists (length keys1 + j)%nat, u. split; [|done].
        rewrite lookup_app_r by lia. rewrite <- Hj. f_equal. lia. }
    exists (S i), u.
    pose proof (lookup_lt_Some _ _ _ Hu) as Hlt.
    split; [lia|]. split; [exact Hu|]. split; [done|].
    rewrite <- Hcu. apply Hbi3; [lia|]. by rewrite Hb3. }
  assert (∀ c c', bind_at (Bind_Table s3) c ≠ 0 →
                  bind_at (Bind_Table s3) c = bind_at (Bind_Table s3) c' →
                  c = c') as Hinj.
  { intros c c' Hc Heq.
    destruct (Hslots c Hc) as (i & u & _ & Hu & <- & Hbi).
    destruct (Hslots c') as (i' & u' & _ & Hu' & <- & Hbi');
      [by rewrite <- Heq|].
    assert (i = i') as -> by lia. rewrite Hu in Hu'. by injection Hu' as <-. }
  assert (∀ c, c ∈ key_canons canon added → c ∉ key_canons canon keys1)
    as Hdisj.
  { intros c Hc Hc1'. pose proof (Hfresh c Hc) as H0.
    apply key_canons_lookup in Hc1' as (j & u & Hj & <-).
    rewrite (Hidx2 j u Hj) in H0. lia. }
  assert (∀ c, c ∈ key_canons canon keys2 →
               c ∈ key_canons canon (keys1 ++ added)) as Hcover.
  { intros c Hc. destruct (Hslots c (Hall c Hc)) as (i & u & Hi & Hu & <- & _).
    apply key_canons_elem. exists u. split; [|done].
    destruct i as [|i]; [lia|]. cbn in Hu.
    by eapply list_elem_of_lookup_2. }
  assert (keys_distinct canon (rootkey :: keys1 ++ added)) as Hdist.
  { rewrite <- Hb3. by apply buf_indexed_distinct. }
  assert (∃ m t, (1 ≤ m)%nat ∧
                 (rootkey :: keys1 ++ added) !! m = Some (Typeset t) ∧
                 canon (ts_sym t) = SYM_SELF) as (m & t & Hm1 & Hmt' & Hmc).
  { assert (SYM_SELF ∈ key_canons canon (keys1 ++ added)) as Hin.
    { unfold key_canons in Hself |- *. rewrite omap_app in Hself |- *.
      apply elem_of_app in Hself as [Hs1|Hs2].
      - apply elem_of_app. by left.
      - pose proof (Hcover _ Hs2) as Hc. unfold key_canons in Hc.
        by rewrite omap_app in Hc. }
    apply key_canons_lookup in Hin as (j & t & Hj & Hct).
    exists (S j), t. split; [lia|]. split; [exact Hj|exact Hct]. }
  assert (∀ n u, (1 ≤ n)%nat →
                 (rootkey :: keys1 ++ added) !! n = Some (Typeset u) →
                 canon (ts_sym u) = SYM_SELF ↔ n = m) as Hone.
  { intros n u Hn Hu. split.
    - intros Hcu. apply (Hdist n m u t Hn Hm1 Hu Hmt'). by rewrite Hcu, Hmc.
    - intros ->. rewrite Hu in Hmt'. by injection Hmt' as ->. }
  assert (key_matches canon SYM_SELF t = true) as Hmm.
  { unfold key_matches. rewrite Hcanon, Hmc, Nat.eqb_refl.
    by rewrite orb_true_r. }
  destruct s3 as [h3 n3 b3 u3].
  cbn [heap next Bind_Table BUF_COLLECT] in *. subst h3 n3 u3.
  assert (keylist ≠ child) as Hkc by (unfold keylist, child; lia).
  assert (parent1 ≠ keylist ∧ parent1 ≠ child ∧ k1 ≠ keylist ∧ k1 ≠ child ∧
          parent2 ≠ keylist ∧ parent2 ≠ child ∧ k2 ≠ keylist ∧ k2 ≠ child)
    as (Hp1k & Hp1c & Hk1k & Hk1c & Hp2k & Hp2c & Hk2k & Hk2c)
    by (unfold keylist, child; repeat split; lia).
  wp_bind. apply wpx_get_buf. st_simpl.
  wp_bind. wp_alloc. fold keylist. fold child.
  wp_bind. unfold MANAGE_ARRAY. wp_modify.
  wp_bind. wp_modify.
  wp_bind. eapply wpx_ARR_LEN; [map_lookup|].
  cbn [ser_cells length].
  wp_bind. unfold Make_Array. wp_alloc. fold child.
  wp_bind. wp_modify.
  wp_bind. unfold Alloc_Tail_Array. wp_bind. unfold EXPAND_SERIES_TAIL.
  wp_modify.
  wp_bind. eapply wpx_ARR_LEN; [map_lookup|]. wp_ret.
  wp_bind. unfold INIT_CTX_KEYLIST_UNIQUE. wp_bind. wp_ser.
  wp_bind. wp_assert. wp_modify.
  wp_bind. eapply wpx_ARR_PUT; [map_lookup|cbn; lia|].
  wp_bind. unfold CTX_LEN. wp_bind. wp_keylist.
  wp_bind. eapply wpx_ARR_LEN; [map_lookup|]. wp_ret.
  wp_bind. wp_ser.
  wp_bind. apply wpx_assert.
  { rewrite Hkc1, Hc1. cbn [drop length]. rewrite length_take, drop_0.
    apply Nat.eqb_eq. lia. }
  wp_bind. wp_modify.
  lazymatch goal with
  | |- wpx _ ?S _ _ => set (s0 := S)
  end.
  set (cv0 := mkSer (root :: vars1 ++ replicate (length added) Trash) 0
                    false false true false (Some keylist) None).
  assert (heap s0 !! child = Some cv0) as Hs0c.
  { unfold s0, child. map_simpl. unfold cv0. rewrite Hkc1, Hc1.
    cbn [drop length].
    cbv [set_rest set_cells set_keylist set_varlist_flag].
    cbn [ser_cells ser_rest SERIES_FLAG_MANAGED SERIES_FLAG_LOCKED
         ARRAY_FLAG_CONTEXT_VARLIST KEYLIST_FLAG_SHARED link_keylist
         misc_meta].
    unfold root, child. do 3 f_equal.
    rewrite drop_0, length_app.
    replace (S (length keys1) - 1)%nat with (length vars1) by lia.
    replace (length keys1 + length added - 0 - length vars1)%nat
      with (length added) by lia.
    rewrite firstn_all. apply firstn_all2.
    rewrite length_app, length_replicate. lia. }
  assert (heap s0 !! keylist
          = Some (mkSer (rootkey :: keys1 ++ added) 0 true false false false
                        None None)) as Hs0k.
  { unfold s0. by map_simpl. }
  assert (∀ q, q ≠ keylist → q ≠ child → heap s0 !! q = heap s !! q)
    as Hs0q.
  { intros q Hq1 Hq2. unfold s0. fold child. by map_simpl. }
  assert (next s0 = Pos.succ child) as Hs0n by done.
  assert (Bind_Table s0 = b3) as Hs0b by done.
  assert (BUF_COLLECT s0 = rootkey :: keys1 ++ added) as Hs0u by done.
  clearbody s0.
  wp_bind. eapply wpx_CTX_KEYLIST; [by rewrite Hs0q|exact Hl2|].
  wp_bind. eapply wpx_ARR_LEN; [by rewrite Hs0q|].
  wp_bind.
  eapply wpx_mono;
    [eapply (Merge_Contexts_Selfish_loop canon child parent2 k2 cv0 (heap s0)
               s0 kv2 pv2 (ser_cells cv0));
       [exact Hs0c|done|by rewrite Hs0q|by rewrite Hs0q|done|done|done
       |exact Hty2|rewrite Hkc2, Hc2; cbn [length]; lia|by rewrite Hd2| |]
    | |done].
  { intros j u Hj Hu. rewrite Hs0b.
    assert (canon (ts_sym u) ∈ key_canons canon keys2) as Hin.
    { apply key_canons_elem. exists u. split; [|done].
      rewrite Hkc2 in Hu. destruct j as [|j]; [lia|].
      by eapply list_elem_of_lookup_2. }
    destruct (Hslots _ (Hall _ Hin)) as (i & w & Hi & _ & _ & ->).
    unfold cv0. cbn [ser_cells length].
    rewrite length_app, length_replicate. rewrite length_app in Hi. lia. }
  { rewrite Hs0b. exact Hinj. }
  cbv beta.
  intros _ sx (C & Hhx & Hnx & Hbx & Hux & HlenC & Hput & Hkeep & Hfrom).
  destruct sx as [hx nx bx ux].
  cbn [heap next Bind_Table BUF_COLLECT] in Hhx, Hnx, Hbx, Hux.
  subst hx nx bx ux. rewrite Hs0b in Hput, Hkeep.
  assert (length C = S (length (keys1 ++ added))) as HlenC'.
  { rewrite HlenC. unfold cv0. cbn [ser_cells length].
    rewrite !length_app, length_replicate. lia. }
  assert (Forall (rebind_free canon parent1 parent2) (drop 1 C)) as HfreeC.
  { apply Forall_forall. intros v Hv.
    apply list_elem_of_lookup in Hv as [n Hv]. rewrite lookup_drop in Hv.
    destruct (Hfrom _ _ Hv) as [H0|(j' & Hj' & H2)].
    - unfold cv0 in H0. cbn in H0.
      apply lookup_app_Some in H0 as [H0|[_ H0]].
      + exact (proj1 (Forall_forall _ _) Hfree1 v
                 (list_elem_of_lookup_2 _ _ _ H0)).
      + apply lookup_replicate in H0 as [-> _]. by intros dst ob.
    - rewrite Hc2 in H2. destruct j' as [|j']; [lia|]. cbn in H2.
      exact (proj1 (Forall_forall _ _) Hfree2 v
               (list_elem_of_lookup_2 _ _ _ H2)). }
  assert (∀ dst ob,
            take 1 C ++ map (Rebind_Value canon parent1 dst ob) (drop 1 C)
              = C ∧
            take 1 C ++ map (Rebind_Value canon parent2 dst ob) (drop 1 C)
              = C) as HrebC.
  { intros dst ob.
    destruct (rebind_free_map canon parent1 parent2 _ HfreeC dst ob)
      as [-> ->].
    by rewrite take_drop. }
  wp_bind. wp_bind.
  eapply wpx_CTX_KEYLIST; [apply lookup_insert_eq|reflexivity|].
  wp_bind. eapply wpx_ARR_LEN; [st_simpl; rewrite lookup_insert_ne by done;
                                 exact Hs0k|].
  wp_ret.
  wp_bind. unfold Clonify_Values_Len_Managed. wp_ret.
  wp_bind. unfold Rebind_Context_Deep.
  eapply wpx_modify; [apply lookup_insert_eq|].
  st_simpl. rewrite insert_insert_eq.
  cbn [set_cells ser_cells]. rewrite (proj1 (HrebC _ _)).
  wp_bind. apply wpx_get. st_simpl.
  wp_bind.
  eapply wpx_modify; [apply lookup_insert_eq|].
  st_simpl. rewrite insert_insert_eq.
  cbn [set_cells ser_cells]. rewrite (proj2 (HrebC _ _)).
  lazymatch goal with
  | |- wpx _ ?S _ _ =>
      replace S
        with (mkState (<[child := set_cells C cv0]> (heap s0)) (next s0)
                      b3 (rootkey :: keys1 ++ added))
  end.
  2:{ unfold with_heap. cbn [heap next Bind_Table BUF_COLLECT].
      by rewrite Hs0b, Hs0u. }
  assert (all_typesets (rootkey :: keys1 ++ added)) as Htall.
  { constructor; [done|]. by apply Forall_app. }
  wp_bind. apply (Collect_Keys_End_run canon).
  { intros c Hc. destruct (Hslots c Hc) as (i & u & _ & Hu & Hcu & _).
    exists u. split; [|done]. by eapply list_elem_of_lookup_2. }
  { exact Htall. }
  { cbn. lia. }
  intros s6 Hh6 Hn6 Hz6 Hb6.
  destruct s6 as [h6 n6 b6 u6].
  cbn [heap next Bind_Table BUF_COLLECT] in Hh6, Hn6, Hb6.
  subst h6 n6 u6.
  set (kvn := mkSer (rootkey :: keys1 ++ added) 0 true false false false
                    None None) in *.
  wp_bind.
  eapply (Find_Word_In_Context_run canon child SYM_SELF true _
            (set_cells C cv0) keylist kvn);
    [apply lookup_insert_eq|reflexivity
    |st_simpl; rewrite lookup_insert_ne by done; exact Hs0k
    |cbn; lia| |].
  { intros j Hj. cbn [kvn ser_cells] in *.
    destruct (lookup_lt_is_Some_2 (rootkey :: keys1 ++ added) j) as [v Hv];
      [lia|].
    pose proof (proj1 (Forall_forall _ _) Htall v
                  (list_elem_of_lookup_2 _ _ _ Hv)) as Hv'.
    cbv beta in Hv'. destruct v; try discriminate Hv'. eauto. }
  intros r Hr.
  assert (r = m) as ->.
  { cbn [kvn ser_cells] in Hr.
    destruct Hr as [[_ Hno]|(m' & t' & (Hm1' & Hmt2 & Hmm' & Hfirst') & ->)].
    - rewrite (Hno m t Hm1 Hmt') in Hmm. discriminate.
    - cbn [negb andb]. apply (Hone m' t' Hm1' Hmt2).
      unfold key_matches in Hmm'.
      apply orb_true_iff in Hmm' as [He|He]; apply Nat.eqb_eq in He.
      + by rewrite <- He.
      + by rewrite <- He. }
  wp_bind. apply wpx_assert; [by destruct m; [lia|]|].
  wp_bind. unfold CTX_KEY. wp_bind.
  apply wpx_assert; [by destruct m; [lia|]|].
  wp_bind.
  eapply wpx_CTX_KEYLIST; [apply lookup_insert_eq|reflexivity|].
  unfold KEY_AT. wp_bind.
  eapply wpx_ARR_AT;
    [st_simpl; rewrite lookup_insert_ne by done; exact Hs0k|exact Hmt'|].
  wp_ret.
  wp_bind. apply wpx_assert; [by apply Nat.eqb_eq|].
  assert (C !! 0%nat = Some root) as HC0.
  { rewrite Hkeep; [done|]. intros j' u Hj' Hu.
    assert (canon (ts_sym u) ∈ key_canons canon keys2) as Hin.
    { apply key_canons_elem. exists u. split; [|done].
      rewrite Hkc2 in Hu. destruct j' as [|j']; [lia|].
      by eapply list_elem_of_lookup_2. }
    destruct (Hslots _ (Hall _ Hin)) as (i & w & Hi & _ & _ & ->). lia. }
  wp_bind. eapply wpx_ARR_AT; [apply lookup_insert_eq|exact HC0|].
  wp_bind. unfold CTX_VAR_PUT. wp_bind.
  apply wpx_assert; [by destruct m; [lia|]|].
  eapply wpx_ARR_PUT; [apply lookup_insert_eq|cbn [set_cells ser_cells];
                       pose proof (lookup_lt_Some _ _ _ Hmt') as Hlt;
                       cbn [length] in Hlt; rewrite HlenC'; lia|].
  wp_ret. split; [done|].
  exists added, (set_cells (<[m := root]> C) cv0), m.
  st_simpl. rewrite insert_insert_eq. cbn [set_cells ser_cells].
  assert (m < S (length (keys1 ++ added)))%nat as Hmlt
    by (pose proof (lookup_lt_Some _ _ _ Hmt') as Hlt; exact Hlt).
  assert (m < length C)%nat as HmC by (rewrite HlenC'; lia).
  assert (∀ j w, keys2 !! j = Some (Typeset w) →
                 canon (ts_sym w) ∈ key_canons canon keys2) as Hin2.
  { intros j w Hw. apply key_canons_elem. exists w. split; [|done].
    by eapply list_elem_of_lookup_2. }
  split; [rewrite lookup_insert_ne by done; exact Hs0k|].
  split; [exact Hsub|]. split; [exact Hdisj|]. split; [exact Hcover|].
  split; [exact Hdist|].
  split; [by rewrite lookup_insert_eq|].
  split; [done|]. split; [done|].
  split; [by rewrite length_insert|].
  split.
  { destruct m as [|m']; [lia|]. by rewrite list_lookup_insert_ne. }
  split; [exact Hm1|].
  split; [by apply list_lookup_insert_eq|].
  split; [exact Hone|].
  split.
  { intros n u Hn Hnm Hu. rewrite list_lookup_insert_ne by done.
    pose proof (Hbi3 n u Hn Hu) as Hbn. cbn [Bind_Table] in Hbn.
    split.
    - intros j w Hw Hcw.
      transitivity (ser_cells pv2 !! S j); [|by rewrite Hc2].
      rewrite <- (Hput (S j) w); [by rewrite Hcw, Hbn, Nat2Z.id|
                                  |by rewrite Hkc2].
      apply lookup_lt_Some in Hw. rewrite Hkc2. cbn [length]. lia.
    - intros Hnot.
      assert (n ≤ length keys1)%nat as Hnle.
      { destruct (decide (n ≤ length keys1)%nat) as [|Hgt]; [done|].
        exfalso. apply Hnot.
        destruct n as [|n']; [lia|].
        change ((keys1 ++ added) !! n' = Some (Typeset u)) in Hu.
        rewrite lookup_app_r in Hu by lia.
        assert (Typeset u ∈ keys2) as Hin
          by (eapply elem_of_sublist;
              [by eapply list_elem_of_lookup_2|exact Hsub]).
        apply key_canons_elem. eauto. }
      rewrite Hkeep.
      + unfold cv0. cbn [ser_cells]. destruct n as [|n']; [lia|].
        change ((vars1 ++ replicate (length added) Trash) !! n'
                = vars1 !! (S n' - 1)%nat).
        replace (S n' - 1)%nat with n' by lia. apply lookup_app_l. lia.
      + intros j' w Hj' Hw Heq. apply Hnot.
        rewrite Hkc2 in Hw. destruct j' as [|j']; [lia|]. cbn in Hw.
        pose proof (Hin2 _ _ Hw) as Hwin.
        assert (canon (ts_sym w) = canon (ts_sym u)) as <-; [|done].
        apply Hinj; [by apply Hall|].
        destruct (Hslots _ (Hall _ Hwin)) as (i & w' & Hi & _ & _ & Hbw).
        rewrite Hbn. rewrite Hbw in Heq |- *. lia. }
  split; [exact Hz6|]. split; [done|]. split; [exact Hs0n|].
  intros q Hq1 Hq2. rewrite lookup_insert_ne by done. by apply Hs0q.
Qed.




(** X29.  Merge_Contexts_Selfish, in general.  The parents are contexts of
    one kind whose keys are typesets of different canons, the first with a
    key for `self`, and whose variables hold no word bound to either; the
    table is all zero and the buffer empty.  Then the call returns a child
    at the second free address whose keylist, at the first, holds the
    rootkey, the keys of the first parent and, after them, those keys of
    the second whose canon the first lacks.  Under a key whose canon the
    second parent has, the child holds the second parent's variable;
    under any other, the first parent's; and in the slot of `self`, as at
    its root, the child itself.  The table and the buffer are clean again,
    and no series the store held has changed. *)
Theorem Merge_Contexts_Selfish_general canon SYM_SELF parent1 parent2 s
    pv1 k1 kv1 pv2 k2 kv2 ty vl1 e1 vl2 e2 vars1 vars2 rk1 keys1 rk2 keys2
    m t :
  heap_wf s → binds_zero s → BUF_COLLECT s = [] →
  heap s !! parent1 = Some pv1 → link_keylist pv1 = Some k1 →
  heap s !! k1 = Some kv1 →
  heap s !! parent2 = Some pv2 → link_keylist pv2 = Some k2 →
  heap s !! k2 = Some kv2 →
  ser_cells pv1 = AnyContext (Some ty) vl1 e1 :: vars1 →
  ser_cells pv2 = AnyContext (Some ty) vl2 e2 :: vars2 →
  ser_cells kv1 = rk1 :: keys1 → ser_cells kv2 = rk2 :: keys2 →
  all_typesets (ser_cells kv1) → all_typesets (ser_cells kv2) →
  length vars1 = length keys1 → length vars2 = length keys2 →
  NoDup (key_canons canon keys1) → NoDup (key_canons canon keys2) →
  canon SYM_SELF = SYM_SELF →
  first_match canon SYM_SELF (ser_cells kv1) 1 m t →
  Forall (rebind_free canon parent1 parent2) vars1 →
  Forall (rebind_free canon parent1 parent2) vars2 →
  let keylist := next s in
  let child := Pos.succ (next s) in
  let root := AnyContext (Some ty) child None in
  ∃ added s' cv',
    Merge_Contexts_Selfish canon SYM_SELF parent1 parent2 s
      = Done child s' ∧
    heap s' !! keylist
      = Some (mkSer (rootkey :: keys1 ++ added) 0 true false false false
                    None None) ∧
    sublist added keys2 ∧
    (∀ c, c ∈ key_canons canon added → c ∉ key_canons canon keys1) ∧
    (∀ c, c ∈ key_canons canon keys2 →
          c ∈ key_canons canon (keys1 ++ added)) ∧
    heap s' !! child = Some cv' ∧ link_keylist cv' = Some keylist ∧
    ARRAY_FLAG_CONTEXT_VARLIST cv' = true ∧
    length (ser_cells cv') = S (length (keys1 ++ added)) ∧
    ser_cells cv' !! 0%nat = Some root ∧ ser_cells cv' !! m = Some root ∧
    (∀ n u, (1 ≤ n)%nat → n ≠ m →
            (rootkey :: keys1 ++ added) !! n = Some (Typeset u) →
            (∀ j w, keys2 !! j = Some (Typeset w) →
                    canon (ts_sym w) = canon (ts_sym u) →
                    ser_cells cv' !! n = vars2 !! j) ∧
            (canon (ts_sym u) ∉ key_canons canon keys2 →
             ser_cells cv' !! n = vars1 !! (n - 1)%nat)) ∧
    binds_zero s' ∧ BUF_COLLECT s' = [] ∧
    next s' = Pos.succ child ∧
    (∀ q, q ≠ keylist → q ≠ child → heap s' !! q = heap s !! q).
Proof.
  intros Hwf Hzero Hbuf Hp1 Hl1 Hk1 Hp2 Hl2 Hk2 Hc1 Hc2 Hkc1 Hkc2 Hty1 Hty2
    Hlen1 Hlen2 Hnd1 Hnd2 Hcanon Hself Hfree1 Hfree2 keylist child root.
  destruct Hself as (Hm1 & Hmt & Hmm & _). rewrite Hkc1 in Hmt.
  assert (canon (ts_sym t) = SYM_SELF) as Hmc.
  { unfold key_matches in Hmm.
    apply orb_true_iff in Hmm as [He|He]; apply Nat.eqb_eq in He.
    - by rewrite <- He.
    - by rewrite <- He. }
  destruct m as [|j]; [lia|]. cbn in Hmt.
  assert (SYM_SELF ∈ key_canons canon (keys1 ++ keys2)) as Hin.
  { apply key_canons_elem. exists t. split; [|exact Hmc].
    apply elem_of_app. left. by eapply list_elem_of_lookup_2. }
  destruct (Merge_Contexts_Selfish_run canon SYM_SELF parent1 parent2 s
              pv1 k1 kv1 pv2 k2 kv2 ty vl1 e1 vl2 e2 vars1 vars2 rk1 keys1
              rk2 keys2 Hwf Hzero Hbuf Hp1 Hl1 Hk1 Hp2 Hl2 Hk2 Hc1 Hc2 Hkc1
              Hkc2 Hty1 Hty2 Hlen1 Hlen2 Hnd1 Hnd2 Hcanon Hin Hfree1 Hfree2)
    as (added & s' & cv' & m & Hrun & Hkl & Hsub & Hdisj & Hcover & _
        & Hcv & Hlink & Hflag & Hlen & H0 & _ & Hm & Hone & Hvals & Hz & Hb
        & Hn & Hoth).
  assert (S j = m) as Hjm.
  { apply (Hone (S j) t); [lia| |exact Hmc].
    cbn. by apply lookup_app_l_Some. }
  subst m.
  exists added, s', cv'. repeat (split; [assumption|]). exact Hoth.
Qed.

Lemma Merge_Contexts_Selfish_general_witness :
  ∃ added s' cv',
    Merge_Contexts_Selfish canon_id 1%nat 1%positive 3%positive
        (st_merge 1 2 3 4)
      = Done 6%positive s' ∧
    heap s' !! 5%positive
      = Some (mkSer (rootkey :: [key 1 true; key 10 false; key 11 false]
                             ++ added) 0 true false false false None None) ∧
    sublist added [key 1 true; key 11 false; key 12 false] ∧
    (∀ c, c ∈ key_canons canon_id added →
          c ∉ key_canons canon_id [key 1 true; key 10 false; key 11 false]) ∧
    (∀ c, c ∈ key_canons canon_id [key 1 true; key 11 false; key 12 false] →
          c ∈ key_canons canon_id
                ([key 1 true; key 10 false; key 11 false] ++ added)) ∧
    heap s' !! 6%positive = Some cv' ∧
    link_keylist cv' = Some 5%positive ∧
    ARRAY_FLAG_CONTEXT_VARLIST cv' = true ∧
    length (ser_cells cv')
      = S (length ([key 1 true; key 10 false; key 11 false] ++ added)) ∧
    ser_cells cv' !! 0%nat = Some (object 6) ∧
    ser_cells cv' !! 1%nat = Some (object 6) ∧
    (∀ n u, (1 ≤ n)%nat → n ≠ 1%nat →
            (rootkey :: [key 1 true; key 10 false; key 11 false] ++ added)
              !! n = Some (Typeset u) →
            (∀ j w, [key 1 true; key 11 false; key 12 false] !! j
                      = Some (Typeset w) →
                    canon_id (ts_sym w) = canon_id (ts_sym u) →
                    ser_cells cv' !! n
                      = [object 3; Integer 3; Integer 4] !! j) ∧
            (canon_id (ts_sym u)
               ∉ key_canons canon_id [key 1 true; key 11 false; key 12 false] →
             ser_cells cv' !! n
               = [object 1; Integer 1; Integer 2] !! (n - 1)%nat)) ∧
    binds_zero s' ∧ BUF_COLLECT s' = [] ∧
    next s' = 7%positive ∧
    (∀ q, q ≠ 5%positive → q ≠ 6%positive →
          heap s' !! q = heap (st_merge 1 2 3 4) !! q).
Proof.
  apply (Merge_Contexts_Selfish_general canon_id 1%nat 1%positive 3%positive
           (st_merge 1 2 3 4)
           (varlist [object 1; object 1; Integer 1; Integer 2] 2) 2%positive
           (keylist [key 0 false; key 1 true; key 10 false; key 11 false]
                    false None)
           (varlist [object 3; object 3; Integer 3; Integer 4] 4) 4%positive
           (keylist [key 0 false; key 1 true; key 11 false; key 12 false]
                    false None)
           REB_OBJECT 1%positive None 3%positive None
           [object 1; Integer 1; Integer 2] [object 3; Integer 3; Integer 4]
           (key 0 false) [key 1 true; key 10 false; key 11 false]
           (key 0 false) [key 1 true; key 11 false; key 12 false]
           1%nat (mkTypeset 1%nat ALL_64 true false false)).
  - by_compute.
  - intros c. reflexivity.
  - reflexivity.
  - reflexivity.
  - reflexivity.
  - reflexivity.
  - reflexivity.
  - reflexivity.
  - reflexivity.
  - reflexivity.
  - reflexivity.
  - reflexivity.
  - reflexivity.
  - by repeat constructor.
  - by repeat constructor.
  - reflexivity.
  - reflexivity.
  - apply (bool_decide_unpack _). vm_compute. exact I.
  - apply (bool_decide_unpack _). vm_compute. exact I.
  - reflexivity.
  - split; [lia|]. split; [reflexivity|]. split; [reflexivity|].
    intros j u Hj. lia.
  - repeat constructor; by intros dst ob.
  - repeat constructor; by intros dst ob.
Defined.


(** *** Resolve_Context returns *)

Lemma wpx_KEY_AT {E} k n v t s (Q : typeset → State → Prop) :
  heap s !! k = Some v → ser_cells v !! n = Some (Typeset t) → Q t s →
  wpx (KEY_AT k n) s Q E.
Proof.
  intros H Hc HQ. unfold KEY_AT. apply wpx_bind.
  eapply wpx_ARR_AT; [exact H|exact Hc|]. by apply wpx_ret.
Qed.

Lemma keys_have_fmap canon cells :
  all_typesets cells → keys_have canon cells (cell_canon canon <$> cells).
Proof.
  intros Hall n c Hn. rewrite list_lookup_fmap in Hn.
  destruct (cells !! n) as [v|] eqn:Hv; [|done]. injection Hn as <-.
  pose proof (proj1 (Forall_lookup _ _) Hall _ _ Hv) as Ht.
  destruct v; try done. by eexists.
Qed.

Lemma keys_have_insert canon cells cs j t t' :
  keys_have canon cells cs → cells !! j = Some (Typeset t) →
  ts_sym t' = ts_sym t →
  keys_have canon (<[j := Typeset t']> cells) cs.
Proof.
  intros H Hj Hs n c Hn. destruct (H n c Hn) as (u & Hu & Hc).
  destruct (decide (n = j)) as [->|Hne].
  - exists t'. rewrite list_lookup_insert_eq by (by eapply lookup_lt_Some).
    split; [done|]. rewrite Hs. congruence.
  - exists u. by rewrite list_lookup_insert_ne.
Qed.

Lemma keys_have_app canon cells cs extra :
  keys_have canon cells cs → keys_have canon (cells ++ extra) cs.
Proof.
  intros H n c Hn. destruct (H n c Hn) as (u & Hu & Hc). exists u.
  split; [by apply lookup_app_l_Some|done].
Qed.

Lemma keys_have_snoc canon cells cs t :
  keys_have canon cells cs → length cells = length cs →
  keys_have canon (cells ++ [Typeset t]) (cs ++ [canon (ts_sym t)]).
Proof.
  intros H Hlen n c Hn. apply lookup_app_Some in Hn as [Hn|[Hge Hn]].
  - destruct (H n c Hn) as (u & Hu & Hc). exists u.
    split; [by apply lookup_app_l_Some|done].
  - apply list_lookup_singleton_Some in Hn as [Hz <-]. exists t.
    split; [|done]. assert (n = length cells) as -> by lia.
    by rewrite lookup_app_r, Nat.sub_diag.
Qed.

Lemma keys_have_lt canon cells cs n :
  keys_have canon cells cs → (n < length cs)%nat →
  ∃ t, cells !! n = Some (Typeset t) ∧ cs !! n = Some (canon (ts_sym t)).
Proof.
  intros H Hn. destruct (lookup_lt_is_Some_2 cs n Hn) as [c Hc].
  destruct (H n c Hc) as (t & Ht & <-). by exists t.
Qed.

Lemma binds_within_zero R n s : binds_zero s → binds_within R n s.
Proof. intros Hz c Hc. by rewrite Hz in Hc. Qed.

Lemma binds_within_mono (R R' : REBSYM → Prop) n s :
  (∀ c, R c → R' c) → binds_within R n s → binds_within R' n s.
Proof. intros HR H c Hc. destruct (H c Hc). auto. Qed.

Lemma binds_within_none (R : REBSYM → Prop) n s :
  (∀ c, ¬ R c) → binds_within R n s → binds_zero s.
Proof.
  intros HR H c. destruct (decide (bind_at (Bind_Table s) c = 0)) as [|Hc];
    [done|]. destruct (H c Hc) as [Hr _]. by destruct (HR c).
Qed.

Lemma binds_within_set (R : REBSYM → Prop) n c v s :
  binds_within R n s → (v ≠ 0 → R c ∧ v < Z.of_nat n) →
  binds_within R n (with_binds (<[c := v]> (Bind_Table s)) s).
Proof.
  intros H Hv c'. cbn [Bind_Table with_binds]. rewrite bind_at_insert.
  destruct (decide (c = c')) as [<-|]; auto.
Qed.

Lemma binds_within_clear (R : REBSYM → Prop) n c s :
  binds_within R n s →
  binds_within (fun c' => R c' ∧ c' ≠ c) n
               (with_binds (<[c := 0]> (Bind_Table s)) s).
Proof.
  intros H c'. cbn [Bind_Table with_binds]. rewrite bind_at_insert.
  destruct (decide (c = c')) as [<-|Hne]; [done|].
  intros Hc'. destruct (H c' Hc'). auto.
Qed.

(** The loop that tags the target's keys from [i] on, and the one that
    resets them. *)
Lemma Resolve_Context_tag_keys_run canon tk tkv tc i v (R : REBSYM → Prop)
    n s :
  heap s !! tk = Some tkv → keys_have canon (ser_cells tkv) tc →
  (∀ c, c ∈ drop i tc → v ≠ 0 → R c ∧ v < Z.of_nat n) →
  binds_within R n s →
  wpx (for_ i (length tc - i) (fun j =>
         key ← KEY_AT tk j;
         binds_set (canon (ts_sym key)) v)) s
      (fun _ s' => heap s' = heap s ∧ next s' = next s ∧
                   binds_within R n s') no_fail.
Proof.
  intros Htk Hkeys Hv Hb.
  eapply wpx_mono;
    [apply (wpx_for_ _ (fun _ s' => heap s' = heap s ∧ next s' = next s ∧
                                    binds_within R n s'))| |done].
  - done.
  - intros j s1 Hj (Hh & Hx & Hb1). cbv beta.
    destruct (keys_have_lt _ _ _ j Hkeys) as (t & Ht & Hc); [lia|].
    wp_bind. eapply wpx_KEY_AT; [by rewrite Hh|exact Ht|].
    apply wpx_binds_set. split; [done|]. split; [done|].
    apply binds_within_set; [done|]. apply Hv.
    apply (list_elem_of_lookup_2 _ (j - i)). rewrite lookup_drop.
    by replace (i + (j - i))%nat with j by lia.
  - cbv beta. tauto.
Qed.

Lemma Resolve_tag_words_run canon (R : REBSYM → Prop) n words k s :
  (∀ kd sym b,
     AnyWord kd sym b ∈ words →
     IS_WORD (AnyWord kd sym b) || IS_SET_WORD (AnyWord kd sym b) = true →
     R (canon sym)) →
  binds_within R n s →
  wpx (Resolve_tag_words canon words k) s
      (fun _ s' => heap s' = heap s ∧ next s' = next s ∧
                   binds_within R n s') no_fail.
Proof.
  revert k s. induction words as [|w words IH]; intros k s HR Hb.
  { by wp_ret. }
  cbn [Resolve_tag_words].
  assert (∀ kd sym b,
            AnyWord kd sym b ∈ words →
            IS_WORD (AnyWord kd sym b) || IS_SET_WORD (AnyWord kd sym b)
              = true → R (canon sym)) as HR'.
  { intros kd sym b Hin. apply HR. by right. }
  destruct (IS_WORD w || IS_SET_WORD w) eqn:Hw; [|by apply IH].
  destruct w as [| | | | |kd sym b| |]; try discriminate Hw.
  wp_bind. wp_ret. wp_bind. apply wpx_binds_set.
  eapply wpx_mono; [apply IH; [exact HR'|]| |done].
  - apply binds_within_set; [done|]. intros _. split; [|lia].
    by apply (HR kd sym b); [left|].
  - cbv beta. tauto.
Qed.

Lemma Resolve_untag_words_run canon (R : REBSYM → Prop) n words s :
  binds_within R n s →
  wpx (Resolve_untag_words canon words) s
      (fun _ s' =>
         heap s' = heap s ∧ next s' = next s ∧
         binds_within
           (fun c => R c ∧
                     ¬ ∃ kd sym b,
                         AnyWord kd sym b ∈ words ∧
                         IS_WORD (AnyWord kd sym b)
                         || IS_SET_WORD (AnyWord kd sym b) = true ∧
                         canon sym = c) n s') no_fail.
Proof.
  revert R s. induction words as [|w words IH]; intros R s Hb.
  { wp_ret. split; [done|]. split; [done|].
    eapply binds_within_mono; [|exact Hb]. intros c Hc. split; [done|].
    intros (kd & sym & b & Hin & _). by apply elem_of_nil in Hin. }
  cbn [Resolve_untag_words].
  destruct (IS_WORD w || IS_SET_WORD w) eqn:Hw.
  - destruct w as [| | | | |kd sym b| |]; try discriminate Hw.
    wp_bind. wp_ret. wp_bind. apply wpx_binds_set.
    eapply wpx_mono;
      [apply IH; apply binds_within_clear; exact Hb| |done].
    cbv beta. intros _ s' (Hh & Hx & Hb'). split; [done|]. split; [done|].
    eapply binds_within_mono; [|exact Hb']. cbv beta.
    intros c [[Hc Hne] Hnot]. split; [done|].
    intros (kd' & sym' & b' & Hin & Hisw & Hcan).
    apply elem_of_cons in Hin as [Heq|Hin].
    + injection Heq as -> -> ->. congruence.
    + apply Hnot. by exists kd', sym', b'.
  - eapply wpx_mono; [apply IH; exact Hb| |done].
    cbv beta. intros _ s' (Hh & Hx & Hb'). split; [done|]. split; [done|].
    eapply binds_within_mono; [|exact Hb']. cbv beta.
    intros c [Hc Hnot]. split; [done|].
    intros (kd' & sym' & b' & Hin & Hisw & Hcan).
    apply elem_of_cons in Hin as [Heq|Hin].
    + rewrite <- Heq in Hw. congruence.
    + apply Hnot. by exists kd', sym', b'.
Qed.

(** The count of the tagged words the target lacks only reads. *)
Lemma Resolve_Context_count_run canon tk tkv tc n0 s :
  heap s !! tk = Some tkv → keys_have canon (ser_cells tkv) tc →
  wpx (for_fold 1 (length tc - 1) (fun j n =>
         key ← KEY_AT tk j;
         b ← binds_get (canon (ts_sym key));
         mret (if negb (Z.eqb b 0) then n - 1 else n)) n0) s
      (fun _ s' => s' = s) no_fail.
Proof.
  intros Htk Hkeys.
  eapply wpx_mono;
    [apply (wpx_for_fold _ (fun _ _ s' => s' = s))| |done].
  - done.
  - intros j a s1 Hj ->. cbv beta.
    destruct (keys_have_lt _ _ _ j Hkeys) as (t & Ht & Hc); [lia|].
    wp_bind. eapply wpx_KEY_AT; [done|exact Ht|].
    wp_bind. apply wpx_binds_get. by wp_ret.
  - done.
Qed.

(** The loop that marks the source's words with their indices. *)
Lemma Resolve_Context_mark_run canon only_words sk skv sc
    (R : REBSYM → Prop) s :
  heap s !! sk = Some skv → keys_have canon (ser_cells skv) sc →
  binds_within R (length sc) s →
  wpx (for_ 1 (length sc - 1) (fun n =>
         key ← KEY_AT sk n;
         let c := canon (ts_sym key) in
         b ← binds_get c;
         if IS_VOID only_words || negb (Z.eqb b 0)
         then binds_set c (Z.of_nat n) else mret tt)) s
      (fun _ s' =>
         heap s' = heap s ∧ next s' = next s ∧
         binds_within
           (fun c => R c ∨ (IS_VOID only_words = true ∧ c ∈ drop 1 sc))
           (length sc) s') no_fail.
Proof.
  intros Hsk Hkeys Hb.
  set (R' := fun c => R c ∨ (IS_VOID only_words = true ∧ c ∈ drop 1 sc)).
  eapply wpx_mono;
    [apply (wpx_for_ _ (fun _ s' => heap s' = heap s ∧ next s' = next s ∧
                                    binds_within R' (length sc) s'))
    | |done].
  - split; [done|]. split; [done|].
    eapply binds_within_mono; [|exact Hb]. by left.
  - intros n s1 Hn (Hh & Hx & Hb1). cbv beta zeta.
    destruct (keys_have_lt _ _ _ n Hkeys) as (t & Ht & Hc); [lia|].
    wp_bind. eapply wpx_KEY_AT; [by rewrite Hh|exact Ht|].
    wp_bind. apply wpx_binds_get.
    destruct (IS_VOID only_words || _) eqn:Hsel; [|by wp_ret].
    apply wpx_binds_set. split; [done|]. split; [done|].
    apply binds_within_set; [done|]. intros _. split; [|lia].
    apply orb_true_iff in Hsel as [Hvoid|Hnz].
    + right. split; [done|].
      apply (list_elem_of_lookup_2 _ (n - 1)). rewrite lookup_drop.
      by replace (1 + (n - 1))%nat with n by lia.
    + apply negb_true_iff, Z.eqb_neq in Hnz. destruct (Hb1 _ Hnz). done.
  - cbv beta. tauto.
Qed.

(** The loop that resets the entries of the source's words. *)
Lemma Resolve_Context_reset_source_run canon sk skv sc (R : REBSYM → Prop)
    n s :
  heap s !! sk = Some skv → keys_have canon (ser_cells skv) sc →
  binds_within R n s →
  wpx (for_ 1 (length sc - 1) (fun n =>
         key ← KEY_AT sk n;
         binds_set (canon (ts_sym key)) 0)) s
      (fun _ s' =>
         heap s' = heap s ∧ next s' = next s ∧
         binds_within (fun c => R c ∧ c ∉ drop 1 sc) n s') no_fail.
Proof.
  intros Hsk Hkeys Hb.
  eapply wpx_mono;
    [apply (wpx_for_ _
              (fun j s' =>
                 heap s' = heap s ∧ next s' = next s ∧
                 binds_within
                   (fun c => R c ∧
                             ∀ j', (1 ≤ j' < j)%nat → sc !! j' ≠ Some c)
                   n s'))
    | |done].
  - split; [done|]. split; [done|].
    eapply binds_within_mono; [|exact Hb]. intros c Hc. split; [done|]. lia.
  - intros j s1 Hj (Hh & Hx & Hb1). cbv beta.
    destruct (keys_have_lt _ _ _ j Hkeys) as (t & Ht & Hc); [lia|].
    wp_bind. eapply wpx_KEY_AT; [by rewrite Hh|exact Ht|].
    apply wpx_binds_set. split; [done|]. split; [done|].
    eapply binds_within_mono; [|apply binds_within_clear; exact Hb1].
    cbv beta. intros c [[Hr Hbefore] Hne]. split; [done|].
    intros j' Hj'. destruct (decide (j' = j)) as [->|];
      [congruence|apply Hbefore; lia].
  - cbv beta. intros _ s' (Hh & Hx & Hb'). split; [done|]. split; [done|].
    eapply binds_within_mono; [|exact Hb']. cbv beta.
    intros c [Hr Hnone]. split; [done|].
    intros Hin. apply list_elem_of_lookup_1 in Hin as [j' Hj'].
    rewrite lookup_drop in Hj'.
    pose proof (lookup_lt_Some _ _ _ Hj') as Hlt.
    apply (Hnone (1 + j')%nat); [lia|done].
Qed.

Lemma resolve_shape_heap canon target source sk tk tc sc exact s s' :
  heap s' = heap s → next s' = next s →
  resolve_shape canon target source sk tk tc sc exact s →
  resolve_shape canon target source sk tk tc sc exact s'.
Proof. unfold resolve_shape. intros -> ->. done. Qed.

(** Growing the target keeps the contexts in shape; the target may come to
    link a copy of its keylist. *)
Lemma Expand_Context_shape canon target source sk tk tc sc exact delta s :
  resolve_shape canon target source sk tk tc sc exact s →
  wpx (Expand_Context target delta) s
      (fun _ s' =>
         (∃ tk', resolve_shape canon target source sk tk' tc sc exact s') ∧
         Bind_Table s' = Bind_Table s) no_fail.
Proof.
  intros ((Hlt & Hlk & Hls & Hlsk) & (Hn1 & Hn2 & Hn3 & Hn4) &
          (tv & tkv & Htv & Hl & Htkv & Hlen & Hklen & Hkeys) &
          (sv & skv & Hsv & Hsl & Hskv & Hslen & Hskeys & Hexact)).
  unfold Expand_Context, Extend_Series.
  wp_bind. wp_modify.
  wp_bind. unfold Expand_Context_Keylist_Core.
  destruct (Nat.eqb delta 0).
  { wp_ret. wp_ret. split; [|done]. exists tk.
    split; [done|]. split; [done|]. split.
    - eexists _, tkv. split; [map_lookup|]. split; [done|].
      split; [map_lookup|]. done.
    - exists sv, skv. split; [map_lookup|]. split; [done|].
      split; [map_lookup|]. done. }
  wp_bind. wp_keylist.
  wp_bind. wp_ser.
  destruct (KEYLIST_FLAG_SHARED tkv).
  - wp_bind. wp_copy.
    wp_bind. wp_modify.
    wp_bind. unfold MANAGE_ARRAY. wp_modify.
    wp_bind. unfold INIT_CTX_KEYLIST_UNIQUE.
    wp_bind. wp_ser. wp_bind. wp_assert.
    wp_modify.
    wp_ret. wp_ret. split; [|done]. exists (next s).
    split; [st_simpl; lia|]. split; [repeat split; lia|]. split.
    + eexists _, _. split; [map_lookup|]. split; [done|].
      split; [map_lookup|]. done.
    + exists sv, skv. split; [map_lookup|]. split; [done|].
      split; [map_lookup|]. done.
  - wp_bind. wp_modify. wp_ret. wp_ret. split; [|done]. exists tk.
    split; [done|]. split; [done|]. split.
    + eexists _, _. split; [map_lookup|]. split; [done|].
      split; [map_lookup|]. done.
    + destruct (decide (sk = tk)) as [->|Hsk].
      * assert (skv = tkv) as -> by congruence.
        exists sv. eexists. split; [map_lookup|]. split; [done|].
        split; [map_lookup|]. done.
      * exists sv, skv. split; [map_lookup|]. split; [done|].
        split; [map_lookup|]. done.
Qed.

(** One round of the copying loop. *)
Lemma Resolve_Context_copy_run canon target source sk tk tc sc exact
    (R : REBSYM → Prop) all j s :
  resolve_shape canon target source sk tk tc sc exact s →
  binds_within R (length sc) s →
  (j < length tc)%nat →
  wpx (Resolve_Context_copy canon target source tk all j) s
      (fun _ s' =>
         resolve_shape canon target source sk tk tc sc exact s' ∧
         binds_within (fun c => R c ∧ tc !! j ≠ Some c) (length sc) s')
      no_fail.
Proof.
  intros Hshape Hb Hj.
  pose proof Hshape as
    ((Hlt & Hlk & Hls & Hlsk) & (Hn1 & Hn2 & Hn3 & Hn4) &
     (tv & tkv & Htv & Hl & Htkv & Hlen & Hklen & Hkeys) &
     (sv & skv & Hsv & Hsl & Hskv & Hslen & Hskeys & Hexact)).
  destruct (keys_have_lt _ _ _ j Hkeys Hj) as (key & Hkey & Hc).
  unfold Resolve_Context_copy.
  wp_bind. eapply wpx_KEY_AT; [exact Htkv|exact Hkey|].
  wp_bind. apply wpx_binds_get.
  destruct (Z.eqb_spec (bind_at (Bind_Table s) (canon (ts_sym key))) 0)
    as [Hz|Hnz]; cbn [negb].
  { wp_ret. split; [done|]. intros c Hc0. destruct (Hb c Hc0) as [Hr Hlt0].
    split; [|done]. split; [done|]. rewrite Hc. intros [= <-]. done. }
  destruct (Hb _ Hnz) as [_ Hm].
  revert Hnz Hm.
  generalize (bind_at (Bind_Table s) (canon (ts_sym key))). intros m Hnz Hm.
  wp_bind. apply wpx_binds_set.
  assert (binds_within (fun c => R c ∧ tc !! j ≠ Some c) (length sc)
            (with_binds (<[canon (ts_sym key) := 0]> (Bind_Table s)) s))
    as Hb1.
  { eapply binds_within_mono; [|apply binds_within_clear; exact Hb].
    cbv beta. intros c [Hr Hne]. split; [done|]. rewrite Hc. congruence. }
  set (s1 := with_binds _ s) in *.
  assert (resolve_shape canon target source sk tk tc sc exact s1) as Hshape1
    by exact Hshape.
  assert (heap s1 !! target = Some tv) as Htv1 by exact Htv.
  assert (heap s1 !! tk = Some tkv) as Htkv1 by exact Htkv.
  assert (heap s1 !! source = Some sv) as Hsv1 by exact Hsv.
  assert (heap s1 !! sk = Some skv) as Hskv1 by exact Hskv.
  assert ((target < next s1)%positive ∧ (tk < next s1)%positive ∧
          (source < next s1)%positive ∧ (sk < next s1)%positive) as Hnext
    by done.
  clearbody s1. clear Hshape Hb Htv Htkv Hsv Hskv Hlt Hlk Hls Hlsk s.
  rename s1 into s.
  wp_bind.
  apply wpx_mono with (Q := fun _ s' => s' = s) (E := no_fail); [| |done].
  { destruct (TYPESET_FLAG_LOCKED key); [by wp_ret|].
    destruct all; [by wp_ret|].
    destruct (lookup_lt_is_Some_2 (ser_cells tv) j) as [var Hvar]; [lia|].
    wp_bind. eapply wpx_ARR_AT; [exact Htv1|exact Hvar|]. by wp_ret. }
  cbv beta. intros ok ? ->.
  destruct ok; [|by wp_ret].
  assert (∀ x,
            resolve_shape canon target source sk tk tc sc exact
              (with_heap
                 (<[target := set_cells (<[j := x]> (ser_cells tv)) tv]>
                    (heap s)) s)) as Hput.
  { intros x. split; [done|]. split; [done|]. split.
    - eexists _, tkv. split; [map_lookup|]. split; [done|].
      split; [map_lookup|]. cbn [ser_cells set_cells].
      by rewrite length_insert.
    - exists sv, skv. split; [map_lookup|]. split; [done|].
      split; [map_lookup|]. done. }
  destruct (Z.ltb_spec m 0) as [Hneg|Hpos].
  - eapply wpx_ARR_PUT; [exact Htv1|lia|]. split; [apply Hput|exact Hb1].
  - unfold CTX_VAR. wp_bind. wp_bind.
    apply wpx_assert; [by destruct (Nat.eqb_spec (Z.to_nat m) 0); [lia|]|].
    destruct (lookup_lt_is_Some_2 (ser_cells sv) (Z.to_nat m)) as [x Hx];
      [lia|].
    eapply wpx_ARR_AT; [exact Hsv1|exact Hx|].
    wp_bind. eapply wpx_ARR_PUT; [exact Htv1|lia|].
    unfold CTX_KEY. wp_bind. wp_bind.
    apply wpx_assert; [by destruct (Nat.eqb_spec (Z.to_nat m) 0); [lia|]|].
    wp_bind. wp_keylist.
    destruct (keys_have_lt _ _ _ (Z.to_nat m) Hskeys) as (skey & Hskey & _);
      [lia|].
    eapply wpx_KEY_AT; [map_lookup|exact Hskey|].
    eapply wpx_ARR_PUT; [map_lookup|lia|].
    split; [|exact Hb1].
    split; [done|]. split; [done|]. split.
    + eexists _, _. split; [map_lookup|]. split; [done|].
      split; [map_lookup|]. cbn [ser_cells set_cells].
      rewrite !length_insert. split; [done|]. split; [done|].
      by eapply keys_have_insert.
    + destruct (decide (sk = tk)) as [->|Hsk].
      * assert (skv = tkv) as -> by congruence.
        exists sv. eexists. split; [map_lookup|]. split; [done|].
        split; [map_lookup|]. cbn [ser_cells set_cells].
        rewrite length_insert. split; [done|]. split; [|done].
        by eapply keys_have_insert.
      * exists sv, skv. split; [map_lookup|]. split; [done|].
        split; [map_lookup|]. done.
Qed.

(** One round of the loop that appends the source's new words. *)
Lemma Resolve_Context_append_run canon target source sk tk tc sc
    (R : REBSYM → Prop) n s :
  resolve_shape canon target source sk tk tc sc false s →
  binds_within R (length sc) s →
  (1 ≤ n < length sc)%nat →
  Forall (fun c => c ≠ SYM_0) (drop 1 sc) →
  wpx (key ← KEY_AT sk n;
       let c := canon (ts_sym key) in
       b ← binds_get c;
       if negb (Z.eqb b 0) then
         binds_set c 0;;
         '(_, var) ← Append_Context_Core target None c
                       (TYPESET_FLAG_LOOKBACK key);
         v ← CTX_VAR source n;
         ARR_PUT target var v
       else mret tt) s
      (fun _ s' =>
         (∃ tc', resolve_shape canon target source sk tk tc' sc false s') ∧
         binds_within (fun c => R c ∧ sc !! n ≠ Some c) (length sc) s')
      no_fail.
Proof.
  intros Hshape Hb Hn Hsyms.
  pose proof Hshape as
    ((Hlt & Hlk & Hls & Hlsk) & (Hn1 & Hn2 & Hn3 & Hn4) &
     (tv & tkv & Htv & Hl & Htkv & Hlen & Hklen & Hkeys) &
     (sv & skv & Hsv & Hsl & Hskv & Hslen & Hskeys & Hexact)).
  destruct (keys_have_lt _ _ _ n Hskeys) as (key & Hkey & Hc); [lia|].
  wp_bind. eapply wpx_KEY_AT; [exact Hskv|exact Hkey|].
  wp_bind. apply wpx_binds_get.
  destruct (Z.eqb_spec (bind_at (Bind_Table s) (canon (ts_sym key))) 0)
    as [Hz|Hnz]; cbn [negb].
  { wp_ret. split; [by exists tc|]. intros c Hc0.
    destruct (Hb c Hc0) as [Hr Hlt0].
    split; [|done]. split; [done|]. rewrite Hc. intros [= <-]. done. }
  wp_bind. apply wpx_binds_set.
  assert (binds_within (fun c => R c ∧ sc !! n ≠ Some c) (length sc)
            (with_binds (<[canon (ts_sym key) := 0]> (Bind_Table s)) s))
    as Hb1.
  { eapply binds_within_mono; [|apply binds_within_clear; exact Hb].
    cbv beta. intros c [Hr Hne]. split; [done|]. rewrite Hc. congruence. }
  assert (canon (ts_sym key) ≠ SYM_0) as Hsym.
  { apply (proj1 (Forall_forall _ _) Hsyms).
    apply (list_elem_of_lookup_2 _ (n - 1)). rewrite lookup_drop.
    by replace (1 + (n - 1))%nat with n by lia. }
  wp_bind.
  eapply (Append_Context_Core_run target None _ _ _ tv tk tkv);
    [exact Htv|exact Hl|exact Htkv|congruence|exact Hsym|].
  intros s2 (Hk2 & Hc2 & Hothers & Hx2 & Hb2 & _).
  cbn [bound_word]. cbv beta iota.
  assert (heap s2 !! source = Some sv) as Hsv2.
  { rewrite Hothers by congruence. exact Hsv. }
  unfold CTX_VAR. wp_bind. wp_bind.
  apply wpx_assert; [by destruct (Nat.eqb_spec n 0); [lia|]|].
  destruct (lookup_lt_is_Some_2 (ser_cells sv) n) as [x Hx]; [lia|].
  eapply wpx_ARR_AT; [exact Hsv2|exact Hx|].
  eapply wpx_ARR_PUT;
    [exact Hc2|cbn [ser_cells set_cells]; rewrite length_app; cbn; lia|].
  split.
  - exists (tc ++ [canon (canon (ts_sym key))]).
    split; [st_simpl; rewrite Hx2; done|]. split; [done|]. split.
    + eexists _, _. split; [map_lookup|]. split; [done|].
      split; [map_simpl; exact Hk2|]. cbn [ser_cells set_cells set_rest].
      rewrite length_insert, !length_app. cbn [length].
      split; [lia|]. split; [lia|].
      by apply (keys_have_snoc canon _ _
                  (mkTypeset (canon (ts_sym key)) ALL_64 false false
                             (TYPESET_FLAG_LOOKBACK key))).
    + destruct (decide (sk = tk)) as [->|Hsk].
      * assert (skv = tkv) as -> by congruence.
        exists sv. eexists. split; [map_lookup|]. split; [done|].
        split; [map_simpl; exact Hk2|]. cbn [ser_cells set_cells set_rest].
        split; [done|]. split; [by apply keys_have_app|done].
      * exists sv, skv. split; [map_lookup|]. split; [done|].
        split; [map_simpl; rewrite Hothers by congruence; exact Hskv|].
        done.
  - intros c. st_simpl. rewrite Hb2. apply Hb1.
Qed.

Lemma binds_within_binds (R : REBSYM → Prop) n s s' :
  Bind_Table s' = Bind_Table s → binds_within R n s → binds_within R n s'.
Proof. unfold binds_within. by intros ->. Qed.

Lemma resolve_shape_loose canon target source sk tk tc sc exact s :
  resolve_shape canon target source sk tk tc sc exact s →
  resolve_shape canon target source sk tk tc sc false s.
Proof.
  intros (Hlt & Hne & Ht & sv & skv & Hsv & Hsl & Hskv & Hslen & Hskeys & _).
  split; [done|]. split; [done|]. split; [done|].
  exists sv, skv. done.
Qed.

(** The copying loop, from the slot [start] on. *)
Lemma Resolve_Context_copy_loop_run canon target source sk tk tc sc exact
    (R : REBSYM → Prop) all start s :
  resolve_shape canon target source sk tk tc sc exact s →
  binds_within R (length sc) s →
  wpx (for_ start (length tc - start)
         (Resolve_Context_copy canon target source tk all)) s
      (fun _ s' =>
         resolve_shape canon target source sk tk tc sc exact s' ∧
         binds_within (fun c => R c ∧ c ∉ drop start tc) (length sc) s')
      no_fail.
Proof.
  intros Hshape Hb.
  eapply wpx_mono;
    [apply (wpx_for_ _
              (fun j s' =>
                 resolve_shape canon target source sk tk tc sc exact s' ∧
                 binds_within
                   (fun c => R c ∧
                             ∀ j', (start ≤ j' < j)%nat → tc !! j' ≠ Some c)
                   (length sc) s'))
    | |done].
  - split; [done|]. eapply binds_within_mono; [|exact Hb].
    intros c Hc. split; [done|]. lia.
  - intros j s1 Hj [Hshape1 Hb1]. cbv beta.
    eapply wpx_mono;
      [eapply Resolve_Context_copy_run; [exact Hshape1|exact Hb1|lia]
      | |done].
    cbv beta. intros _ s2 [Hshape2 Hb2]. split; [done|].
    eapply binds_within_mono; [|exact Hb2]. cbv beta.
    intros c [[Hr Hbefore] Hne]. split; [done|].
    intros j' Hj'. destruct (decide (j' = j)) as [->|];
      [done|apply Hbefore; lia].
  - cbv beta. intros _ s' [Hshape' Hb']. split; [done|].
    eapply binds_within_mono; [|exact Hb']. cbv beta.
    intros c [Hr Hnone]. split; [done|].
    intros Hin. apply list_elem_of_lookup_1 in Hin as [j' Hj'].
    rewrite lookup_drop in Hj'.
    pose proof (lookup_lt_Some _ _ _ Hj') as Hlt.
    apply (Hnone (start + j')%nat); [lia|done].
Qed.

(** The loop that appends the source's new words. *)
Lemma Resolve_Context_append_loop_run canon target source sk tk tc sc
    (R : REBSYM → Prop) s :
  resolve_shape canon target source sk tk tc sc false s →
  binds_within R (length sc) s →
  Forall (fun c => c ≠ SYM_0) (drop 1 sc) →
  wpx (for_ 1 (length sc - 1) (fun n =>
         key ← KEY_AT sk n;
         let c := canon (ts_sym key) in
         b ← binds_get c;
         if negb (Z.eqb b 0) then
           binds_set c 0;;
           '(_, var) ← Append_Context_Core target None c
                         (TYPESET_FLAG_LOOKBACK key);
           v ← CTX_VAR source n;
           ARR_PUT target var v
         else mret tt)) s
      (fun _ s' =>
         binds_within (fun c => R c ∧ c ∉ drop 1 sc) (length sc) s')
      no_fail.
Proof.
  intros Hshape Hb Hsyms.
  eapply wpx_mono;
    [apply (wpx_for_ _
              (fun n s' =>
                 (∃ tc', resolve_shape canon target source sk tk tc' sc
                           false s') ∧
                 binds_within
                   (fun c => R c ∧
                             ∀ n', (1 ≤ n' < n)%nat → sc !! n' ≠ Some c)
                   (length sc) s'))
    | |done].
  - split; [by exists tc|]. eapply binds_within_mono; [|exact Hb].
    intros c Hc. split; [done|]. lia.
  - intros n s1 Hn [[tc1 Hshape1] Hb1]. cbv beta.
    eapply wpx_mono;
      [eapply Resolve_Context_append_run;
       [exact Hshape1|exact Hb1|lia|exact Hsyms]
      | |done].
    cbv beta. intros _ s2 [Hshape2 Hb2]. split; [done|].
    eapply binds_within_mono; [|exact Hb2]. cbv beta.
    intros c [[Hr Hbefore] Hne]. split; [done|].
    intros n' Hn'. destruct (decide (n' = n)) as [->|];
      [done|apply Hbefore; lia].
  - cbv beta. intros _ s' [_ Hb'].
    eapply binds_within_mono; [|exact Hb']. cbv beta.
    intros c [Hr Hnone]. split; [done|].
    intros Hin. apply list_elem_of_lookup_1 in Hin as [j' Hj'].
    rewrite lookup_drop in Hj'.
    pose proof (lookup_lt_Some _ _ _ Hj') as Hlt.
    apply (Hnone (1 + j')%nat); [lia|done].
Qed.

(** Between them, the copying loop and the loop over the source's words
    clear every entry. *)
Lemma resolve_tagged_cleared canon only_words tc sc c :
  match only_words with
  | AnyArray REB_BLOCK _ =>
      ∀ c, resolve_selects canon only_words c →
           c ∈ drop 1 tc ∨ c ∈ drop 1 sc
  | _ => True
  end →
  resolve_tagged canon only_words tc c
  ∨ (IS_VOID only_words = true ∧ c ∈ drop 1 sc) →
  c ∉ drop (resolve_start only_words) tc → c ∉ drop 1 sc → False.
Proof.
  intros Hcover [Htag|[_ Hin]] Htc Hsc; [|done].
  destruct only_words as [| | |v| | |[] words|]; try done.
  - apply Htc. unfold resolve_start.
    assert (resolve_i (Integer v) ≠ 0%nat) as Hi.
    { cbn. by destruct (Nat.eqb_spec (Z.to_nat (v `mod` 2 ^ 32)) 0). }
    by destruct (Nat.eqb_spec (resolve_i (Integer v)) 0).
  - destruct (Hcover c Htag); done.
Qed.

(** A call that is in order returns, whatever [all] is. *)
Lemma Resolve_Context_returns canon target source only_words all expand
    tv tk tkv sv sk skv s :
  resolve_ready canon target source only_words expand tv tk tkv sv sk skv
                s →
  wpx (Resolve_Context canon target source only_words all expand) s
      (fun _ _ => True) no_fail.
Proof.
  intros ((Hwf & Hzero & Hbuf) & (Htv & Hl & Htkv & Hsv & Hsl & Hskv) &
          (Hn1 & Hn2 & Hn3 & Hn4) & Hunl & (Hlen & Hkt) & (Hslen & Hks) &
          Hexp).
  set (tc := cell_canon canon <$> ser_cells tkv) in *.
  set (sc := cell_canon canon <$> ser_cells skv) in *.
  set (Tagged := fun c =>
                   resolve_tagged canon only_words tc c
                   ∨ (IS_VOID only_words = true ∧ c ∈ drop 1 sc)).
  assert (resolve_shape canon target source sk tk tc sc true s) as Hshape.
  { split; [repeat split; by eapply heap_wf_lt|]. split; [done|]. split.
    - exists tv, tkv. unfold tc. rewrite length_fmap.
      repeat split; try done. by apply keys_have_fmap.
    - exists sv, skv. unfold sc. rewrite length_fmap.
      repeat split; try done. by apply keys_have_fmap. }
  unfold Resolve_Context.
  wp_bind. apply wpx_ASSERT_BIND_TABLE_EMPTY; [done|].
  wp_bind. wp_ser. rewrite Hunl. wp_bind. wp_ret.
  wp_bind. unfold CTX_LEN. wp_bind. wp_keylist.
  wp_bind. eapply wpx_ARR_LEN; [map_lookup|]. wp_ret.
  change (match only_words with
          | Integer v0 =>
              if (Z.to_nat (v0 `mod` 2 ^ 32) =? 0)%nat then 1%nat
              else Z.to_nat (v0 `mod` 2 ^ 32)
          | _ => 0%nat
          end) with (resolve_i only_words).
  destruct (IS_INTEGER only_words && _); [by wp_ret|].
  wp_bind. unfold Collect_Keys_Start.
  wp_bind. apply wpx_ASSERT_BIND_TABLE_EMPTY; [done|].
  wp_bind. apply wpx_get_buf.
  wp_bind. apply wpx_assert; [by rewrite Hbuf|]. apply wpx_set_buf.
  set (s1 := with_buf _ s).
  assert (resolve_shape canon target source sk tk tc sc true s1) as Hshape1
    by exact Hshape.
  assert (binds_zero s1) as Hzero1 by exact Hzero.
  clearbody s1.
  clear Hshape Hzero Hbuf Hwf Htv Htkv Hsv Hskv s Hlen Hslen.
  rename s1 into s, Hshape1 into Hshape, Hzero1 into Hzero.
  (* the words to copy are tagged *)
  wp_bind.
  apply wpx_mono
    with (Q := fun _ s' =>
                 heap s' = heap s ∧ next s' = next s ∧
                 binds_within (resolve_tagged canon only_words tc)
                              (length sc) s')
         (E := no_fail); [| |done].
  { pose proof Hshape as
      (_ & _ & (tv1 & tkv1 & Htv1 & Hl1 & Htkv1 & Hlen1 & Hklen1 & Hkeys1)
       & _).
    destruct (Nat.eqb_spec (resolve_i only_words) 0) as [Hi0|Hi];
      cbn [negb].
    - destruct only_words as [| | |v| | |[] words|];
        try (wp_ret; split; [done|]; split; [done|];
             by apply binds_within_zero).
      eapply wpx_mono;
          [apply (Resolve_tag_words_run canon
                    (resolve_tagged canon (AnyArray REB_BLOCK words) tc)
                    (length sc));
           [|by apply binds_within_zero]
          |done|done].
      intros kd sym b Hin Hw. by exists kd, sym, b.
    - wp_bind. wp_keylist.
      wp_bind. eapply wpx_ARR_LEN; [map_lookup|]. rewrite Hklen1.
      wp_bind.
      eapply wpx_mono;
        [eapply (Resolve_Context_tag_keys_run canon tk tkv1 tc _ _
                   (resolve_tagged canon only_words tc));
         [exact Htkv1|exact Hkeys1| |by apply binds_within_zero]
        | |done].
      + intros c Hc _. split; [|lia].
        destruct only_words; try done.
      + cbv beta. intros _ s1 (Hh & Hx & Hb).
        wp_bind. unfold CTX_LEN. wp_bind.
        eapply wpx_CTX_KEYLIST; [by rewrite Hh|exact Hl1|].
        wp_bind. eapply wpx_ARR_LEN; [by rewrite Hh|]. wp_ret. by wp_ret. }
  cbv beta. intros n s1 (Hh & Hx & Htag).
  apply (resolve_shape_heap _ _ _ _ _ _ _ _ _ _ Hh Hx) in Hshape.
  clear Hh Hx Hzero s Hn1 Hn2. rename s1 into s.
  (* the target grows *)
  wp_bind.
  apply wpx_mono
    with (Q := fun e s' =>
                 (∃ tk', resolve_shape canon target source sk tk' tc sc
                           true s') ∧
                 binds_within (resolve_tagged canon only_words tc)
                              (length sc) s' ∧
                 (e = true → expand = true))
         (E := no_fail); [| |done].
  { destruct (expand && Z.ltb 0 n) eqn:He;
      [|wp_ret; split; [by exists tk|]; split; [done|]; done].
    apply andb_true_iff in He as [-> _].
    pose proof Hshape as
      (_ & _ & (tv1 & tkv1 & Htv1 & Hl1 & Htkv1 & Hlen1 & Hklen1 & Hkeys1)
       & _).
    wp_bind. wp_keylist.
    wp_bind. eapply wpx_ARR_LEN; [map_lookup|]. rewrite Hklen1.
    wp_bind.
    eapply wpx_mono;
      [eapply Resolve_Context_count_run; [exact Htkv1|exact Hkeys1]
      | |done].
    cbv beta. intros n' ? ->.
    destruct (Z.ltb 0 n');
      [|wp_ret; split; [by exists tk|]; split; [done|]; done].
    wp_bind.
    eapply wpx_mono; [eapply Expand_Context_shape; exact Hshape| |done].
    cbv beta. intros _ s2 [Hshape2 Hb2]. wp_ret.
    split; [done|]. split; [|done]. by eapply binds_within_binds. }
  clear Hshape Htag s tk Hl Hkt. cbv beta.
  intros expand' s ((tk & Hshape) & Htag & Hexpand).
  (* the source's words are marked *)
  pose proof Hshape as
    (_ & (Hn1 & Hn2 & _ & _) &
     (tv1 & tkv1 & Htv1 & Hl1 & Htkv1 & Hlen1 & Hklen1 & Hkeys1) &
     (sv1 & skv1 & Hsv1 & Hsl1 & Hskv1 & Hslen1 & Hskeys1 & Hexact1)).
  wp_bind. eapply wpx_CTX_KEYLIST; [exact Hsv1|exact Hsl1|].
  wp_bind. eapply wpx_ARR_LEN; [exact Hskv1|]. rewrite (Hexact1 eq_refl).
  wp_bind.
  eapply wpx_mono;
    [eapply Resolve_Context_mark_run; [exact Hskv1|exact Hskeys1|exact Htag]
    | |done].
  cbv beta. intros _ s1 (Hh & Hx & Hmark).
  apply (resolve_shape_heap _ _ _ _ _ _ _ _ _ _ Hh Hx) in Hshape.
  wp_bind. eapply wpx_CTX_KEYLIST; [by rewrite Hh|exact Hl1|].
  wp_bind. eapply wpx_ARR_LEN; [by rewrite Hh|]. rewrite Hklen1.
  clear Hh Hx Htag Htv1 Htkv1 Hsv1 Hskv1 s Hlen1 Hklen1 Hkeys1 Hslen1
        Hskeys1 Hexact1 Hl1 Hsl1 tv1 tkv1 sv1 skv1.
  rename s1 into s.
  (* the copying loop *)
  wp_bind.
  change (if negb (resolve_i only_words =? 0)%nat
          then resolve_i only_words else 1%nat)
    with (resolve_start only_words).
  eapply wpx_mono;
    [eapply Resolve_Context_copy_loop_run; [exact Hshape|exact Hmark]
    | |done].
  clear Hshape Hmark s. cbv beta. intros _ s [Hshape Hcopy].
  fold Tagged in Hcopy.
  pose proof Hshape as
    (_ & _ &
     (tv1 & tkv1 & Htv1 & Hl1 & Htkv1 & Hlen1 & Hklen1 & Hkeys1) &
     (sv1 & skv1 & Hsv1 & Hsl1 & Hskv1 & Hslen1 & Hskeys1 & Hexact1)).
  (* new words, or the reset of the table *)
  wp_bind.
  apply wpx_mono with (Q := fun _ s' => binds_zero s') (E := no_fail);
    [| |done].
  { destruct expand'.
    - destruct (Hexp (Hexpand eq_refl)) as [Hsyms Hcover].
      wp_bind. eapply wpx_CTX_KEYLIST; [exact Hsv1|exact Hsl1|].
      wp_bind. eapply wpx_ARR_LEN; [exact Hskv1|].
      rewrite (Hexact1 eq_refl).
      eapply wpx_mono;
        [eapply Resolve_Context_append_loop_run;
         [eapply resolve_shape_loose; exact Hshape|exact Hcopy|exact Hsyms]
        | |done].
      cbv beta. intros _ s' Hb. eapply binds_within_none; [|exact Hb].
      cbv beta. intros c [[Ht Htc] Hsc].
      by eapply (resolve_tagged_cleared canon only_words tc sc c).
    - destruct (Nat.eqb_spec (resolve_i only_words) 0) as [Hi0|Hi];
        cbn [negb].
      + assert (∀ s', binds_within
                        (fun c => (Tagged c
                                   ∧ c ∉ drop (resolve_start only_words) tc)
                                  ∧ c ∉ drop 1 sc) (length sc) s' →
                      IS_BLOCK only_words = false →
                      binds_zero s') as Hsource.
        { intros s' Hb Hblock. eapply binds_within_none; [|exact Hb].
          cbv beta. intros c [[Ht Htc] Hsc].
          eapply (resolve_tagged_cleared canon only_words tc sc c);
            try done.
          by destruct only_words as [| | | | | |[] words|]. }
        destruct only_words as [| | |v| | |[] words|];
          try (wp_bind; eapply wpx_CTX_KEYLIST; [exact Hsv1|exact Hsl1|];
               wp_bind; eapply wpx_ARR_LEN; [exact Hskv1|];
               rewrite (Hexact1 eq_refl);
               eapply wpx_mono;
                 [eapply Resolve_Context_reset_source_run;
                  [exact Hskv1|exact Hskeys1|exact Hcopy]
                 | |done];
               cbv beta; intros _ s' (_ & _ & Hb); by apply Hsource).
        eapply wpx_mono;
          [eapply Resolve_untag_words_run; exact Hcopy| |done].
        cbv beta. intros _ s' (_ & _ & Hb).
        eapply binds_within_none; [|exact Hb].
        cbv beta. intros c [[[Ht|[Hv _]] _] Hnot]; [|done].
        by apply Hnot.
      + wp_bind. eapply wpx_CTX_KEYLIST; [exact Htv1|exact Hl1|].
        wp_bind. eapply wpx_ARR_LEN; [exact Htkv1|]. rewrite Hklen1.
        eapply wpx_mono;
          [eapply Resolve_Context_tag_keys_run;
           [exact Htkv1|exact Hkeys1|done|exact Hcopy]
          | |done].
        cbv beta. intros _ s' (_ & _ & Hb).
        eapply binds_within_none; [|exact Hb].
        cbv beta. intros c [[Ht|[Hv _]] Htc].
        * destruct only_words as [| | |v| | |[] words|]; try done.
          apply Htc. unfold resolve_start.
          by destruct (Nat.eqb_spec (resolve_i (Integer v)) 0).
        * by destruct only_words. }
  cbv beta. intros _ s' Hz.
  wp_bind. apply wpx_ASSERT_BIND_TABLE_EMPTY; [done|].
  by apply wpx_set_buf.
Qed.

(** C6, as the code has it.  (1) With [all] false, no slot of the target
    that holds a value (is not void) is written: it holds the same value
    when the call ends, by a return or by a failure, whatever the source
    holds.  (2) Whatever [all] is, the slot of a locked key is not written
    either, however the call ends.  (3) A call that is in order
    ([resolve_ready]) returns.  (4) With [all] true, such a call returns
    with the source's value in the slot of a selected key that is not
    locked: a key at or after the slot the copying starts from, the first
    of its canon from there on, selected by the mode of [only_words], whose
    canon a key of the source has (the last such key of the source gives
    the value). *)
Theorem Resolve_Context_overwrite canon target source only_words expand
    s tv tk tkv sv sk skv :
  heap_wf s →
  heap s !! target = Some tv → link_keylist tv = Some tk →
  heap s !! tk = Some tkv → tk ≠ target →
  (∀ s' j x,
     final_state
       (Resolve_Context canon target source only_words false expand s)
       = Some s' →
     ser_cells tv !! j = Some x → IS_VOID x = false →
     ∃ tv', heap s' !! target = Some tv' ∧ ser_cells tv' !! j = Some x) ∧
  (∀ all s' j key x,
     final_state
       (Resolve_Context canon target source only_words all expand s)
       = Some s' →
     ser_cells tkv !! j = Some (Typeset key) →
     TYPESET_FLAG_LOCKED key = true →
     ser_cells tv !! j = Some x →
     ∃ tv', heap s' !! target = Some tv' ∧ ser_cells tv' !! j = Some x) ∧
  (∀ all,
     resolve_ready canon target source only_words expand tv tk tkv sv sk
                   skv s →
     ∃ s', Resolve_Context canon target source only_words all expand s
             = Done tt s') ∧
  (∀ j key m skey v,
     resolve_ready canon target source only_words expand tv tk tkv sv sk
                   skv s →
     ser_cells tkv !! j = Some (Typeset key) →
     TYPESET_FLAG_LOCKED key = false →
     (resolve_start only_words ≤ j)%nat →
     (∀ j' key', (resolve_start only_words ≤ j' < j)%nat →
                 ser_cells tkv !! j' = Some (Typeset key') →
                 canon (ts_sym key') ≠ canon (ts_sym key)) →
     ser_cells skv !! m = Some (Typeset skey) → (1 ≤ m)%nat →
     canon (ts_sym skey) = canon (ts_sym key) →
     (∀ m' k', (m < m')%nat → ser_cells skv !! m' = Some (Typeset k') →
               canon (ts_sym k') ≠ canon (ts_sym key)) →
     ser_cells sv !! m = Some v →
     resolve_selects canon only_words (canon (ts_sym key)) →
     ∃ s',
       Resolve_Context canon target source only_words true expand s
         = Done tt s' ∧
       ∃ tv', heap s' !! target = Some tv' ∧ ser_cells tv' !! j = Some v).
Proof.
  intros Hwf Htv Hl Htkv Hne. split; [|split; [|split]].
  - intros s' j x Hfin Hj Hx.
    assert (wlx (Resolve_Context canon target source only_words false
                   expand) s
              (fun _ s' => ∃ tk', slots_inv target tk'
                             (fun j x => ser_cells tv !! j = Some x
                                         ∧ IS_VOID x = false) s')
              (fun _ s' => ∃ tk', slots_inv target tk'
                             (fun j x => ser_cells tv !! j = Some x
                                         ∧ IS_VOID x = false) s'))
      as Hrun.
    { apply (Resolve_Context_keeps_slots canon target source only_words
               expand tk); [by intros ? ? [_ ?]|].
      split; [by eapply heap_wf_lt|]. split; [done|]. exists tv.
      split; [done|]. split; [done|]. by intros ? ? [? _]. }
    unfold wlx in Hrun.
    destruct (Resolve_Context _ _ _ _ _ _ _) as [[] s1|e s1|];
      simpl in Hfin; [| |done]; injection Hfin as <-;
      destruct Hrun as (tk' & Hinv).
    all: destruct Hinv as (_ & _ & tv' & Htv' & _ & HP); exists tv'; auto.
  - intros all s' j key x Hfin Hkey Hlocked Hx.
    pose proof (Resolve_Context_keeps_locked canon target source only_words
                  all expand tk j x s) as Hrun.
    unfold wlx in Hrun.
    destruct (Resolve_Context _ _ _ _ _ _ _) as [[] s1|e s1|];
      simpl in Hfin; [| |done]; injection Hfin as <-;
      destruct Hrun as (tk' & _ & (tv' & Htv' & _ & Hv') & _).
    1, 3: split; [repeat split; (by eapply heap_wf_lt) || done|];
          split; [by exists tv|by exists tkv, key].
    all: by exists tv'.
  - intros all Hready.
    pose proof (Resolve_Context_returns canon target source only_words all
                  expand tv tk tkv sv sk skv s Hready) as Hrun.
    apply wpx_done in Hrun as ([] & s' & Hrun & _). by exists s'.
  - intros j key m skey v Hready Hj Hunl Hstart Hfirst Hm Hm1 Hcanon Hlast
           Hv Hsel.
    pose proof Hready as
      (_ & (_ & _ & _ & Hsv & Hsl & Hskv) & (_ & Hn2 & Hn3 & Hn4) & _).
    pose proof (Resolve_Context_returns canon target source only_words true
                  expand tv tk tkv sv sk skv s Hready) as Hrun.
    pose proof (Resolve_Context_copies canon target source only_words expand
                  s tv tk tkv sv sk skv j key m skey v
                  Hwf Htv Hl Htkv Hsv Hsl Hskv Hne Hn3 Hn2 Hn4 Hj Hunl Hstart
                  Hfirst Hm Hm1 Hcanon Hlast Hv Hsel) as Hcopy.
    pose proof (wpx_also _ _ _ _ _ Hrun Hcopy) as Hboth.
    apply wpx_done in Hboth as ([] & s' & Hdone & _ & Hslot).
    by exists s'.
Qed.

Lemma Resolve_Context_overwrite_witness :
  (∃ s', final_state
           (Resolve_Context canon_id 1 3 Void false false (st_resolve false))
           = Some s' ∧
         ∃ tv', heap s' !! 1%positive = Some tv' ∧
                ser_cells tv' !! 1%nat = Some (Integer 1)) ∧
  (∃ s', final_state
           (Resolve_Context canon_id 1 3 Void true false (st_resolve true))
           = Some s' ∧
         ∃ tv', heap s' !! 1%positive = Some tv' ∧
                ser_cells tv' !! 1%nat = Some (Integer 1)) ∧
  (∃ s', Resolve_Context canon_id 1 3 Void false false (st_resolve false)
           = Done tt s') ∧
  (∃ s', Resolve_Context canon_id 1 3 Void true false (st_resolve false)
           = Done tt s' ∧
         ∃ tv', heap s' !! 1%positive = Some tv' ∧
                ser_cells tv' !! 1%nat = Some (Integer 2)).
Proof.
  set (tv := varlist [object 1; Integer 1; Void] 2).
  set (sv := varlist [object 3; Integer 2; Integer 3] 4).
  set (keys := fun locked =>
                 keylist [key 0 false;
                          Typeset (mkTypeset 10%nat ALL_64 false locked
                                             false);
                          key 11 false] false None).
  assert (∀ locked,
            resolve_ready canon_id 1%positive 3%positive Void false tv
              2%positive (keys locked) sv 4%positive (keys false)
              (st_resolve locked)) as Hready.
  { intros locked. split; [|split; [|split; [|split; [|split; [|split]]]]].
    - split; [destruct locked; by_compute|]. split; [|reflexivity].
      intros c. reflexivity.
    - destruct locked; repeat split; reflexivity.
    - repeat split; discriminate.
    - reflexivity.
    - split; [reflexivity|]. repeat constructor.
    - split; [cbn; lia|]. repeat constructor.
    - discriminate. }
  destruct (Resolve_Context_overwrite canon_id 1%positive 3%positive Void
              false (st_resolve false) tv 2%positive (keys false) sv
              4%positive (keys false))
    as (Hkeep & _ & Hreturns & Hcopy);
    [by_compute|reflexivity|reflexivity|reflexivity|discriminate|].
  destruct (Resolve_Context_overwrite canon_id 1%positive 3%positive Void
              false (st_resolve true) tv 2%positive (keys true) sv
              4%positive (keys false))
    as (_ & Hlocked & _ & _);
    [by_compute|reflexivity|reflexivity|reflexivity|discriminate|].
  split; [|split; [|split]].
  - eexists. split; [vm_compute; reflexivity|].
    apply Hkeep; [vm_compute|..]; reflexivity.
  - eexists. split; [vm_compute; reflexivity|].
    apply (Hlocked true _ 1%nat (mkTypeset 10%nat ALL_64 false true false));
      [vm_compute|..]; reflexivity.
  - apply (Hreturns false). apply Hready.
  - apply (Hcopy 1%nat (mkTypeset 10%nat ALL_64 false false false) 1%nat
                 (mkTypeset 10%nat ALL_64 false false false));
      try reflexivity; try discriminate; try exact I; try apply Hready.
    + intros j' key' Hj'. vm_compute in Hj'. lia.
    + intros [|[|[|m']]] k' Hm'; try lia; [|discriminate].
      intros [= <-]. discriminate.
Defined.



End FrameMore.


(** ** Part VIII: more of the splice routines *)

Module ModifyMore.
Import Modify ModifySpec ModifyProofs.

(** *** Modify_Array: what is written, and where *)

Lemma arrays_kept_frame dst fresh s s1 s2 :
  arrays_kept dst fresh s s1 → frame dst s1 s2 → arrays_kept dst fresh s s2.
Proof.
  intros [H1 H2] (H3 & H4 & _). split; [|congruence].
  intros p Hp Hf. rewrite H3 by done. by apply H1.
Qed.

Lemma Modify_Array_source_kept {E} sym dst src_val flags dst_len s a block :
  arrays s !! dst = Some a → arrays s !! next s = None →
  source_cells sym flags src_val dst_len s = Some block →
  wpx (Modify_Array_source sym dst src_val flags dst_len) s
    (fun r s' =>
       ∃ tn src_rel,
         r = (Z.of_nat (length block), tn, src_rel) ∧
         arrays s' !! dst = Some a ∧ src_ok dst src_rel block s' ∧
         arrays_kept dst (next s) s s') E.
Proof.
  intros Ha Hfresh Hsrc. unfold Modify_Array_source.
  destruct (flag_set flags AM_SPLICE) eqn:Hsp.
  - destruct (source_cells_splice _ _ _ _ _ _ Hsrc Hsp)
      as (k & arr & index & sa & -> & Hsa & Hidx & Hb & Hfit & Hilen).
    apply wpx_bind. eapply wpx_ARR_m; [exact Hsa|].
    cbv zeta. rewrite Hilen.
    apply wpx_bind.
    apply wpx_mono with (Q := fun (_ : bool) s' => s' = s) (E := E);
      [| |done].
    { destruct (flag_set flags AM_LINE); [by apply wpx_ret|].
      apply wpx_bind. eapply wpx_ARR_AT_m; [exact Hsa|lia|].
      by destruct (arr_cells sa !! _); apply wpx_ret. }
    cbv beta. intros tn s' ->. apply wpx_bind.
    destruct (Pos.eqb_spec dst arr) as [<-|Hne].
    + assert (sa = a) as -> by congruence.
      apply wpx_bind. unfold Copy_Array_At_Extra_Shallow.
      apply wpx_bind. eapply wpx_ARR_m; [exact Ha|].
      destruct (Z.ltb_spec index 0); [lia|].
      unfold ARR_alloc, wpx. cbn.
      assert (next s ≠ dst) by congruence.
      exists tn, (SrcAt (next s) 0). split; [done|].
      split; [by rewrite lookup_insert_ne|].
      split.
      { split; [done|]. split; [done|].
        eexists. split; [cbn [arrays]; by rewrite lookup_insert_eq|].
        cbn [arr_cells Z.to_nat drop Nat.add].
        rewrite length_drop. split; [done|lia]. }
      split; [|done]. intros p Hp Hf. cbn. by rewrite lookup_insert_ne.
    + apply wpx_ret. apply wpx_ret.
      exists tn, (SrcAt arr index). split; [done|]. split; [done|].
      split; [|done]. split; [done|]. split; [lia|]. exists sa. done.
  - unfold source_cells in Hsrc. rewrite Hsp in Hsrc. injection Hsrc as <-.
    apply wpx_ret. exists (flag_set flags AM_LINE), (SrcVal src_val).
    done.
Qed.

Lemma spliced_expand_part {A} (fill : A) idx d (X L : list A) :
  (idx ≤ length L)%nat → (d ≤ length X)%nat →
  spliced idx X (take idx L ++ replicate d fill ++ drop idx L)
    = take idx L ++ X ++ drop (idx + (length X - d)) L.
Proof.
  intros Hi Hd. unfold spliced.
  rewrite take_app_length' by (rewrite length_take; lia).
  do 2 f_equal.
  rewrite (app_assoc (take idx L)).
  rewrite drop_app_ge
    by (rewrite length_app, length_take, length_replicate; lia).
  rewrite length_app, length_take, length_replicate, drop_drop.
  f_equal. lia.
Qed.

Lemma spliced_remove {A} idx q (X L : list A) :
  (idx ≤ length L)%nat →
  spliced idx X (take idx L ++ drop (idx + q) L)
    = take idx L ++ X ++ drop (idx + (q + length X)) L.
Proof.
  intros Hi. unfold spliced.
  rewrite take_app_length' by (rewrite length_take; lia).
  do 2 f_equal.
  rewrite drop_app_ge by (rewrite length_take; lia).
  rewrite length_take, drop_drop. f_equal. lia.
Qed.

(** Modify_Array_resize leaves the array such that [size] values written
    from [dst_idx] on stand between what was before [dst_idx] and what was
    after the cells the call replaces. *)
Lemma Modify_Array_resize_cells {E} sym dst dst_idx flags dst_len size s a :
  arrays s !! dst = Some a →
  0 ≤ dst_idx ≤ Z.of_nat (length (arr_cells a)) → 0 ≤ size →
  size + dst_idx < 2 ^ 32 →
  (is_change sym = true →
   0 ≤ dst_len ≤ Z.of_nat (length (arr_cells a)) - dst_idx) →
  wpx (Modify_Array_resize sym dst dst_idx flags dst_len size
         (Z.of_nat (length (arr_cells a)))) s
    (fun _ s' =>
       frame dst s s' ∧
       ∃ a', arrays s' !! dst = Some a' ∧
             dst_idx + size ≤ Z.of_nat (length (arr_cells a')) ∧
             ∀ new : list REBVAL,
               length new = Z.to_nat size →
               spliced (Z.to_nat dst_idx) new (values a')
                 = take (Z.to_nat dst_idx) (values a) ++ new
                   ++ drop (Z.to_nat
                              (dst_idx
                               + replaced_len sym flags dst_len size))
                           (values a)) E.
Proof.
  intros Ha Hidx Hsize Hfit Hchg. unfold Modify_Array_resize.
  assert (∀ delta,
    0 ≤ delta ≤ size →
    size - delta ≤ Z.of_nat (length (arr_cells a)) - dst_idx →
    replaced_len sym flags dst_len size = size - delta →
    wpx (Expand_Array dst dst_idx delta) s
      (fun _ s' =>
         frame dst s s' ∧
         ∃ a', arrays s' !! dst = Some a' ∧
               dst_idx + size ≤ Z.of_nat (length (arr_cells a')) ∧
               ∀ new : list REBVAL,
                 length new = Z.to_nat size →
                 spliced (Z.to_nat dst_idx) new (values a')
                   = take (Z.to_nat dst_idx) (values a) ++ new
                     ++ drop (Z.to_nat
                                (dst_idx
                                 + replaced_len sym flags dst_len size))
                             (values a)) E)
    as Hexp.
  { intros delta Hd Hroom Hrep. unfold Expand_Array.
    apply wpx_bind. eapply wpx_ARR_m; [exact Ha|].
    destruct (Z.ltb_spec delta 0); [lia|].
    destruct (Z.ltb_spec dst_idx 0); [lia|].
    destruct (Z.ltb_spec (Z.of_nat (length (arr_cells a))) dst_idx); [lia|].
    cbn [orb]. apply wpx_ARR_store_m. intros s' Hf Hs'.
    split; [done|]. eexists. split; [exact Hs'|]. cbn [arr_cells].
    split.
    - unfold expand.
      rewrite !length_app, length_take, length_replicate, length_drop.
      lia.
    - intros new Hnew. unfold values at 1, expand. cbn [arr_cells].
      rewrite !fmap_app, fmap_take, fmap_replicate, fmap_drop.
      fold (values a).
      rewrite spliced_expand_part by (rewrite ?values_length; lia).
      do 3 f_equal. rewrite Hrep. lia. }
  unfold replaced_len in *.
  destruct (is_change sym) eqn:Hsym; cbn [negb] in *.
  - specialize (Hchg eq_refl).
    destruct (Z.ltb_spec dst_len size); cbn [orb] in *.
    { apply Hexp; lia. }
    destruct (Z.ltb_spec size dst_len); cbn [andb].
    + destruct (flag_set flags AM_PART).
      * unfold Remove_Array_Units.
        apply wpx_bind. eapply wpx_ARR_m; [exact Ha|].
        destruct (Z.ltb_spec (dst_len - size) 0); [lia|].
        destruct (Z.ltb_spec dst_idx 0); [lia|].
        cbn [orb]. apply wpx_ARR_store_m. intros s' Hf Hs'.
        split; [done|]. eexists. split; [exact Hs'|]. cbn [arr_cells].
        split.
        { unfold remove. rewrite length_app, length_take, length_drop. lia. }
        intros new Hnew. unfold values at 1, remove. cbn [arr_cells].
        rewrite fmap_app, fmap_take, fmap_drop. fold (values a).
        rewrite spliced_remove by (rewrite values_length; lia).
        do 3 f_equal. lia.
      * rewrite u32_small by lia.
        destruct (Z.ltb_spec (Z.of_nat (length (arr_cells a)))
                             (size + dst_idx)); [lia|].
        apply wpx_ret. split; [apply frame_refl|].
        exists a. split; [done|]. split; [lia|].
        intros new Hnew. unfold spliced. do 3 f_equal. lia.
    + rewrite u32_small by lia.
      destruct (Z.ltb_spec (Z.of_nat (length (arr_cells a)))
                           (size + dst_idx)); [lia|].
      apply wpx_ret. split; [apply frame_refl|].
      exists a. split; [done|]. split; [lia|].
      intros new Hnew. unfold spliced. do 3 f_equal.
      destruct (flag_set flags AM_PART); lia.
  - apply Hexp; lia.
Qed.

Lemma target_index_bounds sym a dst_idx :
  0 ≤ dst_idx →
  0 ≤ target_index sym a dst_idx ≤ Z.of_nat (length (arr_cells a)).
Proof.
  intros H. unfold target_index. cbv zeta.
  destruct (is_append sym); cbn [orb]; [lia|].
  destruct (Z.ltb_spec (Z.of_nat (length (arr_cells a))) dst_idx); lia.
Qed.

(** A call that has something to write, whatever the verb. *)
Lemma Modify_Array_run_full EMPTY_BLOCK sym dst dst_idx src_val flags
    dst_len dups s a block :
  arrays s !! dst = Some a → arrays s !! next s = None →
  IS_NULLED (cell_value src_val) = false → 0 < dups → 0 ≤ dst_idx →
  source_cells sym flags src_val dst_len s = Some block →
  dups * Z.of_nat (length block) < 2 ^ 31 →
  target_index sym a dst_idx + dups * Z.of_nat (length block) < 2 ^ 32 →
  (is_change sym = true →
   0 ≤ dst_len
     ≤ Z.of_nat (length (arr_cells a)) - target_index sym a dst_idx) →
  wpx (Modify_Array EMPTY_BLOCK sym dst dst_idx src_val flags dst_len dups) s
    (fun r s' =>
       r = (if is_append sym then 0
            else target_index sym a dst_idx
                 + dups * Z.of_nat (length block)) ∧
       arrays_kept dst (next s) s s' ∧
       ∃ a', arrays s' !! dst = Some a' ∧
             values a'
               = take (Z.to_nat (target_index sym a dst_idx)) (values a)
                 ++ concat (replicate (Z.to_nat dups) (cell_value <$> block))
                 ++ drop (Z.to_nat
                            (target_index sym a dst_idx
                             + replaced_len sym flags dst_len
                                 (dups * Z.of_nat (length block))))
                         (values a))
    no_fail.
Proof.
  intros Ha Hfresh Hnull Hdups Hidx Hsrc Hsize Hfit Hchg.
  pose proof (target_index_bounds sym a dst_idx Hidx) as Hti.
  unfold Modify_Array.
  apply wpx_bind. eapply wpx_ARR_LEN_m; [exact Ha|].
  rewrite Hnull. cbn [andb orb]. cbv beta iota.
  rewrite Hnull. cbn [orb].
  destruct (Z.leb_spec dups 0); [lia|].
  change (if is_append sym
             || Z.ltb (Z.of_nat (length (arr_cells a))) dst_idx
          then Z.of_nat (length (arr_cells a)) else dst_idx)
    with (target_index sym a dst_idx).
  cbv zeta. set (idx := target_index sym a dst_idx) in *.
  apply wpx_bind.
  eapply wpx_mono;
    [eapply Modify_Array_source_kept; [exact Ha|exact Hfresh|exact Hsrc]
    | |done].
  cbv beta. intros r s1 (tn & src_rel & -> & Ha1 & Hok & Hk1).
  cbv beta iota. rewrite s32_small by lia.
  apply wpx_bind. eapply wpx_ARR_LEN_m; [exact Ha1|].
  apply wpx_bind. eapply wpx_ARR_m; [exact Ha1|].
  apply wpx_bind.
  eapply wpx_mono;
    [eapply Modify_Array_resize_cells; [exact Ha1|lia|lia|lia|exact Hchg]
    | |done].
  cbv beta. intros _ s2 (Hf2 & a2 & Ha2 & Hroom & Hcells).
  apply wpx_bind.
  eapply wpx_mono;
    [eapply (Modify_Array_dups_spec dst src_rel block _ _ (Z.to_nat dups)
               idx s2 a2);
       [exact Ha2|by eapply src_ok_frame|lia|lia]
    | |done].
  cbv beta. intros r s3 (-> & Hf3 & a3 & Ha3 & Hv3).
  assert (length (arr_cells a3) = length (arr_cells a2)) as Hlen3.
  { rewrite <- !values_length, Hv3. apply spliced_length.
    rewrite values_length, concat_replicate_length, length_fmap. nia. }
  eapply wpx_mono;
    [eapply Modify_Array_finish; [exact Ha3|lia]| |done].
  cbv beta. intros r s4 (-> & Hf4 & a4 & Ha4 & Hv4 & Hm).
  split; [rewrite u32_small by lia; destruct (is_append sym); lia|].
  split; [eauto using arrays_kept_frame, frame_trans|].
  exists a4. split; [done|]. rewrite Hv4, Hv3.
  apply Hcells. rewrite concat_replicate_length, length_fmap. nia.
Qed.

(** X9.  A call of Modify_Array with a source that is not null and a
    positive dup count returns, and the destination then holds what it held
    before the target index, the [dups] duplicates of the source cells, and
    what it held after the cells replaced: none for an insert or append,
    [dst_len] for a CHANGE with /PART or with more cells to write than
    [dst_len], as many as are written for a CHANGE otherwise.  It returns 0
    for an append and the index after the last cell written otherwise.
    (The request is well formed: [source_cells] tells what a duplicate is,
    the sizes fit 32 bits, and the part a CHANGE replaces lies in the
    array.) *)
Theorem Modify_Array_writes EMPTY_BLOCK sym dst dst_idx src_val flags
    dst_len dups s a block :
  arrays s !! dst = Some a → arrays s !! next s = None →
  IS_NULLED (cell_value src_val) = false → 0 < dups → 0 ≤ dst_idx →
  source_cells sym flags src_val dst_len s = Some block →
  dups * Z.of_nat (length block) < 2 ^ 31 →
  target_index sym a dst_idx + dups * Z.of_nat (length block) < 2 ^ 32 →
  (is_change sym = true →
   0 ≤ dst_len
     ≤ Z.of_nat (length (arr_cells a)) - target_index sym a dst_idx) →
  ∃ s' a',
    Modify_Array EMPTY_BLOCK sym dst dst_idx src_val flags dst_len dups s
      = Done (if is_append sym then 0
              else target_index sym a dst_idx
                   + dups * Z.of_nat (length block)) s' ∧
    arrays s' !! dst = Some a' ∧
    values a'
      = take (Z.to_nat (target_index sym a dst_idx)) (values a)
        ++ concat (replicate (Z.to_nat dups) (cell_value <$> block))
        ++ drop (Z.to_nat
                   (target_index sym a dst_idx
                    + replaced_len sym flags dst_len
                        (dups * Z.of_nat (length block))))
                (values a).
Proof.
  intros Ha Hfresh Hnull Hdups Hidx Hsrc Hsize Hfit Hchg.
  destruct (wpx_done _ _ _
              (Modify_Array_run_full EMPTY_BLOCK sym dst dst_idx src_val
                 flags dst_len dups s a block Ha Hfresh Hnull Hdups Hidx
                 Hsrc Hsize Hfit Hchg))
    as (r & s' & Hcall & -> & _ & a' & Ha' & Hv).
  by exists s', a'.
Qed.

Lemma Modify_Array_writes_witness :
  ∃ s' a',
    Modify_Array' SYM_CHANGE 5%positive 1 (int_cell 7) AM_PART 2 3 st_block
      = Done 4 s' ∧
    arrays s' !! 5%positive = Some a' ∧
    values a' = Integer <$> [10; 7; 7; 7].
Proof.
  apply (Modify_Array_writes EMPTY_BLOCK SYM_CHANGE 5%positive 1
           (int_cell 7) AM_PART 2 3 st_block
           (mkArr [int_cell 10; int_cell 20; int_cell 30] false)
           [int_cell 7]).
  - reflexivity.
  - reflexivity.
  - reflexivity.
  - lia.
  - lia.
  - reflexivity.
  - by vm_compute.
  - by vm_compute.
  - intros _. split; by vm_compute.
Defined.

(** X10.  Such a call writes to the destination array only: every other
    array is as it was, but for the copy of the source that a splice of an
    array into itself puts at the first free address, and no byte series
    changes. *)
Theorem Modify_Array_writes_only_dst EMPTY_BLOCK sym dst dst_idx src_val
    flags dst_len dups s a block :
  arrays s !! dst = Some a → arrays s !! next s = None →
  IS_NULLED (cell_value src_val) = false → 0 < dups → 0 ≤ dst_idx →
  source_cells sym flags src_val dst_len s = Some block →
  dups * Z.of_nat (length block) < 2 ^ 31 →
  target_index sym a dst_idx + dups * Z.of_nat (length block) < 2 ^ 32 →
  (is_change sym = true →
   0 ≤ dst_len
     ≤ Z.of_nat (length (arr_cells a)) - target_index sym a dst_idx) →
  ∃ r s',
    Modify_Array EMPTY_BLOCK sym dst dst_idx src_val flags dst_len dups s
      = Done r s' ∧
    (∀ p, p ≠ dst → p ≠ next s → arrays s' !! p = arrays s !! p) ∧
    series s' = series s.
Proof.
  intros Ha Hfresh Hnull Hdups Hidx Hsrc Hsize Hfit Hchg.
  destruct (wpx_done _ _ _
              (Modify_Array_run_full EMPTY_BLOCK sym dst dst_idx src_val
                 flags dst_len dups s a block Ha Hfresh Hnull Hdups Hidx
                 Hsrc Hsize Hfit Hchg))
    as (r & s' & Hcall & _ & [Hkept Hser] & _).
  by exists r, s'.
Qed.

Lemma Modify_Array_writes_only_dst_witness :
  ∃ r s',
    Modify_Array' SYM_INSERT 5%positive 1
        (mkCell (AnyArray REB_BLOCK 5 0) false) AM_SPLICE 0 2 st_block
      = Done r s' ∧
    (∀ p, p ≠ 5%positive → p ≠ 6%positive →
          arrays s' !! p = arrays st_block !! p) ∧
    series s' = ∅.
Proof.
  apply (Modify_Array_writes_only_dst EMPTY_BLOCK SYM_INSERT 5%positive 1
           (mkCell (AnyArray REB_BLOCK 5 0) false) AM_SPLICE 0 2 st_block
           (mkArr [int_cell 10; int_cell 20; int_cell 30] false)
           [int_cell 10; int_cell 20; int_cell 30]).
  - reflexivity.
  - reflexivity.
  - reflexivity.
  - lia.
  - lia.
  - reflexivity.
  - by vm_compute.
  - by vm_compute.
  - discriminate.
Defined.

(** *** CHANGE to a null *)

Lemma flag_set_lor_same flags bit : bit ≠ 0 → flag_set (Z.lor flags bit) bit = true.
Proof.
  intros Hb. unfold flag_set. rewrite Z.land_lor_distr_l, Z.land_diag.
  destruct (Z.eqb_spec (Z.lor (Z.land flags bit) bit) 0) as [H0|]; [|done].
  apply Z.lor_eq_0_iff in H0 as [_ ?]. done.
Qed.

Lemma flag_set_lor_SPLICE_PART flags :
  flag_set (Z.lor flags AM_SPLICE) AM_PART = flag_set flags AM_PART.
Proof.
  unfold flag_set. rewrite Z.land_lor_distr_l.
  change (Z.land AM_SPLICE AM_PART) with 0. by rewrite Z.lor_0_r.
Qed.

(** X11.  A CHANGE to a null source is a deletion: with EMPTY_BLOCK an
    empty block, a CHANGE with /PART and a null source takes the [dst_len]
    cells at the target index out of the array and returns that index. *)
Theorem Modify_Array_change_null_deletes EMPTY_BLOCK dst dst_idx src_val
    flags dst_len dups s a k e ea :
  IS_NULLED (cell_value src_val) = true →
  cell_value EMPTY_BLOCK
    = AnyArray k e (Z.of_nat (length (arr_cells ea))) →
  arrays s !! e = Some ea →
  arrays s !! dst = Some a → arrays s !! next s = None →
  Z.of_nat (length (arr_cells a)) < 2 ^ 32 →
  flag_set flags AM_PART = true →
  0 < dups → 0 ≤ dst_idx →
  0 ≤ dst_len
    ≤ Z.of_nat (length (arr_cells a)) - target_index SYM_CHANGE a dst_idx →
  ∃ s' a',
    Modify_Array EMPTY_BLOCK SYM_CHANGE dst dst_idx src_val flags dst_len
        dups s
      = Done (target_index SYM_CHANGE a dst_idx) s' ∧
    arrays s' !! dst = Some a' ∧
    values a'
      = take (Z.to_nat (target_index SYM_CHANGE a dst_idx)) (values a)
        ++ drop (Z.to_nat (target_index SYM_CHANGE a dst_idx + dst_len))
                (values a).
Proof.
  intros Hnull HEB He Ha Hfresh H32 Hpart Hdups Hidx Hlen.
  assert (Modify_Array EMPTY_BLOCK SYM_CHANGE dst dst_idx src_val flags
            dst_len dups s
          = Modify_Array EMPTY_BLOCK SYM_CHANGE dst dst_idx EMPTY_BLOCK
              (Z.lor flags AM_SPLICE) dst_len dups s) as ->.
  { unfold Modify_Array, mbind, Mon_bind.
    destruct (ARR_LEN dst s) as [tail s0| |]; [|done..].
    rewrite Hnull, HEB. cbn [IS_NULLED andb is_change]. cbv beta iota.
    rewrite HEB. done. }
  assert (source_cells SYM_CHANGE (Z.lor flags AM_SPLICE) EMPTY_BLOCK dst_len
            s = Some []) as Hsrc.
  { unfold source_cells. rewrite flag_set_lor_same by done.
    rewrite HEB. cbn [VAL_UNESCAPED]. rewrite He. cbn [mbind option_bind].
    destruct (Z.ltb_spec (Z.of_nat (length (arr_cells ea))) 0); [lia|].
    rewrite Z.ltb_irrefl. cbn [orb is_change negb andb].
    by rewrite Nat2Z.id, drop_all. }
  pose proof (Modify_Array_run_full EMPTY_BLOCK SYM_CHANGE dst dst_idx
                EMPTY_BLOCK (Z.lor flags AM_SPLICE) dst_len dups s a []
                Ha Hfresh) as Hrun.
  rewrite HEB in Hrun. specialize (Hrun eq_refl Hdups Hidx Hsrc).
  pose proof (target_index_bounds SYM_CHANGE a dst_idx Hidx) as Hti.
  cbn [length Z.of_nat] in Hrun. rewrite Z.mul_0_r, Z.add_0_r in Hrun.
  apply wpx_done in Hrun as (r & s' & Hcall & -> & _ & a' & Ha' & Hv);
    [|done|lia|intros _; lia].
  exists s', a'. split; [exact Hcall|]. split; [exact Ha'|].
  rewrite Hv. unfold replaced_len.
  rewrite flag_set_lor_SPLICE_PART, Hpart, orb_true_r.
  cbn [is_change negb].
  replace (concat (replicate (Z.to_nat dups) (cell_value <$> [])))
    with (@nil REBVAL); [done|].
  clear. induction (Z.to_nat dups) as [|n IH]; [done|]. exact IH.
Qed.

Lemma Modify_Array_change_null_deletes_witness :
  ∃ s' a',
    Modify_Array' SYM_CHANGE 5%positive 1 (mkCell Nulled false) AM_PART 1 1
        st_block
      = Done 1 s' ∧
    arrays s' !! 5%positive = Some a' ∧
    values a' = Integer <$> [10; 30].
Proof.
  apply (Modify_Array_change_null_deletes EMPTY_BLOCK 5%positive 1
           (mkCell Nulled false) AM_PART 1 1 st_block
           (mkArr [int_cell 10; int_cell 20; int_cell 30] false)
           REB_BLOCK 1%positive (mkArr [] false)).
  - reflexivity.
  - reflexivity.
  - reflexivity.
  - reflexivity.
  - reflexivity.
  - by vm_compute.
  - reflexivity.
  - lia.
  - lia.
  - split; by vm_compute.
Defined.

(** *** The newline at the tail *)

(** X12.  The newline an array carries at its tail moves onto what is put
    there: inserting or appending one value (no splice, no /LINE) at the
    tail of an array whose NEWLINE_AT_TAIL is set leaves the array with that
    value as its last cell, marked NEWLINE_BEFORE, the cells before it as
    they were, and NEWLINE_AT_TAIL cleared. *)
Theorem Modify_Array_tail_newline_moves EMPTY_BLOCK sym dst dst_idx src_val
    flags dst_len s a :
  arrays s !! dst = Some a → NEWLINE_AT_TAIL a = true →
  is_change sym = false →
  target_index sym a dst_idx = Z.of_nat (length (arr_cells a)) →
  IS_NULLED (cell_value src_val) = false →
  flag_set flags AM_SPLICE = false → flag_set flags AM_LINE = false →
  Z.of_nat (length (arr_cells a)) + 1 < 2 ^ 31 →
  ∃ s',
    Modify_Array EMPTY_BLOCK sym dst dst_idx src_val flags dst_len 1 s
      = Done (if is_append sym then 0
              else Z.of_nat (length (arr_cells a)) + 1) s' ∧
    arrays s' !! dst
      = Some (mkArr (arr_cells a ++ [mkCell (cell_value src_val) true])
                    false).
Proof.
  intros Ha Htail Hsym Hti Hnull Hsp Hline Hfit.
  cut (wpx (Modify_Array EMPTY_BLOCK sym dst dst_idx src_val flags dst_len 1)
         s (fun r s' =>
              r = (if is_append sym then 0
                   else Z.of_nat (length (arr_cells a)) + 1) ∧
              arrays s' !! dst
                = Some (mkArr (arr_cells a
                               ++ [mkCell (cell_value src_val) true])
                              false)) no_fail).
  { intros H. apply wpx_done in H as (r & s' & Hcall & -> & H). eauto. }
  set (tail := Z.of_nat (length (arr_cells a))) in *.
  unfold Modify_Array.
  apply wpx_bind. eapply wpx_ARR_LEN_m; [exact Ha|].
  rewrite Hnull. cbn [andb orb]. cbv beta iota.
  rewrite Hnull. cbn [orb Z.leb Z.compare].
  change (if is_append sym || Z.ltb (Z.of_nat (length (arr_cells a))) dst_idx
          then Z.of_nat (length (arr_cells a)) else dst_idx)
    with (target_index sym a dst_idx).
  cbv zeta. rewrite Hti.
  apply wpx_bind. unfold Modify_Array_source. rewrite Hsp, Hline.
  apply wpx_ret. cbv beta iota.
  change (s32 (1 * 1)) with 1.
  apply wpx_bind. eapply wpx_ARR_LEN_m; [exact Ha|].
  apply wpx_bind. eapply wpx_ARR_m; [exact Ha|].
  fold tail. rewrite Z.eqb_refl, Htail. cbn [andb].
  apply wpx_bind. unfold Modify_Array_resize. rewrite Hsym. cbn [negb].
  unfold Expand_Array.
  apply wpx_bind. eapply wpx_ARR_m; [exact Ha|].
  fold tail. rewrite Z.ltb_irrefl.
  destruct (Z.ltb_spec tail 0); [lia|]. cbn [Z.ltb Z.compare orb].
  apply wpx_ARR_store_m. intros s1 Hf1 Ha1.
  assert (expand Trash_cell tail 1 (arr_cells a) = arr_cells a ++ [Trash_cell])
    as Hexp.
  { unfold expand, tail. rewrite Nat2Z.id, firstn_all, drop_all. done. }
  rewrite Hexp in Ha1.
  change (Z.to_nat 1) with 1%nat. cbn [for_fold].
  apply wpx_bind. apply wpx_bind. unfold Modify_Array_dup at 1.
  change (Z.to_nat 1) with 1%nat. cbn [for_fold].
  apply wpx_bind. apply wpx_bind.
  apply wpx_bind. unfold Derelativize.
  cbn [src_read Z.of_nat Z.eqb]. apply wpx_ret.
  eapply wpx_ARR_PUT_m;
    [exact Ha1|cbn [arr_cells]; rewrite length_app; cbn [length]; lia|].
  intros s2 Hf2 Ha2. cbn [arr_cells NEWLINE_AT_TAIL] in Ha2.
  unfold tail in Ha2. rewrite Nat2Z.id, insert_app_r_alt in Ha2 by lia.
  rewrite Nat.sub_diag in Ha2. cbn [insert list_insert] in Ha2.
  cbn [Nat.eqb andb].
  apply wpx_bind. apply wpx_bind. unfold SET_NEWLINE_BEFORE.
  apply wpx_bind.
  eapply wpx_ARR_AT_m;
    [exact Ha2|cbn [arr_cells]; rewrite length_app; cbn [length]; lia|].
  cbn [arr_cells]. unfold tail.
  rewrite Nat2Z.id, lookup_app_r, Nat.sub_diag by lia. cbn [lookup list_lookup].
  eapply wpx_ARR_PUT_m;
    [exact Ha2|cbn [arr_cells]; rewrite length_app; cbn [length]; lia|].
  intros s3 Hf3 Ha3. cbn [arr_cells NEWLINE_AT_TAIL] in Ha3.
  rewrite Nat2Z.id, insert_app_r_alt in Ha3 by lia.
  rewrite Nat.sub_diag in Ha3. cbn [insert list_insert] in Ha3.
  eapply wpx_SET_NEWLINE_AT_TAIL_m; [exact Ha3|].
  intros s4 Hf4 Ha4. cbn [arr_cells] in Ha4.
  apply wpx_ret. apply wpx_ret. apply wpx_ret.
  apply wpx_bind. apply wpx_ret.
  apply wpx_bind. apply wpx_ret. apply wpx_ret.
  split; [|exact Ha4].
  fold tail. rewrite u32_small by lia. destruct (is_append sym); lia.
Qed.

Lemma Modify_Array_tail_newline_moves_witness :
  ∃ s',
    Modify_Array' SYM_APPEND 9%positive 0 (int_cell 40) 0 0 1 st_lines
      = Done 0 s' ∧
    arrays s' !! 9%positive
      = Some (mkArr [int_cell 10; int_cell 20; mkCell (Integer 40) true]
                    false).
Proof.
  apply (Modify_Array_tail_newline_moves EMPTY_BLOCK SYM_APPEND 9%positive 0
           (int_cell 40) 0 0 st_lines
           (mkArr [int_cell 10; int_cell 20] true)).
  - reflexivity.
  - reflexivity.
  - reflexivity.
  - reflexivity.
  - reflexivity.
  - reflexivity.
  - reflexivity.
  - by vm_compute.
Defined.

(** *** Modify_String_Or_Binary: what stops it, and what it refuses *)

(** X13.  A destination whose series is read-only is refused before anything
    else is looked at: whatever the verb, the source, the flags and the
    counts, the call fails with the read-only error and the state is the
    state of the call. *)
Theorem Modify_String_Or_Binary_read_only
    EMPTY_TEXT Mold_Or_Form_Value Form_Value Join_Binary_In_Byte_Buf
    sizeof_REBVAL memory_past memory_gap dst sym src flags part dups s p ds :
  VAL_SERIES dst s = Done p s →
  series s !! p = Some ds → read_only ds = true →
  Modify_String_Or_Binary EMPTY_TEXT Mold_Or_Form_Value Form_Value
      Join_Binary_In_Byte_Buf sizeof_REBVAL memory_past memory_gap dst sym src flags part dups s
    = Failed Error_Series_Read_Only s.
Proof.
  intros Hp Hds Hro.
  unfold Modify_String_Or_Binary, mbind, Mon_bind. rewrite Hp.
  unfold BIN. rewrite Hds, Hro. done.
Qed.

Lemma Modify_String_Or_Binary_read_only_witness :
  Modify_String_Or_Binary' (AnyString REB_TEXT 3 0) SYM_APPEND (Char [97])
      0 0 1 st_frozen
    = Failed Error_Series_Read_Only st_frozen.
Proof.
  apply (Modify_String_Or_Binary_read_only
           EMPTY_TEXT mold_any form_any mold_any 32 zero_past zero_gap
           (AnyString REB_TEXT 3 0) SYM_APPEND (Char [97]) 0 0 1 st_frozen
           3%positive (mkBin [104; 105] true 2 None true)).
  - reflexivity.
  - reflexivity.
  - reflexivity.
Defined.

(** The checks made up front pass on a destination that is ready, and leave
    the state alone. *)
Ltac msob_checks Hdst :=
  unfold Modify_String_Or_Binary;
  apply wpx_bind;
  lazymatch goal with
  | |- wpx (VAL_SERIES ?dst) ?s _ _ =>
      wp_post (fun p s' =>
                 s' = s ∧
                 match dst with
                 | Binary q _ | AnyString _ q _ => q = p
                 | _ => False
                 end ∧
                 ∃ ds, series s !! p = Some ds ∧ dst_ready dst s);
      [ destruct dst; try done;
        let ds := fresh "ds" in
        let Hds := fresh "Hds" in
        pose proof Hdst as (ds & Hds & ?);
        cbn [VAL_SERIES]; apply wpx_ret;
        exact (conj eq_refl
                 (conj eq_refl (ex_intro _ ds (conj Hds Hdst))))
      | cbv beta;
        let p := fresh "p" in
        let ds := fresh "ds" in
        let Hp := fresh "Hp" in
        let Hds := fresh "Hds" in
        intros p ? (-> & Hp & ds & Hds & _);
        apply wpx_bind; eapply wpx_BIN; [exact Hds|];
        apply wpx_bind;
        assert (read_only ds = false) as ->
          by (destruct dst; try done;
              destruct Hdst as (? & ? & ? & _); subst p; congruence);
        apply wpx_ret;
        assert (VAL_INDEX dst = mret (dst_index dst)) as ->
          by (by destruct dst);
        apply wpx_bind; apply wpx_ret;
        apply wpx_bind;
        wp_post (fun (_ : Z * Z) s' => s' = s);
        [ destruct dst as [| | | |? index|? ? index| | |]; try done;
          cbn [IS_BINARY dst_index]; subst p;
          [ let Hb := fresh "Hb" in
            let ds' := fresh "ds'" in
            destruct Hdst as (ds' & ? & _ & Hb);
            assert (ds' = ds) as -> by congruence;
            apply wpx_bind;
            destruct (IS_SER_STRING ds); [|by apply wpx_ret];
            let Hi := fresh "Hi" in
            let Hlt := fresh "Hlt" in
            destruct (Hb eq_refl) as [Hi Hlt];
            apply wpx_bind; unfold BIN_AT_byte;
            destruct (Z.ltb_spec index 0); [lia|];
            let b := fresh "b" in
            let Hbyte := fresh "Hbyte" in
            destruct (ser_bytes ds !! Z.to_nat index) as [b|] eqn:Hbyte;
            [ apply wpx_ret; specialize (Hlt b eq_refl);
              destruct (Z.leb_spec 128 b); [lia|]; by apply wpx_ret
            | apply lookup_ge_None in Hbyte;
              destruct (Z.eqb_spec index
                          (Z.of_nat (length (ser_bytes ds)))); [|lia];
              by apply wpx_ret ]
          | let ds' := fresh "ds'" in
            let Hoff := fresh "Hoff" in
            destruct Hdst as (ds' & ? & _ & ? & ? & [? Hoff]);
            assert (ds' = ds) as -> by congruence;
            apply wpx_bind; wp_assert;
            apply wpx_bind; wp_assert;
            apply wpx_bind; unfold VAL_OFFSET_FOR_INDEX;
            destruct (Z.ltb_spec index 0); [lia|]; rewrite Hoff;
            apply wpx_ret; by apply wpx_ret ]
        | cbv beta; intros [? ?] ? -> ]
      ]
  end.

(** X14.  An insertion or append of a part of no length is no action: with
    /PART and a part of 0, on a destination that passes the up-front checks,
    the call returns 0 for an append and the index given for an insert, and
    the state is the state of the call, whatever the source. *)
Theorem Modify_String_Or_Binary_zero_part
    EMPTY_TEXT Mold_Or_Form_Value Form_Value Join_Binary_In_Byte_Buf
    sizeof_REBVAL memory_past memory_gap dst sym src flags dups s :
  dst_ready dst s → is_change sym = false →
  flag_set flags AM_PART = true → IS_NULLED src = false →
  Modify_String_Or_Binary EMPTY_TEXT Mold_Or_Form_Value Form_Value
      Join_Binary_In_Byte_Buf sizeof_REBVAL memory_past memory_gap dst sym src flags 0 dups s
    = Done (if is_append sym then 0 else dst_index dst) s.
Proof.
  intros Hdst Hsym Hpart Hnull. apply wpx_returns.
  msob_checks Hdst.
  rewrite Hnull. cbn [andb]. cbv beta iota.
  rewrite Hsym, Hpart. cbn [negb andb].
  apply wpx_bind. apply wpx_bind. wp_assert. apply wpx_ret.
  cbn [Z.eqb orb]. by apply wpx_ret.
Qed.

Lemma Modify_String_Or_Binary_zero_part_witness :
  Modify_String_Or_Binary' (AnyString REB_TEXT 7 1) SYM_INSERT (Char [120])
      AM_PART 0 3 st_text
    = Done 1 st_text.
Proof.
  apply (Modify_String_Or_Binary_zero_part
           EMPTY_TEXT mold_any form_any mold_any 32 zero_past zero_gap
           (AnyString REB_TEXT 7 1) SYM_INSERT (Char [120]) AM_PART 3
           st_text).
  - eexists. split; [reflexivity|]. split; [reflexivity|].
    split; [reflexivity|]. split; [lia|]. vm_compute. eauto.
  - reflexivity.
  - reflexivity.
  - reflexivity.
Defined.

(** X15.  An integer is a byte for a BINARY! only when it is one: for a
    BINARY! destination that passes the up-front checks, a positive dup
    count and a part that is not 0, an INTEGER! source below 0 or above 255
    makes the call fail with the out-of-range error, and nothing has been
    written when it does. *)
Theorem Modify_String_Or_Binary_integer_out_of_range
    EMPTY_TEXT Mold_Or_Form_Value Form_Value Join_Binary_In_Byte_Buf
    sizeof_REBVAL memory_past memory_gap p idx sym i flags part dups s :
  dst_ready (Binary p idx) s →
  i < 0 ∨ 255 < i → 0 < dups →
  (is_change sym = false → flag_set flags AM_PART = true → 0 < part) →
  Modify_String_Or_Binary EMPTY_TEXT Mold_Or_Form_Value Form_Value
      Join_Binary_In_Byte_Buf sizeof_REBVAL memory_past memory_gap (Binary p idx) sym (Integer i)
      flags part dups s
    = Failed Error_Out_Of_Range s.
Proof.
  intros Hdst Hi Hdups Hpart.
  cut (wpx (Modify_String_Or_Binary EMPTY_TEXT Mold_Or_Form_Value Form_Value
              Join_Binary_In_Byte_Buf sizeof_REBVAL memory_past memory_gap (Binary p idx) sym
              (Integer i) flags part dups) s
         (fun _ _ => False) (fun e s' => e = Error_Out_Of_Range ∧ s' = s)).
  { intros H. by apply wpx_failed in H as (e & s' & -> & -> & ->). }
  unfold Modify_String_Or_Binary. cbn [VAL_SERIES VAL_INDEX IS_BINARY].
  destruct Hdst as (ds & Hds & Hro & Hb).
  apply wpx_bind, wpx_ret.
  apply wpx_bind. eapply wpx_BIN; [exact Hds|]. rewrite Hro.
  apply wpx_bind, wpx_ret. apply wpx_bind, wpx_ret.
  apply wpx_bind.
  apply wpx_mono
    with (Q := fun (_ : Z * Z) s' => s' = s)
         (E := fun e s' => e = Error_Out_Of_Range ∧ s' = s); [| |done].
  { apply wpx_bind. destruct (IS_SER_STRING ds).
    - destruct (Hb eq_refl) as [Hidx Hlt].
      apply wpx_bind. unfold BIN_AT_byte.
      destruct (Z.ltb_spec idx 0); [lia|].
      destruct (ser_bytes ds !! Z.to_nat idx) as [b|] eqn:Hbyte.
      + apply wpx_ret. specialize (Hlt b eq_refl).
        destruct (Z.leb_spec 128 b); [lia|]. apply wpx_ret. by apply wpx_ret.
      + apply lookup_ge_None in Hbyte.
        destruct (Z.eqb_spec idx (Z.of_nat (length (ser_bytes ds)))); [|lia].
        apply wpx_ret. apply wpx_ret. by apply wpx_ret.
    - apply wpx_ret. by apply wpx_ret. }
  cbv beta. intros [tail dst_off] s' ->.
  cbn [IS_NULLED andb]. cbv beta iota.
  apply wpx_bind.
  apply wpx_mono
    with (Q := fun limit s' => s' = s ∧ limit ≠ 0)
         (E := fun e s' => e = Error_Out_Of_Range ∧ s' = s); [| |done].
  { destruct (negb (is_change sym) && flag_set flags AM_PART) eqn:Hfl.
    - apply andb_prop in Hfl as [Hc Hfl].
      assert (0 < part) by (apply Hpart; [by destruct sym|done]).
      apply wpx_bind. apply wpx_assert; [apply Z.leb_le; lia|].
      apply wpx_ret. split; [done|lia].
    - by apply wpx_ret. }
  cbv beta. intros limit s' [-> Hlimit].
  destruct (Z.eqb_spec limit 0); [done|].
  destruct (Z.leb_spec dups 0); [lia|]. cbn [orb].
  destruct (is_append sym || Z.ltb tail idx); cbv beta iota;
    (apply wpx_bind; unfold Modify_source;
     apply wpx_bind, wpx_get_m;
     cbn [IS_BINARY negb];
     destruct (Z.leb_spec 0 i); destruct (Z.leb_spec i 255);
       cbn [andb]; try lia; by apply wpx_fail).
Qed.

Lemma Modify_String_Or_Binary_integer_out_of_range_witness :
  Modify_String_Or_Binary' (Binary 4 2) SYM_APPEND (Integer 256) 0 0 1
      st_frozen
    = Failed Error_Out_Of_Range st_frozen.
Proof.
  apply (Modify_String_Or_Binary_integer_out_of_range
           EMPTY_TEXT mold_any form_any mold_any 32 zero_past zero_gap 4%positive 2 SYM_APPEND
           256 0 0 1 st_frozen).
  - eexists. split; [reflexivity|]. split; [reflexivity|]. discriminate.
  - right. lia.
  - lia.
  - discriminate.
Defined.

(** *** Modify_String_Or_Binary: insertion *)

Lemma overwrite_spliced off (data bytes : list Z) :
  overwrite off data bytes = spliced (Z.to_nat off) data bytes.
Proof. done. Qed.

Lemma wpx_text_Expand_Series {E} memory_gap p index delta bytes len s
    (Q : unit → State → Prop) :
  text_holds p bytes len s → 0 ≤ delta →
  0 ≤ index ≤ Z.of_nat (length bytes) →
  (∀ gap s', length gap = Z.to_nat delta →
             text_holds p (open_gap gap index bytes) len s' → Q tt s') →
  wpx (Expand_Series memory_gap p index delta) s Q E.
Proof.
  intros (v & Hv & Hb & Hl) Hd Hi HQ. unfold Expand_Series.
  apply wpx_bind, wpx_get_m.
  apply wpx_bind. eapply wpx_BIN; [exact Hv|]. rewrite Hb.
  destruct (Z.ltb_spec delta 0); [lia|].
  destruct (Z.ltb_spec index 0); [lia|].
  destruct (Z.ltb_spec (Z.of_nat (length bytes)) index); [lia|].
  cbn [orb]. unfold wpx, BIN_store.
  apply (HQ (map (memory_gap s p index) (seq 0 (Z.to_nat delta)))).
  { by rewrite length_map, length_seq. }
  eexists. split; [cbn; by rewrite lookup_insert_eq|]. done.
Qed.

Lemma open_gap_length {A} (gap : list A) index l :
  0 ≤ index ≤ Z.of_nat (length l) →
  Z.of_nat (length (open_gap gap index l))
    = Z.of_nat (length l) + Z.of_nat (length gap).
Proof.
  intros Hi. unfold open_gap.
  rewrite !length_app, length_take, length_drop. lia.
Qed.

(** Once the gap is written over, what it held does not show. *)
Lemma spliced_open_gap {A} (gap : list A) d (X L : list A) :
  length gap = length X → (d ≤ length L)%nat →
  spliced d X (open_gap gap (Z.of_nat d) L) = take d L ++ X ++ drop d L.
Proof.
  intros Hg Hd. unfold spliced, open_gap. rewrite !Nat2Z.id.
  rewrite take_app_length' by (rewrite length_take; lia).
  rewrite (app_assoc (take d L) gap).
  rewrite drop_app_length' by (rewrite length_app, length_take; lia).
  done.
Qed.

Lemma dup_bytes_length flags src_mem :
  Z.of_nat (length (dup_bytes flags src_mem))
    = Z.of_nat (length src_mem)
      + (if flag_set flags AM_LINE then 1 else 0).
Proof.
  unfold dup_bytes. rewrite length_app.
  destruct (flag_set flags AM_LINE); cbn [length]; lia.
Qed.

Lemma wpx_text_memcpy_keeps {E} (R : State → Prop) p off src_mem n bytes len
    s (Q : unit → State → Prop) :
  text_holds p bytes len s → R s → kept_by_writes p R →
  0 ≤ n → 0 ≤ off → off + n ≤ Z.of_nat (length bytes) →
  (∀ s', text_holds p (overwrite off (take (Z.to_nat n) src_mem) bytes)
                    len s' → R s' → Q tt s') →
  wpx (memcpy p off src_mem n) s Q E.
Proof.
  intros (v & Hv & Hb & Hl) HR Hkept Hn Hoff Hfit HQ. unfold memcpy.
  apply wpx_bind. eapply wpx_BIN; [exact Hv|]. rewrite Hb.
  destruct (Z.ltb_spec n 0); [lia|].
  destruct (Z.ltb_spec off 0); [lia|].
  destruct (Z.ltb_spec (Z.of_nat (length bytes)) (off + n)); [lia|].
  cbn [orb]. unfold wpx, BIN_store. apply HQ; [|by apply Hkept].
  eexists. split; [cbn; by rewrite lookup_insert_eq|]. done.
Qed.

(** The loop that writes the duplicates, for a source that reads as
    [piece] as long as [R] holds. *)
Lemma Modify_String_Or_Binary_copies_from {E} (rd : M (list Z))
    (R : State → Prop) p piece n flags dups off bytes len s :
  text_holds p bytes len s → R s → kept_by_writes p R →
  (∀ s1, R s1 → rd s1 = Done piece s1) →
  n = Z.of_nat (length piece) → 0 ≤ off →
  off + Z.of_nat dups * Z.of_nat (length (dup_bytes flags piece))
    ≤ Z.of_nat (length bytes) →
  wpx (for_fold 0 dups (fun (_ : nat) dst_ptr =>
         read ← rd;
         memcpy p dst_ptr read n;;
         if flag_set flags AM_LINE then
           memcpy p (dst_ptr + n) [10] 1;;
           mret (dst_ptr + n + 1)
         else mret (dst_ptr + n)) off) s
    (fun r s' =>
       r = off + Z.of_nat dups * Z.of_nat (length (dup_bytes flags piece)) ∧
       text_holds p
         (spliced (Z.to_nat off)
                  (concat (replicate dups (dup_bytes flags piece))) bytes)
         len s' ∧ R s') E.
Proof.
  intros Hh HR Hkept Hrd -> Hoff Hfit.
  set (unit := dup_bytes flags piece) in *.
  set (I := fun (k : nat) (r : Z) (s' : State) =>
    r = off + Z.of_nat k * Z.of_nat (length unit) ∧
    text_holds p (spliced (Z.to_nat off) (concat (replicate k unit)) bytes)
               len s' ∧ R s').
  apply wpx_mono with (Q := fun r s' => I (0 + dups)%nat r s') (E := E);
    [|unfold I; cbn [Nat.add]; done|done].
  apply (wpx_for_fold _ I).
  - unfold I. split; [lia|]. cbn [replicate concat].
    by rewrite spliced_nil.
  - intros k r s1 Hk (-> & H1 & HR1).
    pose proof (dup_bytes_length flags piece) as Hul. fold unit in Hul.
    assert (Z.of_nat (length (spliced (Z.to_nat off)
                                (concat (replicate k unit)) bytes))
            = Z.of_nat (length bytes)) as Hsl.
    { rewrite spliced_length; [done|].
      rewrite concat_replicate_length. nia. }
    assert (∀ X, X = unit →
      spliced (Z.to_nat (off + Z.of_nat k * Z.of_nat (length unit))) X
        (spliced (Z.to_nat off) (concat (replicate k unit)) bytes)
      = spliced (Z.to_nat off) (concat (replicate (S k) unit)) bytes) as Hnext.
    { intros X ->.
      replace (Z.to_nat (off + Z.of_nat k * Z.of_nat (length unit)))
        with (Z.to_nat off + length (concat (replicate k unit)))%nat
        by (rewrite concat_replicate_length; nia).
      rewrite spliced_spliced by (rewrite concat_replicate_length; nia).
      f_equal. clear. induction k as [|k IH]; cbn [replicate concat].
      - by rewrite app_nil_r.
      - by rewrite <- app_assoc, IH. }
    apply wpx_bind. eapply wpx_run; [by apply Hrd|]. apply wpx_bind.
    assert (Z.of_nat k * Z.of_nat (length unit) + Z.of_nat (length unit)
            ≤ Z.of_nat dups * Z.of_nat (length unit)) as Hku by nia.
    eapply (wpx_text_memcpy_keeps R);
      [exact H1|exact HR1|exact Hkept|lia|nia
      |rewrite Hsl; destruct (flag_set flags AM_LINE); lia|].
    intros s2 H2 HR2. rewrite Nat2Z.id, firstn_all, overwrite_spliced in H2.
    unfold unit, dup_bytes in *.
    destruct (flag_set flags AM_LINE).
    + apply wpx_bind.
      assert (Z.of_nat (length
                (spliced
                   (Z.to_nat (off + Z.of_nat k
                                    * Z.of_nat (length (piece ++ [10]))))
                   piece
                   (spliced (Z.to_nat off)
                      (concat (replicate k (piece ++ [10]))) bytes)))
              = Z.of_nat (length bytes)) as Hsl2.
      { rewrite spliced_length; [exact Hsl|].
        rewrite spliced_length
          by (rewrite concat_replicate_length; nia).
        rewrite length_app in *. cbn [length] in *. nia. }
      eapply (wpx_text_memcpy_keeps R);
        [exact H2|exact HR2|exact Hkept|lia|nia
        |rewrite Hsl2; rewrite length_app in *; cbn [length] in *; lia|].
      intros s3 H3 HR3. change (take (Z.to_nat 1) [10]) with [10] in H3.
      rewrite overwrite_spliced in H3. apply wpx_ret. unfold I.
      split; [rewrite length_app in *; cbn [length] in *; lia|].
      split; [|exact HR3].
      rewrite <- (Hnext (piece ++ [10])) by done.
      replace (Z.to_nat (off + Z.of_nat k
                               * Z.of_nat (length (piece ++ [10]))
                         + Z.of_nat (length piece)))
        with (Z.to_nat (off + Z.of_nat k
                                * Z.of_nat (length (piece ++ [10%Z])))
              + length piece)%nat in H3 by nia.
      rewrite spliced_spliced in H3; [exact H3|].
      rewrite spliced_length by (rewrite concat_replicate_length; nia).
      rewrite length_app in *. cbn [length] in *. nia.
    + apply wpx_ret. unfold I. rewrite !app_nil_r in *.
      split; [nia|]. split; [|exact HR2].
      rewrite <- (Hnext piece) by done. exact H2.
Qed.

(** The same for a source the call holds itself. *)
Lemma Modify_String_Or_Binary_copies {E} memory_past p src_mem flags dups
    off bytes len s :
  text_holds p bytes len s → 0 ≤ off →
  off + Z.of_nat dups * Z.of_nat (length (dup_bytes flags src_mem))
    ≤ Z.of_nat (length bytes) →
  wpx (for_fold 0 dups (fun (_ : nat) dst_ptr =>
         read ← src_bytes memory_past (PtrOwn src_mem)
                  (Z.of_nat (length src_mem));
         memcpy p dst_ptr read (Z.of_nat (length src_mem));;
         if flag_set flags AM_LINE then
           memcpy p (dst_ptr + Z.of_nat (length src_mem)) [10] 1;;
           mret (dst_ptr + Z.of_nat (length src_mem) + 1)
         else mret (dst_ptr + Z.of_nat (length src_mem))) off) s
    (fun r s' =>
       r = off + Z.of_nat dups * Z.of_nat (length (dup_bytes flags src_mem)) ∧
       text_holds p
         (spliced (Z.to_nat off)
                  (concat (replicate dups (dup_bytes flags src_mem))) bytes)
         len s') E.
Proof.
  intros Hh Hoff Hfit.
  eapply wpx_mono;
    [apply (Modify_String_Or_Binary_copies_from
              (src_bytes memory_past (PtrOwn src_mem)
                 (Z.of_nat (length src_mem)))
              (fun _ => True) p src_mem (Z.of_nat (length src_mem)) flags
              dups off bytes len s Hh I);
       [by intros ? ? ?| |done|exact Hoff|exact Hfit]
    | |done].
  - intros s1 _. unfold src_bytes, mbind, Mon_bind. cbn.
    by rewrite Nat2Z.id, Nat.sub_diag, firstn_all, app_nil_r.
  - cbv beta. intros r s' (Hr & Ht & _). by split.
Qed.

(** Following a pointer into a series reads the bytes the series has from
    the offset on, as many as are asked for when it has that many. *)
Lemma src_bytes_series memory_past ser offset n sb s :
  series s !! ser = Some sb →
  0 ≤ offset → 0 ≤ n ≤ Z.of_nat (length (ser_bytes sb)) - offset →
  src_bytes memory_past (PtrSeries ser offset) n s
    = Done (take (Z.to_nat n) (drop (Z.to_nat offset) (ser_bytes sb))) s.
Proof.
  intros Hsb Hoff Hn. unfold src_bytes, mbind, Mon_bind, BIN. cbn.
  rewrite Hsb. destruct (Z.ltb_spec offset 0); [lia|]. cbn.
  replace (Z.to_nat n - length (drop (Z.to_nat offset) (ser_bytes sb)))%nat
    with 0%nat by (rewrite length_drop; lia).
  by rewrite app_nil_r.
Qed.

Lemma source_bytes_run {E} Mold_Or_Form_Value Form_Value
    Join_Binary_In_Byte_Buf p idx src ds limit s src_mem
    (Q : byte_pointer * Z * Z → State → Prop) :
  source_bytes src = Some src_mem → IS_SER_STRING ds = false →
  Q (PtrOwn src_mem, Z.of_nat (length src_mem), Z.of_nat (length src_mem))
    s →
  wpx (Modify_source Mold_Or_Form_Value Form_Value Join_Binary_In_Byte_Buf
         (Binary p idx) src ds limit) s Q E.
Proof.
  intros Hsrc Hstr HQ. unfold Modify_source.
  apply wpx_bind, wpx_get_m. rewrite Hstr.
  destruct src; try done; cbn in Hsrc.
  - cbn [IS_BINARY negb].
    destruct (Z.leb 0 i && Z.leb i 255); [|done].
    injection Hsrc as <-. by apply wpx_ret.
  - injection Hsrc as <-. by apply wpx_ret.
Qed.

(** X16.  Inserting into, or appending to, a BINARY! over a series that is
    not flagged as string a character or an integer that is a byte, [dups]
    times and without /PART, puts the duplicates (each followed by a line
    feed under /LINE) between the bytes before the target offset and the
    bytes from it on; the offset is the index given, or the tail for an
    append and for an index past the tail.  It returns 0 for an append and
    the offset after the last byte written otherwise. *)
Theorem Modify_String_Or_Binary_binary_insert
    EMPTY_TEXT Mold_Or_Form_Value Form_Value Join_Binary_In_Byte_Buf
    sizeof_REBVAL memory_past memory_gap p idx sym src flags part dups s ds src_mem :
  series s !! p = Some ds →
  IS_SER_STRING ds = false → read_only ds = false →
  is_change sym = false → flag_set flags AM_PART = false →
  source_bytes src = Some src_mem → 0 < dups → 0 ≤ idx →
  let used := Z.of_nat (length (ser_bytes ds)) in
  let off := if is_append sym || Z.ltb used idx then used else idx in
  ∃ s' ds',
    Modify_String_Or_Binary EMPTY_TEXT Mold_Or_Form_Value Form_Value
        Join_Binary_In_Byte_Buf sizeof_REBVAL memory_past memory_gap (Binary p idx) sym src flags
        part dups s
      = Done (if is_append sym then 0
              else off + Z.of_nat (length (dup_bytes flags src_mem)) * dups)
             s' ∧
    series s' !! p = Some ds' ∧
    ser_bytes ds'
      = take (Z.to_nat off) (ser_bytes ds)
        ++ concat (replicate (Z.to_nat dups) (dup_bytes flags src_mem))
        ++ drop (Z.to_nat off) (ser_bytes ds).
Proof.
  intros Hds Hstr Hro Hsym Hpart Hsrc Hdups Hidx used off.
  assert (0 ≤ off ≤ used) as Hoff.
  { unfold off, used. destruct (is_append sym); cbn [orb]; [lia|].
    destruct (Z.ltb_spec (Z.of_nat (length (ser_bytes ds))) idx); lia. }
  assert (text_holds p (ser_bytes ds) (misc_length ds) s) as Hh
    by (by exists ds).
  set (unit := dup_bytes flags src_mem).
  set (total := Z.of_nat (length unit) * dups).
  assert (0 ≤ total) by (unfold total; nia).
  cut (wpx (Modify_String_Or_Binary EMPTY_TEXT Mold_Or_Form_Value Form_Value
              Join_Binary_In_Byte_Buf sizeof_REBVAL memory_past memory_gap (Binary p idx) sym src
              flags part dups) s
         (fun r s' =>
            r = (if is_append sym then 0 else off + total) ∧
            text_holds p
              (take (Z.to_nat off) (ser_bytes ds)
               ++ concat (replicate (Z.to_nat dups) unit)
               ++ drop (Z.to_nat off) (ser_bytes ds))
              (misc_length ds) s') no_fail).
  { intros Hw.
    apply wpx_done in Hw as (r & s' & Hcall & -> & ds' & Hds' & Hb' & _).
    by exists s', ds'. }
  assert (IS_NULLED src = false) as Hnull by (by destruct src).
  unfold Modify_String_Or_Binary. cbn [VAL_SERIES VAL_INDEX IS_BINARY].
  apply wpx_bind, wpx_ret.
  apply wpx_bind. eapply wpx_BIN; [exact Hds|].
  rewrite Hro, Hstr.
  apply wpx_bind, wpx_ret. apply wpx_bind, wpx_ret.
  apply wpx_bind. apply wpx_bind, wpx_ret. apply wpx_ret.
  cbv beta iota. rewrite Hnull. cbn [andb]. cbv beta iota.
  rewrite Hsym, Hpart. cbn [negb andb].
  apply wpx_bind, wpx_ret. cbn [Z.eqb orb].
  destruct (Z.leb_spec dups 0); [lia|].
  fold used.
  assert ((if is_append sym || Z.ltb used idx then (used, used)
           else (idx, idx)) = (off, off)) as ->
    by (unfold off; by destruct (is_append sym || Z.ltb used idx)).
  cbv beta iota.
  apply wpx_bind.
  eapply source_bytes_run; [exact Hsrc|exact Hstr|].
  cbv beta iota. cbn [Z.leb Z.compare].
  assert ((if flag_set flags AM_LINE
           then ((Z.of_nat (length src_mem) + 1) * dups,
                 (Z.of_nat (length src_mem) + 1) * dups)
           else (Z.of_nat (length src_mem) * dups,
                 Z.of_nat (length src_mem) * dups)) = (total, total)) as ->.
  { unfold total, unit. rewrite dup_bytes_length.
    destruct (flag_set flags AM_LINE); by rewrite ?Z.add_0_r. }
  cbv beta iota.
  assert (is_append sym || is_insert sym = true) as ->
    by (by destruct sym).
  apply wpx_bind. apply wpx_bind.
  eapply wpx_text_Expand_Series; [exact Hh|done|exact Hoff|].
  intros gap s1 Hgap H1. apply wpx_bind.
  eapply wpx_text_SET_SERIES_USED;
    [exact H1|rewrite open_gap_length by done; lia|].
  intros s2 H2. apply wpx_ret.
  apply wpx_bind.
  eapply wpx_mono;
    [eapply (Modify_String_Or_Binary_copies memory_past p src_mem flags
               (Z.to_nat dups) off); [exact H2|lia|]| |done].
  { rewrite open_gap_length by done. fold unit. unfold total, used in *.
    nia. }
  cbv beta. intros r s3 [-> H3].
  apply wpx_bind, wpx_ret. apply wpx_ret.
  split; [done|].
  fold unit in H3.
  replace off with (Z.of_nat (Z.to_nat off)) in H3 at 2 by lia.
  rewrite spliced_open_gap in H3;
    [exact H3
    |rewrite concat_replicate_length, Hgap; unfold total; nia
    |unfold used in *; lia].
Qed.

Lemma Modify_String_Or_Binary_binary_insert_witness :
  ∃ s' ds',
    Modify_String_Or_Binary' (Binary 4 1) SYM_INSERT (Integer 255) AM_LINE 0
        2 st_frozen
      = Done 5 s' ∧
    series s' !! 4%positive = Some ds' ∧
    ser_bytes ds' = [1; 255; 10; 255; 10; 2; 3].
Proof.
  apply (Modify_String_Or_Binary_binary_insert
           EMPTY_TEXT mold_any form_any mold_any 32 zero_past zero_gap 4%positive 1 SYM_INSERT
           (Integer 255) AM_LINE 0 2 st_frozen
           (mkBin [1; 2; 3] false 0 None false) [255]).
  - reflexivity.
  - reflexivity.
  - reflexivity.
  - reflexivity.
  - reflexivity.
  - reflexivity.
  - lia.
  - lia.
Defined.

Lemma dup_encodings_bytes flags encoded n :
  concat (concat (replicate n (dup_encodings flags encoded)))
    = concat (replicate n (dup_bytes flags encoded)).
Proof.
  induction n as [|n IH]; [done|].
  cbn [replicate concat]. rewrite concat_app, IH. f_equal.
  unfold dup_encodings, dup_bytes.
  destruct (flag_set flags AM_LINE); cbn [concat]; by rewrite ?app_nil_r.
Qed.

Lemma dup_encodings_length flags encoded n :
  Z.of_nat (length (concat (replicate n (dup_encodings flags encoded))))
    = (if flag_set flags AM_LINE then 2 else 1) * Z.of_nat n.
Proof.
  rewrite concat_replicate_length. unfold dup_encodings.
  destruct (flag_set flags AM_LINE); cbn [length]; lia.
Qed.

Lemma dup_encodings_Forall flags encoded n :
  encoding encoded →
  Forall encoding (concat (replicate n (dup_encodings flags encoded))).
Proof.
  intros He. induction n as [|n IH]; [constructor|].
  cbn [replicate concat]. apply Forall_app. split; [|exact IH].
  unfold dup_encodings. constructor; [done|].
  destruct (flag_set flags AM_LINE); repeat constructor.
Qed.

Lemma wlx_marked_write {E} p i (guard : REBSER → bool)
    (f : REBSER → REBSER) s :
  marked p i s →
  (∀ v, fst <$> bookmarks v = i → fst <$> bookmarks (f v) = i) →
  wlx (v ← BIN p; if guard v then panic else BIN_store p (f v)) s
      (fun _ s' => marked p i s') E.
Proof.
  intros (v & Hv & Hb) Hf. unfold wlx, mbind, Mon_bind, BIN. rewrite Hv.
  destruct (guard v); [done|]. cbn. exists (f v).
  split; [cbn; by rewrite lookup_insert_eq|]. by apply Hf.
Qed.

Lemma wlx_marked_memcpy {E} p i off src_mem n s :
  marked p i s →
  wlx (memcpy p off src_mem n) s (fun _ s' => marked p i s') E.
Proof.
  intros Hm.
  by apply (wlx_marked_write p i
              (fun v => Z.ltb n 0 || Z.ltb off 0
                        || Z.ltb (Z.of_nat (length (ser_bytes v))) (off + n))
              (fun v => mkBin (overwrite off (take (Z.to_nat n) src_mem)
                                 (ser_bytes v))
                              (IS_SER_STRING v) (misc_length v) (bookmarks v)
                              (read_only v))).
Qed.

(** Following [src_ptr] reads and no more. *)
Lemma wlx_src_bytes {E} memory_past src_ptr n s
    (Q : list Z → State → Prop) :
  (∀ l, Q l s) → wlx (src_bytes memory_past src_ptr n) s Q E.
Proof.
  intros HQ. unfold wlx, src_bytes, mbind, Mon_bind.
  destruct src_ptr as [bytes|ser offset]; cbn; [apply HQ|].
  unfold BIN. destruct (series s !! ser); [|done].
  destruct (Z.ltb offset 0); [done|]. apply HQ.
Qed.

Lemma wlx_marked_Expand_Series {E} memory_gap p i index delta s :
  marked p i s →
  wlx (Expand_Series memory_gap p index delta) s
      (fun _ s' => marked p i s') E.
Proof.
  intros Hm. unfold Expand_Series. apply wlx_bind.
  unfold wlx at 1. cbv beta.
  by apply (wlx_marked_write p i
              (fun v => Z.ltb delta 0 || Z.ltb index 0
                        || Z.ltb (Z.of_nat (length (ser_bytes v))) index)
              (fun v => set_bytes
                          (open_gap (map (memory_gap s p index)
                                         (seq 0 (Z.to_nat delta)))
                                    index (ser_bytes v)) v)).
Qed.

Lemma wlx_marked_SET_SERIES_USED {E} p i n s :
  marked p i s →
  wlx (SET_SERIES_USED p n) s (fun _ s' => marked p i s') E.
Proof.
  intros Hm.
  by apply (wlx_marked_write p i (fun _ => Z.ltb n 0)
              (fun v => set_bytes
                          (take (Z.to_nat n)
                             (ser_bytes v
                              ++ replicate
                                   (Z.to_nat n - length (ser_bytes v)) 0))
                          v)).
Qed.

Lemma wlx_marked_modify {E} p i f s :
  marked p i s →
  (∀ v, fst <$> bookmarks v = i → fst <$> bookmarks (f v) = i) →
  wlx (BIN_modify p f) s (fun _ s' => marked p i s') E.
Proof.
  intros Hm Hf.
  by apply (wlx_marked_write p i (fun _ => false) f).
Qed.

Lemma wlx_marked_copies {E} memory_past p i src_mem flags dups off s :
  marked p i s →
  wlx (for_fold 0 dups (fun (_ : nat) dst_ptr =>
         read ← src_bytes memory_past (PtrOwn src_mem)
                  (Z.of_nat (length src_mem));
         memcpy p dst_ptr read (Z.of_nat (length src_mem));;
         if flag_set flags AM_LINE then
           memcpy p (dst_ptr + Z.of_nat (length src_mem)) [10] 1;;
           mret (dst_ptr + Z.of_nat (length src_mem) + 1)
         else mret (dst_ptr + Z.of_nat (length src_mem))) off) s
    (fun _ s' => marked p i s') E.
Proof.
  intros Hm.
  apply (wlx_for_fold _ (fun (_ : nat) (_ : Z) s' => marked p i s'));
    [exact Hm|].
  intros j a1 s1 _ H1. apply wlx_bind. apply wlx_src_bytes. intros read.
  apply wlx_bind.
  eapply wlx_mono; [by apply wlx_marked_memcpy| |done].
  cbv beta. intros _ s2 H2.
  destruct (flag_set flags AM_LINE); [|by apply wlx_ret].
  apply wlx_bind.
  eapply wlx_mono; [by apply wlx_marked_memcpy| |done].
  cbv beta. intros _ s3 H3. by apply wlx_ret.
Qed.

(** X17.  Inserting a character into a text at the index of a codepoint
    (or appending it to a text indexed at its tail), [dups] times and
    without /PART, puts the encodings of the duplicates (each followed by a
    line feed under /LINE) between the encodings before the index and those
    from it on: the bytes are again a chain of whole encodings, and the
    length in codepoints is again their count.  The bookmark, if the text
    has one, lies within the text.  The call returns 0 for an append and the
    index after the last codepoint written otherwise. *)
Theorem Modify_String_Or_Binary_text_insert
    EMPTY_TEXT Mold_Or_Form_Value Form_Value Join_Binary_In_Byte_Buf
    sizeof_REBVAL memory_past memory_gap k p sym encoded flags part dups pre post s ds :
  series s !! p = Some ds →
  IS_SER_STRING ds = true → read_only ds = false →
  Forall encoding pre → Forall encoding post → encoding encoded →
  ser_bytes ds = concat pre ++ concat post →
  misc_length ds = Z.of_nat (length pre + length post) →
  match bookmarks ds with
  | Some (bmk_index, _) => bmk_index ≤ misc_length ds
  | None => True
  end →
  is_change sym = false → (is_append sym = true → post = []) →
  flag_set flags AM_PART = false → 0 < dups →
  let inserted :=
    concat (replicate (Z.to_nat dups) (dup_encodings flags encoded)) in
  ∃ s' ds',
    Modify_String_Or_Binary EMPTY_TEXT Mold_Or_Form_Value Form_Value
        Join_Binary_In_Byte_Buf sizeof_REBVAL memory_past memory_gap
        (AnyString k p (Z.of_nat (length pre))) sym (Char encoded) flags
        part dups s
      = Done (if is_append sym then 0
              else Z.of_nat (length pre) + Z.of_nat (length inserted)) s' ∧
    series s' !! p = Some ds' ∧
    ser_bytes ds' = concat (pre ++ inserted ++ post) ∧
    Forall encoding (pre ++ inserted ++ post) ∧
    misc_length ds' = Z.of_nat (length (pre ++ inserted ++ post)).
Proof.
  intros Hds Hstr Hro Hpre Hpost Henc Hbytes Hlen Hbmk Hsym Happ Hpart Hdups
    inserted.
  set (off := Z.of_nat (length (concat pre))).
  set (piece := dup_bytes flags encoded).
  set (total := Z.of_nat (length piece) * dups).
  set (ltotal := (if flag_set flags AM_LINE then 2 else 1) * dups).
  set (mark := fst <$> bookmarks ds).
  assert (0 ≤ total) by (unfold total; nia).
  assert (0 ≤ ltotal)
    by (unfold ltotal; destruct (flag_set flags AM_LINE); lia).
  assert (skip_codepoints (Z.to_nat (Z.of_nat (length pre))) (ser_bytes ds)
          = Some off) as Hoff.
  { rewrite Nat2Z.id, Hbytes. by apply skip_codepoints_chain. }
  assert (text_holds p (ser_bytes ds) (misc_length ds) s) as Hh
    by (by exists ds).
  assert (marked p mark s) as Hm by (by exists ds).
  cut (wpx (Modify_String_Or_Binary EMPTY_TEXT Mold_Or_Form_Value Form_Value
              Join_Binary_In_Byte_Buf sizeof_REBVAL memory_past memory_gap
              (AnyString k p (Z.of_nat (length pre))) sym (Char encoded)
              flags part dups) s
         (fun r s' =>
            r = (if is_append sym then 0
                 else Z.of_nat (length pre) + ltotal) ∧
            text_holds p
              (concat pre ++ concat (replicate (Z.to_nat dups) piece)
               ++ concat post)
              (misc_length ds + ltotal) s') no_fail).
  { intros Hw.
    apply wpx_done in Hw as (r & s' & Hcall & -> & ds' & Hds' & Hb' & Hl').
    assert (Z.of_nat (length inserted) = ltotal) as Hil.
    { unfold inserted, ltotal. rewrite dup_encodings_length. lia. }
    exists s', ds'. rewrite Hil. split; [exact Hcall|]. split; [exact Hds'|].
    split.
    { rewrite Hb', !concat_app. unfold inserted, piece.
      by rewrite dup_encodings_bytes. }
    split.
    { apply Forall_app. split; [done|]. apply Forall_app. split; [|done].
      by apply dup_encodings_Forall. }
    rewrite Hl', Hlen, !length_app. lia. }
  unfold Modify_String_Or_Binary. cbn [VAL_SERIES VAL_INDEX IS_BINARY].
  apply wpx_bind, wpx_ret.
  apply wpx_bind. eapply wpx_BIN; [exact Hds|].
  rewrite Hro, Hstr.
  apply wpx_bind, wpx_ret. apply wpx_bind, wpx_ret.
  apply wpx_bind. apply wpx_bind. wp_assert. apply wpx_bind. wp_assert.
  apply wpx_bind. unfold VAL_OFFSET_FOR_INDEX at 1.
  destruct (Z.ltb_spec (Z.of_nat (length pre)) 0); [lia|].
  rewrite Hoff. apply wpx_ret. apply wpx_ret. cbv beta iota.
  cbn [IS_NULLED andb]. cbv beta iota.
  rewrite Hsym, Hpart. cbn [negb andb].
  apply wpx_bind, wpx_ret. cbn [Z.eqb orb].
  destruct (Z.leb_spec dups 0); [lia|].
  assert ((if is_append sym
              || Z.ltb (misc_length ds) (Z.of_nat (length pre))
           then (Z.of_nat (length (ser_bytes ds)), misc_length ds)
           else (off, Z.of_nat (length pre)))
          = (off, Z.of_nat (length pre))) as ->.
  { destruct (is_append sym) eqn:Ha; cbn [orb].
    - rewrite (Happ eq_refl) in *. cbn [concat length] in *.
      rewrite app_nil_r in Hbytes. rewrite Hbytes, Hlen. unfold off.
      f_equal. lia.
    - by destruct (Z.ltb_spec (misc_length ds) (Z.of_nat (length pre)));
        [lia|]. }
  cbv beta iota.
  apply wpx_bind. unfold Modify_source. apply wpx_bind, wpx_get_m.
  rewrite Hstr. apply wpx_ret. cbv beta iota zeta. cbn [Z.leb Z.compare].
  assert ((if flag_set flags AM_LINE
           then ((Z.of_nat (length encoded) + 1) * dups, (1 + 1) * dups)
           else (Z.of_nat (length encoded) * dups, 1 * dups))
          = (total, ltotal)) as ->.
  { unfold total, ltotal, piece. rewrite dup_bytes_length.
    destruct (flag_set flags AM_LINE); by rewrite ?Z.add_0_r. }
  cbv beta iota.
  assert (is_append sym || is_insert sym = true) as ->
    by (by destruct sym).
  assert (0 ≤ off ≤ Z.of_nat (length (ser_bytes ds))) as Hoffb
    by (rewrite Hbytes, length_app; unfold off; lia).
  apply wpx_bind. apply wpx_bind.
  eapply wpx_mono;
    [eapply (wpx_also _ _
              (fun _ s' =>
                 ∃ gap, length gap = Z.to_nat total ∧
                        text_holds p (open_gap gap off (ser_bytes ds))
                                   (misc_length ds) s')
              (fun _ s' => marked p mark s'));
       [eapply wpx_text_Expand_Series;
          [exact Hh|done|exact Hoffb|intros gap s' Hg Hs'; by exists gap]
       |by apply wlx_marked_Expand_Series]
    | |done].
  cbv beta. intros _ s1 [(gap & Hgap & Ht1) Hm1]. apply wpx_bind.
  eapply wpx_mono;
    [eapply (wpx_also _ _
              (fun _ s' => text_holds p (open_gap gap off (ser_bytes ds))
                                      (misc_length ds) s')
              (fun _ s' => marked p mark s'));
       [eapply wpx_text_SET_SERIES_USED;
          [exact Ht1|rewrite open_gap_length by done; lia
          |intros s' Hs'; exact Hs']
       |by apply wlx_marked_SET_SERIES_USED]
    | |done].
  cbv beta. intros _ s2 [Ht2 Hm2]. apply wpx_bind.
  wp_post (fun (_ : unit) s' =>
             text_holds p (open_gap gap off (ser_bytes ds))
                        (misc_length ds) s' ∧ marked p mark s').
  { destruct (bookmarks ds) as [[bi bo]|] eqn:Hbds; [|by apply wpx_ret].
    destruct (Z.leb (Z.of_nat (length pre)) bi); [|by apply wpx_ret].
    eapply wpx_also.
    - eapply wpx_text_modify; [exact Ht2|by intros|by intros].
    - apply wlx_marked_modify; [exact Hm2|]. intros v _.
      unfold mark. by rewrite ?Hbds. }
  cbv beta. intros _ s3 [Ht3 Hm3].
  eapply wpx_mono;
    [eapply (wpx_also _ _
              (fun _ s' => text_holds p (open_gap gap off (ser_bytes ds))
                                      (misc_length ds + ltotal) s')
              (fun _ s' => marked p mark s'));
       [eapply wpx_text_modify;
          [exact Ht3|intros v Hv _; split; [exact Hv|cbn; reflexivity]
          |intros s' Hs'; exact Hs']
       |by apply wlx_marked_modify]
    | |done].
  cbv beta. intros _ s4 [Ht4 Hm4].
  apply wpx_bind.
  eapply wpx_mono;
    [eapply wpx_also;
       [eapply (Modify_String_Or_Binary_copies memory_past p encoded flags
                  (Z.to_nat dups) off); [exact Ht4|lia|]
       |by apply (wlx_marked_copies memory_past p mark)]
    | |done].
  { rewrite open_gap_length by done. fold piece. unfold total in *. nia. }
  cbv beta. intros r s5 [[-> Ht5] Hm5].
  fold piece in Ht5.
  unfold off in Ht5. rewrite Nat2Z.id in Ht5.
  rewrite spliced_open_gap in Ht5;
    [|rewrite concat_replicate_length, Hgap; unfold total; nia
     |rewrite Hbytes, length_app; lia].
  rewrite Hbytes, take_app_length, drop_app_length in Ht5.
  apply wpx_bind.
  wp_post (fun (_ : unit) s' =>
             text_holds p
               (concat pre ++ concat (replicate (Z.to_nat dups) piece)
                ++ concat post)
               (misc_length ds + ltotal) s').
  { destruct (bookmarks ds) as [[bi0 bo0]|] eqn:Hbds; [|by apply wpx_ret].
    destruct Hm5 as (v & Hv & Hbv). destruct Ht5 as (v' & Hv' & Hb' & Hl').
    rewrite Hv in Hv'. injection Hv' as <-.
    apply wpx_bind. eapply wpx_BIN; [exact Hv|].
    unfold mark in Hbv. cbn in Hbv.
    destruct (bookmarks v) as [[bi bo]|]; [|done].
    injection Hbv as ->.
    destruct (Z.ltb_spec (misc_length v) bi0); [lia|].
    assert (text_holds p (ser_bytes v) (misc_length v) s5) as Ht
      by (by exists v).
    rewrite Hb', Hl' in Ht.
    destruct (Z.ltb (misc_length v) sizeof_REBVAL); [|by apply wpx_ret].
    eapply wpx_text_modify; [exact Ht|by intros|by intros]. }
  cbv beta. intros _ s6 Ht6. apply wpx_ret. by split.
Qed.

Lemma Modify_String_Or_Binary_text_insert_witness :
  ∃ s' ds',
    Modify_String_Or_Binary' (AnyString REB_TEXT 7 1) SYM_INSERT
        (Char [195; 169]) AM_LINE 0 2 st_marked
      = Done 5 s' ∧
    series s' !! 7%positive = Some ds' ∧
    ser_bytes ds'
      = [240; 159; 152; 128; 195; 169; 10; 195; 169; 10; 97; 98; 99] ∧
    Forall encoding
      [[240; 159; 152; 128]; [195; 169]; [10]; [195; 169]; [10];
       [97]; [98]; [99]] ∧
    misc_length ds' = 8.
Proof.
  apply (Modify_String_Or_Binary_text_insert
           EMPTY_TEXT mold_any form_any mold_any 32 zero_past zero_gap REB_TEXT 7%positive
           SYM_INSERT [195; 169] AM_LINE 0 2
           [[240; 159; 152; 128]] [[97]; [98]; [99]] st_marked
           (mkBin [240; 159; 152; 128; 97; 98; 99] true 4 (Some (2, 5))
                  false)).
  - reflexivity.
  - reflexivity.
  - reflexivity.
  - repeat constructor.
  - repeat constructor.
  - reflexivity.
  - reflexivity.
  - reflexivity.
  - cbn. lia.
  - reflexivity.
  - intros H. discriminate H.
  - reflexivity.
  - lia.
Defined.

(** X27.  Inserting into, or appending to, a BINARY! over a series that is
    not flagged as string the bytes of another binary series from its index
    on, [dups] times: with /PART it is the first [part] of those bytes that
    are put in, which are to be there ([0 < part], no more than the source
    has), and without it all of them.  The duplicates (each followed by a
    line feed under /LINE) lie between the bytes before the target offset
    and the bytes from it on; the call returns 0 for an append and the
    offset after the last byte written otherwise. *)
Theorem Modify_String_Or_Binary_binary_part
    EMPTY_TEXT Mold_Or_Form_Value Form_Value Join_Binary_In_Byte_Buf
    sizeof_REBVAL memory_past memory_gap p idx sym bin offset flags part dups s ds sb :
  series s !! p = Some ds →
  IS_SER_STRING ds = false → read_only ds = false →
  series s !! bin = Some sb → bin ≠ p →
  0 ≤ offset ≤ Z.of_nat (length (ser_bytes sb)) →
  is_change sym = false → 0 < dups → 0 ≤ idx →
  let size := Z.of_nat (length (ser_bytes sb)) - offset in
  (flag_set flags AM_PART = true → 0 < part ≤ size) →
  let n := if flag_set flags AM_PART then part else size in
  let piece := take (Z.to_nat n) (drop (Z.to_nat offset) (ser_bytes sb)) in
  let used := Z.of_nat (length (ser_bytes ds)) in
  let off := if is_append sym || Z.ltb used idx then used else idx in
  ∃ s' ds',
    Modify_String_Or_Binary EMPTY_TEXT Mold_Or_Form_Value Form_Value
        Join_Binary_In_Byte_Buf sizeof_REBVAL memory_past memory_gap (Binary p idx) sym
        (Binary bin offset) flags part dups s
      = Done (if is_append sym then 0
              else off + Z.of_nat (length (dup_bytes flags piece)) * dups)
             s' ∧
    series s' !! p = Some ds' ∧
    ser_bytes ds'
      = take (Z.to_nat off) (ser_bytes ds)
        ++ concat (replicate (Z.to_nat dups) (dup_bytes flags piece))
        ++ drop (Z.to_nat off) (ser_bytes ds).
Proof.
  intros Hds Hstr Hro Hsb Hne Hoffset Hsym Hdups Hidx size Hpart n piece
    used off.
  set (src_mem := drop (Z.to_nat offset) (ser_bytes sb)).
  assert (Z.of_nat (length src_mem) = size) as Hsize
    by (unfold src_mem, size; rewrite length_drop; lia).
  assert (0 ≤ n ≤ size) as Hn.
  { unfold n. destruct (flag_set flags AM_PART); [|lia].
    specialize (Hpart eq_refl). lia. }
  assert (Z.of_nat (length piece) = n) as Hpiece
    by (unfold piece; fold src_mem; rewrite length_take; lia).
  assert (0 ≤ off ≤ used) as Hoff.
  { unfold off, used. destruct (is_append sym); cbn [orb]; [lia|].
    destruct (Z.ltb_spec (Z.of_nat (length (ser_bytes ds))) idx); lia. }
  assert (text_holds p (ser_bytes ds) (misc_length ds) s) as Hh
    by (by exists ds).
  set (unit := dup_bytes flags piece).
  set (total := Z.of_nat (length unit) * dups).
  assert (0 ≤ total) by (unfold total; nia).
  cut (wpx (Modify_String_Or_Binary EMPTY_TEXT Mold_Or_Form_Value Form_Value
              Join_Binary_In_Byte_Buf sizeof_REBVAL memory_past memory_gap (Binary p idx) sym
              (Binary bin offset) flags part dups) s
         (fun r s' =>
            r = (if is_append sym then 0 else off + total) ∧
            text_holds p
              (take (Z.to_nat off) (ser_bytes ds)
               ++ concat (replicate (Z.to_nat dups) unit)
               ++ drop (Z.to_nat off) (ser_bytes ds))
              (misc_length ds) s') no_fail).
  { intros Hw.
    apply wpx_done in Hw as (r & s' & Hcall & -> & ds' & Hds' & Hb' & _).
    by exists s', ds'. }
  unfold Modify_String_Or_Binary. cbn [VAL_SERIES VAL_INDEX IS_BINARY].
  apply wpx_bind, wpx_ret.
  apply wpx_bind. eapply wpx_BIN; [exact Hds|].
  rewrite Hro, Hstr.
  apply wpx_bind, wpx_ret. apply wpx_bind, wpx_ret.
  apply wpx_bind. apply wpx_bind, wpx_ret. apply wpx_ret.
  cbv beta iota. cbn [IS_NULLED andb]. cbv beta iota.
  rewrite Hsym. cbn [negb andb].
  apply wpx_bind.
  wp_post (fun limit s' =>
             s' = s ∧ limit = (if flag_set flags AM_PART then part else -1)).
  { destruct (flag_set flags AM_PART).
    - specialize (Hpart eq_refl). apply wpx_bind.
      apply wpx_assert; [apply Z.leb_le; lia|]. by apply wpx_ret.
    - by apply wpx_ret. }
  cbv beta. intros limit s' [-> ->].
  assert (Z.eqb (if flag_set flags AM_PART then part else -1) 0 = false)
    as ->.
  { destruct (flag_set flags AM_PART); [|done].
    specialize (Hpart eq_refl). apply Z.eqb_neq. lia. }
  cbn [orb].
  destruct (Z.leb_spec dups 0); [lia|].
  fold used.
  assert ((if is_append sym || Z.ltb used idx then (used, used)
           else (idx, idx)) = (off, off)) as ->
    by (unfold off; by destruct (is_append sym || Z.ltb used idx)).
  cbv beta iota.
  apply wpx_bind. unfold Modify_source. apply wpx_bind, wpx_get_m.
  apply wpx_bind. eapply wpx_BIN; [exact Hsb|].
  rewrite Hstr. cbn [negb]. apply wpx_ret. cbv beta iota.
  fold src_mem. fold size.
  assert ((if Z.leb 0 (if flag_set flags AM_PART then part else -1)
           then (if flag_set flags AM_PART then part else -1,
                 if flag_set flags AM_PART then part else -1)
           else (size, size)) = (n, n)) as ->.
  { unfold n. destruct (flag_set flags AM_PART); [|done].
    specialize (Hpart eq_refl).
    destruct (Z.leb_spec 0 part); [done|lia]. }
  cbv beta iota.
  assert ((if flag_set flags AM_LINE
           then ((n + 1) * dups, (n + 1) * dups)
           else (n * dups, n * dups)) = (total, total)) as ->.
  { unfold total, unit. rewrite dup_bytes_length, Hpiece.
    destruct (flag_set flags AM_LINE); by rewrite ?Z.add_0_r. }
  cbv beta iota.
  assert (is_append sym || is_insert sym = true) as ->
    by (by destruct sym).
  apply wpx_bind. apply wpx_bind.
  wp_post (fun (_ : ()) s' =>
             (∃ gap, length gap = Z.to_nat total ∧
                     text_holds p (open_gap gap off (ser_bytes ds))
                                (misc_length ds) s') ∧
             series s' !! bin = Some sb).
  { unfold Expand_Series. apply wpx_bind, wpx_get_m.
    apply wpx_bind. eapply wpx_BIN; [exact Hds|].
    destruct (Z.ltb_spec total 0); [lia|].
    destruct (Z.ltb_spec off 0); [lia|].
    destruct (Z.ltb_spec (Z.of_nat (length (ser_bytes ds))) off);
      [unfold used in *; lia|].
    cbn [orb]. unfold wpx, BIN_store. split.
    - eexists. split; [by rewrite length_map, length_seq|].
      eexists. split; [cbn; by rewrite lookup_insert_eq|]. done.
    - cbn. by rewrite lookup_insert_ne. }
  cbv beta. intros _ s1 [(gap & Hgap & H1) Hsb1]. apply wpx_bind.
  wp_post (fun (_ : ()) s' =>
             text_holds p (open_gap gap off (ser_bytes ds))
                        (misc_length ds) s' ∧
             series s' !! bin = Some sb).
  { destruct H1 as (v1 & Hv1 & Hb1 & Hl1). unfold SET_SERIES_USED.
    apply wpx_bind. eapply wpx_BIN; [exact Hv1|].
    destruct (Z.ltb_spec (used + total) 0); [unfold used in *; lia|].
    unfold wpx, BIN_store. split.
    - eexists. split; [cbn; by rewrite lookup_insert_eq|].
      split; [|exact Hl1]. cbn [set_bytes ser_bytes]. rewrite Hb1.
      pose proof (open_gap_length gap off (ser_bytes ds) Hoff) as Hlen.
      replace (Z.to_nat (used + total)
               - length (open_gap gap off (ser_bytes ds)))%nat
        with 0%nat by (unfold used in *; lia).
      cbn [replicate]. rewrite app_nil_r. apply firstn_all2.
      unfold used in *. lia.
    - cbn. by rewrite lookup_insert_ne. }
  cbv beta. intros _ s2 [H2 Hsb2]. apply wpx_ret.
  apply wpx_bind.
  eapply wpx_mono;
    [eapply (Modify_String_Or_Binary_copies_from
               (src_bytes memory_past (PtrSeries bin offset) n)
               (fun sx => series sx !! bin = Some sb) p piece n flags
               (Z.to_nat dups) off);
       [exact H2|exact Hsb2| | |by rewrite Hpiece|lia|]
    | |done].
  { intros sx v Hx. cbn. by rewrite lookup_insert_ne. }
  { intros sx Hx. apply (src_bytes_series memory_past bin offset n sb sx Hx);
      lia. }
  { rewrite open_gap_length by done. fold unit. unfold total, used in *.
    nia. }
  cbv beta. intros r s3 (-> & H3 & _).
  apply wpx_bind, wpx_ret. apply wpx_ret.
  split; [done|].
  fold unit in H3.
  replace off with (Z.of_nat (Z.to_nat off)) in H3 at 2 by lia.
  rewrite spliced_open_gap in H3;
    [exact H3
    |rewrite concat_replicate_length, Hgap; unfold total; nia
    |unfold used in *; lia].
Qed.

Lemma Modify_String_Or_Binary_binary_part_witness :
  ∃ s' ds',
    Modify_String_Or_Binary' (Binary 4 3) SYM_APPEND (Binary 3 0) AM_PART 1
        2 st_frozen
      = Done 0 s' ∧
    series s' !! 4%positive = Some ds' ∧
    ser_bytes ds' = [1; 2; 3; 104; 104].
Proof.
  apply (Modify_String_Or_Binary_binary_part
           EMPTY_TEXT mold_any form_any mold_any 32 zero_past zero_gap 4%positive 3 SYM_APPEND
           3%positive 0 AM_PART 1 2 st_frozen
           (mkBin [1; 2; 3] false 0 None false)
           (mkBin [104; 105] true 2 None true)).
  - reflexivity.
  - reflexivity.
  - reflexivity.
  - reflexivity.
  - done.
  - cbn. lia.
  - reflexivity.
  - lia.
  - lia.
  - intros _. cbn. lia.
Defined.

Lemma spliced_resized {A} (gap : list A) o q (X L : list A) :
  (o ≤ length L)%nat → (length gap ≤ length X)%nat →
  spliced o X (take o L ++ gap ++ drop (o + q) L)
    = take o L ++ X ++ drop (o + q + (length X - length gap)) L.
Proof.
  intros Ho He. unfold spliced.
  rewrite take_app_length' by (rewrite length_take; lia).
  do 2 f_equal.
  rewrite (app_assoc (take o L)).
  rewrite drop_app_ge by (rewrite length_app, length_take; lia).
  rewrite length_app, length_take, drop_drop.
  f_equal. lia.
Qed.

(** X28.  A CHANGE of a BINARY! over a series that is not flagged as string
    to a character or to an integer that is a byte, [dups] times, writes the
    duplicates (each followed by a line feed under /LINE) at the target
    offset over the bytes it replaces: with /PART, [part] bytes, without it
    as many as are written, and in either case no more than lie from the
    offset on.  What was before the offset and after the bytes replaced
    stays; the call returns the offset after the last byte written. *)
Theorem Modify_String_Or_Binary_binary_change
    EMPTY_TEXT Mold_Or_Form_Value Form_Value Join_Binary_In_Byte_Buf
    sizeof_REBVAL memory_past memory_gap p idx src flags part dups s ds src_mem :
  series s !! p = Some ds →
  IS_SER_STRING ds = false → read_only ds = false →
  source_bytes src = Some src_mem → 0 < dups → 0 ≤ idx →
  let piece := dup_bytes flags src_mem in
  let total := Z.of_nat (length piece) * dups in
  total < 2 ^ 32 →
  (flag_set flags AM_PART = true → 0 ≤ part < 2 ^ 32) →
  let used := Z.of_nat (length (ser_bytes ds)) in
  let off := if Z.ltb used idx then used else idx in
  let asked := if flag_set flags AM_PART then part else total in
  let replaced := if Z.ltb (used - off) asked then used - off else asked in
  ∃ s' ds',
    Modify_String_Or_Binary EMPTY_TEXT Mold_Or_Form_Value Form_Value
        Join_Binary_In_Byte_Buf sizeof_REBVAL memory_past memory_gap (Binary p idx) SYM_CHANGE src
        flags part dups s
      = Done (off + total) s' ∧
    series s' !! p = Some ds' ∧
    ser_bytes ds'
      = take (Z.to_nat off) (ser_bytes ds)
        ++ concat (replicate (Z.to_nat dups) piece)
        ++ drop (Z.to_nat (off + replaced)) (ser_bytes ds).
Proof.
  intros Hds Hstr Hro Hsrc Hdups Hidx piece total Htotal Hpart used off
    asked replaced.
  assert (0 ≤ off ≤ used) as Hoff.
  { unfold off, used.
    destruct (Z.ltb_spec (Z.of_nat (length (ser_bytes ds))) idx); lia. }
  assert (0 ≤ total) as Htotal0 by (unfold total; nia).
  assert (0 ≤ asked < 2 ^ 32) as Hasked.
  { unfold asked. destruct (flag_set flags AM_PART); [by apply Hpart|lia]. }
  assert (0 ≤ replaced ≤ used - off) as Hrep.
  { unfold replaced. destruct (Z.ltb_spec (used - off) asked); lia. }
  assert (text_holds p (ser_bytes ds) (misc_length ds) s) as Hh
    by (by exists ds).
  set (X := concat (replicate (Z.to_nat dups) piece)).
  assert (Z.of_nat (length X) = total) as HX
    by (unfold X; rewrite concat_replicate_length; unfold total; nia).
  cut (wpx (Modify_String_Or_Binary EMPTY_TEXT Mold_Or_Form_Value Form_Value
              Join_Binary_In_Byte_Buf sizeof_REBVAL memory_past memory_gap (Binary p idx) SYM_CHANGE
              src flags part dups) s
         (fun r s' =>
            r = off + total ∧
            text_holds p
              (take (Z.to_nat off) (ser_bytes ds) ++ X
               ++ drop (Z.to_nat (off + replaced)) (ser_bytes ds))
              (misc_length ds) s') no_fail).
  { intros Hw.
    apply wpx_done in Hw as (r & s' & Hcall & -> & ds' & Hds' & Hb' & _).
    by exists s', ds'. }
  assert (IS_NULLED src = false) as Hnull by (by destruct src).
  unfold Modify_String_Or_Binary. cbn [VAL_SERIES VAL_INDEX IS_BINARY].
  apply wpx_bind, wpx_ret.
  apply wpx_bind. eapply wpx_BIN; [exact Hds|].
  rewrite Hro, Hstr.
  apply wpx_bind, wpx_ret. apply wpx_bind, wpx_ret.
  apply wpx_bind. apply wpx_bind, wpx_ret. apply wpx_ret.
  cbv beta iota. rewrite Hnull. cbn [andb]. cbv beta iota.
  cbn [is_change is_append is_insert negb andb orb].
  apply wpx_bind, wpx_ret. cbn [Z.eqb orb].
  destruct (Z.leb_spec dups 0); [lia|].
  fold used.
  assert ((if Z.ltb used idx then (used, used) else (idx, idx)) = (off, off))
    as -> by (unfold off; by destruct (Z.ltb used idx)).
  cbv beta iota.
  apply wpx_bind.
  eapply source_bytes_run; [exact Hsrc|exact Hstr|].
  cbv beta iota. cbn [Z.leb Z.compare].
  assert ((if flag_set flags AM_LINE
           then ((Z.of_nat (length src_mem) + 1) * dups,
                 (Z.of_nat (length src_mem) + 1) * dups)
           else (Z.of_nat (length src_mem) * dups,
                 Z.of_nat (length src_mem) * dups)) = (total, total)) as ->.
  { unfold total, piece. rewrite dup_bytes_length.
    destruct (flag_set flags AM_LINE); by rewrite ?Z.add_0_r. }
  cbv beta iota.
  assert ((if negb (flag_set flags AM_PART) then total else part) = asked)
    as -> by (unfold asked; by destruct (flag_set flags AM_PART)).
  apply wpx_bind. apply wpx_bind.
  apply wpx_bind, wpx_ret. apply wpx_ret. cbv beta iota.
  assert ((if Z.leb used idx then 0 else used - idx) = used - off) as ->.
  { unfold off. destruct (Z.leb_spec used idx), (Z.ltb_spec used idx); lia. }
  apply wpx_bind.
  wp_post (fun (r : Z * Z) s' => s' = s ∧ r = (replaced, replaced)).
  { unfold u32. rewrite Z.mod_small by lia. fold replaced.
    unfold replaced. destruct (Z.ltb (used - off) asked); by apply wpx_ret. }
  cbv beta. intros r s' [-> ->]. cbv beta iota.
  apply wpx_bind.
  wp_post (fun (_ : unit) s' =>
             ∃ gap, length gap = Z.to_nat (total - replaced) ∧
               text_holds p
                 (take (Z.to_nat off) (ser_bytes ds) ++ gap
                  ++ drop (Z.to_nat off + Z.to_nat (replaced - total))%nat
                          (ser_bytes ds))
                 (misc_length ds) s').
  { destruct (Z.ltb_spec replaced total) as [Hlt|Hge].
    - apply wpx_bind.
      eapply wpx_text_Expand_Series; [exact Hh|lia|exact Hoff|].
      intros gap s1 Hgap H1.
      eapply wpx_text_SET_SERIES_USED;
        [exact H1|rewrite open_gap_length by lia; unfold used; lia|].
      intros s2 H2. unfold open_gap in H2. exists gap. split; [done|].
      replace (Z.to_nat off + Z.to_nat (replaced - total))%nat
        with (Z.to_nat off) by lia.
      exact H2.
    - destruct (Z.ltb_spec total replaced) as [Hlt|Hge'].
      + apply wpx_bind.
        eapply wpx_text_Remove_Series_Units; [exact Hh|lia|lia|].
        intros s1 H1. unfold remove in H1.
        eapply wpx_text_SET_SERIES_USED; [exact H1| |].
        { rewrite length_app, length_take, length_drop. unfold used in *.
          lia. }
        intros s2 H2. exists []. split; [cbn; lia|]. exact H2.
      + apply wpx_ret. exists []. split; [cbn; lia|].
        replace (Z.to_nat off + Z.to_nat (replaced - total))%nat
          with (Z.to_nat off) by lia.
        cbn [app]. exists ds. by rewrite take_drop. }
  cbv beta. intros _ s1 (gap & Hgap & H1). apply wpx_ret.
  apply wpx_bind.
  eapply wpx_mono;
    [eapply (Modify_String_Or_Binary_copies memory_past p src_mem flags
               (Z.to_nat dups) off); [exact H1|lia|]| |done].
  { fold piece. rewrite !length_app, length_take, length_drop.
    unfold total, used in *. nia. }
  cbv beta. intros r s2 [-> H2].
  apply wpx_bind, wpx_ret. apply wpx_ret.
  split; [done|]. fold piece in H2. fold X in H2.
  rewrite spliced_resized in H2 by (unfold used in *; lia).
  replace (Z.to_nat off + Z.to_nat (replaced - total)
           + (length X - length gap))%nat
    with (Z.to_nat (off + replaced)) in H2 by lia.
  exact H2.
Qed.

Lemma Modify_String_Or_Binary_binary_change_witness :
  ∃ s' ds',
    Modify_String_Or_Binary' (Binary 4 1) SYM_CHANGE (Integer 255) AM_PART 2
        1 st_frozen
      = Done 2 s' ∧
    series s' !! 4%positive = Some ds' ∧
    ser_bytes ds' = [1; 255].
Proof.
  apply (Modify_String_Or_Binary_binary_change
           EMPTY_TEXT mold_any form_any mold_any 32 zero_past zero_gap 4%positive 1
           (Integer 255) AM_PART 2 1 st_frozen
           (mkBin [1; 2; 3] false 0 None false) [255]).
  - reflexivity.
  - reflexivity.
  - reflexivity.
  - reflexivity.
  - lia.
  - lia.
  - by vm_compute.
  - intros _. by vm_compute.
Defined.

End ModifyMore.

